(** * Sparse bitset with copy-on-write blocks: model of [src/bitset.c]

    The C library keeps a bitset as an array of block pointers.  A NULL
    pointer stands for a block of zeros; a non-NULL pointer designates a
    reference-counted block of [BLOCKSIZE] 64-bit words together with a
    cached count of its 1-bits.  Blocks are shared between bitsets by
    [bitset_dup] and [bitset_or] and are privatised before mutation.

    The embedding below is a state-and-error monad over an explicit
    memory: one store for [struct bitset] objects, one for
    [struct bitset_block] objects, and an allocation oracle that decides
    which calls to [malloc] fail.  A run ends with a value and a new
    memory, with a failed [assert], or with undefined behaviour (a NULL or
    dangling dereference, an index outside an array). *)

From Stdlib Require Import ZArith Lia Bool List.
From stdpp Require Import base list.
Import ListNotations.

Local Open Scope Z_scope.

(** ** 64-bit words *)

Module Word.

(** A word is the bit pattern of one [int64_t] element of [ints], read
    as a number in [0, 2^64). *)
Definition mask : Z := Z.ones 64.

Definition wrap (z : Z) : Z := Z.land z mask.

(** [~w] *)
Definition not (w : Z) : Z := wrap (Z.lnot w).

(** [1ull << b], for a shift count in [0, 64) *)
Definition bit (b : Z) : Z := Z.shiftl 1 b.

(** [memset(.., -1, ..)] fills every word with this pattern. *)
Definition all_ones : Z := mask.

Fixpoint popcount_upto (n : nat) (w : Z) : Z :=
  match n with
  | O => 0
  | S k => popcount_upto k w + (if Z.testbit w (Z.of_nat k) then 1 else 0)
  end.

(** [__builtin_popcountll] *)
Definition popcountll (w : Z) : Z := popcount_upto 64 w.

Definition in_range (w : Z) : Prop := 0 <= w < 2 ^ 64.

Definition in_rangeb (w : Z) : bool := (0 <=? w) && (w <? 2 ^ 64).

End Word.

(** ** Memory *)

(** An address is the index of a cell of its store. *)
Abbreviation ptr := nat.

(** A C pointer: [None] is NULL. *)
Abbreviation pointer := (option nat).

Inductive status := OK | ERRINPUT | ERRMEM.

Definition status_eqb (a b : status) : bool :=
  match a, b with
  | OK, OK | ERRINPUT, ERRINPUT | ERRMEM, ERRMEM => true
  | _, _ => false
  end.

(** [struct bitset_block] *)
Record bitset_block := mk_block {
  ref_count : Z;
  set_count : Z;
  ints : list Z
}.

(** [struct bitset]; [blocks = None] is a NULL [blocks] pointer, which
    exists only between a failed array allocation and [bitset_free]. *)
Record bitset := mk_bitset {
  bitcount : Z;
  block_count : Z;
  blocks : option (list pointer)
}.

(** A freed cell is [None]; addresses are never reused. *)
Record world := mk_world {
  bsets : list (option bitset);
  blks : list (option bitset_block);
  oracle : list bool
}.

Definition empty_world (o : list bool) : world := mk_world [] [] o.

Inductive outcome (A : Type) :=
| Ret (a : A) (w : world)
| Abort
| Undef.
Arguments Ret {A} a w.
Arguments Abort {A}.
Arguments Undef {A}.

Definition M (A : Type) : Type := world -> outcome A.

Definition ret {A} (a : A) : M A := fun w => Ret a w.

Definition bind {A B} (m : M A) (k : A -> M B) : M B :=
  fun w => match m w with
           | Ret a w' => k a w'
           | Abort => Abort
           | Undef => Undef
           end.

Notation "'let*' x ':=' m 'in' k" := (bind m (fun x => k))
  (at level 10, x name, m at level 100, k at level 200).
Notation "m ;;; k" := (bind m (fun _ => k))
  (at level 100, k at level 200, right associativity).

Definition undef {A} : M A := fun _ => Undef.
Definition abort {A} : M A := fun _ => Abort.

(** [PTRDIFF_MAX] on the LP64 targets the code is written for. *)
Definition PTRDIFF_MAX : Z := 2 ^ 63 - 1.

(** [size_t] arithmetic wraps modulo 2^64. *)
Definition size_t (z : Z) : Z := z mod 2 ^ 64.

(** The elementary changes of a memory. *)
Definition w_oracle (o : list bool) (w : world) : world :=
  mk_world (bsets w) (blks w) o.

Definition w_cell (a : ptr) (c : option bitset) (w : world) : world :=
  mk_world (<[a := c]> (bsets w)) (blks w) (oracle w).

Definition w_newset (bs : bitset) (w : world) : world :=
  mk_world (bsets w ++ [Some bs]) (blks w) (oracle w).

Definition w_blk (p : ptr) (c : option bitset_block) (w : world) : world :=
  mk_world (bsets w) (<[p := c]> (blks w)) (oracle w).

Definition w_newblk (B : bitset_block) (w : world) : world :=
  mk_world (bsets w) (blks w ++ [Some B]) (oracle w).

(** [malloc(sizeof(struct ...))]: the request fails exactly when the next
    oracle entry is [false].  An exhausted oracle lets every further
    request succeed. *)
Definition malloc_struct : M bool :=
  fun w => Ret (hd true (oracle w)) (w_oracle (tl (oracle w)) w).

(** [malloc(sz)] for a computed size: a request larger than [PTRDIFF_MAX]
    fails; any other request is left to the oracle. *)
Definition malloc (sz : Z) : M bool :=
  fun w => if PTRDIFF_MAX <? sz then Ret false w else malloc_struct w.

Definition load_bitset (p : ptr) : M bitset :=
  fun w => match bsets w !! p with
           | Some (Some bs) => Ret bs w
           | _ => Undef
           end.

Definition store_bitset (p : ptr) (bs : bitset) : M unit :=
  fun w => match bsets w !! p with
           | Some (Some _) => Ret tt (w_cell p (Some bs) w)
           | _ => Undef
           end.

Definition fresh_bitset (bs : bitset) : M ptr :=
  fun w => Ret (length (bsets w)) (w_newset bs w).

Definition free_bitset_cell (p : ptr) : M unit :=
  fun w => match bsets w !! p with
           | Some (Some _) => Ret tt (w_cell p None w)
           | _ => Undef
           end.

Definition load_block (p : ptr) : M bitset_block :=
  fun w => match blks w !! p with
           | Some (Some b) => Ret b w
           | _ => Undef
           end.

Definition store_block (p : ptr) (b : bitset_block) : M unit :=
  fun w => match blks w !! p with
           | Some (Some _) => Ret tt (w_blk p (Some b) w)
           | _ => Undef
           end.

Definition fresh_block (b : bitset_block) : M ptr :=
  fun w => Ret (length (blks w)) (w_newblk b w).

Definition free_block_cell (p : ptr) : M unit :=
  fun w => match blks w !! p with
           | Some (Some _) => Ret tt (w_blk p None w)
           | _ => Undef
           end.

(** [arr[i]] for a C [int] index: outside the array is undefined. *)
Definition index {A} (l : list A) (i : Z) : M A :=
  fun w => if i <? 0 then Undef
           else match l !! Z.to_nat i with
                | Some x => Ret x w
                | None => Undef
                end.

Definition with_blocks (l : list pointer) (bs : bitset) : bitset :=
  mk_bitset (bitcount bs) (block_count bs) (Some l).

(** [bset->blocks[i]] *)
Definition get_slot (a : ptr) (i : Z) : M pointer :=
  let* bs := load_bitset a in
  match blocks bs with
  | None => undef
  | Some l => index l i
  end.

(** [bset->blocks[i] = v] *)
Definition set_slot (a : ptr) (i : Z) (v : pointer) : M unit :=
  let* bs := load_bitset a in
  match blocks bs with
  | None => undef
  | Some l =>
      index l i ;;;
      store_bitset a (with_blocks (<[Z.to_nat i := v]> l) bs)
  end.

(** Dereferencing a pointer: NULL is undefined. *)
Definition deref (p : pointer) : M ptr :=
  match p with
  | Some a => ret a
  | None => undef
  end.

Definition is_Some_b {A} (o : option A) : bool :=
  match o with
  | Some _ => true
  | None => false
  end.

Definition is_null (p : pointer) : bool :=
  match p with
  | Some _ => false
  | None => true
  end.

(** [DIVMOD(a,b,q,r)]: C division truncates towards zero and is undefined
    for a zero divisor. *)
Definition DIVMOD (a b : Z) : M (Z * Z) :=
  if b =? 0 then undef else ret (Z.quot a b, Z.rem a b).

(** [1ull << b]: undefined unless [0 <= b < 64]. *)
Definition shl1 (b : Z) : M Z :=
  if (0 <=? b) && (b <? 64) then ret (Word.bit b) else undef.

(** The range of [int]. *)
Definition INT_MIN : Z := - 2 ^ 31.
Definition INT_MAX : Z := 2 ^ 31 - 1.

(** [n += c] on an [int n]: an addition whose sum is not an [int] is
    undefined. *)
Definition int_add (n c : Z) : M Z :=
  if (INT_MIN <=? n + c) && (n + c <=? INT_MAX) then ret (n + c) else undef.

(** One field or word of a block, read or written in place. *)
Definition upd_block (p : ptr) (f : bitset_block -> bitset_block) : M unit :=
  let* B := load_block p in store_block p (f B).

Definition with_ref_count (v : Z) (B : bitset_block) : bitset_block :=
  mk_block v (set_count B) (ints B).

Definition with_set_count (v : Z) (B : bitset_block) : bitset_block :=
  mk_block (ref_count B) v (ints B).

Definition with_ints (v : list Z) (B : bitset_block) : bitset_block :=
  mk_block (ref_count B) (set_count B) v.

Definition read_word (p : ptr) (n : Z) : M Z :=
  let* B := load_block p in index (ints B) n.

Definition write_word (p : ptr) (n : Z) (v : Z) : M unit :=
  let* B := load_block p in
  index (ints B) n ;;;
  store_block p (with_ints (<[Z.to_nat n := v]> (ints B)) B).

(** A loop [for (i = start; i < start + n; i++) body], whose body either
    falls through ([None]) or executes [return e] ([Some e]). *)
Fixpoint for_loop {E} (n : nat) (i : Z) (body : Z -> M (option E)) : M (option E) :=
  match n with
  | O => ret None
  | S n' =>
      let* r := body i in
      match r with
      | Some e => ret (Some e)
      | None => for_loop n' (i + 1) body
      end
  end.

(** The same loop carrying a local accumulator. *)
Fixpoint for_acc {S} (n : nat) (i : Z) (body : Z -> S -> M S) (s : S) : M S :=
  match n with
  | O => ret s
  | S n' => let* s' := body i s in for_acc n' (i + 1) body s'
  end.

(** ** The library *)

Section Bitset.

(** [BLOCKSIZE], the number of words of a block, comes from [bitset.h],
    which is not part of the sources at hand; so does [NDEBUG], the
    switch that compiles [assert] away. *)
Variable BLOCKSIZE : nat.
Variable NDEBUG : bool.

(** Modelled from the spec: the macro [IDSPERBLOCK] of [bitset.h]; the
    block capacity is 64 times the length of the word array. *)
Definition IDSPERBLOCK : Z := 64 * Z.of_nat BLOCKSIZE.

(** Modelled from the spec: the macro [BLOCKCOUNT] of [bitset.h]; the
    number of slots is the ceiling of bit capacity over block
    capacity. *)
Definition BLOCKCOUNT (n : Z) : Z := - ((- n) / IDSPERBLOCK).

(** [sizeof(struct bitset_block * )] *)
Definition PTRSIZE : Z := 8.

(** [assert(c)] *)
Definition assert (c : M bool) : M unit :=
  if NDEBUG then ret tt
  else let* ok := c in if ok : bool then ret tt else abort.

(** What [malloc] returns before the caller initialises it; every
    caller writes all three fields before it returns. *)
Definition raw_block : bitset_block := mk_block 0 0 (replicate BLOCKSIZE 0).
Definition raw_bitset : bitset := mk_bitset 0 0 None.

(** *** Block operations *)

Definition bitset_block_new : M (status * pointer) :=
  let* ok := malloc_struct in
  if ok : bool then
    let* blk := fresh_block raw_block in ret (OK, Some blk)
  else ret (ERRMEM, None).

Definition bitset_block_incref (blk : ptr) : M unit :=
  upd_block blk (fun B => with_ref_count (ref_count B + 1) B).

Definition bitset_block_decref (blk : ptr) : M unit :=
  upd_block blk (fun B => with_ref_count (ref_count B - 1) B) ;;;
  let* B := load_block blk in
  if ref_count B =? 0 then free_block_cell blk else ret tt.

(** [blk_out] is returned as the second component; a caller that
    passes NULL for it ignores that component. *)
Definition bitset_block_alloc (bset : ptr) (block : Z) : M (status * pointer) :=
  let* r := bitset_block_new in
  if negb (status_eqb (fst r) OK) then ret (fst r, None)
  else
    let* blk := deref (snd r) in
    store_block blk (mk_block 0 0 (replicate BLOCKSIZE 0)) ;;;
    upd_block blk (with_ref_count 1) ;;;
    assert (let* s := get_slot bset block in ret (is_null s)) ;;;
    set_slot bset block (Some blk) ;;;
    ret (OK, Some blk).

Definition bitset_block_realloc (bset : ptr) (block : Z) : M (status * pointer) :=
  assert (let* s := get_slot bset block in ret (negb (is_null s))) ;;;
  assert (let* s := get_slot bset block in
          let* p := deref s in
          let* B := load_block p in ret (1 <? ref_count B)) ;;;
  let* s := get_slot bset block in
  let* orig := deref s in
  bitset_block_decref orig ;;;
  set_slot bset block None ;;;
  let* r := bitset_block_new in
  if negb (status_eqb (fst r) OK) then ret (fst r, None)
  else
    let* blk := deref (snd r) in
    upd_block blk (with_ref_count 1) ;;;
    set_slot bset block (Some blk) ;;;
    let* O := load_block orig in
    upd_block blk (with_set_count (set_count O)) ;;;
    let* O := load_block orig in
    upd_block blk (with_ints (ints O)) ;;;
    ret (OK, Some blk).

Definition bitset_block_set_bit (blk : ptr) (bit : Z) : M unit :=
  let* nb := DIVMOD bit 64 in
  let (n, b) := nb : Z * Z in
  let* x := read_word blk n in
  let* m := shl1 b in
  write_word blk n (Z.lor x m) ;;;
  upd_block blk (fun B => with_set_count (set_count B + 1) B).

Definition bitset_block_clr_bit (blk : ptr) (bit : Z) : M unit :=
  let* nb := DIVMOD bit 64 in
  let (n, b) := nb : Z * Z in
  let* x := read_word blk n in
  let* m := shl1 b in
  write_word blk n (Z.land x (Word.not m)) ;;;
  upd_block blk (fun B => with_set_count (set_count B - 1) B).

Definition bitset_block_toggle_bit (blk : ptr) (bit : Z) : M unit :=
  let* nb := DIVMOD bit 64 in
  let (n, b) := nb : Z * Z in
  let* mask := shl1 b in
  let* x := read_word blk n in
  write_word blk n (Z.lxor x mask) ;;;
  let* y := read_word blk n in
  if Z.land y mask =? 0
  then upd_block blk (fun B => with_set_count (set_count B - 1) B)
  else upd_block blk (fun B => with_set_count (set_count B + 1) B).

Definition bitset_block_test_bit (blk : ptr) (bit : Z) : M Z :=
  let* nb := DIVMOD bit 64 in
  let (n, b) := nb : Z * Z in
  let* x := read_word blk n in
  let* m := shl1 b in
  ret (if Z.land x m =? 0 then 0 else 1).

(** The common shape of [bitset_block_or], [_and] and [_subtract]:
    [a->ints[i] = op(a->ints[i], b->ints[i])] word by word, with the
    count of 1-bits summed in [c] and stored at the end. *)
Definition block_combine (op : Z -> Z -> Z) (a b : ptr) : M unit :=
  assert (let* A := load_block a in ret (ref_count A =? 1)) ;;;
  let* c := for_acc BLOCKSIZE 0 (fun i c =>
              let* x := read_word a i in
              let* y := read_word b i in
              write_word a i (op x y) ;;;
              let* z := read_word a i in
              ret (c + Word.popcountll z)) 0 in
  upd_block a (with_set_count c).

Definition bitset_block_or : ptr -> ptr -> M unit :=
  block_combine Z.lor.

Definition bitset_block_and : ptr -> ptr -> M unit :=
  block_combine Z.land.

Definition bitset_block_subtract : ptr -> ptr -> M unit :=
  block_combine (fun x y => Z.land x (Word.not y)).

Definition bitset_block_invert (b : ptr) : M unit :=
  assert (let* B := load_block b in ret (ref_count B =? 1)) ;;;
  for_acc BLOCKSIZE 0 (fun i (_ : unit) =>
    let* x := read_word b i in
    write_word b i (Word.not x)) tt ;;;
  upd_block b (fun B => with_set_count (IDSPERBLOCK - set_count B) B).

(** *** Allocation and destruction *)

(** [bitset_free]: [free(bset->blocks)] and [free(bset)] release the
    one cell that holds the structure and its slot array. *)
Definition bitset_free (bset : pointer) : M unit :=
  match bset with
  | None => ret tt
  | Some a =>
      let* bs := load_bitset a in
      match blocks bs with
      | None => ret tt
      | Some _ =>
          for_loop (E := unit) (Z.to_nat (block_count bs)) 0 (fun i =>
            let* s := get_slot a i in
            match s with
            | Some p => bitset_block_decref p ;;; ret None
            | None => ret None
            end) ;;;
          ret tt
      end ;;;
      free_bitset_cell a
  end.

Definition bitset_init (bset : ptr) (bitcount : Z) : M status :=
  store_bitset bset (mk_bitset 0 0 None) ;;;
  store_bitset bset (mk_bitset bitcount 0 None) ;;;
  store_bitset bset (mk_bitset bitcount (BLOCKCOUNT bitcount) None) ;;;
  let sz := size_t (PTRSIZE * BLOCKCOUNT bitcount) in
  let* ok := malloc sz in
  if negb ok then ret ERRMEM
  else
    store_bitset bset
      (mk_bitset bitcount (BLOCKCOUNT bitcount)
                 (Some (replicate (Z.to_nat (sz / PTRSIZE)) None))) ;;;
    ret OK.

(** [bset_out] is [None] for a NULL argument and [Some v] for a
    location that holds [v]; what the location holds afterwards is the
    second component of the result. *)
Definition bitset_alloc (bitcount : Z) (bset_out : option pointer)
  : M (status * pointer) :=
  match bset_out with
  | None => ret (ERRINPUT, None)
  | Some (Some q) => ret (ERRINPUT, Some q)
  | Some None =>
      let* ok := malloc_struct in
      if negb ok then ret (ERRMEM, None)
      else
        let* bset := fresh_bitset raw_bitset in
        let* r := bitset_init bset bitcount in
        if negb (status_eqb r OK)
        then bitset_free (Some bset) ;;; ret (r, None)
        else ret (OK, Some bset)
  end.

Definition bitset_dup (s : pointer) (r : option pointer) : M (status * pointer) :=
  match s with
  | None => ret (ERRINPUT, default None r)
  | Some src =>
      match r with
      | None => ret (ERRINPUT, None)
      | Some (Some q) => ret (ERRINPUT, Some q)
      | Some None =>
          let* ok := malloc_struct in
          if negb ok then ret (ERRMEM, None)
          else
            let* bset := fresh_bitset raw_bitset in
            store_bitset bset (mk_bitset 0 0 None) ;;;
            let* S := load_bitset src in
            store_bitset bset (mk_bitset (bitcount S) 0 None) ;;;
            let* S := load_bitset src in
            store_bitset bset (mk_bitset (bitcount S) (block_count S) None) ;;;
            let sz := size_t (PTRSIZE * block_count S) in
            let* ok := malloc sz in
            if negb ok then bitset_free (Some bset) ;;; ret (ERRMEM, None)
            else
              let* S := load_bitset src in
              let* l := match blocks S with
                        | Some l => ret l
                        | None => undef
                        end in
              let n := Z.to_nat (sz / PTRSIZE) in
              (if (n <=? length l)%nat then ret tt else undef) ;;;
              let* B := load_bitset bset in
              store_bitset bset (with_blocks (take n l) B) ;;;
              for_loop (E := unit) (Z.to_nat (block_count B)) 0 (fun i =>
                let* p := get_slot bset i in
                match p with
                | Some blk => bitset_block_incref blk ;;; ret None
                | None => ret None
                end) ;;;
              ret (OK, Some bset)
      end
  end.

(** *** Information *)

(** Both functions return an [int] that is either the error code or
    the count. *)
Definition bitset_bitcount (a : pointer) : M (status + Z) :=
  match a with
  | None => ret (inl ERRINPUT)
  | Some a => let* bs := load_bitset a in ret (inr (bitcount bs))
  end.

(** The source adds the [set_count]s of the blocks in an [int n].
    [bitset_set_count] is that loop with the sum taken in the integers:
    it is what the source returns as long as no addition leaves the
    range of [int].  [bitset_set_count_int] is the same loop with every
    [n += set_count] an addition of [int]s; it is the one to read where
    the size of the count matters. *)
Definition bitset_set_count (a : pointer) : M (status + Z) :=
  match a with
  | None => ret (inl ERRINPUT)
  | Some a =>
      let* bs := load_bitset a in
      let* n := for_acc (Z.to_nat (block_count bs)) 0 (fun i n =>
                  let* s := get_slot a i in
                  match s with
                  | Some p => let* B := load_block p in ret (n + set_count B)
                  | None => ret n
                  end) 0 in
      ret (inr n)
  end.

(** The loop of the source with its [int n]. *)
Definition bitset_set_count_int (a : pointer) : M (status + Z) :=
  match a with
  | None => ret (inl ERRINPUT)
  | Some a =>
      let* bs := load_bitset a in
      let* n := for_acc (Z.to_nat (block_count bs)) 0 (fun i n =>
                  let* s := get_slot a i in
                  match s with
                  | Some p => let* B := load_block p in int_add n (set_count B)
                  | None => ret n
                  end) 0 in
      ret (inr n)
  end.

(** *** Bit operations *)

Definition out_of_range (a : ptr) (bit : Z) : M bool :=
  if bit <? 0 then ret true
  else let* bs := load_bitset a in ret (bit >=? bitcount bs).

Definition assert_block_in_range (a : ptr) (block : Z) : M unit :=
  assert (let* bs := load_bitset a in ret (block <? block_count bs)).

Definition shared (a : ptr) (block : Z) : M bool :=
  let* s := get_slot a block in
  let* p := deref s in
  let* B := load_block p in
  ret (1 <? ref_count B).

Definition bitset_set (bset : pointer) (bit : Z) : M status :=
  let* a := deref bset in
  let* bad := out_of_range a bit in
  if bad : bool then ret ERRINPUT
  else
    let* qr := DIVMOD bit IDSPERBLOCK in
    let (block, block_bit) := qr : Z * Z in
    assert_block_in_range a block ;;;
    let* s := get_slot a block in
    match s with
    | None =>
        let* r := bitset_block_alloc a block in
        if negb (status_eqb (fst r) OK) then ret (fst r)
        else
          let* blk := deref (snd r) in
          bitset_block_set_bit blk block_bit ;;; ret OK
    | Some blk =>
        let* t := bitset_block_test_bit blk block_bit in
        if negb (t =? 0) then ret OK
        else
          let* sh := shared a block in
          if sh : bool then
            let* r := bitset_block_realloc a block in
            if negb (status_eqb (fst r) OK) then ret (fst r)
            else
              let* blk := deref (snd r) in
              bitset_block_set_bit blk block_bit ;;; ret OK
          else bitset_block_set_bit blk block_bit ;;; ret OK
    end.

Definition bitset_clr (bset : pointer) (bit : Z) : M status :=
  let* a := deref bset in
  let* bad := out_of_range a bit in
  if bad : bool then ret ERRINPUT
  else
    let* qr := DIVMOD bit IDSPERBLOCK in
    let (block, block_bit) := qr : Z * Z in
    assert_block_in_range a block ;;;
    let* s := get_slot a block in
    match s with
    | None => ret OK
    | Some blk =>
        let* t := bitset_block_test_bit blk block_bit in
        if t =? 0 then ret OK
        else
          let* sh := shared a block in
          if sh : bool then
            let* r := bitset_block_realloc a block in
            if negb (status_eqb (fst r) OK) then ret (fst r)
            else
              let* blk := deref (snd r) in
              bitset_block_clr_bit blk block_bit ;;; ret OK
          else bitset_block_clr_bit blk block_bit ;;; ret OK
    end.

Definition bitset_toggle_bit (bset : pointer) (bit : Z) : M status :=
  let* a := deref bset in
  let* bad := out_of_range a bit in
  if bad : bool then ret ERRINPUT
  else
    let* qr := DIVMOD bit IDSPERBLOCK in
    let (block, block_bit) := qr : Z * Z in
    assert_block_in_range a block ;;;
    let* s := get_slot a block in
    let* r := match s with
              | None => bitset_block_alloc a block
              | Some blk =>
                  let* B := load_block blk in
                  if 1 <? ref_count B
                  then bitset_block_realloc a block
                  else ret (OK, Some blk)
              end in
    if negb (status_eqb (fst r) OK) then ret (fst r)
    else
      assert (ret (negb (is_null (snd r)))) ;;;
      let* blk := deref (snd r) in
      bitset_block_toggle_bit blk block_bit ;;; ret OK.

(** [out] is [None] for a NULL argument and [Some v] for a location
    that holds [v]; the second component of the result is what the
    location holds afterwards. *)
Definition bitset_test_bit (a : pointer) (bit : Z) (out : option Z)
  : M (status * option Z) :=
  let* a := deref a in
  let* bad := out_of_range a bit in
  if bad : bool then ret (ERRINPUT, out)
  else if negb (is_Some_b out) then ret (ERRINPUT, out)
  else
    let* qr := DIVMOD bit IDSPERBLOCK in
    let (block, block_bit) := qr : Z * Z in
    assert_block_in_range a block ;;;
    let* s := get_slot a block in
    match s with
    | None => ret (OK, Some 0)
    | Some blk =>
        let* t := bitset_block_test_bit blk block_bit in
        ret (OK, Some t)
    end.

(** *** Set operations *)

Definition loop_result (r : option status) : M status :=
  match r with
  | Some e => ret e
  | None => ret OK
  end.

Definition bitset_invert (a : pointer) : M status :=
  match a with
  | None => ret ERRINPUT
  | Some a =>
      let* bs := load_bitset a in
      let* r := for_loop (Z.to_nat (block_count bs)) 0 (fun i =>
        let* s := get_slot a i in
        match s with
        | None =>
            let* r := bitset_block_new in
            if negb (status_eqb (fst r) OK) then ret (Some (fst r))
            else
              let* blk := deref (snd r) in
              upd_block blk (with_ref_count 1) ;;;
              upd_block blk (with_set_count IDSPERBLOCK) ;;;
              upd_block blk (with_ints (replicate BLOCKSIZE Word.all_ones)) ;;;
              set_slot a i (Some blk) ;;;
              ret None
        | Some p =>
            let* B := load_block p in
            if set_count B =? 64 * Z.of_nat BLOCKSIZE then
              bitset_block_decref p ;;;
              set_slot a i None ;;;
              ret None
            else
              bitset_block_invert p ;;;
              ret None
        end) in
      loop_result r
  end.

(** The check every in-place binary operation makes before it writes
    to [a->blocks[i]]:
    [if (a->blocks[i]->ref_count > 1)
       if ((ret = bitset_block_realloc(a, i, NULL)) != OK) return ret;] *)
Definition realloc_if_shared (a : ptr) (i : Z) : M (option status) :=
  let* sh := shared a i in
  if sh : bool then
    let* r := bitset_block_realloc a i in
    if negb (status_eqb (fst r) OK) then ret (Some (fst r)) else ret None
  else ret None.

(** [op(a->blocks[i], b->blocks[i])] after the check above. *)
Definition combine_slot (op : ptr -> ptr -> M unit) (a b : ptr) (i : Z)
  : M (option status) :=
  let* e := realloc_if_shared a i in
  match e with
  | Some e => ret (Some e)
  | None =>
      let* sa := get_slot a i in
      let* pa := deref sa in
      let* sb := get_slot b i in
      let* pb := deref sb in
      op pa pb ;;;
      ret None
  end.

(** The tests all three binary operations start with. *)
Definition binary_checks (a b : pointer) (k : ptr -> ptr -> M status) : M status :=
  match a, b with
  | Some a, Some b =>
      let* A := load_bitset a in
      let* B := load_bitset b in
      if negb (bitcount A =? bitcount B) then ret ERRINPUT
      else
        assert (let* A := load_bitset a in
                let* B := load_bitset b in
                ret (block_count A =? block_count B)) ;;;
        k a b
  | _, _ => ret ERRINPUT
  end.

Definition bitset_or_body (a b : ptr) (i : Z) : M (option status) :=
  let* sa := get_slot a i in
  let* sb := get_slot b i in
  match sa, sb with
  | None, Some q =>
      set_slot a i (Some q) ;;;
      let* s := get_slot a i in
      let* p := deref s in
      bitset_block_incref p ;;;
      ret None
  | Some _, Some _ => combine_slot bitset_block_or a b i
  | _, _ => ret None
  end.

Definition bitset_or (a b : pointer) : M status :=
  binary_checks a b (fun a b =>
    let* A := load_bitset a in
    let* r := for_loop (Z.to_nat (block_count A)) 0 (bitset_or_body a b) in
    loop_result r).

Definition bitset_and_body (a b : ptr) (i : Z) : M (option status) :=
  let* sa := get_slot a i in
  let* sb := get_slot b i in
  match sa, sb with
  | Some p, None =>
      bitset_block_decref p ;;;
      set_slot a i None ;;;
      ret None
  | Some _, Some _ => combine_slot bitset_block_and a b i
  | _, _ => ret None
  end.

Definition bitset_and (a b : pointer) : M status :=
  binary_checks a b (fun a b =>
    let* A := load_bitset a in
    let* r := for_loop (Z.to_nat (block_count A)) 0 (bitset_and_body a b) in
    loop_result r).

Definition bitset_subtract_body (a b : ptr) (i : Z) : M (option status) :=
  let* sa := get_slot a i in
  let* sb := get_slot b i in
  match sa, sb with
  | Some _, Some _ => combine_slot bitset_block_subtract a b i
  | _, _ => ret None
  end.

Definition bitset_subtract (a b : pointer) : M status :=
  binary_checks a b (fun a b =>
    let* A := load_bitset a in
    let* r := for_loop (Z.to_nat (block_count A)) 0 (bitset_subtract_body a b) in
    loop_result r).

(** The shape shared by [bitset_inverse], [bitset_union],
    [bitset_intersect] and [bitset_difference]: duplicate [a], run the
    in-place operation on the duplicate, hand it out on success and
    free it on failure. *)
Definition on_duplicate (a : pointer) (op : pointer -> M status)
           (result_out : option pointer) : M (status * pointer) :=
  match result_out with
  | None => ret (ERRINPUT, None)
  | Some (Some q) => ret (ERRINPUT, Some q)
  | Some None =>
      let* d := bitset_dup a (Some None) in
      if negb (status_eqb (fst d) OK)
      then bitset_free (snd d) ;;; ret (fst d, None)
      else
        let* e := op (snd d) in
        if negb (status_eqb e OK)
        then bitset_free (snd d) ;;; ret (e, None)
        else ret (OK, snd d)
  end.

Definition bitset_inverse (a : pointer) (result_out : option pointer) :=
  on_duplicate a bitset_invert result_out.

Definition bitset_union (a b : pointer) (result_out : option pointer) :=
  on_duplicate a (fun r => bitset_or r b) result_out.

Definition bitset_intersect (a b : pointer) (result_out : option pointer) :=
  on_duplicate a (fun r => bitset_and r b) result_out.

Definition bitset_difference (a b : pointer) (result_out : option pointer) :=
  on_duplicate a (fun r => bitset_subtract r b) result_out.

End Bitset.

(** ** Ownership and well-formedness *)

(** How many references to block [p] a slot, a slot array, a bitset cell
    and the whole memory hold. *)
Definition holds (p : ptr) (s : pointer) : nat :=
  match s with
  | Some q => if Nat.eqb q p then 1 else 0
  | None => 0
  end.

Fixpoint slot_refs (p : ptr) (l : list pointer) : nat :=
  match l with
  | [] => 0
  | s :: l' => holds p s + slot_refs p l'
  end.

Definition cell_refs (p : ptr) (c : option bitset) : nat :=
  match c with
  | Some bs => match blocks bs with
               | Some l => slot_refs p l
               | None => 0
               end
  | None => 0
  end.

Fixpoint owners_in (p : ptr) (cells : list (option bitset)) : nat :=
  match cells with
  | [] => 0
  | c :: cells' => cell_refs p c + owners_in p cells'
  end.

Definition owners (w : world) (p : ptr) : nat := owners_in p (bsets w).

(** The number of 1-bits of a word array. *)
Fixpoint popcount_list (l : list Z) : Z :=
  match l with
  | [] => 0
  | x :: l' => Word.popcountll x + popcount_list l'
  end.

Section Invariants.

Variable BLOCKSIZE : nat.

(** A block has [BLOCKSIZE] words and caches their number of 1-bits. *)
Record block_ok (B : bitset_block) : Prop := {
  ok_length : length (ints B) = BLOCKSIZE;
  ok_words : Forall Word.in_range (ints B);
  ok_count : set_count B = popcount_list (ints B)
}.

Definition block_okb (B : bitset_block) : bool :=
  Nat.eqb (length (ints B)) BLOCKSIZE
  && forallb Word.in_rangeb (ints B)
  && (set_count B =? popcount_list (ints B)).

(** A live bitset has its slot array, of the length its bit count asks
    for. *)
Definition bitset_ok (bs : bitset) : Prop :=
  exists l, blocks bs = Some l
            /\ length l = Z.to_nat (block_count bs)
            /\ block_count bs = BLOCKCOUNT BLOCKSIZE (bitcount bs)
            /\ 0 <= block_count bs <= INT_MAX.

(** Reference counts against owners, up to a debt [d] that a running
    loop has not yet settled: a live block has [ref_count = owners + d],
    and an address that is not live has [owners + d = 0]. *)
Definition refs_ok (d : ptr -> Z) (w : world) : Prop :=
  forall p,
    match blks w !! p with
    | Some (Some B) => ref_count B = Z.of_nat (owners w p) + d p
    | _ => Z.of_nat (owners w p) + d p = 0
    end.

Definition no_debt : ptr -> Z := fun _ => 0.

Record world_ok (w : world) : Prop := {
  ok_bitsets : forall a bs, bsets w !! a = Some (Some bs) -> bitset_ok bs;
  ok_refs : refs_ok no_debt w;
  ok_live : forall p B, blks w !! p = Some (Some B) -> 0 < ref_count B;
  ok_blocks : forall p B, blks w !! p = Some (Some B) -> block_ok B
}.

End Invariants.

(** ** Clients *)

(** A pointer argument is NULL or designates a bitset that is alive. *)
Definition live_or_null (w : world) (p : pointer) : Prop :=
  match p with
  | Some a => exists bs, bsets w !! a = Some (Some bs)
  | None => True
  end.

(** One call of the public interface. *)
Inductive call :=
| Alloc (bitcount : Z) (bset_out : option pointer)
| Free (bset : pointer)
| Dup (s : pointer) (r : option pointer)
| Bitcount (a : pointer)
| SetCount (a : pointer)
| SetBit (bset : pointer) (bit : Z)
| ClrBit (bset : pointer) (bit : Z)
| ToggleBit (bset : pointer) (bit : Z)
| TestBit (a : pointer) (bit : Z) (out : option Z)
| Invert (a : pointer)
| Inverse (a : pointer) (result_out : option pointer)
| Or (a b : pointer)
| And (a b : pointer)
| Subtract (a b : pointer)
| Union (a b : pointer) (result_out : option pointer)
| Intersect (a b : pointer) (result_out : option pointer)
| Difference (a b : pointer) (result_out : option pointer).

Definition forget {A} (m : M A) : M unit := let* _ := m in ret tt.

Section Clients.

Variable BLOCKSIZE : nat.
Variable NDEBUG : bool.

Definition exec (c : call) : M unit :=
  match c with
  | Alloc n out => forget (bitset_alloc BLOCKSIZE n out)
  | Free a => bitset_free a
  | Dup s r => forget (bitset_dup s r)
  | Bitcount a => forget (bitset_bitcount a)
  | SetCount a => forget (bitset_set_count a)
  | SetBit a i => forget (bitset_set BLOCKSIZE NDEBUG a i)
  | ClrBit a i => forget (bitset_clr BLOCKSIZE NDEBUG a i)
  | ToggleBit a i => forget (bitset_toggle_bit BLOCKSIZE NDEBUG a i)
  | TestBit a i out => forget (bitset_test_bit BLOCKSIZE NDEBUG a i out)
  | Invert a => forget (bitset_invert BLOCKSIZE NDEBUG a)
  | Inverse a out => forget (bitset_inverse BLOCKSIZE NDEBUG a out)
  | Or a b => forget (bitset_or BLOCKSIZE NDEBUG a b)
  | And a b => forget (bitset_and BLOCKSIZE NDEBUG a b)
  | Subtract a b => forget (bitset_subtract BLOCKSIZE NDEBUG a b)
  | Union a b out => forget (bitset_union BLOCKSIZE NDEBUG a b out)
  | Intersect a b out => forget (bitset_intersect BLOCKSIZE NDEBUG a b out)
  | Difference a b out => forget (bitset_difference BLOCKSIZE NDEBUG a b out)
  end.

(** An argument of C type [int] is in the range of [int], and a
    pointer argument is NULL or a bitset the library handed out and
    that was not freed since. *)
Definition int_range (z : Z) : Prop := INT_MIN <= z <= INT_MAX.

Definition well_typed (w : world) (c : call) : Prop :=
  match c with
  | Alloc n _ => int_range n
  | SetBit a i | ClrBit a i | ToggleBit a i | TestBit a i _ =>
      int_range i /\ live_or_null w a
  | Free a | Bitcount a | SetCount a | Invert a | Inverse a _ | Dup a _ =>
      live_or_null w a
  | Or a b | And a b | Subtract a b
  | Union a b _ | Intersect a b _ | Difference a b _ =>
      live_or_null w a /\ live_or_null w b
  end.

(** The memories a client can reach: it starts from an empty memory and
    any allocation oracle, and makes calls that return. *)
Inductive reachable : world -> Prop :=
| reach_init (o : list bool) : reachable (empty_world o)
| reach_call (w w' : world) (c : call) :
    reachable w -> well_typed w c -> exec c w = Ret tt w' -> reachable w'.

(** The memory a call leaves, for building scenarios. *)
Definition returns (c : call) (w : world) : bool :=
  match exec c w with
  | Ret _ _ => true
  | _ => false
  end.

Definition after (c : call) (w : world) : world :=
  match exec c w with
  | Ret _ w' => w'
  | _ => w
  end.

End Clients.

(** ** Observations *)

(** What a client learns from [bitset_test_bit] at index [i]. *)
Definition tested (BLOCKSIZE : nat) (NDEBUG : bool) (w : world) (a : ptr) (i : Z)
  : bool :=
  match bitset_test_bit BLOCKSIZE NDEBUG (Some a) i (Some 0) w with
  | Ret (OK, Some t) _ => negb (t =? 0)
  | _ => false
  end.

(** The number of indices below [n] at which the test is true. *)
Definition count_tested (BLOCKSIZE : nat) (NDEBUG : bool) (w : world) (a : ptr)
           (n : nat) : nat :=
  length (filter (fun i => tested BLOCKSIZE NDEBUG w a (Z.of_nat i) = true) (seq 0 n)).

(** What a slot adds to the sum [bitset_set_count] returns. *)
Definition slot_count (w : world) (s : pointer) : Z :=
  match s with
  | Some p =>
      match blks w !! p with
      | Some (Some B) => set_count B
      | _ => 0
      end
  | None => 0
  end.

Definition sum_counts (w : world) (l : list pointer) : Z :=
  fold_right (fun s n => slot_count w s + n) 0 l.



(** The memory in which slot [k] of [a], which held [p], has been made
    absent and the block [B] at [p] has lost that one reference, after
    one allocation. *)
Definition slot_dropped (w : world) (a : ptr) (bs : bitset) (l : list pointer)
           (k : nat) (p : ptr) (B : bitset_block) : world :=
  mk_world (<[a := Some (with_blocks (<[k := None]> l) bs)]> (bsets w))
           (<[p := Some (with_ref_count (ref_count B - 1) B)]> (blks w))
           (tl (oracle w)).

(** The memory in which the absent slot [k] of [a] has been given block
    [q], which gains that one reference. *)
Definition slot_shared (w : world) (a : ptr) (bs : bitset) (l : list pointer)
           (k : nat) (q : ptr) (B : bitset_block) : world :=
  mk_world (<[a := Some (with_blocks (<[k := Some q]> l) bs)]> (bsets w))
           (<[q := Some (with_ref_count (ref_count B + 1) B)]> (blks w))
           (oracle w).

(** The live blocks of [bl] are live in [bl'], with the same words. *)
Definition same_words (bl bl' : list (option bitset_block)) : Prop :=
  forall q B, bl !! q = Some (Some B) ->
              exists B', bl' !! q = Some (Some B') /\ ints B' = ints B.

(** ** Scenarios

    The spec's scenarios use blocks of 128 bits, that is two words, and
    the default build, in which [assert] is active. *)

Module Scenario.

Definition step := after 2 false.

(** [a = create(200)], [set(a,5)], [set(a,150)]: [a] is at address 0. *)
Definition w_a : world :=
  step (SetBit (Some 0%nat) 150)
    (step (SetBit (Some 0%nat) 5)
       (step (Alloc 200 (Some None)) (empty_world []))).

(** [b = duplicate(a)]: [b] is at address 1 and shares both blocks. *)
Definition w_ab : world := step (Dup (Some 0%nat) (Some None)) w_a.

(** [set(b,6)]: block 0 of [b] is now private, block 1 still shared. *)
Definition w_ab6 : world := step (SetBit (Some 1%nat) 6) w_ab.


(** [a = create(128)], [set(a,5)], [b = duplicate(a)], with an
    allocator that fails from then on. *)
Definition w_shared_oom : world :=
  step (Dup (Some 0%nat) (Some None))
    (step (SetBit (Some 0%nat) 5)
       (step (Alloc 128 (Some None))
          (empty_world [true; true; true; true; true; false; false]))).

(** [a = create(64)] never written, [b = create(64)] with bit 3. *)
Definition w_union : world :=
  step (SetBit (Some 1%nat) 3)
    (step (Alloc 64 (Some None))
       (step (Alloc 64 (Some None)) (empty_world []))).

(** Two bitsets of capacities 64 and 128. *)
Definition w_mismatch : world :=
  step (Alloc 128 (Some None))
    (step (Alloc 64 (Some None)) (empty_world [])).

(** [w_shared_oom] once slot 0 of [a] has been given up. *)
Definition w_dropped : world :=
  slot_dropped w_shared_oom 0 (mk_bitset 128 1 (Some [Some 0%nat]))
    [Some 0%nat] 0 0 (mk_block 2 1 [32; 0]).

(** [w_union] once slot 0 of [a] shares the block of [b]. *)
Definition w_shared : world :=
  slot_shared w_union 0 (mk_bitset 64 1 (Some [None])) [None] 0 0
    (mk_block 1 1 [8; 0]).

(** [a = create(128)], [invert(a)]: the one block of [a] is full. *)
Definition w_full : world :=
  step (Invert (Some 0%nat)) (step (Alloc 128 (Some None)) (empty_world [])).


End Scenario.

(** ** Auxiliary notions for the proofs *)

(** The reference count stored at an address; 0 where nothing lives. *)
Definition rc_of (c : option bitset_block) : Z :=
  match c with
  | Some B => ref_count B
  | None => 0
  end.

Definition rc_in (bl : list (option bitset_block)) (q : ptr) : Z :=
  match bl !! q with
  | Some c => rc_of c
  | None => 0
  end.

(** What [bitset_block_decref] leaves in the cell of block [B]. *)
Definition decref_cell (B : bitset_block) : option bitset_block :=
  if ref_count B - 1 =? 0 then None
  else Some (with_ref_count (ref_count B - 1) B).

Definition cell_pred {A} (P : A -> Prop) (c : option A) : Prop :=
  match c with
  | Some x => P x
  | None => True
  end.

Definition block_good (BLOCKSIZE : nat) (B : bitset_block) : Prop :=
  0 < ref_count B /\ block_ok BLOCKSIZE B.

(** The block [bitset_block_new] and its caller leave: one reference, no
    bit set. *)
Definition zero_block (BLOCKSIZE : nat) : bitset_block :=
  mk_block 1 0 (replicate BLOCKSIZE 0).

(** [world_ok] with a debt, in the form the proofs carry through loops. *)
Definition inv (BLOCKSIZE : nat) (d : ptr -> Z) (w : world) : Prop :=
  refs_ok d w
  /\ Forall (cell_pred (bitset_ok BLOCKSIZE)) (bsets w)
  /\ Forall (cell_pred (block_good BLOCKSIZE)) (blks w).

(** ** What a bitset holds *)

(** The words a slot stands for: those of its block, or zeros. *)
Definition slot_words (BLOCKSIZE : nat) (bl : list (option bitset_block))
           (s : pointer) : list Z :=
  match s with
  | Some p =>
      match bl !! p with
      | Some (Some B) => ints B
      | _ => replicate BLOCKSIZE 0
      end
  | None => replicate BLOCKSIZE 0
  end.

(** The words of bitset [a], slot by slot. *)
Definition content (BLOCKSIZE : nat) (w : world) (a : ptr) : list (list Z) :=
  match bsets w !! a with
  | Some (Some bs) =>
      match blocks bs with
      | Some l => map (slot_words BLOCKSIZE (blks w)) l
      | None => []
      end
  | _ => []
  end.

(** Bit [i] of such rows of words. *)
Definition bit_of (BLOCKSIZE : nat) (ws : list (list Z)) (i : Z) : bool :=
  match ws !! Z.to_nat (Z.quot i (IDSPERBLOCK BLOCKSIZE)) with
  | Some xs =>
      match xs !! Z.to_nat (Z.quot (Z.rem i (IDSPERBLOCK BLOCKSIZE)) 64) with
      | Some x => Z.testbit x (Z.rem (Z.rem i (IDSPERBLOCK BLOCKSIZE)) 64)
      | None => false
      end
  | None => false
  end.

Definition popcount_rows (ws : list (list Z)) : Z :=
  fold_right (fun xs n => popcount_list xs + n) 0 ws.

(** [c] is a live bitset of [w]. *)
Definition live (w : world) (c : ptr) : Prop :=
  exists cs, bsets w !! c = Some (Some cs).

(** Bit [i] of the block capacity, read in one row of words. *)
Definition bit_of_row (BLOCKSIZE : nat) (xs : list Z) (i : Z) : bool :=
  match xs !! Z.to_nat (Z.quot (Z.rem i (IDSPERBLOCK BLOCKSIZE)) 64) with
  | Some x => Z.testbit x (Z.rem (Z.rem i (IDSPERBLOCK BLOCKSIZE)) 64)
  | None => false
  end.

(** From [w] to [w'] every cell other than [a] is as it was, a live
    bitset with the content it had, and [w'] is well formed. *)
Definition others_kept (BLOCKSIZE : nat) (w w' : world) (a : ptr) : Prop :=
  world_ok BLOCKSIZE w'
  /\ (forall c, c <> a ->
                bsets w' !! c = bsets w !! c
                /\ content BLOCKSIZE w' c = content BLOCKSIZE w c).

(** From [w] to [w'] only bitset [a] has changed its content: [w'] is
    well formed, every other cell is as it was, a live bitset with the
    content it had, and [a] is live with the capacity it had. *)
Definition frame_but (BLOCKSIZE : nat) (w w' : world) (a : ptr) : Prop :=
  world_ok BLOCKSIZE w'
  /\ (forall c, c <> a ->
                bsets w' !! c = bsets w !! c
                /\ content BLOCKSIZE w' c = content BLOCKSIZE w c)
  /\ (exists bs bs', bsets w !! a = Some (Some bs)
                     /\ bsets w' !! a = Some (Some bs')
                     /\ bitcount bs' = bitcount bs).

(** The same, row [k] of [a] having become [row] and its other rows
    being as before. *)
Definition row_changed (BLOCKSIZE : nat) (w w' : world) (a : ptr) (k : nat)
           (row : list Z) : Prop :=
  frame_but BLOCKSIZE w w' a
  /\ content BLOCKSIZE w' a = <[k := row]> (content BLOCKSIZE w a).

(** How the step of a binary operation for slot [j] ends: it falls
    through with row [j] of [a] recomputed from the two rows, or it
    returns [ERRMEM] after a failed allocation; it takes at most one
    answer from the allocator. *)
Definition step_result (BLOCKSIZE : nat) (w : world) (a b : ptr) (j : nat)
           (rowop : list Z -> list Z -> list Z)
           (r : option status) (w' : world) : Prop :=
  exists ra rb row,
    content BLOCKSIZE w a !! j = Some ra
    /\ content BLOCKSIZE w b !! j = Some rb
    /\ row_changed BLOCKSIZE w w' a j row
    /\ (r = None /\ row = rowop ra rb
        \/ r = Some ERRMEM /\ hd true (oracle w) = false)
    /\ (oracle w' = oracle w \/ oracle w' = tl (oracle w)).

(** [bitset_free] after [j] slots of the slot array [l]: the blocks of
    the first [j] slots have given up one reference each, the cells are
    those of the start [w0], and the blocks that are alive are blocks of
    the start, with their words. *)
Definition freeing (BLOCKSIZE : nat) (w0 : world) (l : list pointer) (j : nat)
           (w : world) : Prop :=
  inv BLOCKSIZE (fun q => - Z.of_nat (slot_refs q (take j l))) w
  /\ bsets w = bsets w0 /\ oracle w = oracle w0
  /\ forall q B, blks w !! q = Some (Some B) ->
                 exists B0, blks w0 !! q = Some (Some B0) /\ ints B = ints B0.

(** [a & ~b] on words, as [bitset_block_subtract] computes it. *)
Definition word_subtract (x y : Z) : Z := Z.land x (Word.not y).

(** The body of the loop of [bitset_invert], for slot [i] of [a]. *)
Definition invert_step (BLOCKSIZE : nat) (NDEBUG : bool) (a : ptr) (i : Z)
  : M (option status) :=
  let* s := get_slot a i in
  match s with
  | None =>
      let* r := bitset_block_new BLOCKSIZE in
      if negb (status_eqb (fst r) OK) then ret (Some (fst r))
      else
        let* blk := deref (snd r) in
        upd_block blk (with_ref_count 1) ;;;
        upd_block blk (with_set_count (IDSPERBLOCK BLOCKSIZE)) ;;;
        upd_block blk (with_ints (replicate BLOCKSIZE Word.all_ones)) ;;;
        set_slot a i (Some blk) ;;;
        ret None
  | Some p =>
      let* B := load_block p in
      if set_count B =? 64 * Z.of_nat BLOCKSIZE then
        bitset_block_decref p ;;;
        set_slot a i None ;;;
        ret None
      else
        bitset_block_invert BLOCKSIZE NDEBUG p ;;;
        ret None
  end.

(** From slot [j] on, the blocks of [a] that are not full are held by
    nothing else. *)
Definition unshared_from (BLOCKSIZE : nat) (w : world) (a : ptr) (j : nat)
  : Prop :=
  forall bs l i p B,
    bsets w !! a = Some (Some bs) -> blocks bs = Some l ->
    (j <= i)%nat -> l !! i = Some (Some p) -> blks w !! p = Some (Some B) ->
    set_count B <> IDSPERBLOCK BLOCKSIZE -> ref_count B = 1.

(** The number of indices below [n] at which [f] is true. *)
Fixpoint count_true (f : Z -> bool) (n : nat) : Z :=
  match n with
  | O => 0
  | S k => count_true f k + (if f (Z.of_nat k) then 1 else 0)
  end.

(** Bit [i] of an array of words. *)
Definition bit_of_words (xs : list Z) (i : Z) : bool :=
  match xs !! Z.to_nat (Z.quot i 64) with
  | Some x => Z.testbit x (Z.rem i 64)
  | None => false
  end.

(** ** Facts about words *)

Module WordFacts.
Import Word.

Lemma testbit_bit (b i : Z) :
  0 <= b -> Z.testbit (bit b) i = Z.eqb i b.
Proof.
  intros Hb. unfold bit. rewrite Z.shiftl_1_l.
  rewrite Z.pow2_bits_eqb by lia. apply Z.eqb_sym.
Qed.

Lemma testbit_wrap (z i : Z) :
  Z.testbit (wrap z) i = Z.testbit z i && (0 <=? i) && (i <? 64).
Proof.
  unfold wrap, mask. rewrite Z.land_spec.
  destruct (Z.leb_spec 0 i), (Z.ltb_spec i 64); cbn [andb].
  - rewrite Z.ones_spec_low by lia. now rewrite !andb_true_r.
  - rewrite Z.ones_spec_high by lia. now rewrite !andb_false_r.
  - rewrite !Z.testbit_neg_r by lia. reflexivity.
  - rewrite !Z.testbit_neg_r by lia. reflexivity.
Qed.

Lemma testbit_not (x i : Z) :
  0 <= i < 64 -> Z.testbit (not x) i = negb (Z.testbit x i).
Proof.
  intros Hi. unfold not. rewrite testbit_wrap, Z.lnot_spec by lia.
  destruct (Z.leb_spec 0 i), (Z.ltb_spec i 64); try lia.
  now rewrite !andb_true_r.
Qed.

Lemma land_bit_eqb (x b : Z) :
  0 <= b -> (Z.land x (bit b) =? 0) = negb (Z.testbit x b).
Proof.
  intros Hb. destruct (Z.testbit x b) eqn:E; cbn [negb].
  - apply Z.eqb_neq. intros H.
    assert (Z.testbit (Z.land x (bit b)) b = false) as H'
      by (rewrite H; apply Z.bits_0).
    rewrite Z.land_spec, E, testbit_bit, Z.eqb_refl in H' by lia.
    discriminate.
  - apply Z.eqb_eq. apply Z.bits_inj'. intros i Hi.
    rewrite Z.land_spec, testbit_bit, Z.bits_0 by lia.
    destruct (Z.eqb_spec i b) as [->|]; [now rewrite E | apply andb_false_r].
Qed.

Lemma in_range_testbit (x : Z) :
  in_range x <-> 0 <= x /\ forall i, 64 <= i -> Z.testbit x i = false.
Proof.
  unfold in_range. split.
  - intros [H0 H1]. split; [lia|]. intros i Hi.
    destruct (Z.eq_dec x 0) as [->|]; [apply Z.bits_0|].
    apply Z.bits_above_log2; [lia|].
    apply Z.lt_le_trans with 64; [|lia].
    apply Z.log2_lt_pow2; lia.
  - intros [H0 H1]. split; [lia|].
    destruct (Z.eq_dec x 0) as [->|]; [lia|].
    destruct (Z.lt_ge_cases x (2 ^ 64)) as [|Hge]; [assumption|].
    exfalso. assert (64 <= Z.log2 x) as Hl
      by (apply Z.log2_le_pow2; lia).
    specialize (H1 _ Hl). rewrite Z.bit_log2 in H1 by lia. discriminate.
Qed.

Lemma in_range_of_bits (x : Z) :
  (forall i, i < 0 \/ 64 <= i -> Z.testbit x i = false) ->
  0 <= x -> in_range x.
Proof. intros H H0. apply in_range_testbit. split; [lia|]. intros; apply H; lia. Qed.

Lemma in_rangeb_spec (x : Z) : in_rangeb x = true <-> in_range x.
Proof. unfold in_rangeb, in_range. rewrite andb_true_iff. lia. Qed.

Lemma wrap_in_range (z : Z) : in_range (wrap z).
Proof.
  unfold in_range, wrap, mask. rewrite Z.land_ones by lia.
  apply Z.mod_pos_bound. lia.
Qed.

Lemma not_in_range (x : Z) : in_range (not x).
Proof. apply wrap_in_range. Qed.

Lemma bit_in_range (b : Z) : 0 <= b < 64 -> in_range (bit b).
Proof.
  intros Hb. unfold in_range, bit. rewrite Z.shiftl_1_l. split.
  - apply Z.pow_nonneg; lia.
  - apply Z.pow_lt_mono_r; lia.
Qed.

Lemma lor_in_range (x y : Z) : in_range x -> in_range y -> in_range (Z.lor x y).
Proof.
  rewrite !in_range_testbit. intros [Hx Hx'] [Hy Hy']. split.
  - apply Z.lor_nonneg; lia.
  - intros i Hi. rewrite Z.lor_spec, Hx', Hy' by lia. reflexivity.
Qed.

Lemma land_in_range (x y : Z) : in_range x -> in_range (Z.land x y).
Proof.
  rewrite !in_range_testbit. intros [Hx Hx']. split.
  - apply Z.land_nonneg; lia.
  - intros i Hi. rewrite Z.land_spec, Hx' by lia. reflexivity.
Qed.

Lemma lxor_in_range (x y : Z) : in_range x -> in_range y -> in_range (Z.lxor x y).
Proof.
  rewrite !in_range_testbit. intros [Hx Hx'] [Hy Hy']. split.
  - apply Z.lxor_nonneg; lia.
  - intros i Hi. rewrite Z.lxor_spec, Hx', Hy' by lia. reflexivity.
Qed.

Lemma popcount_upto_bounds (n : nat) (x : Z) :
  0 <= popcount_upto n x <= Z.of_nat n.
Proof.
  induction n as [|n IH]; cbn [popcount_upto]; [lia|].
  destruct (Z.testbit x (Z.of_nat n)); lia.
Qed.

Lemma popcount_upto_flip (n : nat) (x y b : Z) :
  0 <= b ->
  (forall i, 0 <= i < Z.of_nat n -> i <> b -> Z.testbit y i = Z.testbit x i) ->
  Z.testbit y b = negb (Z.testbit x b) ->
  popcount_upto n y =
  popcount_upto n x +
  (if b <? Z.of_nat n then if Z.testbit x b then -1 else 1 else 0).
Proof.
  intros Hb Hothers Hflip. induction n as [|n IH].
  - cbn [popcount_upto]. destruct (Z.ltb_spec b (Z.of_nat 0)); lia.
  - cbn [popcount_upto]. rewrite IH by (intros; apply Hothers; lia).
    destruct (Z.eq_dec (Z.of_nat n) b) as [<-|Hne].
    + rewrite Hflip.
      destruct (Z.ltb_spec (Z.of_nat n) (Z.of_nat n)); [lia|].
      destruct (Z.ltb_spec (Z.of_nat n) (Z.of_nat (S n))); [|lia].
      destruct (Z.testbit x (Z.of_nat n)); cbn [negb]; lia.
    + rewrite Hothers by lia.
      destruct (Z.ltb_spec b (Z.of_nat n)), (Z.ltb_spec b (Z.of_nat (S n))); lia.
Qed.

Lemma popcount_upto_not (n : nat) (x : Z) :
  (n <= 64)%nat -> popcount_upto n (not x) = Z.of_nat n - popcount_upto n x.
Proof.
  induction n as [|n IH]; intros Hn; cbn [popcount_upto]; [lia|].
  rewrite IH, testbit_not by lia.
  destruct (Z.testbit x (Z.of_nat n)); cbn [negb]; lia.
Qed.

Lemma popcountll_bounds (x : Z) : 0 <= popcountll x <= 64.
Proof. apply (popcount_upto_bounds 64). Qed.

Lemma popcountll_not (x : Z) : popcountll (not x) = 64 - popcountll x.
Proof. apply (popcount_upto_not 64). lia. Qed.

Lemma popcountll_set (x b : Z) :
  0 <= b < 64 -> Z.testbit x b = false ->
  popcountll (Z.lor x (bit b)) = popcountll x + 1.
Proof.
  intros Hb Hx. unfold popcountll.
  rewrite (popcount_upto_flip 64 x _ b); [| lia | |].
  - rewrite Hx. destruct (Z.ltb_spec b (Z.of_nat 64)); lia.
  - intros i Hi Hne. rewrite Z.lor_spec, testbit_bit by lia.
    destruct (Z.eqb_spec i b); [lia | apply orb_false_r].
  - rewrite Z.lor_spec, testbit_bit, Z.eqb_refl, Hx by lia. reflexivity.
Qed.

Lemma popcountll_clr (x b : Z) :
  0 <= b < 64 -> Z.testbit x b = true ->
  popcountll (Z.land x (not (bit b))) = popcountll x - 1.
Proof.
  intros Hb Hx. unfold popcountll.
  rewrite (popcount_upto_flip 64 x _ b); [| lia | |].
  - rewrite Hx. destruct (Z.ltb_spec b (Z.of_nat 64)); lia.
  - intros i Hi Hne. rewrite Z.land_spec, testbit_not, testbit_bit by lia.
    destruct (Z.eqb_spec i b); [lia | apply andb_true_r].
  - rewrite Z.land_spec, testbit_not, testbit_bit, Z.eqb_refl, Hx by lia.
    reflexivity.
Qed.

Lemma popcountll_toggle (x b : Z) :
  0 <= b < 64 ->
  popcountll (Z.lxor x (bit b)) =
  popcountll x + (if Z.testbit x b then -1 else 1).
Proof.
  intros Hb. unfold popcountll.
  rewrite (popcount_upto_flip 64 x _ b); [| lia | |].
  - destruct (Z.ltb_spec b (Z.of_nat 64)); lia.
  - intros i Hi Hne. rewrite Z.lxor_spec, testbit_bit by lia.
    destruct (Z.eqb_spec i b); [lia | apply xorb_false_r].
  - rewrite Z.lxor_spec, testbit_bit, Z.eqb_refl by lia.
    apply xorb_true_r.
Qed.

Lemma testbit_set (x b i : Z) :
  0 <= b -> Z.testbit (Z.lor x (bit b)) i = Z.testbit x i || (i =? b).
Proof. intros. now rewrite Z.lor_spec, testbit_bit. Qed.

Lemma testbit_clr (x b i : Z) :
  0 <= b < 64 -> 0 <= i < 64 ->
  Z.testbit (Z.land x (not (bit b))) i = Z.testbit x i && negb (i =? b).
Proof. intros. now rewrite Z.land_spec, testbit_not, testbit_bit by lia. Qed.

Lemma testbit_toggle (x b i : Z) :
  0 <= b -> Z.testbit (Z.lxor x (bit b)) i = xorb (Z.testbit x i) (i =? b).
Proof. intros. now rewrite Z.lxor_spec, testbit_bit. Qed.

End WordFacts.

(** ** Runs that return *)

Lemma bind_inv {A B} (m : M A) (k : A -> M B) w b w2 :
  bind m k w = Ret b w2 -> exists a w1, m w = Ret a w1 /\ k a w1 = Ret b w2.
Proof. unfold bind. destruct (m w) as [a w1| |]; [eauto | discriminate..]. Qed.

Lemma bind_run {A B} (m : M A) (k : A -> M B) w a w1 :
  m w = Ret a w1 -> bind m k w = k a w1.
Proof. unfold bind. now intros ->. Qed.

Lemma ret_inv {A} (a b : A) w w' : ret a w = Ret b w' -> b = a /\ w' = w.
Proof. unfold ret. now intros [= -> ->]. Qed.

Lemma malloc_struct_inv w ok w' :
  malloc_struct w = Ret ok w' ->
  ok = hd true (oracle w) /\ w' = w_oracle (tl (oracle w)) w.
Proof. unfold malloc_struct. now intros [= <- <-]. Qed.

Lemma malloc_inv sz w ok w' :
  malloc sz w = Ret ok w' ->
  (PTRDIFF_MAX < sz /\ ok = false /\ w' = w)
  \/ (sz <= PTRDIFF_MAX /\ ok = hd true (oracle w) /\ w' = w_oracle (tl (oracle w)) w).
Proof.
  unfold malloc. destruct (Z.ltb_spec PTRDIFF_MAX sz).
  - intros [= <- <-]. auto.
  - intros H'%malloc_struct_inv. right. tauto.
Qed.

Lemma load_bitset_inv p w bs w' :
  load_bitset p w = Ret bs w' -> w' = w /\ bsets w !! p = Some (Some bs).
Proof.
  unfold load_bitset. destruct (bsets w !! p) as [[?|]|]; [|discriminate..].
  now intros [= -> ->].
Qed.

Lemma store_bitset_inv p bs w u w' :
  store_bitset p bs w = Ret u w' ->
  w' = w_cell p (Some bs) w /\ exists old, bsets w !! p = Some (Some old).
Proof.
  unfold store_bitset. destruct (bsets w !! p) as [[?|]|]; [|discriminate..].
  intros [= <-]. eauto.
Qed.

Lemma fresh_bitset_inv bs w p w' :
  fresh_bitset bs w = Ret p w' -> p = length (bsets w) /\ w' = w_newset bs w.
Proof. unfold fresh_bitset. now intros [= <- <-]. Qed.

Lemma free_bitset_cell_inv p w u w' :
  free_bitset_cell p w = Ret u w' ->
  w' = w_cell p None w /\ exists old, bsets w !! p = Some (Some old).
Proof.
  unfold free_bitset_cell. destruct (bsets w !! p) as [[?|]|]; [|discriminate..].
  intros [= <-]. eauto.
Qed.

Lemma load_block_inv p w B w' :
  load_block p w = Ret B w' -> w' = w /\ blks w !! p = Some (Some B).
Proof.
  unfold load_block. destruct (blks w !! p) as [[?|]|]; [|discriminate..].
  now intros [= -> ->].
Qed.

Lemma store_block_inv p B w u w' :
  store_block p B w = Ret u w' ->
  w' = w_blk p (Some B) w /\ exists old, blks w !! p = Some (Some old).
Proof.
  unfold store_block. destruct (blks w !! p) as [[?|]|]; [|discriminate..].
  intros [= <-]. eauto.
Qed.

Lemma fresh_block_inv B w p w' :
  fresh_block B w = Ret p w' -> p = length (blks w) /\ w' = w_newblk B w.
Proof. unfold fresh_block. now intros [= <- <-]. Qed.

Lemma free_block_cell_inv p w u w' :
  free_block_cell p w = Ret u w' ->
  w' = w_blk p None w /\ exists old, blks w !! p = Some (Some old).
Proof.
  unfold free_block_cell. destruct (blks w !! p) as [[?|]|]; [|discriminate..].
  intros [= <-]. eauto.
Qed.

Lemma index_inv {A} (l : list A) i w x w' :
  index l i w = Ret x w' -> w' = w /\ 0 <= i /\ l !! Z.to_nat i = Some x.
Proof.
  unfold index. destruct (Z.ltb_spec i 0); [discriminate|].
  destruct (l !! Z.to_nat i); [|discriminate]. now intros [= -> ->].
Qed.

Lemma deref_inv (p : pointer) w a w' :
  deref p w = Ret a w' -> w' = w /\ p = Some a.
Proof. destruct p; cbn; [|discriminate]. now intros [= -> ->]. Qed.

Lemma DIVMOD_inv a b w qr w' :
  DIVMOD a b w = Ret qr w' -> w' = w /\ b <> 0 /\ qr = (Z.quot a b, Z.rem a b).
Proof.
  unfold DIVMOD. destruct (Z.eqb_spec b 0); [discriminate|].
  now intros [= <- <-].
Qed.

Lemma shl1_inv b w m w' :
  shl1 b w = Ret m w' -> w' = w /\ 0 <= b < 64 /\ m = Word.bit b.
Proof.
  unfold shl1. destruct (Z.leb_spec 0 b), (Z.ltb_spec b 64); try discriminate.
  cbn. intros [= <- <-]. repeat split; lia.
Qed.

(** One step of inversion on a hypothesis that says a run returned. *)
Ltac minv_step :=
  match goal with
  | H : bind _ _ _ = Ret _ _ |- _ =>
      let a := fresh "r" in let w1 := fresh "w" in let H1 := fresh "Hrun" in
      apply bind_inv in H as (a & w1 & H1 & H)
  | H : ret _ _ = Ret _ _ |- _ => apply ret_inv in H as [? ?]; subst
  | H : undef _ = Ret _ _ |- _ => discriminate H
  | H : abort _ = Ret _ _ |- _ => discriminate H
  | H : Ret _ _ = Ret _ _ |- _ => injection H as ? ?; subst
  | H : malloc_struct _ = Ret _ _ |- _ => apply malloc_struct_inv in H as [? ?]; subst
  | H : load_bitset _ _ = Ret _ _ |- _ => apply load_bitset_inv in H as [? ?]; subst
  | H : store_bitset _ _ _ = Ret _ _ |- _ =>
      apply store_bitset_inv in H as [? [? ?]]; subst
  | H : fresh_bitset _ _ = Ret _ _ |- _ => apply fresh_bitset_inv in H as [? ?]; subst
  | H : free_bitset_cell _ _ = Ret _ _ |- _ =>
      apply free_bitset_cell_inv in H as [? [? ?]]; subst
  | H : load_block _ _ = Ret _ _ |- _ => apply load_block_inv in H as [? ?]; subst
  | H : store_block _ _ _ = Ret _ _ |- _ =>
      apply store_block_inv in H as [? [? ?]]; subst
  | H : fresh_block _ _ = Ret _ _ |- _ => apply fresh_block_inv in H as [? ?]; subst
  | H : free_block_cell _ _ = Ret _ _ |- _ =>
      apply free_block_cell_inv in H as [? [? ?]]; subst
  | H : index _ _ _ = Ret _ _ |- _ => apply index_inv in H as (? & ? & ?); subst
  | H : deref _ _ = Ret _ _ |- _ => apply deref_inv in H as [? ?]; subst
  | H : DIVMOD _ _ _ = Ret _ _ |- _ => apply DIVMOD_inv in H as (? & ? & ?); subst
  | H : shl1 _ _ = Ret _ _ |- _ => apply shl1_inv in H as (? & ? & ?); subst
  | H : (if ?b then _ else _) _ = Ret _ _ |- _ => destruct b eqn:?
  | H : (let (_, _) := ?x in _) _ = Ret _ _ |- _ => destruct x eqn:?
  | H : (match ?x with _ => _ end) _ = Ret _ _ |- _ => destruct x eqn:?
  end.

Ltac minv := repeat (minv_step; cbn [fst snd] in * ).

(** ** Counting references *)

Arguments holds : simpl never.
Arguments cell_refs : simpl never.

Lemma holds_cases (q : ptr) (s : pointer) :
  (s = Some q /\ holds q s = 1%nat) \/ (s <> Some q /\ holds q s = 0%nat).
Proof.
  destruct s as [p|]; unfold holds; [|right; split; [discriminate | reflexivity]].
  destruct (Nat.eqb_spec p q) as [->|]; [left | right]; split; congruence.
Qed.

Lemma holds_same (q : ptr) : holds q (Some q) = 1%nat.
Proof. unfold holds. now rewrite Nat.eqb_refl. Qed.

Lemma holds_other (q p : ptr) : p <> q -> holds q (Some p) = 0%nat.
Proof. intros H. unfold holds. now destruct (Nat.eqb_spec p q). Qed.

Lemma slot_refs_app q (l1 l2 : list pointer) :
  slot_refs q (l1 ++ l2) = (slot_refs q l1 + slot_refs q l2)%nat.
Proof. induction l1 as [|s l1 IH]; simpl; [reflexivity | rewrite IH; lia]. Qed.

Lemma slot_refs_insert q (l : list pointer) (i : nat) (s v : pointer) :
  l !! i = Some s ->
  (slot_refs q (<[i := v]> l) + holds q s = slot_refs q l + holds q v)%nat.
Proof.
  revert i. induction l as [|x l IH]; intros [|i] H; try discriminate.
  - injection H as ->. simpl. lia.
  - simpl in H. specialize (IH _ H). simpl in *. lia.
Qed.

Lemma slot_refs_replicate_None q (n : nat) :
  slot_refs q (replicate n None) = 0%nat.
Proof. induction n; cbn; auto. Qed.

Lemma slot_refs_take_S q (l : list pointer) (i : nat) (s : pointer) :
  l !! i = Some s ->
  slot_refs q (take (S i) l) = (slot_refs q (take i l) + holds q s)%nat.
Proof.
  revert i. induction l as [|x l IH]; intros [|i] H; try discriminate.
  - injection H as ->. simpl. destruct l; simpl; lia.
  - simpl in H. specialize (IH _ H). simpl in *. lia.
Qed.

Lemma slot_refs_take_all q (l : list pointer) (n : nat) :
  (length l <= n)%nat -> slot_refs q (take n l) = slot_refs q l.
Proof. intros H. now rewrite take_ge. Qed.

Lemma slot_refs_lookup q (l : list pointer) (i : nat) :
  l !! i = Some (Some q) -> (0 < slot_refs q l)%nat.
Proof.
  revert i. induction l as [|x l IH]; intros [|i] H; try discriminate.
  - injection H as ->. simpl. rewrite holds_same. lia.
  - cbn in H. specialize (IH _ H). simpl. lia.
Qed.

Lemma slot_refs_pos q (l : list pointer) :
  (0 < slot_refs q l)%nat -> exists i, l !! i = Some (Some q).
Proof.
  induction l as [|x l IH]; simpl; [lia|]. intros H.
  destruct (holds_cases q x) as [[-> _]|[_ H0]].
  - now exists 0%nat.
  - destruct IH as [i Hi]; [lia|]. now exists (S i).
Qed.

Lemma owners_in_app q (c1 c2 : list (option bitset)) :
  owners_in q (c1 ++ c2) = (owners_in q c1 + owners_in q c2)%nat.
Proof. induction c1 as [|c c1 IH]; simpl; [reflexivity | rewrite IH; lia]. Qed.

Lemma owners_in_insert q (cells : list (option bitset)) (a : nat) c c' :
  cells !! a = Some c ->
  (owners_in q (<[a := c']> cells) + cell_refs q c
   = owners_in q cells + cell_refs q c')%nat.
Proof.
  revert a. induction cells as [|x cells IH]; intros [|a] H; try discriminate.
  - injection H as ->. simpl. lia.
  - simpl in H. specialize (IH _ H). simpl in *. lia.
Qed.

Lemma owners_in_lookup q (cells : list (option bitset)) (a : nat) c :
  cells !! a = Some c -> (cell_refs q c <= owners_in q cells)%nat.
Proof.
  revert a. induction cells as [|x cells IH]; intros [|a] H; try discriminate.
  - injection H as ->. simpl. lia.
  - simpl in H. specialize (IH _ H). simpl in *. lia.
Qed.

Lemma owners_in_pos q (cells : list (option bitset)) :
  (0 < owners_in q cells)%nat ->
  exists a c, cells !! a = Some c /\ (0 < cell_refs q c)%nat.
Proof.
  induction cells as [|x cells IH]; simpl; [lia|]. intros H.
  destruct (Nat.eq_dec (cell_refs q x) 0%nat) as [E|E].
  - destruct IH as (a & c & Ha & Hc); [lia|]. now exists (S a), c.
  - exists 0%nat, x. split; [reflexivity | lia].
Qed.

Lemma cell_refs_slot_write q (bs : bitset) (l : list pointer) (i : nat) s v :
  blocks bs = Some l -> l !! i = Some s ->
  (cell_refs q (Some (with_blocks (<[i := v]> l) bs)) + holds q s
   = cell_refs q (Some bs) + holds q v)%nat.
Proof. intros Hl Hs. unfold cell_refs, with_blocks. simpl. rewrite Hl. now apply slot_refs_insert. Qed.

Lemma rc_in_insert (bl : list (option bitset_block)) (p q : ptr) c :
  (p < length bl)%nat ->
  rc_in (<[p := c]> bl) q = if Nat.eqb q p then rc_of c else rc_in bl q.
Proof.
  intros Hp. unfold rc_in. destruct (Nat.eqb_spec q p) as [->|Hne].
  - now rewrite list_lookup_insert_eq.
  - now rewrite list_lookup_insert_ne.
Qed.

Lemma rc_in_app (bl : list (option bitset_block)) (q : ptr) B :
  rc_in (bl ++ [Some B]) q
  = if Nat.eqb q (length bl) then ref_count B else rc_in bl q.
Proof.
  unfold rc_in. destruct (Nat.eqb_spec q (length bl)) as [->|Hne].
  - rewrite lookup_app_r, Nat.sub_diag by lia. reflexivity.
  - destruct (Nat.lt_ge_cases q (length bl)).
    + now rewrite lookup_app_l.
    + rewrite !lookup_ge_None_2; [reflexivity | lia |].
      rewrite length_app. cbn. lia.
Qed.

Lemma rc_in_lookup (bl : list (option bitset_block)) (q : ptr) B :
  bl !! q = Some (Some B) -> rc_in bl q = ref_count B.
Proof. unfold rc_in. now intros ->. Qed.

Lemma rc_in_beyond (bl : list (option bitset_block)) (q : ptr) :
  (length bl <= q)%nat -> rc_in bl q = 0.
Proof. intros H. unfold rc_in. now rewrite lookup_ge_None_2. Qed.

Lemma refs_ok_rc_in (d : ptr -> Z) (w : world) :
  refs_ok d w <-> forall q, rc_in (blks w) q = Z.of_nat (owners w q) + d q.
Proof.
  unfold refs_ok, rc_in.
  split; intros H q; specialize (H q);
    destruct (blks w !! q) as [[B|]|]; cbn [rc_of] in *; lia.
Qed.

(** ** Runs of the helpers *)

Lemma insert_snoc {A} (l : list A) (x y : A) :
  <[length l := y]> (l ++ [x]) = l ++ [y].
Proof. induction l as [|z l IH]; simpl; [reflexivity | now rewrite IH]. Qed.

Lemma lookup_snoc {A} (l : list A) (x : A) : (l ++ [x]) !! length l = Some x.
Proof. rewrite lookup_app_r, Nat.sub_diag by lia. reflexivity. Qed.

Lemma insert_snoc_at {A} (l : list A) (n : nat) (x y : A) :
  n = length l -> <[n := y]> (l ++ [x]) = l ++ [y].
Proof. intros ->. apply insert_snoc. Qed.

Lemma lookup_snoc_at {A} (l : list A) (n : nat) (x : A) :
  n = length l -> (l ++ [x]) !! n = Some x.
Proof. intros ->. apply lookup_snoc. Qed.

Lemma w_blk_twice p c1 c2 w : w_blk p c2 (w_blk p c1 w) = w_blk p c2 w.
Proof. unfold w_blk. simpl. now rewrite list_insert_insert_eq. Qed.

Lemma w_blk_new c B w :
  w_blk (length (blks w)) (Some c) (w_newblk B w) = w_newblk c w.
Proof. unfold w_blk, w_newblk. simpl. now rewrite insert_snoc. Qed.

Lemma w_cell_twice a c1 c2 w : w_cell a c2 (w_cell a c1 w) = w_cell a c2 w.
Proof. unfold w_cell. simpl. now rewrite list_insert_insert_eq. Qed.

Lemma get_slot_inv a i w s w' :
  get_slot a i w = Ret s w' ->
  w' = w /\ exists bs l,
    bsets w !! a = Some (Some bs) /\ blocks bs = Some l
    /\ 0 <= i /\ l !! Z.to_nat i = Some s.
Proof. unfold get_slot. intros H. minv. eauto 10. Qed.

Lemma get_slot_run a i w bs l s :
  bsets w !! a = Some (Some bs) -> blocks bs = Some l ->
  0 <= i -> l !! Z.to_nat i = Some s ->
  get_slot a i w = Ret s w.
Proof.
  intros Ha Hl Hi Hs. unfold get_slot, bind, load_bitset, index.
  rewrite Ha, Hl. destruct (Z.ltb_spec i 0); [lia|]. now rewrite Hs.
Qed.

Lemma set_slot_inv a i v w u w' :
  set_slot a i v w = Ret u w' ->
  exists bs l s,
    bsets w !! a = Some (Some bs) /\ blocks bs = Some l
    /\ 0 <= i /\ l !! Z.to_nat i = Some s
    /\ w' = w_cell a (Some (with_blocks (<[Z.to_nat i := v]> l) bs)) w.
Proof. unfold set_slot. intros H. minv. eauto 10. Qed.

Lemma set_slot_run a i v w bs l s :
  bsets w !! a = Some (Some bs) -> blocks bs = Some l ->
  0 <= i -> l !! Z.to_nat i = Some s ->
  set_slot a i v w
  = Ret tt (w_cell a (Some (with_blocks (<[Z.to_nat i := v]> l) bs)) w).
Proof.
  intros Ha Hl Hi Hs. unfold set_slot, bind, load_bitset, index.
  rewrite Ha, Hl. destruct (Z.ltb_spec i 0); [lia|]. rewrite Hs.
  unfold store_bitset. now rewrite Ha.
Qed.

Lemma upd_block_inv p f w u w' :
  upd_block p f w = Ret u w' ->
  exists B, blks w !! p = Some (Some B) /\ w' = w_blk p (Some (f B)) w.
Proof. unfold upd_block. intros H. minv. eauto. Qed.

Lemma upd_block_run p f w B :
  blks w !! p = Some (Some B) ->
  upd_block p f w = Ret tt (w_blk p (Some (f B)) w).
Proof.
  intros Hp. unfold upd_block, bind, load_block. rewrite Hp.
  unfold store_block. now rewrite Hp.
Qed.

Lemma read_word_inv p n w x w' :
  read_word p n w = Ret x w' ->
  w' = w /\ exists B,
    blks w !! p = Some (Some B) /\ 0 <= n /\ ints B !! Z.to_nat n = Some x.
Proof. unfold read_word. intros H. minv. eauto. Qed.

Lemma read_word_run p n w B x :
  blks w !! p = Some (Some B) -> 0 <= n -> ints B !! Z.to_nat n = Some x ->
  read_word p n w = Ret x w.
Proof.
  intros Hp Hn Hx. unfold read_word, bind, load_block, index.
  rewrite Hp. destruct (Z.ltb_spec n 0); [lia|]. now rewrite Hx.
Qed.

Lemma write_word_inv p n v w u w' :
  write_word p n v w = Ret u w' ->
  exists B x,
    blks w !! p = Some (Some B) /\ 0 <= n /\ ints B !! Z.to_nat n = Some x
    /\ w' = w_blk p (Some (with_ints (<[Z.to_nat n := v]> (ints B)) B)) w.
Proof. unfold write_word. intros H. minv. eauto 10. Qed.

Lemma write_word_run p n v w B x :
  blks w !! p = Some (Some B) -> 0 <= n -> ints B !! Z.to_nat n = Some x ->
  write_word p n v w
  = Ret tt (w_blk p (Some (with_ints (<[Z.to_nat n := v]> (ints B)) B)) w).
Proof.
  intros Hp Hn Hx. unfold write_word, bind, load_block, index.
  rewrite Hp. destruct (Z.ltb_spec n 0); [lia|]. rewrite Hx.
  unfold store_block. now rewrite Hp.
Qed.

Lemma blks_w_blk_eq p c w :
  (p < length (blks w))%nat -> blks (w_blk p c w) !! p = Some c.
Proof. intros H. unfold w_blk. simpl. now apply list_lookup_insert_eq. Qed.

Lemma blks_w_blk_ne p q c w :
  p <> q -> blks (w_blk p c w) !! q = blks w !! q.
Proof. intros H. unfold w_blk. simpl. now apply list_lookup_insert_ne. Qed.

Lemma decref_inv p w u w' :
  bitset_block_decref p w = Ret u w' ->
  exists B, blks w !! p = Some (Some B) /\ w' = w_blk p (decref_cell B) w.
Proof.
  unfold bitset_block_decref. intros H.
  apply bind_inv in H as (? & w1 & (B & HB & ->)%upd_block_inv & H).
  apply bind_inv in H as (B1 & w2 & [-> HB1]%load_block_inv & H).
  rewrite blks_w_blk_eq in HB1 by (eapply lookup_lt_Some; eauto).
  injection HB1 as <-. exists B. split; [assumption|].
  unfold decref_cell. simpl in H.
  destruct (ref_count B - 1 =? 0); minv.
  - now rewrite w_blk_twice.
  - reflexivity.
Qed.

Lemma decref_run p w B :
  blks w !! p = Some (Some B) ->
  bitset_block_decref p w = Ret tt (w_blk p (decref_cell B) w).
Proof.
  intros HB. unfold bitset_block_decref.
  rewrite (bind_run _ _ _ _ _ (upd_block_run _ _ _ _ HB)).
  unfold bind at 1, load_block.
  rewrite blks_w_blk_eq by (eapply lookup_lt_Some; eauto).
  unfold decref_cell. simpl.
  destruct (ref_count B - 1 =? 0); [|reflexivity].
  unfold free_block_cell.
  rewrite blks_w_blk_eq by (eapply lookup_lt_Some; eauto).
  now rewrite w_blk_twice.
Qed.

Lemma incref_inv p w u w' :
  bitset_block_incref p w = Ret u w' ->
  exists B, blks w !! p = Some (Some B)
            /\ w' = w_blk p (Some (with_ref_count (ref_count B + 1) B)) w.
Proof. apply upd_block_inv. Qed.

Lemma block_new_inv n w r w' :
  bitset_block_new n w = Ret r w' ->
  (hd true (oracle w) = false /\ r = (ERRMEM, None)
   /\ w' = w_oracle (tl (oracle w)) w)
  \/ (hd true (oracle w) = true /\ r = (OK, Some (length (blks w)))
      /\ w' = w_newblk (raw_block n) (w_oracle (tl (oracle w)) w)).
Proof.
  unfold bitset_block_new. intros H. minv; [right | left]; auto.
Qed.

Lemma block_new_run n w :
  bitset_block_new n w
  = if hd true (oracle w)
    then Ret (OK, Some (length (blks w)))
             (w_newblk (raw_block n) (w_oracle (tl (oracle w)) w))
    else Ret (ERRMEM, None) (w_oracle (tl (oracle w)) w).
Proof.
  unfold bitset_block_new, bind, malloc_struct.
  destruct (hd true (oracle w)); reflexivity.
Qed.

Lemma assert_inv ndebug (c : M bool) w u w' :
  assert ndebug c w = Ret u w' ->
  (ndebug = true /\ w' = w) \/ (ndebug = false /\ c w = Ret true w').
Proof.
  unfold assert. destruct ndebug; intros H; minv; auto.
Qed.

Ltac hinv_step :=
  match goal with
  | H : get_slot _ _ _ = Ret _ _ |- _ =>
      apply get_slot_inv in H as (? & ? & ? & ? & ? & ? & ?); subst
  | H : set_slot _ _ _ _ = Ret _ _ |- _ =>
      apply set_slot_inv in H as (? & ? & ? & ? & ? & ? & ? & ?); subst
  | H : upd_block _ _ _ = Ret _ _ |- _ =>
      apply upd_block_inv in H as (? & ? & ?); subst
  | H : read_word _ _ _ = Ret _ _ |- _ =>
      apply read_word_inv in H as (? & ? & ? & ? & ?); subst
  | H : write_word _ _ _ _ = Ret _ _ |- _ =>
      apply write_word_inv in H as (? & ? & ? & ? & ? & ?); subst
  | H : bitset_block_decref _ _ = Ret _ _ |- _ =>
      apply decref_inv in H as (? & ? & ?); subst
  | H : bitset_block_incref _ _ = Ret _ _ |- _ =>
      apply incref_inv in H as (? & ? & ?); subst
  | H : bitset_block_new _ _ = Ret _ _ |- _ =>
      apply block_new_inv in H as [(? & ? & ?)|(? & ? & ?)]; subst
  | H : assert _ _ _ = Ret _ _ |- _ =>
      apply assert_inv in H as [[? ?]|[? H]]; subst
  end.

Ltac hinv := repeat (first [hinv_step | minv_step]; cbn [fst snd] in * ).

(** Lookups in a changed memory. *)
Lemma lookup_lt_length {A} (l : list A) (i : nat) (x : A) :
  l !! i = Some x -> (i < length l)%nat.
Proof. apply lookup_lt_Some. Qed.

Lemma decref_cell_Some B B' :
  decref_cell B = Some B' ->
  ref_count B - 1 <> 0 /\ B' = with_ref_count (ref_count B - 1) B.
Proof.
  unfold decref_cell. destruct (Z.eqb_spec (ref_count B - 1) 0); [discriminate|].
  now intros [= <-].
Qed.

Ltac splits := repeat match goal with |- _ /\ _ => split end.

Ltac lookup_facts :=
  repeat match goal with
  | H : ?l !! ?i = Some _ |- _ =>
      lazymatch goal with
      | _ : (i < length l)%nat |- _ => fail
      | _ => pose proof (lookup_lt_length _ _ _ H)
      end
  end.

Ltac solve_length :=
  rewrite ?length_insert, ?length_app, ?length_insert, ?length_replicate; simpl;
  first [ lia
        | eapply lookup_lt_Some; eassumption
        | lookup_facts; rewrite ?length_insert, ?length_app in *; simpl in *; lia ].

Ltac solve_length_eq :=
  rewrite ?length_insert; first [reflexivity | lia].

Ltac wsimpl_step :=
  match goal with
  | H : context [<[?i := _]> (<[?i := _]> _)] |- _ =>
      rewrite list_insert_insert_eq in H
  | |- context [<[?i := _]> (<[?i := _]> _)] =>
      rewrite list_insert_insert_eq
  | H : context [<[?n := _]> (?l ++ [_])] |- _ =>
      rewrite (insert_snoc_at l n) in H by solve_length_eq
  | |- context [<[?n := _]> (?l ++ [_])] =>
      rewrite (insert_snoc_at l n) by solve_length_eq
  | H : context [(?l ++ [_]) !! ?n] |- _ =>
      rewrite (lookup_snoc_at l n) in H by solve_length_eq
  | |- context [(?l ++ [_]) !! ?n] =>
      rewrite (lookup_snoc_at l n) by solve_length_eq
  | H : context [<[?i := _]> ?l !! ?i] |- _ =>
      rewrite list_lookup_insert_eq in H by solve_length
  | |- context [<[?i := _]> ?l !! ?i] =>
      rewrite list_lookup_insert_eq by solve_length
  | H : context [length (<[_ := _]> _)] |- _ => rewrite length_insert in H
  | |- context [length (<[_ := _]> _)] => rewrite length_insert
  | H : context [(?l ++ _) !! ?i] |- _ =>
      rewrite (lookup_app_l l) in H by solve_length
  | |- context [(?l ++ _) !! ?i] =>
      rewrite (lookup_app_l l) by solve_length
  | H : ?x = ?x |- _ => clear H
  | H : Some _ = Some _ |- _ => injection H as H; try subst
  | H1 : ?x = Some _, H2 : ?x = Some _ |- _ =>
      let E := fresh "E" in
      pose proof (eq_trans (eq_sym H1) H2) as E; clear H2
  | H : decref_cell _ = Some _ |- _ => apply decref_cell_Some in H as [? ?]; subst
  end.

Ltac wsimpl :=
  unfold w_blk, w_cell, w_newblk, w_newset, w_oracle in *;
  repeat first
    [ progress cbn [bsets blks oracle blocks with_blocks bitcount block_count
                    ints ref_count set_count with_ints with_ref_count
                    with_set_count] in *
    | wsimpl_step ].

Section HelperRuns.

Variable BLOCKSIZE : nat.
Variable NDEBUG : bool.

Lemma alloc_inv a i w r w' :
  bitset_block_alloc BLOCKSIZE NDEBUG a i w = Ret r w' ->
  (hd true (oracle w) = false /\ r = (ERRMEM, None)
   /\ w' = w_oracle (tl (oracle w)) w)
  \/ (hd true (oracle w) = true /\ r = (OK, Some (length (blks w)))
      /\ exists bs l s,
          bsets w !! a = Some (Some bs) /\ blocks bs = Some l
          /\ 0 <= i /\ l !! Z.to_nat i = Some s
          /\ (NDEBUG = false -> s = None)
          /\ w' = w_cell a (Some (with_blocks (<[Z.to_nat i := Some (length (blks w))]> l) bs))
                    (w_newblk (zero_block BLOCKSIZE) (w_oracle (tl (oracle w)) w))).
Proof.
  unfold bitset_block_alloc. intros H. hinv; try discriminate.
  - left. auto.
  - right. wsimpl. splits; try assumption; try reflexivity.
    do 3 eexists. splits; try eassumption; try reflexivity. congruence.
  - right. wsimpl. splits; try assumption; try reflexivity.
    do 3 eexists. splits; try eassumption; try reflexivity.
    intros _. now destruct x2.
Qed.

Lemma realloc_inv a i w r w' :
  bitset_block_realloc BLOCKSIZE NDEBUG a i w = Ret r w' ->
  exists bs l p B,
    bsets w !! a = Some (Some bs) /\ blocks bs = Some l
    /\ 0 <= i /\ l !! Z.to_nat i = Some (Some p)
    /\ blks w !! p = Some (Some B)
    /\ (NDEBUG = false -> 1 < ref_count B)
    /\ ((hd true (oracle w) = false /\ r = (ERRMEM, None)
         /\ w' = w_cell a (Some (with_blocks (<[Z.to_nat i := None]> l) bs))
                   (w_blk p (decref_cell B) (w_oracle (tl (oracle w)) w)))
        \/ (hd true (oracle w) = true /\ r = (OK, Some (length (blks w)))
            /\ ref_count B - 1 <> 0
            /\ w' = w_cell a (Some (with_blocks (<[Z.to_nat i := Some (length (blks w))]> l) bs))
                      (w_newblk (mk_block 1 (set_count B) (ints B))
                         (w_blk p (decref_cell B) (w_oracle (tl (oracle w)) w))))).
Proof.
  unfold bitset_block_realloc. intros H. hinv; try discriminate.
  all: wsimpl.
  all: do 4 eexists; splits; try eassumption.
  all: try (intros; discriminate).
  all: try (intros _; apply Z.ltb_lt; congruence).
  all: first [ left; splits; [assumption | reflexivity | reflexivity]
             | right; splits; [assumption | reflexivity | assumption | reflexivity] ].
Qed.

(** Bits of a block *)

Lemma set_bit_inv p bit w u w' :
  bitset_block_set_bit p bit w = Ret u w' ->
  exists B x,
    blks w !! p = Some (Some B)
    /\ 0 <= Z.quot bit 64 /\ ints B !! Z.to_nat (Z.quot bit 64) = Some x
    /\ 0 <= Z.rem bit 64 < 64
    /\ w' = w_blk p (Some (mk_block (ref_count B) (set_count B + 1)
                     (<[Z.to_nat (Z.quot bit 64)
                        := Z.lor x (Word.bit (Z.rem bit 64))]> (ints B)))) w.
Proof.
  unfold bitset_block_set_bit. intros H. hinv. wsimpl.
  do 2 eexists. splits; try eassumption; try lia. reflexivity.
Qed.

Lemma clr_bit_inv p bit w u w' :
  bitset_block_clr_bit p bit w = Ret u w' ->
  exists B x,
    blks w !! p = Some (Some B)
    /\ 0 <= Z.quot bit 64 /\ ints B !! Z.to_nat (Z.quot bit 64) = Some x
    /\ 0 <= Z.rem bit 64 < 64
    /\ w' = w_blk p (Some (mk_block (ref_count B) (set_count B - 1)
                     (<[Z.to_nat (Z.quot bit 64)
                        := Z.land x (Word.not (Word.bit (Z.rem bit 64)))]> (ints B)))) w.
Proof.
  unfold bitset_block_clr_bit. intros H. hinv. wsimpl.
  do 2 eexists. splits; try eassumption; try lia. reflexivity.
Qed.

Lemma toggle_bit_inv p bit w u w' :
  bitset_block_toggle_bit p bit w = Ret u w' ->
  exists B x,
    blks w !! p = Some (Some B)
    /\ 0 <= Z.quot bit 64 /\ ints B !! Z.to_nat (Z.quot bit 64) = Some x
    /\ 0 <= Z.rem bit 64 < 64
    /\ w' = w_blk p (Some (mk_block (ref_count B)
                     (set_count B + (if Z.testbit x (Z.rem bit 64) then -1 else 1))
                     (<[Z.to_nat (Z.quot bit 64)
                        := Z.lxor x (Word.bit (Z.rem bit 64))]> (ints B)))) w.
Proof.
  unfold bitset_block_toggle_bit. intros H. hinv; wsimpl.
  all: do 2 eexists; splits; try eassumption; try lia.
  all: match goal with
       | H : (Z.land _ _ =? 0) = _ |- _ =>
           rewrite WordFacts.land_bit_eqb, WordFacts.testbit_toggle, Z.eqb_refl in H by lia;
           destruct (Z.testbit _ _); try discriminate H
       end.
  all: reflexivity.
Qed.

Lemma test_bit_inv p bit w t w' :
  bitset_block_test_bit p bit w = Ret t w' ->
  w' = w /\
  exists B x,
    blks w !! p = Some (Some B)
    /\ 0 <= Z.quot bit 64 /\ ints B !! Z.to_nat (Z.quot bit 64) = Some x
    /\ 0 <= Z.rem bit 64 < 64
    /\ t = if Z.testbit x (Z.rem bit 64) then 1 else 0.
Proof.
  unfold bitset_block_test_bit. intros H. hinv. split; [reflexivity|].
  do 2 eexists. splits; try eassumption; try lia.
  rewrite WordFacts.land_bit_eqb by lia. now destruct (Z.testbit _ _).
Qed.

(** Word loops *)

Lemma world_eta w : mk_world (bsets w) (blks w) (oracle w) = w.
Proof. now destruct w. Qed.

Lemma w_blk_same p c w : blks w !! p = Some c -> w_blk p c w = w.
Proof.
  intros H. unfold w_blk. rewrite list_insert_id by assumption.
  apply world_eta.
Qed.

Lemma assert_run (c : M bool) w b :
  c w = Ret b w ->
  assert NDEBUG c w = if NDEBUG || b then Ret tt w else Abort.
Proof.
  intros H. unfold assert. destruct NDEBUG; [reflexivity|].
  unfold bind. rewrite H. now destruct b.
Qed.

Lemma load_block_run p w B :
  blks w !! p = Some (Some B) -> load_block p w = Ret B w.
Proof. intros H. unfold load_block. now rewrite H. Qed.

Lemma load_bitset_run a w bs :
  bsets w !! a = Some (Some bs) -> load_bitset a w = Ret bs w.
Proof. intros H. unfold load_bitset. now rewrite H. Qed.

Lemma combine_loop_run (op : Z -> Z -> Z) (a b : ptr) rc sc :
  forall (n : nat) (xs ys done ydone : list Z) (c : Z) (w : world),
    length xs = n -> length ys = n -> length ydone = length done ->
    blks w !! a = Some (Some (mk_block rc sc (done ++ xs))) ->
    (a = b /\ ys = xs
     \/ a <> b /\ exists B, blks w !! b = Some (Some B) /\ ints B = ydone ++ ys) ->
    for_acc n (Z.of_nat (length done))
      (fun i c =>
         let* x := read_word a i in
         let* y := read_word b i in
         write_word a i (op x y) ;;;
         let* z := read_word a i in
         ret (c + Word.popcountll z)) c w
    = Ret (c + popcount_list (zip_with op xs ys))
          (w_blk a (Some (mk_block rc sc (done ++ zip_with op xs ys))) w).
Proof.
  induction n as [|n IH]; intros xs ys done ydone c w Hx Hy Hd Ha Hb.
  - destruct xs, ys; try discriminate. simpl.
    rewrite w_blk_same by assumption. unfold ret. f_equal. lia.
  - destruct xs as [|x xs], ys as [|y ys]; try discriminate.
    injection Hx as Hx. injection Hy as Hy.
    assert ((done ++ x :: xs) !! length done = Some x) as Hlx
      by (rewrite lookup_app_r, Nat.sub_diag by lia; reflexivity).
    assert (read_word b (Z.of_nat (length done)) w = Ret y w) as Hry.
    { destruct Hb as [[<- [= -> ->]]|(Hne & B & HB & HBi)].
      - eapply read_word_run; [eassumption | lia |].
        rewrite Nat2Z.id. exact Hlx.
      - eapply read_word_run; [eassumption | lia |].
        rewrite Nat2Z.id, HBi, <- Hd.
        rewrite lookup_app_r, Nat.sub_diag by lia. reflexivity. }
    cbn [for_acc].
    erewrite bind_run; cycle 1.
    { erewrite bind_run; cycle 1.
      { eapply read_word_run; [eassumption | lia |].
        rewrite Nat2Z.id. exact Hlx. }
      erewrite bind_run by exact Hry.
      erewrite bind_run; cycle 1.
      { eapply write_word_run; [eassumption | lia |].
        rewrite Nat2Z.id. exact Hlx. }
      erewrite bind_run; cycle 1.
      { eapply read_word_run; [ | lia | ].
        - apply blks_w_blk_eq. eapply lookup_lt_Some; eassumption.
        - cbn [ints with_ints]. rewrite Nat2Z.id.
          apply list_lookup_insert_eq. rewrite length_app. simpl. lia. }
      reflexivity. }
    rewrite Nat2Z.id. cbn [ints with_ints ref_count set_count].
    replace (<[length done := op x y]> (done ++ x :: xs))
      with ((done ++ [op x y]) ++ xs).
    2:{ rewrite insert_app_r_alt, Nat.sub_diag by lia. simpl.
        now rewrite <- app_assoc. }
    replace (Z.of_nat (length done) + 1) with (Z.of_nat (length (done ++ [op x y])))
      by (rewrite length_app; simpl; lia).
    rewrite (IH xs ys (done ++ [op x y]) (ydone ++ [y])); try assumption.
    + rewrite w_blk_twice. simpl. rewrite <- app_assoc. simpl.
      f_equal. lia.
    + rewrite !length_app. simpl. lia.
    + apply blks_w_blk_eq. eapply lookup_lt_Some; eassumption.
    + destruct Hb as [[<- [= -> ->]]|(Hne & B & HB & HBi)].
      * left. auto.
      * right. split; [assumption|]. exists B.
        rewrite blks_w_blk_ne by assumption. split; [assumption|].
        now rewrite HBi, <- app_assoc.
Qed.

Lemma block_combine_run (op : Z -> Z -> Z) (a b : ptr) w A B :
  blks w !! a = Some (Some A) -> blks w !! b = Some (Some B) ->
  length (ints A) = BLOCKSIZE -> length (ints B) = BLOCKSIZE ->
  block_combine BLOCKSIZE NDEBUG op a b w
  = if NDEBUG || (ref_count A =? 1)
    then Ret tt (w_blk a (Some (mk_block (ref_count A)
                   (popcount_list (zip_with op (ints A) (ints B)))
                   (zip_with op (ints A) (ints B)))) w)
    else Abort.
Proof.
  intros HA HB HlA HlB. unfold block_combine.
  unfold bind at 1. erewrite assert_run; cycle 1.
  { erewrite bind_run by (apply load_block_run; eassumption). reflexivity. }
  destruct (NDEBUG || (ref_count A =? 1)); [|reflexivity].
  pose proof (combine_loop_run op a b (ref_count A) (set_count A) BLOCKSIZE
                (ints A) (ints B) [] [] 0 w HlA HlB eq_refl) as Hloop.
  simpl in Hloop. erewrite bind_run; cycle 1.
  { apply Hloop.
    - now destruct A.
    - destruct (Nat.eq_dec a b) as [<-|Hne].
      + left. split; [reflexivity|]. congruence.
      + right. split; [assumption|]. eauto. }
  erewrite upd_block_run
    by (apply blks_w_blk_eq; eapply lookup_lt_Some; eassumption).
  now rewrite w_blk_twice.
Qed.

Lemma invert_loop_run (b : ptr) rc sc :
  forall (n : nat) (xs done : list Z) (w : world),
    length xs = n ->
    blks w !! b = Some (Some (mk_block rc sc (done ++ xs))) ->
    for_acc n (Z.of_nat (length done))
      (fun i (_ : unit) =>
         let* x := read_word b i in write_word b i (Word.not x)) tt w
    = Ret tt (w_blk b (Some (mk_block rc sc (done ++ map Word.not xs))) w).
Proof.
  induction n as [|n IH]; intros xs done w Hx Hb.
  - destruct xs; try discriminate. simpl.
    now rewrite w_blk_same by assumption.
  - destruct xs as [|x xs]; try discriminate. injection Hx as Hx.
    assert ((done ++ x :: xs) !! length done = Some x) as Hlx
      by (rewrite lookup_app_r, Nat.sub_diag by lia; reflexivity).
    cbn [for_acc].
    erewrite bind_run; cycle 1.
    { erewrite bind_run; cycle 1.
      { eapply read_word_run; [eassumption | lia |].
        rewrite Nat2Z.id. exact Hlx. }
      eapply write_word_run; [eassumption | lia |].
      rewrite Nat2Z.id. exact Hlx. }
    rewrite Nat2Z.id. cbn [ints with_ints ref_count set_count].
    replace (<[length done := Word.not x]> (done ++ x :: xs))
      with ((done ++ [Word.not x]) ++ xs).
    2:{ rewrite insert_app_r_alt, Nat.sub_diag by lia. simpl.
        now rewrite <- app_assoc. }
    replace (Z.of_nat (length done) + 1)
      with (Z.of_nat (length (done ++ [Word.not x])))
      by (rewrite length_app; simpl; lia).
    rewrite (IH xs (done ++ [Word.not x])); try assumption.
    + rewrite w_blk_twice. simpl. now rewrite <- app_assoc.
    + apply blks_w_blk_eq. eapply lookup_lt_Some; eassumption.
Qed.

Lemma block_invert_run (b : ptr) w B :
  blks w !! b = Some (Some B) -> length (ints B) = BLOCKSIZE ->
  bitset_block_invert BLOCKSIZE NDEBUG b w
  = if NDEBUG || (ref_count B =? 1)
    then Ret tt (w_blk b (Some (mk_block (ref_count B)
                   (IDSPERBLOCK BLOCKSIZE - set_count B)
                   (map Word.not (ints B)))) w)
    else Abort.
Proof.
  intros HB HlB. unfold bitset_block_invert.
  unfold bind at 1. erewrite assert_run; cycle 1.
  { erewrite bind_run by (apply load_block_run; eassumption). reflexivity. }
  destruct (NDEBUG || (ref_count B =? 1)); [|reflexivity].
  pose proof (invert_loop_run b (ref_count B) (set_count B) BLOCKSIZE
                (ints B) [] w HlB) as Hloop.
  simpl in Hloop. erewrite bind_run; cycle 1.
  { apply Hloop. now destruct B. }
  erewrite upd_block_run
    by (apply blks_w_blk_eq; eapply lookup_lt_Some; eassumption).
  now rewrite w_blk_twice.
Qed.

End HelperRuns.

(** ** Blocks stay well formed *)

Lemma popcount_list_insert (l : list Z) (n : nat) (x y : Z) :
  l !! n = Some x ->
  popcount_list (<[n := y]> l)
  = popcount_list l - Word.popcountll x + Word.popcountll y.
Proof.
  revert n. induction l as [|z l IH]; intros [|n] H; try discriminate.
  - injection H as ->. simpl. lia.
  - simpl in H. specialize (IH _ H). simpl in *. lia.
Qed.

Lemma popcount_list_replicate (n : nat) (x : Z) :
  popcount_list (replicate n x) = Z.of_nat n * Word.popcountll x.
Proof. induction n as [|n IH]; simpl popcount_list; [lia | rewrite IH; lia]. Qed.

Lemma popcount_list_not (l : list Z) :
  popcount_list (map Word.not l) = 64 * Z.of_nat (length l) - popcount_list l.
Proof.
  induction l as [|x l IH]; [reflexivity|].
  cbn [map popcount_list length]. rewrite IH, WordFacts.popcountll_not. lia.
Qed.

Lemma popcount_list_bounds (l : list Z) :
  0 <= popcount_list l <= 64 * Z.of_nat (length l).
Proof.
  induction l as [|x l IH]; cbn [popcount_list length]; [lia|].
  pose proof (WordFacts.popcountll_bounds x). lia.
Qed.

Lemma popcountll_zero : Word.popcountll 0 = 0.
Proof. reflexivity. Qed.

Lemma popcountll_all_ones : Word.popcountll Word.all_ones = 64.
Proof. reflexivity. Qed.

Section BlockFacts.

Variable BLOCKSIZE : nat.

Lemma block_ok_rc (B : bitset_block) (rc : Z) :
  block_ok BLOCKSIZE B -> block_ok BLOCKSIZE (mk_block rc (set_count B) (ints B)).
Proof. intros [H1 H2 H3]. now constructor. Qed.

Lemma block_ok_zero (rc : Z) :
  block_ok BLOCKSIZE (mk_block rc 0 (replicate BLOCKSIZE 0)).
Proof.
  constructor; cbn [ints set_count].
  - apply length_replicate.
  - apply Forall_replicate. unfold Word.in_range. lia.
  - rewrite popcount_list_replicate, popcountll_zero. lia.
Qed.

Lemma block_ok_ones (rc : Z) :
  block_ok BLOCKSIZE
    (mk_block rc (IDSPERBLOCK BLOCKSIZE) (replicate BLOCKSIZE Word.all_ones)).
Proof.
  constructor; cbn [ints set_count].
  - apply length_replicate.
  - apply Forall_replicate. unfold Word.in_range. cbv. split; congruence.
  - rewrite popcount_list_replicate, popcountll_all_ones.
    unfold IDSPERBLOCK. lia.
Qed.

Lemma block_ok_word (B : bitset_block) (n : nat) (x y : Z) (k rc : Z) :
  block_ok BLOCKSIZE B -> ints B !! n = Some x ->
  Word.in_range y -> Word.popcountll y = Word.popcountll x + k ->
  block_ok BLOCKSIZE (mk_block rc (set_count B + k) (<[n := y]> (ints B))).
Proof.
  intros [H1 H2 H3] Hx Hy Hk. constructor; cbn [ints set_count].
  - now rewrite length_insert.
  - now apply Forall_insert.
  - rewrite (popcount_list_insert _ _ x) by assumption. lia.
Qed.

Lemma block_ok_set (B : bitset_block) (n : nat) (x b rc : Z) :
  block_ok BLOCKSIZE B -> ints B !! n = Some x -> 0 <= b < 64 ->
  Z.testbit x b = false ->
  block_ok BLOCKSIZE (mk_block rc (set_count B + 1)
                        (<[n := Z.lor x (Word.bit b)]> (ints B))).
Proof.
  intros HB Hx Hb Ht. eapply block_ok_word; try eassumption.
  - apply WordFacts.lor_in_range; [|now apply WordFacts.bit_in_range].
    destruct HB as [_ Hw _]. eapply Forall_lookup_1; eassumption.
  - now apply WordFacts.popcountll_set.
Qed.

Lemma block_ok_clr (B : bitset_block) (n : nat) (x b rc : Z) :
  block_ok BLOCKSIZE B -> ints B !! n = Some x -> 0 <= b < 64 ->
  Z.testbit x b = true ->
  block_ok BLOCKSIZE (mk_block rc (set_count B - 1)
                        (<[n := Z.land x (Word.not (Word.bit b))]> (ints B))).
Proof.
  intros HB Hx Hb Ht.
  change (set_count B - 1) with (set_count B + (-1)).
  eapply block_ok_word; try eassumption.
  - apply WordFacts.land_in_range.
    destruct HB as [_ Hw _]. eapply Forall_lookup_1; eassumption.
  - rewrite WordFacts.popcountll_clr by assumption. lia.
Qed.

Lemma block_ok_toggle (B : bitset_block) (n : nat) (x b rc : Z) :
  block_ok BLOCKSIZE B -> ints B !! n = Some x -> 0 <= b < 64 ->
  block_ok BLOCKSIZE
    (mk_block rc
              (set_count B + (if Z.testbit x b then -1 else 1))
              (<[n := Z.lxor x (Word.bit b)]> (ints B))).
Proof.
  intros HB Hx Hb. eapply block_ok_word; try eassumption.
  - apply WordFacts.lxor_in_range; [|now apply WordFacts.bit_in_range].
    destruct HB as [_ Hw _]. eapply Forall_lookup_1; eassumption.
  - now apply WordFacts.popcountll_toggle.
Qed.

Lemma block_ok_combine (op : Z -> Z -> Z) (A B : bitset_block) (rc : Z) :
  (forall x y, Word.in_range x -> Word.in_range y -> Word.in_range (op x y)) ->
  block_ok BLOCKSIZE A -> block_ok BLOCKSIZE B ->
  block_ok BLOCKSIZE
    (mk_block rc (popcount_list (zip_with op (ints A) (ints B)))
              (zip_with op (ints A) (ints B))).
Proof.
  intros Hop [HA1 HA2 _] [HB1 HB2 _]. constructor; cbn [ints set_count].
  - rewrite length_zip_with; lia.
  - revert HA2 HB2. generalize (ints A) (ints B). clear -Hop.
    intros xs. induction xs as [|x xs IH]; intros [|y ys] Hx Hy; simpl;
      try constructor.
    + inversion Hx; inversion Hy; subst. now apply Hop.
    + inversion Hx; inversion Hy; subst. now apply IH.
  - reflexivity.
Qed.

Lemma block_ok_invert (B : bitset_block) (rc : Z) :
  block_ok BLOCKSIZE B ->
  block_ok BLOCKSIZE
    (mk_block rc (IDSPERBLOCK BLOCKSIZE - set_count B)
              (map Word.not (ints B))).
Proof.
  intros [H1 H2 H3]. constructor; cbn [ints set_count].
  - now rewrite length_map.
  - apply Forall_map. eapply Forall_impl; [exact H2|].
    intros x _. apply WordFacts.not_in_range.
  - rewrite popcount_list_not, H1, H3. reflexivity.
Qed.

Lemma block_okb_sound (B : bitset_block) :
  block_okb BLOCKSIZE B = true -> block_ok BLOCKSIZE B.
Proof.
  unfold block_okb. rewrite !andb_true_iff.
  intros [[H1 H2] H3]. constructor.
  - now apply Nat.eqb_eq.
  - apply Forall_forall. intros x Hx%list_elem_of_In.
    apply WordFacts.in_rangeb_spec. rewrite forallb_forall in H2. auto.
  - now apply Z.eqb_eq.
Qed.

End BlockFacts.

(** ** The invariant under the elementary changes *)

Section InvariantSteps.

Variable BLOCKSIZE : nat.

Abbreviation inv := (inv BLOCKSIZE).
Abbreviation bitset_ok := (bitset_ok BLOCKSIZE).
Abbreviation block_good := (block_good BLOCKSIZE).

Lemma world_ok_inv (w : world) : world_ok BLOCKSIZE w <-> inv no_debt w.
Proof.
  unfold inv. split.
  - intros [H1 H2 H3 H4]. split; [|split]; [assumption | |].
    + apply Forall_lookup. intros a [bs|] Ha; simpl; eauto.
    + apply Forall_lookup. intros p [B|] Hp; simpl; [|exact I].
      split; eauto.
  - intros (H1 & H2 & H3). constructor; [|assumption| |].
    + intros a bs Ha. apply (Forall_lookup_1 _ _ _ _ H2 Ha).
    + intros p B Hp. apply (Forall_lookup_1 _ _ _ _ H3 Hp).
    + intros p B Hp. apply (Forall_lookup_1 _ _ _ _ H3 Hp).
Qed.

Lemma inv_ext (d d' : ptr -> Z) (w : world) :
  inv d w -> (forall q, d' q = d q) -> inv d' w.
Proof.
  intros (H1 & H2 & H3) Hd. (split; [|split]); try assumption.
  apply refs_ok_rc_in. intros q. rewrite Hd.
  now apply refs_ok_rc_in.
Qed.

Lemma inv_oracle (d : ptr -> Z) (w : world) (o : list bool) :
  inv d w -> inv d (mk_world (bsets w) (blks w) o).
Proof. intros H. exact H. Qed.

Lemma inv_blk (d : ptr -> Z) (w : world) (o : list bool) p B c :
  inv d w -> blks w !! p = Some (Some B) -> cell_pred block_good c ->
  inv (fun q => d q + if Nat.eqb q p then rc_of c - ref_count B else 0)
      (mk_world (bsets w) (<[p := c]> (blks w)) o).
Proof.
  intros (H1 & H2 & H3) Hp Hc. (split; [|split]); simpl.
  - apply refs_ok_rc_in. intros q. simpl.
    rewrite rc_in_insert by (eapply lookup_lt_Some; eassumption).
    rewrite refs_ok_rc_in in H1. specialize (H1 q).
    unfold owners in *. simpl.
    destruct (Nat.eqb_spec q p) as [->|]; [|lia].
    rewrite (rc_in_lookup _ _ _ Hp) in H1. lia.
  - assumption.
  - now apply Forall_insert.
Qed.

Lemma inv_newblk (d : ptr -> Z) (w : world) (o : list bool) B :
  inv d w -> block_good B ->
  inv (fun q => d q + if Nat.eqb q (length (blks w)) then ref_count B else 0)
      (mk_world (bsets w) (blks w ++ [Some B]) o).
Proof.
  intros (H1 & H2 & H3) HB. (split; [|split]); simpl.
  - apply refs_ok_rc_in. intros q. simpl. rewrite rc_in_app.
    rewrite refs_ok_rc_in in H1. specialize (H1 q).
    unfold owners in *. simpl.
    destruct (Nat.eqb_spec q (length (blks w))) as [->|]; [|lia].
    rewrite rc_in_beyond in H1 by lia. lia.
  - assumption.
  - apply Forall_app. split; [assumption|]. constructor; [exact HB | constructor].
Qed.

Lemma inv_cell (d : ptr -> Z) (w : world) (o : list bool) a c c' :
  inv d w -> bsets w !! a = Some c -> cell_pred bitset_ok c' ->
  inv (fun q => d q + Z.of_nat (cell_refs q c) - Z.of_nat (cell_refs q c'))
      (mk_world (<[a := c']> (bsets w)) (blks w) o).
Proof.
  intros (H1 & H2 & H3) Ha Hc. (split; [|split]); simpl.
  - apply refs_ok_rc_in. intros q. simpl.
    rewrite refs_ok_rc_in in H1. specialize (H1 q).
    unfold owners in *. simpl.
    pose proof (owners_in_insert q _ _ _ c' Ha). lia.
  - now apply Forall_insert.
  - assumption.
Qed.

Lemma bitset_ok_slot (bs : bitset) (l : list pointer) (i : nat) (v : pointer) :
  bitset_ok bs -> blocks bs = Some l ->
  bitset_ok (with_blocks (<[i := v]> l) bs).
Proof.
  intros (l' & Hl' & Hlen & Hbc & Hr) Hl.
  rewrite Hl in Hl'. injection Hl' as <-.
  exists (<[i := v]> l). simpl. rewrite length_insert. auto.
Qed.

Lemma inv_slot (d : ptr -> Z) (w : world) (o : list bool) a bs l i s v :
  inv d w -> bsets w !! a = Some (Some bs) -> blocks bs = Some l ->
  l !! i = Some s ->
  inv (fun q => d q + Z.of_nat (holds q s) - Z.of_nat (holds q v))
      (mk_world (<[a := Some (with_blocks (<[i := v]> l) bs)]> (bsets w))
                (blks w) o).
Proof.
  intros H Ha Hl Hs.
  eapply inv_ext.
  - eapply (inv_cell _ _ o); [exact H | exact Ha |].
    simpl. eapply bitset_ok_slot; [|exact Hl].
    destruct H as (_ & H2 & _). apply (Forall_lookup_1 _ _ _ _ H2 Ha).
  - intros q. simpl.
    pose proof (cell_refs_slot_write q bs l i s v Hl Hs). lia.
Qed.

Lemma inv_newcell (d : ptr -> Z) (w : world) (o : list bool) c :
  inv d w -> cell_pred bitset_ok c ->
  inv (fun q => d q - Z.of_nat (cell_refs q c))
      (mk_world (bsets w ++ [c]) (blks w) o).
Proof.
  intros (H1 & H2 & H3) Hbs. (split; [|split]); simpl.
  - apply refs_ok_rc_in. intros q. simpl.
    rewrite refs_ok_rc_in in H1. specialize (H1 q).
    unfold owners in *. simpl. rewrite owners_in_app. simpl. lia.
  - apply Forall_app. split; [assumption|]. constructor; [exact Hbs | constructor].
  - assumption.
Qed.

(** What the invariant says about one slot. *)
Lemma inv_bitset (d : ptr -> Z) (w : world) a bs :
  inv d w -> bsets w !! a = Some (Some bs) -> bitset_ok bs.
Proof. intros (_ & H2 & _) Ha. apply (Forall_lookup_1 _ _ _ _ H2 Ha). Qed.

Lemma inv_block (d : ptr -> Z) (w : world) p B :
  inv d w -> blks w !! p = Some (Some B) -> block_good B.
Proof. intros (_ & _ & H3) Hp. apply (Forall_lookup_1 _ _ _ _ H3 Hp). Qed.

Lemma owners_slot (w : world) a bs l i p :
  bsets w !! a = Some (Some bs) -> blocks bs = Some l ->
  l !! i = Some (Some p) -> (0 < owners w p)%nat.
Proof.
  intros Ha Hl Hi. unfold owners.
  pose proof (owners_in_lookup p _ _ _ Ha) as H.
  unfold cell_refs in H. rewrite Hl in H.
  pose proof (slot_refs_lookup _ _ _ Hi). lia.
Qed.

(** A block that a slot points to is live. *)
Lemma slot_live (w : world) a bs l i p :
  inv no_debt w ->
  bsets w !! a = Some (Some bs) -> blocks bs = Some l ->
  l !! i = Some (Some p) ->
  exists B, blks w !! p = Some (Some B)
            /\ ref_count B = Z.of_nat (owners w p) /\ block_good B.
Proof.
  intros H Ha Hl Hi. pose proof (owners_slot _ _ _ _ _ _ Ha Hl Hi) as Ho.
  destruct H as (H1 & H2 & H3). specialize (H1 p). unfold no_debt in H1.
  destruct (blks w !! p) as [[B|]|] eqn:Hp; try lia.
  exists B. splits; [reflexivity | lia |].
  apply (Forall_lookup_1 _ _ _ _ H3 Hp).
Qed.

(** *** The changes the library makes to one slot *)

Lemma rc_of_decref_cell (B : bitset_block) :
  rc_of (decref_cell B) = ref_count B - 1.
Proof.
  unfold decref_cell. destruct (Z.eqb_spec (ref_count B - 1) 0); simpl; lia.
Qed.

Lemma block_good_decref (B : bitset_block) :
  block_good B -> cell_pred block_good (decref_cell B).
Proof.
  intros [Hrc Hok]. unfold decref_cell.
  destruct (Z.eqb_spec (ref_count B - 1) 0); simpl; [exact I|].
  split; simpl; [lia|]. now apply block_ok_rc.
Qed.

Ltac debt_solve :=
  let q := fresh "q" in
  intros q; unfold no_debt, holds; simpl;
  rewrite ?rc_of_decref_cell; simpl;
  repeat match goal with
         | |- context [Nat.eqb ?a ?b] => destruct (Nat.eqb_spec a b)
         end;
  subst; first [lia | congruence | exfalso; lia | exfalso; congruence].

Lemma inv_modify (w : world) (o : list bool) p B B' :
  inv no_debt w -> blks w !! p = Some (Some B) ->
  ref_count B' = ref_count B -> block_ok BLOCKSIZE B' ->
  inv no_debt (mk_world (bsets w) (<[p := Some B']> (blks w)) o).
Proof.
  intros H Hp Hrc Hok.
  pose proof (inv_block _ _ _ _ H Hp) as [Hpos _].
  eapply inv_ext.
  - eapply (inv_blk _ _ o p B (Some B')); [exact H | exact Hp |].
    split; [lia | assumption].
  - debt_solve.
Qed.

Lemma inv_install (w : world) (o : list bool) a bs l i B :
  inv no_debt w ->
  bsets w !! a = Some (Some bs) -> blocks bs = Some l -> l !! i = Some None ->
  ref_count B = 1 -> block_ok BLOCKSIZE B ->
  inv no_debt
    (mk_world (<[a := Some (with_blocks (<[i := Some (length (blks w))]> l) bs)]> (bsets w))
              (blks w ++ [Some B]) o).
Proof.
  intros H Ha Hl Hi Hrc Hok.
  assert (block_good B) as HB by (split; [lia | assumption]).
  pose proof (inv_newblk _ _ o B H HB) as H1.
  pose proof (inv_slot _ _ o a bs l i None (Some (length (blks w))) H1 Ha Hl Hi) as H2.
  simpl in H2. eapply inv_ext; [exact H2|]. debt_solve.
Qed.

Lemma inv_drop (w : world) (o : list bool) a bs l i p B :
  inv no_debt w ->
  bsets w !! a = Some (Some bs) -> blocks bs = Some l ->
  l !! i = Some (Some p) -> blks w !! p = Some (Some B) ->
  inv no_debt
    (mk_world (<[a := Some (with_blocks (<[i := None]> l) bs)]> (bsets w))
              (<[p := decref_cell B]> (blks w)) o).
Proof.
  intros H Ha Hl Hi Hp.
  pose proof (inv_block _ _ _ _ H Hp) as HB.
  pose proof (inv_blk _ _ o p B (decref_cell B) H Hp (block_good_decref _ HB)) as H1.
  pose proof (inv_slot _ _ o a bs l i (Some p) None H1 Ha Hl Hi) as H2.
  simpl in H2. eapply inv_ext; [exact H2|]. debt_solve.
Qed.

Lemma inv_share (w : world) (o : list bool) a bs l i q B :
  inv no_debt w ->
  bsets w !! a = Some (Some bs) -> blocks bs = Some l -> l !! i = Some None ->
  blks w !! q = Some (Some B) ->
  inv no_debt
    (mk_world (<[a := Some (with_blocks (<[i := Some q]> l) bs)]> (bsets w))
              (<[q := Some (with_ref_count (ref_count B + 1) B)]> (blks w)) o).
Proof.
  intros H Ha Hl Hi Hq.
  pose proof (inv_block _ _ _ _ H Hq) as [Hpos Hok].
  assert (cell_pred block_good (Some (with_ref_count (ref_count B + 1) B))) as HB.
  { split; simpl; [lia|]. now apply block_ok_rc. }
  pose proof (inv_blk _ _ o q B _ H Hq HB) as H1.
  pose proof (inv_slot _ _ o a bs l i None (Some q) H1 Ha Hl Hi) as H2.
  simpl in H2. eapply inv_ext; [exact H2|]. debt_solve.
Qed.

Lemma inv_realloc (w : world) (o : list bool) a bs l i p B B' :
  inv no_debt w ->
  bsets w !! a = Some (Some bs) -> blocks bs = Some l ->
  l !! i = Some (Some p) -> blks w !! p = Some (Some B) ->
  ref_count B' = 1 -> block_ok BLOCKSIZE B' ->
  inv no_debt
    (mk_world (<[a := Some (with_blocks (<[i := Some (length (blks w))]> l) bs)]> (bsets w))
              (<[p := decref_cell B]> (blks w) ++ [Some B']) o).
Proof.
  intros H Ha Hl Hi Hp Hrc Hok.
  pose proof (inv_block _ _ _ _ H Hp) as HB.
  assert (block_good B') as HB' by (split; [lia | assumption]).
  pose proof (inv_blk _ _ o p B (decref_cell B) H Hp (block_good_decref _ HB)) as H1.
  pose proof (inv_newblk _ _ o B' H1 HB') as H2. simpl in H2.
  pose proof (inv_slot _ _ o a bs l i (Some p) (Some (length (blks w))) H2 Ha Hl Hi) as H3.
  simpl in H3. rewrite length_insert in H3.
  eapply inv_ext; [exact H3|].
  assert (p < length (blks w))%nat by (eapply lookup_lt_Some; eassumption).
  debt_solve.
Qed.

End InvariantSteps.

(** ** Loop invariants *)

Lemma for_loop_ind {E} (I : nat -> world -> Prop) (Q : world -> Prop)
      (body : Z -> M (option E)) :
  forall (n k : nat) (w : world) (r : option E) (w' : world),
    I k w ->
    (forall j w r w',
        (k <= j < k + n)%nat -> I j w -> body (Z.of_nat j) w = Ret r w' ->
        match r with None => I (S j) w' | Some _ => Q w' end) ->
    for_loop n (Z.of_nat k) body w = Ret r w' ->
    match r with None => I (k + n)%nat w' | Some _ => Q w' end.
Proof.
  induction n as [|n IH]; intros k w r w' HI Hbody Hrun.
  - cbn in Hrun. minv. now rewrite Nat.add_0_r.
  - cbn [for_loop] in Hrun.
    apply bind_inv in Hrun as (r1 & w1 & Hb & Hrun).
    pose proof (Hbody k w r1 w1 ltac:(lia) HI Hb) as H1.
    destruct r1 as [e|].
    + minv. exact H1.
    + replace (Z.of_nat k + 1) with (Z.of_nat (S k)) in Hrun by lia.
      replace (k + S n)%nat with (S k + n)%nat by lia.
      eapply IH; [exact H1 | | exact Hrun].
      intros j w2 r2 w2' Hj. apply Hbody. lia.
Qed.

Lemma for_loop_inv {E} (I : world -> Prop) (body : Z -> M (option E))
      (n : nat) (w : world) (r : option E) (w' : world) :
  I w ->
  (forall j w r w', I w -> body j w = Ret r w' -> I w') ->
  for_loop n 0 body w = Ret r w' -> I w'.
Proof.
  intros HI Hbody Hrun.
  pose proof (for_loop_ind (fun _ => I) I body n 0 w r w' HI) as H.
  destruct r; apply H; try exact Hrun.
  all: intros j w1 r1 w1' _ HI1 Hb; destruct r1; eapply Hbody; eassumption.
Qed.

Lemma for_acc_same {S} (body : Z -> S -> M S) :
  (forall i s w s' w', body i s w = Ret s' w' -> w' = w) ->
  forall (n : nat) (i : Z) (s : S) (w : world) (s' : S) (w' : world),
    for_acc n i body s w = Ret s' w' -> w' = w.
Proof.
  intros Hbody. induction n as [|n IH]; intros i s w s' w' Hrun.
  - cbn in Hrun. now minv.
  - cbn [for_acc] in Hrun. apply bind_inv in Hrun as (s1 & w1 & Hb & Hrun).
    apply Hbody in Hb as ->. eapply IH; eassumption.
Qed.

(** ** Every operation keeps the invariant *)

Ltac opinv_step :=
  match goal with
  | H : bitset_block_alloc _ _ _ _ _ = Ret _ _ |- _ =>
      apply alloc_inv in H
        as [(? & ? & ?)|(? & ? & ? & ? & ? & ? & ? & ? & ? & ? & ?)]; subst
  | H : bitset_block_realloc _ _ _ _ _ = Ret _ _ |- _ =>
      apply realloc_inv in H
        as (? & ? & ? & ? & ? & ? & ? & ? & ? & ? & [(? & ? & ?)|(? & ? & ? & ?)]);
      subst
  | H : bitset_block_set_bit _ _ _ = Ret _ _ |- _ =>
      apply set_bit_inv in H as (? & ? & ? & ? & ? & ? & ?); subst
  | H : bitset_block_clr_bit _ _ _ = Ret _ _ |- _ =>
      apply clr_bit_inv in H as (? & ? & ? & ? & ? & ? & ?); subst
  | H : bitset_block_toggle_bit _ _ _ = Ret _ _ |- _ =>
      apply toggle_bit_inv in H as (? & ? & ? & ? & ? & ? & ?); subst
  | H : bitset_block_test_bit _ _ _ = Ret _ _ |- _ =>
      apply test_bit_inv in H as (? & ? & ? & ? & ? & ? & ? & ?); subst
  | H : out_of_range _ _ _ = Ret _ _ |- _ => unfold out_of_range in H
  | H : assert_block_in_range _ _ _ _ = Ret _ _ |- _ =>
      unfold assert_block_in_range in H
  | H : shared _ _ _ = Ret _ _ |- _ => unfold shared in H
  | H : loop_result _ _ = Ret _ _ |- _ => unfold loop_result in H
  end.

Ltac opinv :=
  repeat (first [opinv_step | hinv_step | minv_step]; cbn [fst snd] in * ).

Section Preservation.

Variable BLOCKSIZE : nat.
Variable NDEBUG : bool.

Abbreviation inv := (inv BLOCKSIZE).

Ltac block_facts Hinv :=
  repeat match goal with
  | H : blks _ !! _ = Some (Some ?B) |- _ =>
      lazymatch goal with
      | _ : block_ok BLOCKSIZE B |- _ => fail
      | _ => let Hp := fresh "Hpos" in let Hk := fresh "Hok" in
             pose proof (inv_block _ _ _ _ _ Hinv H) as [Hp Hk]
      end
  end.

Ltac testbit_facts :=
  repeat match goal with
  | H : context [if Z.testbit ?x ?b then _ else _] |- _ =>
      lazymatch goal with
      | _ : Z.testbit x b = _ |- _ => fail
      | _ => destruct (Z.testbit x b) eqn:?; simpl in H; try discriminate H
      end
  end.

Lemma zero_block_ok : block_ok BLOCKSIZE (zero_block BLOCKSIZE).
Proof. apply block_ok_zero. Qed.

Lemma zero_block_word (n : nat) (x : Z) :
  ints (zero_block BLOCKSIZE) !! n = Some x -> x = 0.
Proof. simpl. now intros [-> _]%lookup_replicate. Qed.

Ltac block_ok_tac :=
  first
    [ assumption
    | apply block_ok_zero
    | apply block_ok_ones
    | eapply block_ok_set;
      [first [eassumption | apply zero_block_ok] | eassumption | lia
      | first [assumption
              | match goal with
                | H : ints (zero_block _) !! _ = Some _ |- _ =>
                    apply zero_block_word in H; subst; apply Z.bits_0
                end]]
    | eapply block_ok_clr; [eassumption | eassumption | lia | assumption]
    | eapply block_ok_toggle;
      [first [eassumption | apply zero_block_ok] | eassumption | lia]
    | eapply block_ok_invert; eassumption
    | apply block_ok_rc; assumption ].

Ltac inv_close :=
  first
    [ assumption
    | eapply inv_oracle; eassumption
    | eapply inv_drop; eassumption
    | eapply inv_share; eassumption
    | eapply inv_modify; [eassumption | eassumption | reflexivity | block_ok_tac]
    | eapply inv_install;
      [eassumption | eassumption | eassumption | eassumption | reflexivity | block_ok_tac]
    | eapply inv_realloc;
      [eassumption | eassumption | eassumption | eassumption | eassumption
      | reflexivity | block_ok_tac] ].

Lemma bitset_set_inv0 (bset : pointer) (bit : Z) w r w' :
  inv no_debt w ->
  bitset_set BLOCKSIZE NDEBUG bset bit w = Ret r w' -> inv no_debt w'.
Proof.
  intros Hinv H. unfold bitset_set in H. opinv; try discriminate.
  all: wsimpl; try assumption.
  all: block_facts Hinv; testbit_facts.
  all: inv_close.
Qed.

Lemma bitset_clr_inv0 (bset : pointer) (bit : Z) w r w' :
  inv no_debt w ->
  bitset_clr BLOCKSIZE NDEBUG bset bit w = Ret r w' -> inv no_debt w'.
Proof.
  intros Hinv H. unfold bitset_clr in H. opinv; try discriminate.
  all: wsimpl; try assumption.
  all: block_facts Hinv; testbit_facts.
  all: inv_close.
Qed.

Lemma bitset_toggle_bit_inv0 (bset : pointer) (bit : Z) w r w' :
  inv no_debt w ->
  bitset_toggle_bit BLOCKSIZE NDEBUG bset bit w = Ret r w' -> inv no_debt w'.
Proof.
  intros Hinv H. unfold bitset_toggle_bit in H. opinv; try discriminate.
  all: wsimpl; try assumption.
  all: block_facts Hinv.
  all: inv_close.
Qed.

Lemma bitset_test_bit_same (a : pointer) (bit : Z) out w r w' :
  bitset_test_bit BLOCKSIZE NDEBUG a bit out w = Ret r w' -> w' = w.
Proof.
  intros H. unfold bitset_test_bit in H. opinv; reflexivity.
Qed.

Lemma bitset_bitcount_same (a : pointer) w r w' :
  bitset_bitcount a w = Ret r w' -> w' = w.
Proof. intros H. unfold bitset_bitcount in H. opinv; reflexivity. Qed.

Lemma bitset_set_count_same (a : pointer) w r w' :
  bitset_set_count a w = Ret r w' -> w' = w.
Proof.
  intros H. unfold bitset_set_count in H. opinv; try reflexivity.
  match goal with H : for_acc _ _ _ _ _ = Ret _ _ |- _ =>
    apply for_acc_same in H; [now subst|] end.
  intros i0 s0 w0 s0' w0' Hb. opinv; reflexivity.
Qed.

Lemma block_invert_inv0 (p : ptr) (B : bitset_block) w u w' :
  inv no_debt w -> bitset_block_invert BLOCKSIZE NDEBUG p w = Ret u w' ->
  blks w !! p = Some (Some B) -> inv no_debt w'.
Proof.
  intros Hinv H Hc.
  pose proof (inv_block _ _ _ _ _ Hinv Hc) as [Hpos Hok].
  rewrite (block_invert_run _ _ _ _ _ Hc (ok_length _ _ Hok)) in H.
  destruct (NDEBUG || (ref_count B =? 1)); [|discriminate].
  minv. wsimpl. inv_close.
Qed.

Lemma bitset_invert_inv0 (a : pointer) w r w' :
  inv no_debt w ->
  bitset_invert BLOCKSIZE NDEBUG a w = Ret r w' -> inv no_debt w'.
Proof.
  intros Hinv H. unfold bitset_invert in H. opinv; try assumption.
  all: match goal with H : for_loop _ _ _ _ = Ret _ _ |- _ =>
         eapply for_loop_inv in H; [exact H | exact Hinv |] end.
  all: clear; intros j w r w' Hinv Hb; opinv; try discriminate.
  all: try (eapply block_invert_inv0; eassumption).
  all: wsimpl; try assumption.
  all: block_facts Hinv.
  all: inv_close.
Qed.

Lemma realloc_if_shared_inv0 (a : ptr) (i : Z) w e w' :
  inv no_debt w ->
  realloc_if_shared BLOCKSIZE NDEBUG a i w = Ret e w' -> inv no_debt w'.
Proof.
  intros Hinv H. unfold realloc_if_shared in H. opinv; try discriminate.
  all: wsimpl; try assumption.
  all: block_facts Hinv.
  all: inv_close.
Qed.

Lemma combine_slot_inv0 (op : Z -> Z -> Z) (a b : ptr) (i : Z) w e w' :
  (forall x y, Word.in_range x -> Word.in_range y -> Word.in_range (op x y)) ->
  inv no_debt w ->
  combine_slot BLOCKSIZE NDEBUG (block_combine BLOCKSIZE NDEBUG op) a b i w
  = Ret e w' ->
  inv no_debt w'.
Proof.
  intros Hop Hinv H. unfold combine_slot in H.
  apply bind_inv in H as (e1 & w1 & H1 & H).
  apply realloc_if_shared_inv0 in H1; [|assumption].
  destruct e1 as [e1|]; [now minv|].
  apply bind_inv in H as (sa & w2 & (-> & bsa & la & Ha & Hla & Hi & Hsa)%get_slot_inv & H).
  apply bind_inv in H as (pa & w2 & [-> ->]%deref_inv & H).
  apply bind_inv in H as (sb & w2 & (-> & bsb & lb & Hb & Hlb & _ & Hsb)%get_slot_inv & H).
  apply bind_inv in H as (pb & w2 & [-> ->]%deref_inv & H).
  apply bind_inv in H as (u & w2 & Hrun & H). minv.
  destruct (slot_live _ _ _ _ _ _ _ H1 Ha Hla Hsa) as (A & HA & _ & HposA & HokA).
  destruct (slot_live _ _ _ _ _ _ _ H1 Hb Hlb Hsb) as (B & HB & _ & HposB & HokB).
  rewrite (block_combine_run _ _ _ _ _ _ _ _ HA HB
             (ok_length _ _ HokA) (ok_length _ _ HokB)) in Hrun.
  destruct (NDEBUG || (ref_count A =? 1)); [|discriminate].
  minv. unfold w_blk.
  eapply inv_modify; [eassumption | eassumption | reflexivity |].
  now apply block_ok_combine.
Qed.

Lemma or_in_range x y :
  Word.in_range x -> Word.in_range y -> Word.in_range (Z.lor x y).
Proof. apply WordFacts.lor_in_range. Qed.

Lemma and_in_range x y :
  Word.in_range x -> Word.in_range y -> Word.in_range (Z.land x y).
Proof. intros Hx _. now apply WordFacts.land_in_range. Qed.

Lemma subtract_in_range x y :
  Word.in_range x -> Word.in_range y -> Word.in_range (Z.land x (Word.not y)).
Proof. intros Hx _. now apply WordFacts.land_in_range. Qed.

Lemma bitset_or_body_inv0 (a b : ptr) (i : Z) w e w' :
  inv no_debt w ->
  bitset_or_body BLOCKSIZE NDEBUG a b i w = Ret e w' -> inv no_debt w'.
Proof.
  intros Hinv H. unfold bitset_or_body in H.
  apply bind_inv in H as (sa & w1 & (-> & bsa & la & Ha & Hla & Hi & Hsa)%get_slot_inv & H).
  apply bind_inv in H as (sb & w1 & (-> & bsb & lb & Hb & Hlb & _ & Hsb)%get_slot_inv & H).
  destruct sa as [pa|], sb as [pb|]; try (now minv).
  - eapply combine_slot_inv0; [apply or_in_range | eassumption | exact H].
  - opinv. wsimpl. block_facts Hinv. inv_close.
Qed.

Lemma bitset_and_body_inv0 (a b : ptr) (i : Z) w e w' :
  inv no_debt w ->
  bitset_and_body BLOCKSIZE NDEBUG a b i w = Ret e w' -> inv no_debt w'.
Proof.
  intros Hinv H. unfold bitset_and_body in H.
  apply bind_inv in H as (sa & w1 & (-> & bsa & la & Ha & Hla & Hi & Hsa)%get_slot_inv & H).
  apply bind_inv in H as (sb & w1 & (-> & bsb & lb & Hb & Hlb & _ & Hsb)%get_slot_inv & H).
  destruct sa as [pa|], sb as [pb|]; try (now minv).
  - eapply combine_slot_inv0; [apply and_in_range | eassumption | exact H].
  - opinv. wsimpl. block_facts Hinv. inv_close.
Qed.

Lemma bitset_subtract_body_inv0 (a b : ptr) (i : Z) w e w' :
  inv no_debt w ->
  bitset_subtract_body BLOCKSIZE NDEBUG a b i w = Ret e w' -> inv no_debt w'.
Proof.
  intros Hinv H. unfold bitset_subtract_body in H.
  apply bind_inv in H as (sa & w1 & (-> & bsa & la & Ha & Hla & Hi & Hsa)%get_slot_inv & H).
  apply bind_inv in H as (sb & w1 & (-> & bsb & lb & Hb & Hlb & _ & Hsb)%get_slot_inv & H).
  destruct sa as [pa|], sb as [pb|]; try (now minv).
  eapply combine_slot_inv0; [apply subtract_in_range | eassumption | exact H].
Qed.

Lemma binary_inv0 (body : ptr -> ptr -> Z -> M (option status)) (a b : pointer)
      w r w' :
  (forall a b i w e w', inv no_debt w -> body a b i w = Ret e w' -> inv no_debt w') ->
  inv no_debt w ->
  binary_checks NDEBUG a b (fun a b =>
    let* A := load_bitset a in
    let* r := for_loop (Z.to_nat (block_count A)) 0 (body a b) in
    loop_result r) w = Ret r w' ->
  inv no_debt w'.
Proof.
  intros Hbody Hinv H. unfold binary_checks in H. opinv; try assumption.
  all: match goal with H : for_loop _ _ _ _ = Ret _ _ |- _ =>
         eapply for_loop_inv in H; [exact H | exact Hinv |] end.
  all: intros j wj rj wj' Hinv1 Hb; eapply Hbody; eassumption.
Qed.

Lemma bitset_or_inv0 (a b : pointer) w r w' :
  inv no_debt w ->
  bitset_or BLOCKSIZE NDEBUG a b w = Ret r w' -> inv no_debt w'.
Proof.
  intros Hinv H. eapply binary_inv0; [|exact Hinv|exact H].
  apply bitset_or_body_inv0.
Qed.

Lemma bitset_and_inv0 (a b : pointer) w r w' :
  inv no_debt w ->
  bitset_and BLOCKSIZE NDEBUG a b w = Ret r w' -> inv no_debt w'.
Proof.
  intros Hinv H. eapply binary_inv0; [|exact Hinv|exact H].
  apply bitset_and_body_inv0.
Qed.

Lemma bitset_subtract_inv0 (a b : pointer) w r w' :
  inv no_debt w ->
  bitset_subtract BLOCKSIZE NDEBUG a b w = Ret r w' -> inv no_debt w'.
Proof.
  intros Hinv H. eapply binary_inv0; [|exact Hinv|exact H].
  apply bitset_subtract_body_inv0.
Qed.

(** [bitset_free]: after [k] slots the blocks of the first [k] slots
    have given up one reference each, while the dying bitset still
    shows them. *)
Lemma bitset_free_inv0 (bset : pointer) w u w' :
  inv no_debt w -> bitset_free bset w = Ret u w' -> inv no_debt w'.
Proof.
  intros Hinv H. unfold bitset_free in H.
  destruct bset as [a|]; [|now minv].
  apply bind_inv in H as (bs & w1 & [-> Ha]%load_bitset_inv & H).
  destruct (inv_bitset _ _ _ _ _ Hinv Ha) as (l & Hl & Hlen & _).
  rewrite Hl in H.
  apply bind_inv in H as (u1 & w1 & Hloop & H).
  apply bind_inv in Hloop as (r & w2 & Hloop & Hret). minv.
  pose (J := fun (k : nat) (w1 : world) =>
               inv (fun q => - Z.of_nat (slot_refs q (take k l))) w1
               /\ bsets w1 !! a = Some (Some bs)).
  apply (for_loop_ind J (fun _ => False)) with (k := 0%nat) in Hloop.
  - destruct r as [e|]; [contradiction|]. destruct Hloop as [Hinv1 Ha1].
    simpl in Hinv1. rewrite <- Hlen, take_ge in Hinv1 by lia.
    unfold w_cell. eapply inv_ext.
    + eapply (inv_cell _ _ _ _ a (Some bs) None); [exact Hinv1 | exact Ha1 | exact I].
    + intros q. unfold cell_refs, no_debt. rewrite Hl. simpl. lia.
  - split; [|assumption]. eapply inv_ext; [exact Hinv|].
    intros q. reflexivity.
  - clear Hloop. intros j wj rj wj' Hj [Hinvj Haj] Hb.
    apply bind_inv in Hb as (s & w3 & (-> & bs' & l' & Ha' & Hl' & _ & Hs)%get_slot_inv & Hb).
    rewrite Haj in Ha'. injection Ha' as <-.
    rewrite Hl in Hl'. injection Hl' as <-.
    rewrite Nat2Z.id in Hs.
    destruct s as [p|].
    + opinv. split; [|now wsimpl].
      match goal with H : blks _ !! p = Some (Some ?B) |- _ =>
        pose proof (inv_block _ _ _ _ _ Hinvj H) as HB;
        pose proof (inv_blk _ _ _ (oracle wj) p B (decref_cell B) Hinvj H
                      (block_good_decref _ _ HB)) as H1 end.
      unfold w_blk. eapply inv_ext; [exact H1|].
      intros q. simpl. rewrite (slot_refs_take_S q l j (Some p) Hs).
      rewrite rc_of_decref_cell. unfold holds.
      destruct (Nat.eqb_spec q p), (Nat.eqb_spec p q); subst; try lia; congruence.
    + minv. split; [|assumption]. eapply inv_ext; [exact Hinvj|].
      intros q. simpl. rewrite (slot_refs_take_S q l j None Hs).
      unfold holds. lia.
Qed.

Lemma BLOCKCOUNT_range (n : Z) :
  INT_MIN <= n <= INT_MAX ->
  INT_MIN <= BLOCKCOUNT BLOCKSIZE n <= INT_MAX.
Proof.
  unfold BLOCKCOUNT, IDSPERBLOCK, INT_MIN, INT_MAX. intros Hn.
  destruct BLOCKSIZE as [|bsz].
  - simpl. rewrite Z.div_0_r. lia.
  - assert (0 < 64 * Z.of_nat (S bsz)) as Hpos by lia.
    set (m := 64 * Z.of_nat (S bsz)) in *.
    pose proof (Z.div_mod (- n) m ltac:(lia)) as Hdm.
    pose proof (Z.mod_pos_bound (- n) m Hpos) as Hmod.
    nia.
Qed.

Lemma alloc_size_ok (bc : Z) :
  INT_MIN <= bc <= INT_MAX -> size_t (PTRSIZE * bc) <= PTRDIFF_MAX ->
  0 <= bc /\ Z.to_nat (size_t (PTRSIZE * bc) / PTRSIZE) = Z.to_nat bc.
Proof.
  unfold size_t, PTRSIZE, PTRDIFF_MAX, INT_MIN, INT_MAX. intros Hr Hsz.
  destruct (Z.lt_ge_cases bc 0) as [Hneg|Hpos].
  - exfalso.
    replace (8 * bc) with ((8 * bc + 2 ^ 64) + (-1) * 2 ^ 64) in Hsz by lia.
    rewrite Z.mod_add, Z.mod_small in Hsz by lia. lia.
  - split; [lia|]. rewrite Z.mod_small by lia.
    rewrite Z.mul_comm, Z.div_mul by lia. reflexivity.
Qed.

Lemma bitset_alloc_inv0 (bitcount : Z) (out : option pointer) w r w' :
  INT_MIN <= bitcount <= INT_MAX ->
  inv no_debt w ->
  bitset_alloc BLOCKSIZE bitcount out w = Ret r w' -> inv no_debt w'.
Proof.
  intros Hrange Hinv H. unfold bitset_alloc, bitset_init in H.
  opinv; try assumption; try discriminate.
  all: repeat match goal with
              | H : malloc _ _ = Ret _ _ |- _ =>
                  apply malloc_inv in H as [(? & ? & ?)|(? & ? & ?)]; subst
              | H : bitset_free _ _ = Ret _ _ |- _ => unfold bitset_free in H
              end; opinv; try discriminate.
  all: wsimpl; try discriminate; try (eapply inv_oracle; eassumption).
  1,2: eapply inv_ext;
    [eapply (inv_newcell _ _ _ _ None); [exact Hinv | exact I] | intros q; reflexivity].
  destruct (alloc_size_ok _ (BLOCKCOUNT_range _ Hrange) ltac:(eassumption)) as [Hbc Hsz].
  eapply inv_ext.
  - eapply inv_newcell; [exact Hinv|]. simpl.
    eexists. simpl. split; [reflexivity|]. rewrite length_replicate.
    split; [exact Hsz|]. split; [reflexivity|].
    pose proof (BLOCKCOUNT_range _ Hrange). lia.
  - intros q. unfold cell_refs. simpl.
    rewrite slot_refs_replicate_None. reflexivity.
Qed.

Lemma slot_refs_drop q (l : list pointer) (i : nat) (s : pointer) :
  l !! i = Some s ->
  slot_refs q (drop i l) = (holds q s + slot_refs q (drop (S i) l))%nat.
Proof.
  revert i. induction l as [|x l IH]; intros [|i] H; try discriminate.
  - injection H as ->. simpl. now rewrite drop_0.
  - simpl in H. simpl. now apply IH.
Qed.

Lemma bitset_dup_inv0 (s : pointer) (r : option pointer) w res w' :
  inv no_debt w -> live_or_null w s ->
  bitset_dup s r w = Ret res w' -> inv no_debt w'.
Proof.
  intros Hinv Hs H. unfold bitset_dup in H.
  destruct s as [src|]; [|now minv].
  destruct Hs as [S0 HS0].
  destruct r as [[q|]|]; try (now minv).
  opinv; try discriminate.
  all: repeat match goal with
              | H : malloc _ _ = Ret _ _ |- _ =>
                  apply malloc_inv in H as [(? & ? & ?)|(? & ? & ?)]; subst
              | H : bitset_free _ _ = Ret _ _ |- _ => unfold bitset_free in H
              end; opinv; try discriminate.
  all: wsimpl; try discriminate; try (eapply inv_oracle; eassumption).
  1,2: eapply inv_ext;
    [eapply (inv_newcell _ _ _ _ None); [exact Hinv | exact I] | intros q; reflexivity].
  destruct (inv_bitset _ _ _ _ _ Hinv HS0) as (l' & Hl' & Hlen & Hbc & Hr).
  rewrite Heqo in Hl'. injection Hl' as <-.
  assert (INT_MIN <= block_count r <= INT_MAX) as Hr'
    by (unfold INT_MIN; lia).
  destruct (alloc_size_ok _ Hr' H) as [_ Hsz].
  rewrite Hsz, <- Hlen, firstn_all in Hrun4.
  set (newbs := with_blocks l (mk_bitset (bitcount r) (block_count r) None)) in *.
  pose (J := fun (k : nat) (w1 : world) =>
               inv (fun q => - Z.of_nat (slot_refs q (drop k l))) w1
               /\ bsets w1 !! length (bsets w) = Some (Some newbs)).
  apply (for_loop_ind J (fun _ => False)) with (k := 0%nat) in Hrun4.
  - destruct r10 as [e|]; [contradiction|]. destruct Hrun4 as [Hinv1 _].
    simpl in Hinv1. rewrite drop_all in Hinv1.
    eapply inv_ext; [exact Hinv1|]. intros q. reflexivity.
  - split; [|apply lookup_snoc]. rewrite drop_0. eapply inv_ext.
    + eapply (inv_newcell _ _ _ _ (Some newbs)); [exact Hinv|].
      exists l. simpl. auto.
    + intros q. reflexivity.
  - clear Hrun4. intros j wj rj wj' Hj [Hinvj Haj] Hb.
    apply bind_inv in Hb as (s & w3 & (-> & bs' & l' & Ha' & Hl' & _ & Hs)%get_slot_inv & Hb).
    pose proof (eq_trans (eq_sym Haj) Ha') as E. injection E as <-.
    simpl in Hl'. injection Hl' as <-.
    rewrite Nat2Z.id in Hs.
    destruct s as [p|].
    + opinv. split; [|now wsimpl].
      match goal with H : blks _ !! p = Some (Some ?B) |- _ =>
        pose proof (inv_block _ _ _ _ _ Hinvj H) as [Hpos Hok];
        pose proof (inv_blk _ _ _ (oracle wj) p B
                      (Some (with_ref_count (ref_count B + 1) B)) Hinvj H) as H1 end.
      unfold w_blk. eapply inv_ext.
      * apply H1. split; simpl; [lia|]. now apply block_ok_rc.
      * intros q. simpl. rewrite (slot_refs_drop q l j (Some p) Hs).
        unfold holds.
        destruct (Nat.eqb_spec q p), (Nat.eqb_spec p q); subst; try lia; congruence.
    + minv. split; [|assumption]. eapply inv_ext; [exact Hinvj|].
      intros q. simpl. rewrite (slot_refs_drop q l j None Hs).
      unfold holds. lia.
Qed.

Lemma on_duplicate_inv0 (a : pointer) (op : pointer -> M status)
      (out : option pointer) w r w' :
  (forall p w r w', inv no_debt w -> op p w = Ret r w' -> inv no_debt w') ->
  inv no_debt w -> live_or_null w a ->
  on_duplicate a op out w = Ret r w' -> inv no_debt w'.
Proof.
  intros Hop Hinv Ha H. unfold on_duplicate in H.
  destruct out as [[q|]|]; try (now minv).
  apply bind_inv in H as (d & w1 & Hd & H).
  apply bitset_dup_inv0 in Hd; [|assumption..].
  destruct (negb (status_eqb (fst d) OK)).
  - apply bind_inv in H as (u & w2 & Hf & H). minv.
    eapply bitset_free_inv0; eassumption.
  - apply bind_inv in H as (e & w2 & He & H).
    apply Hop in He; [|assumption].
    destruct (negb (status_eqb e OK)); [|now minv].
    apply bind_inv in H as (u & w3 & Hf & H). minv.
    eapply bitset_free_inv0; eassumption.
Qed.

Lemma inv_empty (o : list bool) : inv no_debt (empty_world o).
Proof.
  split; [|split]; simpl; try constructor.
Qed.

Lemma exec_inv0 (c : call) w w' :
  inv no_debt w -> well_typed w c ->
  exec BLOCKSIZE NDEBUG c w = Ret tt w' -> inv no_debt w'.
Proof.
  intros Hinv Hty H. destruct c; simpl in H, Hty; unfold forget in H;
    try (apply bind_inv in H as (res & w1 & H & Hret); minv).
  - eapply bitset_alloc_inv0; eassumption.
  - eapply bitset_free_inv0; eassumption.
  - eapply bitset_dup_inv0; eassumption.
  - now apply bitset_bitcount_same in H; subst.
  - now apply bitset_set_count_same in H; subst.
  - eapply bitset_set_inv0; eassumption.
  - eapply bitset_clr_inv0; eassumption.
  - eapply bitset_toggle_bit_inv0; eassumption.
  - now apply bitset_test_bit_same in H; subst.
  - eapply bitset_invert_inv0; eassumption.
  - eapply on_duplicate_inv0; [| eassumption | eassumption | exact H].
    intros p0 w0 r0 w0'. apply bitset_invert_inv0.
  - eapply bitset_or_inv0; eassumption.
  - eapply bitset_and_inv0; eassumption.
  - eapply bitset_subtract_inv0; eassumption.
  - eapply (on_duplicate_inv0 a); [| eassumption | apply Hty | exact H].
    intros p0 w0 r0 w0'. apply bitset_or_inv0.
  - eapply (on_duplicate_inv0 a); [| eassumption | apply Hty | exact H].
    intros p0 w0 r0 w0'. apply bitset_and_inv0.
  - eapply (on_duplicate_inv0 a); [| eassumption | apply Hty | exact H].
    intros p0 w0 r0 w0'. apply bitset_subtract_inv0.
Qed.

(** Every memory a client can reach is well formed. *)
Lemma reachable_world_ok (w : world) :
  reachable BLOCKSIZE NDEBUG w -> world_ok BLOCKSIZE w.
Proof.
  intros H. apply world_ok_inv. induction H as [o|w w' c Hr IH Hty Hex].
  - apply inv_empty.
  - eapply exec_inv0; eassumption.
Qed.

End Preservation.

(** ** Runs on well-formed memories *)

Ltac munfold :=
  unfold bind, ret, undef, abort, load_bitset, store_bitset, fresh_bitset,
    free_bitset_cell, load_block, store_block, fresh_block, free_block_cell,
    get_slot, set_slot, upd_block, read_word, write_word, deref, index,
    DIVMOD, shl1, malloc_struct, w_blk, w_cell, w_newblk, w_newset, w_oracle.

Ltac mrun_step :=
  first
    [ progress munfold
    | progress cbn beta iota zeta delta
        [bsets blks oracle blocks with_blocks bitcount block_count
         ints ref_count set_count with_ints with_ref_count
         with_set_count fst snd negb andb orb status_eqb is_null is_Some_b]
    | match goal with
      | H : ?x = Some _ |- context [?x] => rewrite H
      | H : ?c = true |- context [?c] => rewrite H
      | H : ?c = false |- context [?c] => rewrite H
      | |- context [0 =? 0] => change (0 =? 0) with true
      | |- context [1 =? 0] => change (1 =? 0) with false
      | |- context [<[?i := _]> ?l !! ?i] =>
          rewrite (list_lookup_insert_eq l i) by solve_length
      | |- context [(?l ++ [_]) !! ?n] =>
          rewrite (lookup_snoc_at l n) by solve_length_eq
      | |- context [(?l ++ _) !! ?i] =>
          rewrite (lookup_app_l l) by solve_length
      | |- context [<[?i := _]> ?l !! ?j] =>
          rewrite (list_lookup_insert_ne l i j) by (first [assumption | congruence | lia])
      | |- context [<[?n := _]> (?l ++ [_])] =>
          rewrite (insert_snoc_at l n) by solve_length_eq
      | |- context [<[?i := _]> (<[?i := _]> _)] =>
          rewrite list_insert_insert_eq
      | |- context [length (<[_ := _]> _)] => rewrite length_insert
      end ].

Ltac mrun := repeat mrun_step.

Section Runs.

Variable BLOCKSIZE : nat.
Variable NDEBUG : bool.

Lemma index_run {A} (l : list A) (i : Z) (x : A) w :
  0 <= i -> l !! Z.to_nat i = Some x -> index l i w = Ret x w.
Proof.
  intros Hi Hx. unfold index. destruct (Z.ltb_spec i 0); [lia|].
  now rewrite Hx.
Qed.

Lemma assert_true (c : M bool) w :
  c w = Ret true w -> assert NDEBUG c w = Ret tt w.
Proof.
  intros H. rewrite (assert_run NDEBUG c w true H).
  now rewrite orb_true_r.
Qed.

Lemma alloc_fail_run a i w :
  hd true (oracle w) = false ->
  bitset_block_alloc BLOCKSIZE NDEBUG a i w
  = Ret (ERRMEM, None) (w_oracle (tl (oracle w)) w).
Proof.
  intros Ho. unfold bitset_block_alloc.
  unfold bind at 1. rewrite block_new_run, Ho. reflexivity.
Qed.

Lemma alloc_run a i w bs l :
  bsets w !! a = Some (Some bs) -> blocks bs = Some l ->
  0 <= i -> l !! Z.to_nat i = Some None ->
  hd true (oracle w) = true ->
  bitset_block_alloc BLOCKSIZE NDEBUG a i w
  = Ret (OK, Some (length (blks w)))
        (w_cell a (Some (with_blocks (<[Z.to_nat i := Some (length (blks w))]> l) bs))
           (w_newblk (zero_block BLOCKSIZE) (w_oracle (tl (oracle w)) w))).
Proof.
  intros Ha Hl Hi Hs Ho. unfold bitset_block_alloc, bitset_block_new, assert.
  assert (Hi' : (i <? 0) = false) by lia.
  destruct NDEBUG; mrun; reflexivity.
Qed.

Lemma decref_cell_shared (B : bitset_block) :
  1 < ref_count B ->
  decref_cell B = Some (with_ref_count (ref_count B - 1) B).
Proof.
  intros H. unfold decref_cell.
  destruct (Z.eqb_spec (ref_count B - 1) 0); [lia | reflexivity].
Qed.

Lemma realloc_fail_run a i w bs l p B :
  bsets w !! a = Some (Some bs) -> blocks bs = Some l ->
  0 <= i -> l !! Z.to_nat i = Some (Some p) ->
  blks w !! p = Some (Some B) -> 1 < ref_count B ->
  hd true (oracle w) = false ->
  bitset_block_realloc BLOCKSIZE NDEBUG a i w
  = Ret (ERRMEM, None)
        (w_cell a (Some (with_blocks (<[Z.to_nat i := None]> l) bs))
           (w_blk p (Some (with_ref_count (ref_count B - 1) B))
              (w_oracle (tl (oracle w)) w))).
Proof.
  intros Ha Hl Hi Hs Hp Hrc Ho.
  unfold bitset_block_realloc, bitset_block_decref, bitset_block_new, assert.
  assert (Hi' : (i <? 0) = false) by lia.
  assert (Hrc' : (1 <? ref_count B) = true) by lia.
  assert (Hz : (ref_count B - 1 =? 0) = false) by lia.
  destruct NDEBUG; mrun; reflexivity.
Qed.

Lemma realloc_run a i w bs l p B :
  bsets w !! a = Some (Some bs) -> blocks bs = Some l ->
  0 <= i -> l !! Z.to_nat i = Some (Some p) ->
  blks w !! p = Some (Some B) -> 1 < ref_count B ->
  hd true (oracle w) = true ->
  bitset_block_realloc BLOCKSIZE NDEBUG a i w
  = Ret (OK, Some (length (blks w)))
        (w_cell a (Some (with_blocks (<[Z.to_nat i := Some (length (blks w))]> l) bs))
           (w_newblk (mk_block 1 (set_count B) (ints B))
              (w_blk p (Some (with_ref_count (ref_count B - 1) B))
                 (w_oracle (tl (oracle w)) w)))).
Proof.
  intros Ha Hl Hi Hs Hp Hrc Ho.
  unfold bitset_block_realloc, bitset_block_decref, bitset_block_new, assert.
  assert (Hi' : (i <? 0) = false) by lia.
  assert (Hrc' : (1 <? ref_count B) = true) by lia.
  assert (Hz : (ref_count B - 1 =? 0) = false) by lia.
  assert (Hlen : (p < length (blks w))%nat) by (eapply lookup_lt_Some; eassumption).
  destruct NDEBUG; mrun; reflexivity.
Qed.

Lemma quot_rem_64 (bit : Z) :
  0 <= bit -> 0 <= Z.quot bit 64 /\ 0 <= Z.rem bit 64 < 64.
Proof.
  intros H. split; [apply Z.quot_pos; lia | apply Z.rem_bound_pos; lia].
Qed.

Ltac bit_facts bit :=
  let Hq := fresh "Hq" in let Hr := fresh "Hr" in
  let Hq' := fresh "Hq'" in let Hr1 := fresh "Hr1" in let Hr2 := fresh "Hr2" in
  let H64 := fresh "H64" in
  assert (H64 : (64 =? 0) = false) by reflexivity;
  destruct (quot_rem_64 bit ltac:(lia)) as [Hq Hr];
  assert (Hq' : (Z.quot bit 64 <? 0) = false) by lia;
  assert (Hr1 : (0 <=? Z.rem bit 64) = true) by lia;
  assert (Hr2 : (Z.rem bit 64 <? 64) = true) by lia.

Lemma set_bit_run p bit w B x :
  blks w !! p = Some (Some B) -> 0 <= bit ->
  ints B !! Z.to_nat (Z.quot bit 64) = Some x ->
  bitset_block_set_bit p bit w
  = Ret tt (w_blk p (Some (mk_block (ref_count B) (set_count B + 1)
              (<[Z.to_nat (Z.quot bit 64)
                 := Z.lor x (Word.bit (Z.rem bit 64))]> (ints B)))) w).
Proof.
  intros Hp Hbit Hx. unfold bitset_block_set_bit. bit_facts bit.
  assert (Hlen : (p < length (blks w))%nat) by (eapply lookup_lt_Some; eassumption).
  mrun. rewrite ?Hr1, ?Hr2. mrun. reflexivity.
Qed.

Lemma clr_bit_run p bit w B x :
  blks w !! p = Some (Some B) -> 0 <= bit ->
  ints B !! Z.to_nat (Z.quot bit 64) = Some x ->
  bitset_block_clr_bit p bit w
  = Ret tt (w_blk p (Some (mk_block (ref_count B) (set_count B - 1)
              (<[Z.to_nat (Z.quot bit 64)
                 := Z.land x (Word.not (Word.bit (Z.rem bit 64)))]> (ints B)))) w).
Proof.
  intros Hp Hbit Hx. unfold bitset_block_clr_bit. bit_facts bit.
  assert (Hlen : (p < length (blks w))%nat) by (eapply lookup_lt_Some; eassumption).
  mrun. rewrite ?Hr1, ?Hr2. mrun. reflexivity.
Qed.

Lemma toggle_bit_run p bit w B x :
  blks w !! p = Some (Some B) -> 0 <= bit ->
  ints B !! Z.to_nat (Z.quot bit 64) = Some x ->
  bitset_block_toggle_bit p bit w
  = Ret tt (w_blk p (Some (mk_block (ref_count B)
              (set_count B + (if Z.testbit x (Z.rem bit 64) then -1 else 1))
              (<[Z.to_nat (Z.quot bit 64)
                 := Z.lxor x (Word.bit (Z.rem bit 64))]> (ints B)))) w).
Proof.
  intros Hp Hbit Hx. unfold bitset_block_toggle_bit. bit_facts bit.
  assert (Hlen : (p < length (blks w))%nat) by (eapply lookup_lt_Some; eassumption).
  assert (Hn : (Z.to_nat (Z.quot bit 64) < length (ints B))%nat)
    by (eapply lookup_lt_Some; eassumption).
  mrun. rewrite ?Hr1, ?Hr2. mrun.
  rewrite WordFacts.land_bit_eqb, WordFacts.testbit_toggle, Z.eqb_refl by lia.
  destruct (Z.testbit x (Z.rem bit 64)); cbn [xorb negb]; mrun; reflexivity.
Qed.

Lemma test_bit_run p bit w B x :
  blks w !! p = Some (Some B) -> 0 <= bit ->
  ints B !! Z.to_nat (Z.quot bit 64) = Some x ->
  bitset_block_test_bit p bit w
  = Ret (if Z.testbit x (Z.rem bit 64) then 1 else 0) w.
Proof.
  intros Hp Hbit Hx. unfold bitset_block_test_bit. bit_facts bit.
  mrun. rewrite ?Hr1, ?Hr2. mrun.
  rewrite WordFacts.land_bit_eqb by lia.
  now destruct (Z.testbit x (Z.rem bit 64)).
Qed.

(** Where a valid index lives. *)
Lemma locate (bitcount bit : Z) :
  (0 < BLOCKSIZE)%nat -> 0 <= bit < bitcount ->
  0 <= Z.quot bit (IDSPERBLOCK BLOCKSIZE) < BLOCKCOUNT BLOCKSIZE bitcount
  /\ 0 <= Z.rem bit (IDSPERBLOCK BLOCKSIZE) < IDSPERBLOCK BLOCKSIZE
  /\ 0 <= Z.quot (Z.rem bit (IDSPERBLOCK BLOCKSIZE)) 64 < Z.of_nat BLOCKSIZE
  /\ 0 <= Z.rem (Z.rem bit (IDSPERBLOCK BLOCKSIZE)) 64 < 64.
Proof.
  intros Hpos Hbit. unfold BLOCKCOUNT, IDSPERBLOCK.
  set (m := 64 * Z.of_nat BLOCKSIZE). assert (0 < m) as Hm by lia.
  rewrite Z.quot_div_nonneg, Z.rem_mod_nonneg by lia.
  pose proof (Z.mod_pos_bound bit m Hm) as Hmod.
  pose proof (Z.div_mod bit m ltac:(lia)) as Hdm.
  pose proof (Z.div_pos bit m ltac:(lia) Hm) as Hdiv.
  rewrite Z.quot_div_nonneg, Z.rem_mod_nonneg by lia.
  pose proof (Z.mod_pos_bound (bit mod m) 64 ltac:(lia)) as Hmod64.
  pose proof (Z.div_mod (bit mod m) 64 ltac:(lia)) as Hdm64.
  pose proof (Z.div_pos (bit mod m) 64 ltac:(lia) ltac:(lia)) as Hdiv64.
  pose proof (Z.div_mod (- bitcount) m ltac:(lia)) as Hc.
  pose proof (Z.mod_pos_bound (- bitcount) m Hm) as Hcm.
  splits; first [lia | nia | apply Z.div_lt_upper_bound; lia].
Qed.

(** *** Runs of the bit operations, path by path *)

Abbreviation IDS := (IDSPERBLOCK BLOCKSIZE).

Ltac op_facts bs bit :=
  let H1 := fresh "Hf" in let H2 := fresh "Hf" in let H3 := fresh "Hf" in
  let H4 := fresh "Hf" in let H5 := fresh "Hf" in let H6 := fresh "Hf" in
  assert (H1 : (bit <? 0) = false) by lia;
  assert (H2 : (bit >=? bitcount bs) = false) by (rewrite Z.geb_leb; lia);
  assert (H3 : (IDS =? 0) = false) by lia;
  assert (H4 : (Z.quot bit IDS <? block_count bs) = true) by lia;
  assert (0 < IDS) by (unfold IDSPERBLOCK in *; lia);
  assert (H5 : 0 <= Z.quot bit IDS) by (apply Z.quot_pos; lia);
  assert (H6 : (Z.quot bit IDS <? 0) = false) by lia;
  assert (0 <= Z.rem bit IDS) by (apply Z.rem_nonneg; lia).

Ltac side := mrun; first [eassumption | reflexivity | lia].

Ltac start_op :=
  unfold bitset_set, bitset_clr, bitset_toggle_bit, out_of_range,
    assert_block_in_range, shared.

Ltac orun := repeat first [progress mrun | erewrite assert_true by side].

Section AtSlot.

Variables (w : world) (a : ptr) (bs : bitset) (l : list pointer) (bit : Z).
Hypothesis Ha : bsets w !! a = Some (Some bs).
Hypothesis Hl : blocks bs = Some l.
Hypothesis Hbit : 0 <= bit < bitcount bs.
Hypothesis Hids : IDS <> 0.
Hypothesis Hk : Z.quot bit IDS < block_count bs.

Let k := Z.to_nat (Z.quot bit IDS).
Let n := Z.to_nat (Z.quot (Z.rem bit IDS) 64).
Let b := Z.rem (Z.rem bit IDS) 64.

Lemma test_absent_run (v : Z) :
  l !! k = Some None ->
  bitset_test_bit BLOCKSIZE NDEBUG (Some a) bit (Some v) w
  = Ret (OK, Some 0) w.
Proof.
  intros Hs. unfold k in Hs.
  unfold bitset_test_bit, out_of_range, assert_block_in_range.
  op_facts bs bit.
  repeat first [progress mrun | erewrite assert_true by (mrun; reflexivity)].
  reflexivity.
Qed.

Lemma test_present_run (v : Z) p B x :
  l !! k = Some (Some p) -> blks w !! p = Some (Some B) ->
  ints B !! n = Some x ->
  bitset_test_bit BLOCKSIZE NDEBUG (Some a) bit (Some v) w
  = Ret (OK, Some (if Z.testbit x b then 1 else 0)) w.
Proof.
  intros Hs Hp Hx. unfold k in Hs. unfold n in Hx.
  unfold bitset_test_bit, out_of_range, assert_block_in_range.
  op_facts bs bit.
  repeat first [progress mrun | erewrite assert_true by (mrun; reflexivity)].
  erewrite test_bit_run by eassumption. reflexivity.
Qed.


Lemma set_absent_fail_run :
  l !! k = Some None -> hd true (oracle w) = false ->
  bitset_set BLOCKSIZE NDEBUG (Some a) bit w
  = Ret ERRMEM (w_oracle (tl (oracle w)) w).
Proof.
  intros Hs Ho. unfold k in Hs. start_op. op_facts bs bit.
  orun; rewrite alloc_fail_run by assumption; reflexivity.
Qed.

Lemma set_absent_run :
  l !! k = Some None -> hd true (oracle w) = true ->
  (n < BLOCKSIZE)%nat ->
  bitset_set BLOCKSIZE NDEBUG (Some a) bit w
  = Ret OK (mk_world
              (<[a := Some (with_blocks (<[k := Some (length (blks w))]> l) bs)]> (bsets w))
              (blks w ++ [Some (mk_block 1 1 (<[n := Z.lor 0 (Word.bit b)]>
                                                (replicate BLOCKSIZE 0)))])
              (tl (oracle w))).
Proof.
  intros Hs Ho Hn. unfold k in Hs. unfold n in Hn. start_op. op_facts bs bit.
  orun. erewrite alloc_run by eassumption. orun.
  erewrite set_bit_run;
    [ | side | lia | cbn [ints zero_block]; apply lookup_replicate_2; exact Hn ].
  orun. reflexivity.
Qed.

Lemma clr_absent_run :
  l !! k = Some None ->
  bitset_clr BLOCKSIZE NDEBUG (Some a) bit w = Ret OK w.
Proof.
  intros Hs. unfold k in Hs. start_op. op_facts bs bit.
  orun. reflexivity.
Qed.

Lemma toggle_absent_fail_run :
  l !! k = Some None -> hd true (oracle w) = false ->
  bitset_toggle_bit BLOCKSIZE NDEBUG (Some a) bit w
  = Ret ERRMEM (w_oracle (tl (oracle w)) w).
Proof.
  intros Hs Ho. unfold k in Hs. start_op. op_facts bs bit.
  orun; rewrite alloc_fail_run by assumption; reflexivity.
Qed.

Lemma toggle_absent_run :
  l !! k = Some None -> hd true (oracle w) = true ->
  (n < BLOCKSIZE)%nat ->
  bitset_toggle_bit BLOCKSIZE NDEBUG (Some a) bit w
  = Ret OK (mk_world
              (<[a := Some (with_blocks (<[k := Some (length (blks w))]> l) bs)]> (bsets w))
              (blks w ++ [Some (mk_block 1 1 (<[n := Z.lxor 0 (Word.bit b)]>
                                                (replicate BLOCKSIZE 0)))])
              (tl (oracle w))).
Proof.
  intros Hs Ho Hn. unfold k in Hs. unfold n in Hn. start_op. op_facts bs bit.
  orun. erewrite alloc_run by eassumption. orun.
  erewrite toggle_bit_run;
    [ | side | lia | cbn [ints zero_block]; apply lookup_replicate_2; exact Hn ].
  rewrite Z.bits_0. orun. reflexivity.
Qed.

Section Present.

Variables (p : ptr) (B : bitset_block) (x : Z).
Hypothesis Hs : l !! k = Some (Some p).
Hypothesis Hp : blks w !! p = Some (Some B).
Hypothesis Hx : ints B !! n = Some x.

Lemma set_noop_run :
  Z.testbit x b = true ->
  bitset_set BLOCKSIZE NDEBUG (Some a) bit w = Ret OK w.
Proof.
  intros Ht. unfold k in Hs. unfold n in Hx. unfold b in Ht.
  start_op. op_facts bs bit.
  orun; erewrite test_bit_run by eassumption;
    rewrite Ht; reflexivity.
Qed.

Lemma set_private_run :
  Z.testbit x b = false -> ref_count B <= 1 ->
  bitset_set BLOCKSIZE NDEBUG (Some a) bit w
  = Ret OK (w_blk p (Some (mk_block (ref_count B) (set_count B + 1)
               (<[n := Z.lor x (Word.bit b)]> (ints B)))) w).
Proof.
  intros Ht Hrc. unfold k in Hs. unfold n in Hx. unfold b in Ht.
  start_op. op_facts bs bit.
  assert (Hrc' : (1 <? ref_count B) = false) by lia.
  orun; erewrite test_bit_run by eassumption;
    rewrite Ht; orun; erewrite set_bit_run by eassumption; reflexivity.
Qed.

Lemma set_shared_fail_run :
  Z.testbit x b = false -> 1 < ref_count B ->
  hd true (oracle w) = false ->
  bitset_set BLOCKSIZE NDEBUG (Some a) bit w
  = Ret ERRMEM
      (mk_world (<[a := Some (with_blocks (<[k := None]> l) bs)]> (bsets w))
                (<[p := Some (with_ref_count (ref_count B - 1) B)]> (blks w))
                (tl (oracle w))).
Proof.
  intros Ht Hrc Ho. unfold k in Hs. unfold n in Hx. unfold b in Ht.
  start_op. op_facts bs bit.
  assert (Hrc' : (1 <? ref_count B) = true) by lia.
  orun; erewrite test_bit_run by eassumption;
    rewrite Ht; orun; erewrite realloc_fail_run by eassumption; reflexivity.
Qed.

Lemma set_shared_run :
  Z.testbit x b = false -> 1 < ref_count B ->
  hd true (oracle w) = true ->
  bitset_set BLOCKSIZE NDEBUG (Some a) bit w
  = Ret OK
      (mk_world (<[a := Some (with_blocks (<[k := Some (length (blks w))]> l) bs)]> (bsets w))
                (<[p := Some (with_ref_count (ref_count B - 1) B)]> (blks w)
                 ++ [Some (mk_block 1 (set_count B + 1)
                             (<[n := Z.lor x (Word.bit b)]> (ints B)))])
                (tl (oracle w))).
Proof.
  intros Ht Hrc Ho. unfold k in Hs. unfold n in Hx. unfold b in Ht.
  start_op. op_facts bs bit.
  assert (Hrc' : (1 <? ref_count B) = true) by lia.
  orun; erewrite test_bit_run by eassumption;
    rewrite Ht; orun; erewrite realloc_run by eassumption; orun.
  erewrite set_bit_run; [ | side | lia | side ].
  orun. reflexivity.
Qed.

Lemma clr_noop_run :
  Z.testbit x b = false ->
  bitset_clr BLOCKSIZE NDEBUG (Some a) bit w = Ret OK w.
Proof.
  intros Ht. unfold k in Hs. unfold n in Hx. unfold b in Ht.
  start_op. op_facts bs bit.
  orun; erewrite test_bit_run by eassumption;
    rewrite Ht; reflexivity.
Qed.

Lemma clr_private_run :
  Z.testbit x b = true -> ref_count B <= 1 ->
  bitset_clr BLOCKSIZE NDEBUG (Some a) bit w
  = Ret OK (w_blk p (Some (mk_block (ref_count B) (set_count B - 1)
               (<[n := Z.land x (Word.not (Word.bit b))]> (ints B)))) w).
Proof.
  intros Ht Hrc. unfold k in Hs. unfold n in Hx. unfold b in Ht.
  start_op. op_facts bs bit.
  assert (Hrc' : (1 <? ref_count B) = false) by lia.
  orun; erewrite test_bit_run by eassumption;
    rewrite Ht; orun; erewrite clr_bit_run by eassumption; reflexivity.
Qed.

Lemma clr_shared_fail_run :
  Z.testbit x b = true -> 1 < ref_count B ->
  hd true (oracle w) = false ->
  bitset_clr BLOCKSIZE NDEBUG (Some a) bit w
  = Ret ERRMEM
      (mk_world (<[a := Some (with_blocks (<[k := None]> l) bs)]> (bsets w))
                (<[p := Some (with_ref_count (ref_count B - 1) B)]> (blks w))
                (tl (oracle w))).
Proof.
  intros Ht Hrc Ho. unfold k in Hs. unfold n in Hx. unfold b in Ht.
  start_op. op_facts bs bit.
  assert (Hrc' : (1 <? ref_count B) = true) by lia.
  orun; erewrite test_bit_run by eassumption;
    rewrite Ht; orun; erewrite realloc_fail_run by eassumption; reflexivity.
Qed.

Lemma clr_shared_run :
  Z.testbit x b = true -> 1 < ref_count B ->
  hd true (oracle w) = true ->
  bitset_clr BLOCKSIZE NDEBUG (Some a) bit w
  = Ret OK
      (mk_world (<[a := Some (with_blocks (<[k := Some (length (blks w))]> l) bs)]> (bsets w))
                (<[p := Some (with_ref_count (ref_count B - 1) B)]> (blks w)
                 ++ [Some (mk_block 1 (set_count B - 1)
                             (<[n := Z.land x (Word.not (Word.bit b))]> (ints B)))])
                (tl (oracle w))).
Proof.
  intros Ht Hrc Ho. unfold k in Hs. unfold n in Hx. unfold b in Ht.
  start_op. op_facts bs bit.
  assert (Hrc' : (1 <? ref_count B) = true) by lia.
  orun; erewrite test_bit_run by eassumption;
    rewrite Ht; orun; erewrite realloc_run by eassumption; orun.
  erewrite clr_bit_run; [ | side | lia | side ].
  orun. reflexivity.
Qed.

Lemma toggle_private_run :
  ref_count B <= 1 ->
  bitset_toggle_bit BLOCKSIZE NDEBUG (Some a) bit w
  = Ret OK (w_blk p (Some (mk_block (ref_count B)
               (set_count B + (if Z.testbit x b then -1 else 1))
               (<[n := Z.lxor x (Word.bit b)]> (ints B)))) w).
Proof.
  intros Hrc. unfold k in Hs. unfold n in Hx.
  start_op. op_facts bs bit.
  assert (Hrc' : (1 <? ref_count B) = false) by lia.
  orun. erewrite toggle_bit_run by eassumption. reflexivity.
Qed.

Lemma toggle_shared_fail_run :
  1 < ref_count B -> hd true (oracle w) = false ->
  bitset_toggle_bit BLOCKSIZE NDEBUG (Some a) bit w
  = Ret ERRMEM
      (mk_world (<[a := Some (with_blocks (<[k := None]> l) bs)]> (bsets w))
                (<[p := Some (with_ref_count (ref_count B - 1) B)]> (blks w))
                (tl (oracle w))).
Proof.
  intros Hrc Ho. unfold k in Hs. unfold n in Hx.
  start_op. op_facts bs bit.
  assert (Hrc' : (1 <? ref_count B) = true) by lia.
  orun. erewrite realloc_fail_run by eassumption. reflexivity.
Qed.

Lemma toggle_shared_run :
  1 < ref_count B -> hd true (oracle w) = true ->
  bitset_toggle_bit BLOCKSIZE NDEBUG (Some a) bit w
  = Ret OK
      (mk_world (<[a := Some (with_blocks (<[k := Some (length (blks w))]> l) bs)]> (bsets w))
                (<[p := Some (with_ref_count (ref_count B - 1) B)]> (blks w)
                 ++ [Some (mk_block 1
                             (set_count B + (if Z.testbit x b then -1 else 1))
                             (<[n := Z.lxor x (Word.bit b)]> (ints B)))])
                (tl (oracle w))).
Proof.
  intros Hrc Ho. unfold k in Hs. unfold n in Hx.
  start_op. op_facts bs bit.
  assert (Hrc' : (1 <? ref_count B) = true) by lia.
  orun. erewrite realloc_run by eassumption. orun.
  erewrite toggle_bit_run; [ | side | lia | side ].
  orun. reflexivity.
Qed.

End Present.

End AtSlot.

(** What a well-formed memory holds at a valid index. *)
Lemma shape (w : world) (a : ptr) (bs : bitset) (bit : Z) :
  world_ok BLOCKSIZE w -> (0 < BLOCKSIZE)%nat ->
  bsets w !! a = Some (Some bs) -> 0 <= bit < bitcount bs ->
  exists l s,
    blocks bs = Some l
    /\ IDS <> 0
    /\ Z.quot bit IDS < block_count bs
    /\ (Z.to_nat (Z.quot (Z.rem bit IDS) 64) < BLOCKSIZE)%nat
    /\ l !! Z.to_nat (Z.quot bit IDS) = Some s
    /\ forall p, s = Some p ->
         exists B x,
           blks w !! p = Some (Some B)
           /\ ints B !! Z.to_nat (Z.quot (Z.rem bit IDS) 64) = Some x
           /\ 0 < ref_count B
           /\ ref_count B = Z.of_nat (owners w p)
           /\ block_ok BLOCKSIZE B.
Proof.
  intros Hok Hpos Ha Hbit.
  apply world_ok_inv in Hok.
  destruct (inv_bitset _ _ _ _ _ Hok Ha) as (l & Hl & Hlen & Hbc & Hr).
  destruct (locate (bitcount bs) bit Hpos Hbit) as (Hk & Hj & Hn & Hb).
  assert (Z.to_nat (Z.quot bit IDS) < length l)%nat as Hlt by lia.
  destruct (lookup_lt_is_Some_2 _ _ Hlt) as [s Hs].
  exists l, s. splits; try assumption; try lia.
  intros p ->.
  destruct (slot_live _ _ _ _ _ _ _ Hok Ha Hl Hs) as (B & HB & Hrc & Hpos' & Hbok).
  assert (Z.to_nat (Z.quot (Z.rem bit IDS) 64) < length (ints B))%nat as Hlt'
    by (rewrite (ok_length _ _ Hbok); lia).
  destruct (lookup_lt_is_Some_2 _ _ Hlt') as [x Hx].
  exists B, x. splits; assumption.
Qed.

(** *** Round trips *)

Ltac test_after :=
  match goal with
  | |- bitset_test_bit _ _ (Some ?a) ?bit _ (mk_world ?BS ?BL ?O) = _ =>
      erewrite (test_present_run (mk_world BS BL O) a _ _ bit);
      [ | side | side | cbn [bitcount with_blocks]; eassumption | assumption
        | cbn [block_count with_blocks]; eassumption | side | side | side ]
  | |- bitset_test_bit _ _ (Some ?a) ?bit _ (w_blk ?p ?c ?w) = _ =>
      erewrite (test_present_run (w_blk p c w) a _ _ bit);
      [ | side | side | cbn [bitcount with_blocks]; eassumption | assumption
        | cbn [block_count with_blocks]; eassumption | side | side | side ]
  end.

Lemma set_then_test (w : world) (a : ptr) (bs : bitset) (bit v : Z) :
  world_ok BLOCKSIZE w -> (0 < BLOCKSIZE)%nat ->
  bsets w !! a = Some (Some bs) -> 0 <= bit < bitcount bs ->
  exists r w1,
    bitset_set BLOCKSIZE NDEBUG (Some a) bit w = Ret r w1
    /\ (r = OK \/ r = ERRMEM /\ hd true (oracle w) = false)
    /\ (r = OK ->
        bitset_test_bit BLOCKSIZE NDEBUG (Some a) bit (Some v) w1
        = Ret (OK, Some 1) w1).
Proof.
  intros Hok Hpos Ha Hbit.
  destruct (shape w a bs bit Hok Hpos Ha Hbit)
    as (l & s & Hl & Hids & Hk & Hn & Hs & Hblk).
  assert (Hlen : (a < length (bsets w))%nat) by (eapply lookup_lt_Some; eassumption).
  assert (Hb : 0 <= Z.rem (Z.rem bit IDS) 64 < 64)
    by (apply Z.rem_bound_pos; [apply Z.rem_nonneg|]; lia).
  destruct s as [p|].
  - destruct (Hblk p eq_refl) as (B & x & Hp & Hx & Hrc & _ & Hbok).
    destruct (Z.testbit x (Z.rem (Z.rem bit IDS) 64)) eqn:Ht.
    + exists OK, w. erewrite (set_noop_run w a bs l bit) by eassumption.
      splits; auto. intros _.
      erewrite test_present_run by eassumption. now rewrite Ht.
    + destruct (Z.le_gt_cases (ref_count B) 1) as [Hle|Hgt].
      * eexists OK, _. erewrite (set_private_run w a bs l bit) by eassumption.
        splits; auto. intros _. test_after.
        rewrite WordFacts.testbit_set, Z.eqb_refl, orb_true_r by lia.
        reflexivity.
      * destruct (hd true (oracle w)) eqn:Ho.
        -- eexists OK, _. erewrite (set_shared_run w a bs l bit) by eassumption.
           splits; auto. intros _. test_after.
           rewrite WordFacts.testbit_set, Z.eqb_refl, orb_true_r by lia.
           reflexivity.
        -- eexists ERRMEM, _.
           erewrite (set_shared_fail_run w a bs l bit) by eassumption.
           splits; auto. discriminate.
  - destruct (hd true (oracle w)) eqn:Ho.
    + eexists OK, _. erewrite (set_absent_run w a bs l bit) by eassumption.
      splits; auto. intros _. test_after.
      rewrite WordFacts.testbit_set, Z.eqb_refl, orb_true_r by lia.
      reflexivity.
    + eexists ERRMEM, _.
      erewrite (set_absent_fail_run w a bs l bit) by eassumption.
      splits; auto. discriminate.
Qed.

Lemma clr_then_test (w : world) (a : ptr) (bs : bitset) (bit v : Z) :
  world_ok BLOCKSIZE w -> (0 < BLOCKSIZE)%nat ->
  bsets w !! a = Some (Some bs) -> 0 <= bit < bitcount bs ->
  exists r w1,
    bitset_clr BLOCKSIZE NDEBUG (Some a) bit w = Ret r w1
    /\ (r = OK \/ r = ERRMEM /\ hd true (oracle w) = false)
    /\ (r = OK ->
        bitset_test_bit BLOCKSIZE NDEBUG (Some a) bit (Some v) w1
        = Ret (OK, Some 0) w1).
Proof.
  intros Hok Hpos Ha Hbit.
  destruct (shape w a bs bit Hok Hpos Ha Hbit)
    as (l & s & Hl & Hids & Hk & Hn & Hs & Hblk).
  assert (Hlen : (a < length (bsets w))%nat) by (eapply lookup_lt_Some; eassumption).
  assert (Hb : 0 <= Z.rem (Z.rem bit IDS) 64 < 64)
    by (apply Z.rem_bound_pos; [apply Z.rem_nonneg|]; lia).
  destruct s as [p|].
  - destruct (Hblk p eq_refl) as (B & x & Hp & Hx & Hrc & _ & Hbok).
    destruct (Z.testbit x (Z.rem (Z.rem bit IDS) 64)) eqn:Ht.
    + destruct (Z.le_gt_cases (ref_count B) 1) as [Hle|Hgt].
      * eexists OK, _. erewrite (clr_private_run w a bs l bit) by eassumption.
        splits; auto. intros _. test_after.
        rewrite WordFacts.testbit_clr, Z.eqb_refl, andb_false_r by lia.
        reflexivity.
      * destruct (hd true (oracle w)) eqn:Ho.
        -- eexists OK, _. erewrite (clr_shared_run w a bs l bit) by eassumption.
           splits; auto. intros _. test_after.
           rewrite WordFacts.testbit_clr, Z.eqb_refl, andb_false_r by lia.
           reflexivity.
        -- eexists ERRMEM, _.
           erewrite (clr_shared_fail_run w a bs l bit) by eassumption.
           splits; auto. discriminate.
    + exists OK, w. erewrite (clr_noop_run w a bs l bit) by eassumption.
      splits; auto. intros _.
      erewrite test_present_run by eassumption. now rewrite Ht.
  - exists OK, w. erewrite (clr_absent_run w a bs l bit) by eassumption.
    splits; auto. intros _. now erewrite test_absent_run by eassumption.
Qed.

Lemma xor_twice (c : bool) : xorb (xorb c true) true = c.
Proof. now destruct c. Qed.

Lemma toggle_twice (w : world) (a : ptr) (bs : bitset) (bit v : Z) :
  world_ok BLOCKSIZE w -> (0 < BLOCKSIZE)%nat ->
  bsets w !! a = Some (Some bs) -> 0 <= bit < bitcount bs ->
  exists t r w1,
    bitset_test_bit BLOCKSIZE NDEBUG (Some a) bit (Some v) w = Ret (OK, Some t) w
    /\ bitset_toggle_bit BLOCKSIZE NDEBUG (Some a) bit w = Ret r w1
    /\ (r = OK \/ r = ERRMEM /\ hd true (oracle w) = false)
    /\ (r = OK ->
        exists w2,
          bitset_toggle_bit BLOCKSIZE NDEBUG (Some a) bit w1 = Ret OK w2
          /\ bitset_test_bit BLOCKSIZE NDEBUG (Some a) bit (Some v) w2
             = Ret (OK, Some t) w2).
Proof.
  intros Hok Hpos Ha Hbit.
  destruct (shape w a bs bit Hok Hpos Ha Hbit)
    as (l & s & Hl & Hids & Hk & Hn & Hs & Hblk).
  assert (Hlen : (a < length (bsets w))%nat) by (eapply lookup_lt_Some; eassumption).
  assert (Hb : 0 <= Z.rem (Z.rem bit IDS) 64 < 64)
    by (apply Z.rem_bound_pos; [apply Z.rem_nonneg|]; lia).
  destruct s as [p|].
  - destruct (Hblk p eq_refl) as (B & x & Hp & Hx & Hrc & _ & Hbok).
    eexists _. erewrite test_present_run by eassumption.
    destruct (Z.le_gt_cases (ref_count B) 1) as [Hle|Hgt].
    + eexists OK, _. split; [reflexivity|].
      erewrite (toggle_private_run w a bs l bit) by eassumption.
      splits; auto. intros _. eexists.
      erewrite (toggle_private_run (w_blk p _ w) a bs l bit);
        [ | side | side | eassumption | assumption | eassumption
          | side | side | side | cbn [ref_count]; lia ].
      split; [reflexivity|]. rewrite w_blk_twice. test_after.
      rewrite !WordFacts.testbit_toggle, Z.eqb_refl, xor_twice by lia.
      reflexivity.
    + destruct (hd true (oracle w)) eqn:Ho.
      * eexists OK, _. split; [reflexivity|].
        erewrite (toggle_shared_run w a bs l bit) by eassumption.
        splits; auto. intros _. eexists.
        erewrite (toggle_private_run (mk_world _ _ _) a _ _ bit);
          [ | side | side | cbn [bitcount with_blocks]; eassumption | assumption
            | cbn [block_count with_blocks]; eassumption
            | side | side | side | cbn [ref_count]; lia ].
        split; [reflexivity|]. unfold w_blk. cbn [bsets blks oracle].
        rewrite insert_snoc_at by (rewrite length_insert; reflexivity).
        test_after.
        rewrite !WordFacts.testbit_toggle, Z.eqb_refl, xor_twice by lia.
        reflexivity.
      * eexists ERRMEM, _. split; [reflexivity|].
        erewrite (toggle_shared_fail_run w a bs l bit) by eassumption.
        splits; auto. discriminate.
  - exists 0. erewrite test_absent_run by eassumption.
    destruct (hd true (oracle w)) eqn:Ho.
    + eexists OK, _. split; [reflexivity|].
      erewrite (toggle_absent_run w a bs l bit) by eassumption.
      splits; auto. intros _. eexists.
      erewrite (toggle_private_run (mk_world _ _ _) a _ _ bit);
        [ | side | side | cbn [bitcount with_blocks]; eassumption | assumption
          | cbn [block_count with_blocks]; eassumption
          | side | side | side | cbn [ref_count]; lia ].
      split; [reflexivity|]. unfold w_blk. cbn [bsets blks oracle].
      rewrite insert_snoc_at by reflexivity.
      test_after.
      rewrite !WordFacts.testbit_toggle, Z.eqb_refl, xor_twice, Z.bits_0 by lia.
      reflexivity.
    + eexists ERRMEM, _. split; [reflexivity|].
      erewrite (toggle_absent_fail_run w a bs l bit) by eassumption.
      splits; auto. discriminate.
Qed.

(** *** Mismatched capacities *)

Lemma mismatch_run (k : ptr -> ptr -> M status) (w : world) (a b : ptr)
      (A B : bitset) :
  bsets w !! a = Some (Some A) -> bsets w !! b = Some (Some B) ->
  bitcount A <> bitcount B ->
  binary_checks NDEBUG (Some a) (Some b) k w = Ret ERRINPUT w.
Proof.
  intros Ha Hb Hne. unfold binary_checks.
  assert ((bitcount A =? bitcount B) = false) by lia.
  mrun. reflexivity.
Qed.

(** *** [bitset_alloc] always returns *)

Lemma bitset_alloc_total (bitcount : Z) (out : option pointer) (w : world) :
  exists r w',
    bitset_alloc BLOCKSIZE bitcount out w = Ret r w'
    /\ (fst r = ERRINPUT <-> out <> Some None).
Proof.
  unfold bitset_alloc.
  destruct out as [[q|]|].
  - eexists _, _. split; [reflexivity|]. simpl. split; congruence.
  - unfold bitset_init, bitset_free, malloc.
    destruct (hd true (oracle w)) eqn:Ho.
    + destruct (PTRDIFF_MAX <? size_t (PTRSIZE * BLOCKCOUNT BLOCKSIZE bitcount))
        eqn:Hsz.
      * mrun. eexists _, _. split; [reflexivity|]. simpl. split; congruence.
      * mrun.
        destruct (hd true (tl (oracle w))) eqn:Ho'; mrun;
          eexists _, _; (split; [reflexivity|]); simpl; split; congruence.
    + mrun. eexists _, _. split; [reflexivity|]. simpl. split; congruence.
  - eexists _, _. split; [reflexivity|]. simpl. split; congruence.
Qed.

End Runs.

(** ** Reaching the scenarios *)

Lemma reachable_after (BLOCKSIZE : nat) (NDEBUG : bool) (c : call) (w : world) :
  reachable BLOCKSIZE NDEBUG w -> well_typed w c ->
  returns BLOCKSIZE NDEBUG c w = true ->
  reachable BLOCKSIZE NDEBUG (after BLOCKSIZE NDEBUG c w).
Proof.
  intros Hr Hty Hret. unfold returns, after in *.
  destruct (exec BLOCKSIZE NDEBUG c w) as [[] w'| |] eqn:E; try discriminate.
  eapply reach_call; eassumption.
Qed.

Ltac reach :=
  unfold Scenario.step;
  repeat lazymatch goal with
    | |- reachable _ _ (after _ _ _ _) =>
        apply reachable_after;
        [ | vm_compute; repeat split; try (eexists; reflexivity); try congruence
          | vm_compute; reflexivity ]
    | |- reachable _ _ (empty_world _) => apply reach_init
    end.

Lemma reachable_w_a : reachable 2 false Scenario.w_a.
Proof. unfold Scenario.w_a. reach. Qed.

Lemma reachable_w_ab : reachable 2 false Scenario.w_ab.
Proof. unfold Scenario.w_ab, Scenario.w_a. reach. Qed.

Lemma reachable_w_ab6 : reachable 2 false Scenario.w_ab6.
Proof. unfold Scenario.w_ab6, Scenario.w_ab, Scenario.w_a. reach. Qed.


Lemma reachable_w_shared_oom : reachable 2 false Scenario.w_shared_oom.
Proof. unfold Scenario.w_shared_oom. reach. Qed.

Lemma reachable_w_union : reachable 2 false Scenario.w_union.
Proof. unfold Scenario.w_union. reach. Qed.

Lemma reachable_w_mismatch : reachable 2 false Scenario.w_mismatch.
Proof. unfold Scenario.w_mismatch. reach. Qed.

Lemma reachable_w_full : reachable 2 false Scenario.w_full.
Proof. unfold Scenario.w_full. reach. Qed.


(** ** The population count as a sum over the slots *)


Lemma set_count_loop (a : ptr) (w : world) (bs : bitset) (l : list pointer) :
  bsets w !! a = Some (Some bs) -> blocks bs = Some l ->
  (forall i p, l !! i = Some (Some p) -> exists B, blks w !! p = Some (Some B)) ->
  forall (rest done : list pointer) (acc : Z),
    l = done ++ rest ->
    for_acc (length rest) (Z.of_nat (length done))
      (fun i n =>
         let* s := get_slot a i in
         match s with
         | Some p => let* B := load_block p in ret (n + set_count B)
         | None => ret n
         end) acc w
    = Ret (acc + sum_counts w rest) w.
Proof.
  intros Ha Hl Hlive. induction rest as [|s rest IH]; intros done acc Heq.
  - cbn. unfold ret. now rewrite Z.add_0_r.
  - cbn [for_acc length]. unfold bind at 1. cbn beta. unfold bind at 1.
    assert (l !! length done = Some s) as Hs
      by (rewrite Heq; now apply list_lookup_middle).
    rewrite (get_slot_run a _ w bs l s) by (rewrite ?Nat2Z.id; first [assumption | lia]).
    replace (Z.of_nat (length done) + 1) with (Z.of_nat (length (done ++ [s])))
      by (rewrite length_app; cbn; lia).
    cbn [sum_counts fold_right]. fold (sum_counts w rest).
    destruct s as [p|].
    + destruct (Hlive _ _ Hs) as [B HB].
      unfold bind at 1. rewrite (load_block_run p w B HB). unfold ret at 1.
      rewrite IH by (rewrite <- app_assoc; exact Heq).
      cbn [slot_count]. rewrite HB. f_equal. lia.
    + unfold ret at 1. rewrite IH by (rewrite <- app_assoc; exact Heq).
      cbn [slot_count]. f_equal.
Qed.

Lemma set_count_run (BLOCKSIZE : nat) (a : ptr) (w : world) (bs : bitset)
      (l : list pointer) :
  world_ok BLOCKSIZE w ->
  bsets w !! a = Some (Some bs) -> blocks bs = Some l ->
  bitset_set_count (Some a) w = Ret (inr (sum_counts w l)) w.
Proof.
  intros Hok Ha Hl. apply world_ok_inv in Hok.
  destruct (inv_bitset _ _ _ _ _ Hok Ha) as (l' & Hl' & Hlen & _).
  assert (l' = l) as -> by congruence.
  unfold bitset_set_count. unfold bind at 1. rewrite (load_bitset_run a w bs Ha).
  unfold bind at 1. rewrite <- Hlen.
  rewrite (set_count_loop a w bs l Ha Hl) with (done := []) (rest := l).
  - reflexivity.
  - intros i p Hi.
    destruct (slot_live _ _ _ _ _ _ _ Hok Ha Hl Hi) as (B & HB & _). eauto.
  - reflexivity.
Qed.

Lemma sum_counts_nonneg (BLOCKSIZE : nat) (w : world) (l : list pointer) :
  world_ok BLOCKSIZE w -> 0 <= sum_counts w l.
Proof.
  intros Hok. induction l as [|s l IH]; cbn [sum_counts fold_right]; [lia|].
  fold (sum_counts w l).
  assert (0 <= slot_count w s); [|lia].
  destruct s as [p|]; cbn [slot_count]; [|lia].
  destruct (blks w !! p) as [[B|]|] eqn:HB; try lia.
  destruct (ok_blocks _ _ Hok p B HB) as [_ Hw Hc].
  pose proof (popcount_list_bounds (ints B)). lia.
Qed.

Lemma set_count_int_loop (BLOCKSIZE : nat) (a : ptr) (w : world) (bs : bitset)
      (l : list pointer) :
  world_ok BLOCKSIZE w ->
  bsets w !! a = Some (Some bs) -> blocks bs = Some l ->
  (forall i p, l !! i = Some (Some p) -> exists B, blks w !! p = Some (Some B)) ->
  forall (rest done : list pointer) (acc : Z),
    l = done ++ rest -> 0 <= acc <= INT_MAX ->
    for_acc (length rest) (Z.of_nat (length done))
      (fun i n =>
         let* s := get_slot a i in
         match s with
         | Some p => let* B := load_block p in int_add n (set_count B)
         | None => ret n
         end) acc w
    = if acc + sum_counts w rest <=? INT_MAX
      then Ret (acc + sum_counts w rest) w else Undef.
Proof.
  intros Hok Ha Hl Hlive. induction rest as [|s rest IH]; intros done acc Heq Hacc.
  - cbn. unfold ret. rewrite Z.add_0_r.
    destruct (Z.leb_spec acc INT_MAX); [reflexivity | lia].
  - cbn [for_acc length]. unfold bind at 1. cbn beta. unfold bind at 1.
    assert (l !! length done = Some s) as Hs
      by (rewrite Heq; now apply list_lookup_middle).
    rewrite (get_slot_run a _ w bs l s) by (rewrite ?Nat2Z.id; first [assumption | lia]).
    replace (Z.of_nat (length done) + 1) with (Z.of_nat (length (done ++ [s])))
      by (rewrite length_app; cbn; lia).
    cbn [sum_counts fold_right]. fold (sum_counts w rest).
    pose proof (sum_counts_nonneg BLOCKSIZE w rest Hok) as Hrest.
    pose proof (sum_counts_nonneg BLOCKSIZE w [s] Hok) as Hslot.
    cbn [sum_counts fold_right] in Hslot.
    destruct s as [p|].
    + destruct (Hlive _ _ Hs) as [B HB].
      unfold bind at 1. rewrite (load_block_run p w B HB).
      cbn [slot_count] in Hslot |- *. rewrite HB in Hslot |- *.
      unfold int_add.
      destruct (Z.leb_spec (acc + set_count B) INT_MAX) as [Hle|Hgt].
      * assert ((INT_MIN <=? acc + set_count B) = true) as ->
          by (apply Z.leb_le; unfold INT_MIN; lia).
        cbn [andb]. unfold ret at 1.
        rewrite IH by (first [rewrite <- app_assoc; exact Heq | lia]).
        replace (acc + set_count B + sum_counts w rest)
          with (acc + (set_count B + sum_counts w rest)) by lia.
        reflexivity.
      * rewrite andb_false_r. unfold undef.
        destruct (Z.leb_spec (acc + (set_count B + sum_counts w rest)) INT_MAX);
          [lia | reflexivity].
    + unfold ret at 1. rewrite IH by (first [rewrite <- app_assoc; exact Heq | lia]).
      cbn [slot_count]. reflexivity.
Qed.

(** The count in an [int] is the sum of the blocks' counts when that is
    an [int], and undefined otherwise. *)
Lemma set_count_int_run (BLOCKSIZE : nat) (a : ptr) (w : world) (bs : bitset)
      (l : list pointer) :
  world_ok BLOCKSIZE w ->
  bsets w !! a = Some (Some bs) -> blocks bs = Some l ->
  bitset_set_count_int (Some a) w
  = if sum_counts w l <=? INT_MAX then Ret (inr (sum_counts w l)) w else Undef.
Proof.
  intros Hok Ha Hl. pose proof (proj1 (world_ok_inv BLOCKSIZE w) Hok) as Hinv.
  destruct (inv_bitset _ _ _ _ _ Hinv Ha) as (l' & Hl' & Hlen & _).
  assert (l' = l) as -> by congruence.
  unfold bitset_set_count_int. unfold bind at 1. rewrite (load_bitset_run a w bs Ha).
  unfold bind at 1. rewrite <- Hlen.
  rewrite (set_count_int_loop BLOCKSIZE a w bs l Hok Ha Hl) with (done := []) (rest := l).
  - rewrite Z.add_0_l. now destruct (sum_counts w l <=? INT_MAX).
  - intros i p Hi.
    destruct (slot_live _ _ _ _ _ _ _ Hinv Ha Hl Hi) as (B & HB & _). eauto.
  - reflexivity.
  - unfold INT_MAX. lia.
Qed.

(** Where the sum is an [int], the two counts agree. *)
Lemma set_count_int_in_range (BLOCKSIZE : nat) (a : ptr) (w : world) (bs : bitset)
      (n : Z) :
  world_ok BLOCKSIZE w -> bsets w !! a = Some (Some bs) ->
  bitset_set_count (Some a) w = Ret (inr n) w -> n <= INT_MAX ->
  bitset_set_count_int (Some a) w = Ret (inr n) w.
Proof.
  intros Hok Ha Hn Hle. pose proof (proj1 (world_ok_inv BLOCKSIZE w) Hok) as Hinv.
  destruct (inv_bitset _ _ _ _ _ Hinv Ha) as (l & Hl & _).
  rewrite (set_count_run BLOCKSIZE a w bs l Hok Ha Hl) in Hn.
  injection Hn as <-.
  rewrite (set_count_int_run BLOCKSIZE a w bs l Hok Ha Hl).
  destruct (Z.leb_spec (sum_counts w l) INT_MAX); [reflexivity | lia].
Qed.

Lemma set_count_int_overflow (BLOCKSIZE : nat) (a : ptr) (w : world) (bs : bitset)
      (n : Z) :
  world_ok BLOCKSIZE w -> bsets w !! a = Some (Some bs) ->
  bitset_set_count (Some a) w = Ret (inr n) w -> INT_MAX < n ->
  bitset_set_count_int (Some a) w = Undef.
Proof.
  intros Hok Ha Hn Hle. pose proof (proj1 (world_ok_inv BLOCKSIZE w) Hok) as Hinv.
  destruct (inv_bitset _ _ _ _ _ Hinv Ha) as (l & Hl & _).
  rewrite (set_count_run BLOCKSIZE a w bs l Hok Ha Hl) in Hn.
  injection Hn as <-.
  rewrite (set_count_int_run BLOCKSIZE a w bs l Hok Ha Hl).
  destruct (Z.leb_spec (sum_counts w l) INT_MAX); [lia | reflexivity].
Qed.

(** ** Runs in which the clone of a shared block fails *)

Lemma for_loop_stop {E} (body : Z -> M (option E)) (e : E) :
  forall (k n : nat) (i : Z) (w w0 w' : world),
    (k < n)%nat ->
    for_loop k i body w = Ret None w0 ->
    body (i + Z.of_nat k) w0 = Ret (Some e) w' ->
    for_loop n i body w = Ret (Some e) w'.
Proof.
  induction k as [|k IH]; intros n i w w0 w' Hlt Hpre Hstop.
  - cbn in Hpre. injection Hpre as <-.
    destruct n as [|n]; [lia|]. cbn [for_loop]. unfold bind.
    replace (i + Z.of_nat 0) with i in Hstop by lia.
    now rewrite Hstop.
  - destruct n as [|n]; [lia|]. cbn [for_loop] in Hpre |- *.
    unfold bind in Hpre |- *.
    destruct (body i w) as [[e1|] w1| |]; try discriminate.
    apply (IH n (i + 1) w1 w0 w'); [lia | exact Hpre |].
    replace (i + 1 + Z.of_nat k) with (i + Z.of_nat (S k)) by lia. exact Hstop.
Qed.

Section FailedClone.

Variable BLOCKSIZE : nat.
Variable NDEBUG : bool.
Variables (w : world) (a : ptr) (bs : bitset) (l : list pointer) (i : Z)
          (p : ptr) (B : bitset_block).
Hypothesis Ha : bsets w !! a = Some (Some bs).
Hypothesis Hl : blocks bs = Some l.
Hypothesis Hi : 0 <= i.
Hypothesis Hs : l !! Z.to_nat i = Some (Some p).
Hypothesis Hp : blks w !! p = Some (Some B).
Hypothesis Hrc : 1 < ref_count B.
Hypothesis Ho : hd true (oracle w) = false.

(** The memory a failed clone of slot [i] leaves. *)
Let w' : world :=
  mk_world (<[a := Some (with_blocks (<[Z.to_nat i := None]> l) bs)]> (bsets w))
           (<[p := Some (with_ref_count (ref_count B - 1) B)]> (blks w))
           (tl (oracle w)).

Lemma realloc_if_shared_fail_run :
  realloc_if_shared BLOCKSIZE NDEBUG a i w = Ret (Some ERRMEM) w'.
Proof.
  unfold realloc_if_shared, shared.
  assert (Hi' : (i <? 0) = false) by lia.
  assert (Hrc' : (1 <? ref_count B) = true) by lia.
  mrun. erewrite realloc_fail_run by eassumption. reflexivity.
Qed.

Lemma combine_slot_fail_run (op : ptr -> ptr -> M unit) (b : ptr) :
  combine_slot BLOCKSIZE NDEBUG op a b i w = Ret (Some ERRMEM) w'.
Proof.
  unfold combine_slot. unfold bind at 1.
  now rewrite realloc_if_shared_fail_run.
Qed.

Section Other.

Variables (b : ptr) (bb : bitset) (lb : list pointer) (q : ptr).
Hypothesis Hb : bsets w !! b = Some (Some bb).
Hypothesis Hlb : blocks bb = Some lb.
Hypothesis Hq : lb !! Z.to_nat i = Some (Some q).

Lemma or_body_fail_run :
  bitset_or_body BLOCKSIZE NDEBUG a b i w = Ret (Some ERRMEM) w'.
Proof.
  unfold bitset_or_body.
  rewrite (bind_run _ _ _ _ _ (get_slot_run a i w bs l _ Ha Hl Hi Hs)).
  rewrite (bind_run _ _ _ _ _ (get_slot_run b i w bb lb _ Hb Hlb Hi Hq)).
  apply combine_slot_fail_run.
Qed.

Lemma and_body_fail_run :
  bitset_and_body BLOCKSIZE NDEBUG a b i w = Ret (Some ERRMEM) w'.
Proof.
  unfold bitset_and_body.
  rewrite (bind_run _ _ _ _ _ (get_slot_run a i w bs l _ Ha Hl Hi Hs)).
  rewrite (bind_run _ _ _ _ _ (get_slot_run b i w bb lb _ Hb Hlb Hi Hq)).
  apply combine_slot_fail_run.
Qed.

Lemma subtract_body_fail_run :
  bitset_subtract_body BLOCKSIZE NDEBUG a b i w = Ret (Some ERRMEM) w'.
Proof.
  unfold bitset_subtract_body.
  rewrite (bind_run _ _ _ _ _ (get_slot_run a i w bs l _ Ha Hl Hi Hs)).
  rewrite (bind_run _ _ _ _ _ (get_slot_run b i w bb lb _ Hb Hlb Hi Hq)).
  apply combine_slot_fail_run.
Qed.

End Other.

End FailedClone.

Lemma binary_stop_run (BLOCKSIZE : nat) (NDEBUG : bool)
      (body : ptr -> ptr -> Z -> M (option status))
      (ws w w' : world) (a b : ptr) (As Bs : bitset) (k : nat) (e : status) :
  bsets ws !! a = Some (Some As) -> bsets ws !! b = Some (Some Bs) ->
  bitcount As = bitcount Bs -> block_count As = block_count Bs ->
  (k < Z.to_nat (block_count As))%nat ->
  for_loop k 0 (body a b) ws = Ret None w ->
  body a b (Z.of_nat k) w = Ret (Some e) w' ->
  binary_checks NDEBUG (Some a) (Some b) (fun a b =>
    let* A := load_bitset a in
    let* r := for_loop (Z.to_nat (block_count A)) 0 (body a b) in
    loop_result r) ws = Ret e w'.
Proof.
  intros Ha Hb Hbit Hblk Hk Hpre Hstop. unfold binary_checks.
  assert ((bitcount As =? bitcount Bs) = true) as H1 by lia.
  assert ((block_count As =? block_count Bs) = true) as H2 by lia.
  rewrite (bind_run _ _ _ _ _ (load_bitset_run a ws As Ha)).
  rewrite (bind_run _ _ _ _ _ (load_bitset_run b ws Bs Hb)).
  rewrite H1. cbn [negb]. unfold bind at 1.
  erewrite assert_true; cycle 1.
  { rewrite (bind_run _ _ _ _ _ (load_bitset_run a ws As Ha)).
    rewrite (bind_run _ _ _ _ _ (load_bitset_run b ws Bs Hb)).
    rewrite H2. reflexivity. }
  rewrite (bind_run _ _ _ _ _ (load_bitset_run a ws As Ha)).
  unfold bind at 1.
  rewrite (for_loop_stop (body a b) e k _ 0 ws w w' Hk Hpre Hstop).
  reflexivity.
Qed.

(** ** Sharing a block, and what a test reads *)

Lemma or_share_run (BLOCKSIZE : nat) (NDEBUG : bool) (w : world) (a b : ptr)
      (A Bb : bitset) (la lb : list pointer) (i : Z) (q : ptr)
      (Bq : bitset_block) :
  bsets w !! a = Some (Some A) -> blocks A = Some la ->
  0 <= i -> la !! Z.to_nat i = Some None ->
  bsets w !! b = Some (Some Bb) -> blocks Bb = Some lb ->
  lb !! Z.to_nat i = Some (Some q) -> blks w !! q = Some (Some Bq) ->
  bitset_or_body BLOCKSIZE NDEBUG a b i w
  = Ret None (slot_shared w a A la (Z.to_nat i) q Bq).
Proof.
  intros Ha Hla Hi Hsa Hb Hlb Hsb Hq. unfold bitset_or_body.
  rewrite (bind_run _ _ _ _ _ (get_slot_run a i w A la _ Ha Hla Hi Hsa)).
  rewrite (bind_run _ _ _ _ _ (get_slot_run b i w Bb lb _ Hb Hlb Hi Hsb)).
  unfold bind at 1.
  rewrite (set_slot_run a i (Some q) w A la None Ha Hla Hi Hsa).
  pose proof (lookup_lt_Some _ _ _ Ha) as Hal.
  pose proof (lookup_lt_Some _ _ _ Hsa) as Hil.
  erewrite bind_run; cycle 1.
  { apply (get_slot_run a i _ (with_blocks (<[Z.to_nat i := Some q]> la) A)
             (<[Z.to_nat i := Some q]> la) (Some q));
      [ | reflexivity | exact Hi | ].
    - unfold w_cell. cbn [bsets]. now apply list_lookup_insert_eq.
    - now apply list_lookup_insert_eq. }
  unfold deref at 1. unfold bind at 1, ret at 1. unfold bind at 1.
  unfold bitset_block_incref.
  rewrite (upd_block_run q _ _ Bq) by exact Hq.
  reflexivity.
Qed.

Lemma same_words_refl bl : same_words bl bl.
Proof. intros q B H. eauto. Qed.

Lemma same_words_trans bl1 bl2 bl3 :
  same_words bl1 bl2 -> same_words bl2 bl3 -> same_words bl1 bl3.
Proof.
  intros H12 H23 q B H. destruct (H12 q B H) as (B2 & H2 & E2).
  destruct (H23 q B2 H2) as (B3 & H3 & E3). exists B3. split; congruence.
Qed.

Lemma same_words_insert bl q B C :
  bl !! q = Some (Some B) -> ints C = ints B ->
  same_words bl (<[q := Some C]> bl).
Proof.
  intros Hq Hints q' B' H'. destruct (decide (q = q')) as [<-|Hne].
  - exists C. split; [|congruence].
    apply list_lookup_insert_eq. eapply lookup_lt_Some; eassumption.
  - exists B'. split; [|reflexivity]. now rewrite list_lookup_insert_ne.
Qed.



(** [bitset_or] on the scenario is that one step. *)
Lemma or_on_w_union :
  bitset_or 2 false (Some 0%nat) (Some 1%nat) Scenario.w_union
  = Ret OK Scenario.w_shared.
Proof. vm_compute. reflexivity. Qed.

(** * Properties of the library *)

(** C5: for two bitsets whose bit capacities differ, [bitset_or],
    [bitset_and] and [bitset_subtract] each return [ERRINPUT] and leave
    the whole memory, hence both operands, as it was. *)
Theorem C5_capacity_mismatch (BLOCKSIZE : nat) (NDEBUG : bool) (w : world)
        (a b : ptr) (A B : bitset) :
  bsets w !! a = Some (Some A) -> bsets w !! b = Some (Some B) ->
  bitcount A <> bitcount B ->
  bitset_or BLOCKSIZE NDEBUG (Some a) (Some b) w = Ret ERRINPUT w
  /\ bitset_and BLOCKSIZE NDEBUG (Some a) (Some b) w = Ret ERRINPUT w
  /\ bitset_subtract BLOCKSIZE NDEBUG (Some a) (Some b) w = Ret ERRINPUT w.
Proof.
  intros Ha Hb Hne. unfold bitset_or, bitset_and, bitset_subtract.
  splits; eapply mismatch_run; eassumption.
Qed.

Lemma C5_capacity_mismatch_witness :
  bitset_or 2 false (Some 0%nat) (Some 1%nat) Scenario.w_mismatch
  = Ret ERRINPUT Scenario.w_mismatch
  /\ bitset_and 2 false (Some 0%nat) (Some 1%nat) Scenario.w_mismatch
     = Ret ERRINPUT Scenario.w_mismatch
  /\ bitset_subtract 2 false (Some 0%nat) (Some 1%nat) Scenario.w_mismatch
     = Ret ERRINPUT Scenario.w_mismatch.
Proof.
  apply (C5_capacity_mismatch 2 false Scenario.w_mismatch 0 1
           (mk_bitset 64 1 (Some [None])) (mk_bitset 128 1 (Some [None]))).
  - vm_compute. reflexivity.
  - vm_compute. reflexivity.
  - simpl. lia.
Defined.

(** C6, as the code has it: [bitset_alloc] always returns, and it
    returns [ERRINPUT] exactly when its output parameter is NULL or
    already holds a bitset, whatever the bit capacity; with a proper
    output parameter a negative capacity ends in [OK] or [ERRMEM]. *)
Theorem C6_alloc_invalid_input (BLOCKSIZE : nat) (bitcount : Z)
        (bset_out : option pointer) (w : world) :
  exists r w',
    bitset_alloc BLOCKSIZE bitcount bset_out w = Ret r w'
    /\ (fst r = ERRINPUT <-> bset_out <> Some None)
    /\ (bset_out = Some None -> fst r = OK \/ fst r = ERRMEM).
Proof.
  destruct (bitset_alloc_total BLOCKSIZE bitcount bset_out w) as (r & w' & Hrun & Hiff).
  exists r, w'. splits; try assumption.
  intros ->. destruct (fst r); auto. exfalso. now apply Hiff.
Qed.

(** C6 fails as stated: with capacity -1 and a proper output parameter
    [bitset_alloc] returns [OK] and hands out a bitset of capacity -1. *)
Lemma C6_negative_capacity_accepted :
  bitset_alloc 2 (-1) (Some None) (empty_world [])
  = Ret (OK, Some 0%nat) (mk_world [Some (mk_bitset (-1) 0 (Some []))] [] []).
Proof. vm_compute. reflexivity. Qed.

(** C7: in every memory a client can reach, a block that a slot of a live
    bitset points to is alive, and its [ref_count] is the number of slots
    of live bitsets that point to it. *)
Theorem C7_ref_count_counts_owners (BLOCKSIZE : nat) (NDEBUG : bool) (w : world)
        (a : ptr) (bs : bitset) (l : list pointer) (i : nat) (p : ptr) :
  reachable BLOCKSIZE NDEBUG w ->
  bsets w !! a = Some (Some bs) -> blocks bs = Some l ->
  l !! i = Some (Some p) ->
  exists B, blks w !! p = Some (Some B)
            /\ ref_count B = Z.of_nat (owners w p).
Proof.
  intros Hr Ha Hl Hi.
  apply reachable_world_ok, world_ok_inv in Hr.
  destruct (slot_live _ _ _ _ _ _ _ Hr Ha Hl Hi) as (B & HB & Hrc & _).
  eauto.
Qed.

Lemma C7_ref_count_counts_owners_witness :
  exists B, blks Scenario.w_ab6 !! 1%nat = Some (Some B)
            /\ ref_count B = Z.of_nat (owners Scenario.w_ab6 1).
Proof.
  apply (C7_ref_count_counts_owners 2 false Scenario.w_ab6 1
           (mk_bitset 200 2 (Some [Some 2%nat; Some 1%nat]))
           [Some 2%nat; Some 1%nat] 1 1).
  - exact reachable_w_ab6.
  - vm_compute. reflexivity.
  - reflexivity.
  - reflexivity.
Defined.

(** C9: on a well-formed memory and for a valid index, [bitset_set]
    returns [OK], unless the allocator fails, and the test that follows
    stores 1; [bitset_clr] returns [OK], unless the allocator fails, and
    the test that follows stores 0; and two successful [bitset_toggle_bit]
    give back the value the test stored before. *)
Theorem C9_round_trip (BLOCKSIZE : nat) (NDEBUG : bool) (w : world) (a : ptr)
        (bs : bitset) (bit v : Z) :
  world_ok BLOCKSIZE w -> (0 < BLOCKSIZE)%nat ->
  bsets w !! a = Some (Some bs) -> 0 <= bit < bitcount bs ->
  (exists r w1,
      bitset_set BLOCKSIZE NDEBUG (Some a) bit w = Ret r w1
      /\ (r = OK \/ r = ERRMEM /\ hd true (oracle w) = false)
      /\ (r = OK ->
          bitset_test_bit BLOCKSIZE NDEBUG (Some a) bit (Some v) w1
          = Ret (OK, Some 1) w1))
  /\ (exists r w1,
         bitset_clr BLOCKSIZE NDEBUG (Some a) bit w = Ret r w1
         /\ (r = OK \/ r = ERRMEM /\ hd true (oracle w) = false)
         /\ (r = OK ->
             bitset_test_bit BLOCKSIZE NDEBUG (Some a) bit (Some v) w1
             = Ret (OK, Some 0) w1))
  /\ (exists t r w1,
         bitset_test_bit BLOCKSIZE NDEBUG (Some a) bit (Some v) w
         = Ret (OK, Some t) w
         /\ bitset_toggle_bit BLOCKSIZE NDEBUG (Some a) bit w = Ret r w1
         /\ (r = OK \/ r = ERRMEM /\ hd true (oracle w) = false)
         /\ (r = OK ->
             exists w2,
               bitset_toggle_bit BLOCKSIZE NDEBUG (Some a) bit w1 = Ret OK w2
               /\ bitset_test_bit BLOCKSIZE NDEBUG (Some a) bit (Some v) w2
                  = Ret (OK, Some t) w2)).
Proof.
  intros Hok Hpos Ha Hbit. splits.
  - now apply (set_then_test BLOCKSIZE NDEBUG w a bs).
  - now apply (clr_then_test BLOCKSIZE NDEBUG w a bs).
  - now apply (toggle_twice BLOCKSIZE NDEBUG w a bs).
Qed.

Lemma C9_round_trip_witness :
  (exists r w1,
      bitset_set 2 false (Some 0%nat) 7 Scenario.w_a = Ret r w1
      /\ (r = OK \/ r = ERRMEM /\ hd true (oracle Scenario.w_a) = false)
      /\ (r = OK ->
          bitset_test_bit 2 false (Some 0%nat) 7 (Some 0) w1
          = Ret (OK, Some 1) w1))
  /\ (exists r w1,
         bitset_clr 2 false (Some 0%nat) 7 Scenario.w_a = Ret r w1
         /\ (r = OK \/ r = ERRMEM /\ hd true (oracle Scenario.w_a) = false)
         /\ (r = OK ->
             bitset_test_bit 2 false (Some 0%nat) 7 (Some 0) w1
             = Ret (OK, Some 0) w1))
  /\ (exists t r w1,
         bitset_test_bit 2 false (Some 0%nat) 7 (Some 0) Scenario.w_a
         = Ret (OK, Some t) Scenario.w_a
         /\ bitset_toggle_bit 2 false (Some 0%nat) 7 Scenario.w_a = Ret r w1
         /\ (r = OK \/ r = ERRMEM /\ hd true (oracle Scenario.w_a) = false)
         /\ (r = OK ->
             exists w2,
               bitset_toggle_bit 2 false (Some 0%nat) 7 w1 = Ret OK w2
               /\ bitset_test_bit 2 false (Some 0%nat) 7 (Some 0) w2
                  = Ret (OK, Some t) w2)).
Proof.
  apply (C9_round_trip 2 false Scenario.w_a 0
           (mk_bitset 200 2 (Some [Some 0%nat; Some 1%nat])) 7 0).
  - exact (reachable_world_ok 2 false _ reachable_w_a).
  - lia.
  - vm_compute. reflexivity.
  - simpl. lia.
Defined.

(** C1, as the code behaves: on the bitset of capacity 200 holding
    exactly 5 and 150 (blocks of 128 bits, nothing shared),
    [bitset_invert] returns [OK]; afterwards the test is false at 5 and
    at 150 and true at 6, the test is true at 198 of the indices 0..199,
    and [bitset_set_count] reports 254, the 56 padding bits of the last
    block included. When the duplicate [b] still shares the second
    block, as in the scenario, the same call aborts on the assertion of
    [bitset_block_invert]; with [NDEBUG] it returns [OK] and the count
    is 254 again. *)
Theorem C1_invert_counts_padding :
  (exists w1,
      bitset_invert 2 false (Some 0%nat) Scenario.w_a = Ret OK w1
      /\ bitset_set_count (Some 0%nat) Scenario.w_a = Ret (inr 2) Scenario.w_a
      /\ count_tested 2 false Scenario.w_a 0 200 = 2%nat
      /\ tested 2 false w1 0 5 = false
      /\ tested 2 false w1 0 150 = false
      /\ tested 2 false w1 0 6 = true
      /\ count_tested 2 false w1 0 200 = 198%nat
      /\ bitset_set_count (Some 0%nat) w1 = Ret (inr 254) w1)
  /\ bitset_invert 2 false (Some 0%nat) Scenario.w_ab6 = Abort
  /\ exists w2,
      bitset_invert 2 true (Some 0%nat) Scenario.w_ab6 = Ret OK w2
      /\ count_tested 2 true w2 0 200 = 198%nat
      /\ bitset_set_count (Some 0%nat) w2 = Ret (inr 254) w2.
Proof.
  split; [|split; [vm_compute; reflexivity|]].
  - eexists. repeat (split; [vm_compute; reflexivity|]).
    vm_compute. reflexivity.
  - eexists. repeat (split; [vm_compute; reflexivity|]).
    vm_compute. reflexivity.
Qed.

(** C2, as the code behaves: with [b] a duplicate of [a] that still
    shares the second block, [bitset_invert] on [a] reaches
    [bitset_block_invert] on a block that [b] also owns. With assertions
    compiled in the program aborts; with [NDEBUG] the shared block is
    complemented in place, so the test on [b] at 150, true before, is
    false afterwards, and the count of [b] goes from 3 to 129, although
    only [a] was inverted. *)
Theorem C2_invert_writes_shared_block :
  bitset_invert 2 false (Some 0%nat) Scenario.w_ab6 = Abort
  /\ tested 2 true Scenario.w_ab6 1 150 = true
  /\ bitset_set_count (Some 1%nat) Scenario.w_ab6 = Ret (inr 3) Scenario.w_ab6
  /\ exists w1,
      bitset_invert 2 true (Some 0%nat) Scenario.w_ab6 = Ret OK w1
      /\ tested 2 true w1 1 150 = false
      /\ bitset_set_count (Some 1%nat) w1 = Ret (inr 129) w1.
Proof.
  repeat (split; [vm_compute; reflexivity|]). eexists.
  repeat (split; [vm_compute; reflexivity|]). vm_compute. reflexivity.
Qed.

(** C4, as the code behaves: [bitset_inverse], which duplicates its
    operand and inverts the duplicate, aborts on the bitset holding 5
    and 150 when assertions are compiled in. With [NDEBUG] it returns
    [OK], having complemented the blocks the operand shares with the
    result: the test on the operand at 5, true before, is false
    afterwards; a second [bitset_inverse] complements the same blocks
    once more, so that the operand and both results test true at 5. *)
Theorem C4_inverse_writes_operand :
  bitset_inverse 2 false (Some 0%nat) (Some None) Scenario.w_a = Abort
  /\ tested 2 true Scenario.w_a 0 5 = true
  /\ exists w1,
      bitset_inverse 2 true (Some 0%nat) (Some None) Scenario.w_a
      = Ret (OK, Some 1%nat) w1
      /\ tested 2 true w1 0 5 = false
      /\ tested 2 true w1 1 5 = false
      /\ exists w2,
          bitset_inverse 2 true (Some 1%nat) (Some None) w1
          = Ret (OK, Some 2%nat) w2
          /\ tested 2 true w2 0 5 = true
          /\ tested 2 true w2 1 5 = true
          /\ tested 2 true w2 2 5 = true.
Proof.
  repeat (split; [vm_compute; reflexivity|]). eexists.
  repeat (split; [vm_compute; reflexivity|]). eexists.
  repeat (split; [vm_compute; reflexivity|]). vm_compute. reflexivity.
Qed.




(** C10: when a slot of [a] holds a block that other slots own too and
    the allocator fails, [bitset_toggle_bit], [bitset_set] of a clear
    bit and [bitset_clr] of a set bit in that slot, and [bitset_or],
    [bitset_and] and [bitset_subtract] when their loop arrives at that
    slot with [b]'s slot present, return [ERRMEM] in a memory in which
    the slot of [a] is absent and the block's [ref_count] is one
    smaller; that memory is well formed, and every test in the slot's
    range stores 0 there. *)
Theorem C10_failed_clone_empties_slot (BLOCKSIZE : nat) (NDEBUG : bool)
        (w : world) (a : ptr) (bs : bitset) (l : list pointer) (k : nat)
        (p : ptr) (B : bitset_block) :
  world_ok BLOCKSIZE w -> (0 < BLOCKSIZE)%nat ->
  bsets w !! a = Some (Some bs) -> blocks bs = Some l ->
  l !! k = Some (Some p) -> blks w !! p = Some (Some B) ->
  1 < ref_count B -> hd true (oracle w) = false ->
  world_ok BLOCKSIZE (slot_dropped w a bs l k p B)
  /\ (forall bit v : Z,
         0 <= bit < bitcount bs ->
         Z.to_nat (Z.quot bit (IDSPERBLOCK BLOCKSIZE)) = k ->
         bitset_test_bit BLOCKSIZE NDEBUG (Some a) bit (Some v)
           (slot_dropped w a bs l k p B)
         = Ret (OK, Some 0) (slot_dropped w a bs l k p B))
  /\ (forall bit : Z,
         0 <= bit < bitcount bs ->
         Z.to_nat (Z.quot bit (IDSPERBLOCK BLOCKSIZE)) = k ->
         bitset_toggle_bit BLOCKSIZE NDEBUG (Some a) bit w
         = Ret ERRMEM (slot_dropped w a bs l k p B)
         /\ (tested BLOCKSIZE NDEBUG w a bit = false ->
             bitset_set BLOCKSIZE NDEBUG (Some a) bit w
             = Ret ERRMEM (slot_dropped w a bs l k p B))
         /\ (tested BLOCKSIZE NDEBUG w a bit = true ->
             bitset_clr BLOCKSIZE NDEBUG (Some a) bit w
             = Ret ERRMEM (slot_dropped w a bs l k p B)))
  /\ (forall (b : ptr) (bb : bitset) (lb : list pointer) (q : ptr)
             (ws : world) (As Bs : bitset),
         bsets w !! b = Some (Some bb) -> blocks bb = Some lb ->
         lb !! k = Some (Some q) ->
         world_ok BLOCKSIZE ws ->
         bsets ws !! a = Some (Some As) -> bsets ws !! b = Some (Some Bs) ->
         bitcount As = bitcount Bs -> bitcount As = bitcount bs ->
         (for_loop k 0 (bitset_or_body BLOCKSIZE NDEBUG a b) ws = Ret None w ->
          bitset_or BLOCKSIZE NDEBUG (Some a) (Some b) ws
          = Ret ERRMEM (slot_dropped w a bs l k p B))
         /\ (for_loop k 0 (bitset_and_body BLOCKSIZE NDEBUG a b) ws = Ret None w ->
             bitset_and BLOCKSIZE NDEBUG (Some a) (Some b) ws
             = Ret ERRMEM (slot_dropped w a bs l k p B))
         /\ (for_loop k 0 (bitset_subtract_body BLOCKSIZE NDEBUG a b) ws
             = Ret None w ->
             bitset_subtract BLOCKSIZE NDEBUG (Some a) (Some b) ws
             = Ret ERRMEM (slot_dropped w a bs l k p B))).
Proof.
  intros Hok Hpos Ha Hl Hs Hp Hrc Ho.
  pose proof (proj1 (world_ok_inv BLOCKSIZE w) Hok) as Hinv.
  destruct (inv_bitset _ _ _ _ _ Hinv Ha) as (l0 & Hl0 & Hlen & Hbc & Hr).
  assert (l0 = l) as -> by congruence.
  pose proof (lookup_lt_Some _ _ _ Hs) as Hkl.
  pose proof (lookup_lt_Some _ _ _ Ha) as Hal.
  assert (IDSPERBLOCK BLOCKSIZE <> 0) as Hids by (unfold IDSPERBLOCK; lia).
  splits.
  - apply world_ok_inv. unfold slot_dropped.
    rewrite <- (decref_cell_shared B Hrc).
    now apply (inv_drop BLOCKSIZE w (tl (oracle w)) a bs l k p B).
  - intros bit v Hbit Hk.
    destruct (locate BLOCKSIZE (bitcount bs) bit Hpos Hbit) as (Hq & _).
    apply (test_absent_run BLOCKSIZE NDEBUG (slot_dropped w a bs l k p B) a
             (with_blocks (<[k := None]> l) bs) (<[k := None]> l) bit);
      try assumption; try reflexivity.
    + unfold slot_dropped. cbn [bsets]. now apply list_lookup_insert_eq.
    + cbn [block_count with_blocks]. lia.
    + rewrite Hk. now apply list_lookup_insert_eq.
  - intros bit Hbit Hk.
    destruct (shape BLOCKSIZE w a bs bit Hok Hpos Ha Hbit)
      as (l' & s' & Hl' & _ & Hkk & Hn & Hs' & Hx).
    assert (l' = l) as -> by congruence.
    rewrite Hk in Hs'. assert (s' = Some p) as -> by congruence.
    destruct (Hx p eq_refl) as (B' & x & HB' & Hxx & _).
    assert (B' = B) as -> by congruence.
    rewrite <- Hk in Hs |- *.
    assert (tested BLOCKSIZE NDEBUG w a bit
            = Z.testbit x (Z.rem (Z.rem bit (IDSPERBLOCK BLOCKSIZE)) 64)) as Ht.
    { unfold tested.
      rewrite (test_present_run BLOCKSIZE NDEBUG w a bs l bit Ha Hl Hbit Hids Hkk
                 0 p B x Hs Hp Hxx).
      now destruct (Z.testbit x _). }
    rewrite Ht. unfold slot_dropped. splits.
    + now apply (toggle_shared_fail_run BLOCKSIZE NDEBUG w a bs l bit).
    + intros Hb.
      now apply (set_shared_fail_run BLOCKSIZE NDEBUG w a bs l bit Ha Hl Hbit Hids Hkk
                   p B x).
    + intros Hb.
      now apply (clr_shared_fail_run BLOCKSIZE NDEBUG w a bs l bit Ha Hl Hbit Hids Hkk
                   p B x).
  - intros b bb lb q ws As Bs Hb Hlb Hq Hoks HAs HBs Hcap Hcap'.
    pose proof (proj1 (world_ok_inv BLOCKSIZE ws) Hoks) as Hinvs.
    destruct (inv_bitset _ _ _ _ _ Hinvs HAs) as (la & _ & _ & HbcA & _).
    destruct (inv_bitset _ _ _ _ _ Hinvs HBs) as (lb' & _ & _ & HbcB & _).
    assert (block_count As = block_count Bs) as Hblk by congruence.
    assert (k < Z.to_nat (block_count As))%nat as Hlt
      by (rewrite HbcA, Hcap', <- Hbc; lia).
    assert (0 <= Z.of_nat k) as Hk0 by lia.
    assert (l !! Z.to_nat (Z.of_nat k) = Some (Some p)) as Hs'
      by now rewrite Nat2Z.id.
    assert (lb !! Z.to_nat (Z.of_nat k) = Some (Some q)) as Hq'
      by now rewrite Nat2Z.id.
    pose proof (or_body_fail_run BLOCKSIZE NDEBUG w a bs l (Z.of_nat k) p B
                  Ha Hl Hk0 Hs' Hp Hrc Ho b bb lb q Hb Hlb Hq') as Hor.
    pose proof (and_body_fail_run BLOCKSIZE NDEBUG w a bs l (Z.of_nat k) p B
                  Ha Hl Hk0 Hs' Hp Hrc Ho b bb lb q Hb Hlb Hq') as Hand.
    pose proof (subtract_body_fail_run BLOCKSIZE NDEBUG w a bs l (Z.of_nat k) p B
                  Ha Hl Hk0 Hs' Hp Hrc Ho b bb lb q Hb Hlb Hq') as Hsub.
    rewrite Nat2Z.id in Hor, Hand, Hsub. unfold slot_dropped.
    splits; intros Hpre.
    + now apply (binary_stop_run BLOCKSIZE NDEBUG _ ws w _ a b As Bs k ERRMEM).
    + now apply (binary_stop_run BLOCKSIZE NDEBUG _ ws w _ a b As Bs k ERRMEM).
    + now apply (binary_stop_run BLOCKSIZE NDEBUG _ ws w _ a b As Bs k ERRMEM).
Qed.

Lemma C10_failed_clone_empties_slot_witness :
  world_ok 2 Scenario.w_dropped
  /\ bitset_test_bit 2 false (Some 0%nat) 5 (Some 1) Scenario.w_dropped
     = Ret (OK, Some 0) Scenario.w_dropped
  /\ bitset_toggle_bit 2 false (Some 0%nat) 7 Scenario.w_shared_oom
     = Ret ERRMEM Scenario.w_dropped
  /\ bitset_set 2 false (Some 0%nat) 7 Scenario.w_shared_oom
     = Ret ERRMEM Scenario.w_dropped
  /\ bitset_clr 2 false (Some 0%nat) 5 Scenario.w_shared_oom
     = Ret ERRMEM Scenario.w_dropped
  /\ bitset_or 2 false (Some 0%nat) (Some 1%nat) Scenario.w_shared_oom
     = Ret ERRMEM Scenario.w_dropped.
Proof.
  destruct (C10_failed_clone_empties_slot 2 false Scenario.w_shared_oom 0
              (mk_bitset 128 1 (Some [Some 0%nat])) [Some 0%nat] 0 0
              (mk_block 2 1 [32; 0]))
    as (H1 & H2 & H3 & H4).
  - exact (reachable_world_ok 2 false _ reachable_w_shared_oom).
  - lia.
  - vm_compute. reflexivity.
  - reflexivity.
  - reflexivity.
  - vm_compute. reflexivity.
  - simpl. lia.
  - vm_compute. reflexivity.
  - splits.
    + exact H1.
    + apply H2; [simpl; lia | vm_compute; reflexivity].
    + apply (proj1 (H3 7 ltac:(simpl; lia) ltac:(vm_compute; reflexivity))).
    + apply (proj1 (proj2 (H3 7 ltac:(simpl; lia) ltac:(vm_compute; reflexivity)))).
      vm_compute. reflexivity.
    + apply (proj2 (proj2 (H3 5 ltac:(simpl; lia) ltac:(vm_compute; reflexivity)))).
      vm_compute. reflexivity.
    + apply (H4 1%nat (mk_bitset 128 1 (Some [Some 0%nat])) [Some 0%nat] 0%nat
               Scenario.w_shared_oom
               (mk_bitset 128 1 (Some [Some 0%nat]))
               (mk_bitset 128 1 (Some [Some 0%nat]))).
      * vm_compute. reflexivity.
      * reflexivity.
      * reflexivity.
      * exact (reachable_world_ok 2 false _ reachable_w_shared_oom).
      * vm_compute. reflexivity.
      * vm_compute. reflexivity.
      * reflexivity.
      * reflexivity.
      * reflexivity.
Defined.

(** * What the operations do to the bits *)

(** ** Reading the content *)

Section Content.

Variable BLOCKSIZE : nat.
Variable NDEBUG : bool.

Lemma content_lookup (w : world) (a : ptr) (bs : bitset) (l : list pointer)
      (k : nat) (s : pointer) :
  bsets w !! a = Some (Some bs) -> blocks bs = Some l -> l !! k = Some s ->
  content BLOCKSIZE w a !! k = Some (slot_words BLOCKSIZE (blks w) s).
Proof.
  intros Ha Hl Hs. unfold content. rewrite Ha, Hl.
  rewrite list_lookup_fmap, Hs. reflexivity.
Qed.

Lemma content_length (w : world) (a : ptr) (bs : bitset) (l : list pointer) :
  bsets w !! a = Some (Some bs) -> blocks bs = Some l ->
  length (content BLOCKSIZE w a) = length l.
Proof. intros Ha Hl. unfold content. rewrite Ha, Hl. apply length_map. Qed.

(** In a well-formed memory a test reads the content. *)
Lemma test_content (w : world) (a : ptr) (bs : bitset) (i v : Z) :
  world_ok BLOCKSIZE w -> (0 < BLOCKSIZE)%nat ->
  bsets w !! a = Some (Some bs) -> 0 <= i < bitcount bs ->
  bitset_test_bit BLOCKSIZE NDEBUG (Some a) i (Some v) w
  = Ret (OK, Some (if bit_of BLOCKSIZE (content BLOCKSIZE w a) i then 1 else 0)) w.
Proof.
  intros Hok Hpos Ha Hi.
  destruct (shape BLOCKSIZE w a bs i Hok Hpos Ha Hi)
    as (l & s & Hl & Hids & Hk & Hn & Hs & Hx).
  unfold bit_of. rewrite (content_lookup w a bs l _ s Ha Hl Hs).
  destruct s as [p|].
  - destruct (Hx p eq_refl) as (B & x & HB & Hxx & _).
    cbn [slot_words]. rewrite HB, Hxx.
    now apply (test_present_run BLOCKSIZE NDEBUG w a bs l i Ha Hl Hi Hids Hk v p B x).
  - cbn [slot_words]. rewrite lookup_replicate_2 by exact Hn.
    rewrite Z.testbit_0_l.
    now apply (test_absent_run BLOCKSIZE NDEBUG w a bs l i).
Qed.

Lemma tested_content (w : world) (a : ptr) (bs : bitset) (i : Z) :
  world_ok BLOCKSIZE w -> (0 < BLOCKSIZE)%nat ->
  bsets w !! a = Some (Some bs) -> 0 <= i < bitcount bs ->
  tested BLOCKSIZE NDEBUG w a i = bit_of BLOCKSIZE (content BLOCKSIZE w a) i.
Proof.
  intros Hok Hpos Ha Hi. unfold tested.
  rewrite (test_content w a bs i 0 Hok Hpos Ha Hi).
  now destruct (bit_of _ _ _).
Qed.

Lemma sum_counts_rows (w : world) (l : list pointer) :
  (forall i p, l !! i = Some (Some p) ->
               exists B, blks w !! p = Some (Some B)
                         /\ set_count B = popcount_list (ints B)) ->
  sum_counts w l = popcount_rows (map (slot_words BLOCKSIZE (blks w)) l).
Proof.
  induction l as [|s l IH]; intros H; [reflexivity|].
  cbn [sum_counts fold_right map popcount_rows].
  fold (sum_counts w l). fold (popcount_rows (map (slot_words BLOCKSIZE (blks w)) l)).
  rewrite IH by (intros i p Hi; apply (H (S i) p Hi)). f_equal.
  destruct s as [p|]; cbn [slot_count slot_words].
  - destruct (H 0%nat p eq_refl) as (B & HB & Hc). now rewrite HB.
  - now rewrite popcount_list_replicate, popcountll_zero, Z.mul_0_r.
Qed.

(** [bitset_set_count] returns the number of 1-bits of the content. *)
Lemma count_content (w : world) (a : ptr) (bs : bitset) :
  world_ok BLOCKSIZE w -> bsets w !! a = Some (Some bs) ->
  bitset_set_count (Some a) w
  = Ret (inr (popcount_rows (content BLOCKSIZE w a))) w.
Proof.
  intros Hok Ha.
  pose proof (proj1 (world_ok_inv BLOCKSIZE w) Hok) as Hinv.
  destruct (inv_bitset _ _ _ _ _ Hinv Ha) as (l & Hl & _).
  rewrite (set_count_run BLOCKSIZE a w bs l Hok Ha Hl).
  unfold content. rewrite Ha, Hl. do 2 f_equal.
  apply sum_counts_rows. intros i p Hi.
  destruct (slot_live _ _ _ _ _ _ _ Hinv Ha Hl Hi) as (B & HB & _ & _ & Hbok).
  exists B. split; [assumption | apply (ok_count _ _ Hbok)].
Qed.

End Content.

(** ** A block with one reference has one owner *)

Lemma slot_refs_two (q : ptr) (l : list pointer) (i j : nat) :
  i <> j -> l !! i = Some (Some q) -> l !! j = Some (Some q) ->
  (2 <= slot_refs q l)%nat.
Proof.
  intros Hne Hi Hj.
  pose proof (slot_refs_insert q l i (Some q) None Hi) as H.
  rewrite holds_same in H. change (holds q None) with 0%nat in H.
  assert (<[i := None]> l !! j = Some (Some q)) as Hj'
    by now rewrite list_lookup_insert_ne.
  pose proof (slot_refs_lookup q _ _ Hj'). lia.
Qed.

Lemma owners_in_two (q : ptr) (cells : list (option bitset)) (a c : nat) x y :
  a <> c -> cells !! a = Some x -> cells !! c = Some y ->
  (cell_refs q x + cell_refs q y <= owners_in q cells)%nat.
Proof.
  intros Hne Ha Hc.
  pose proof (owners_in_insert q cells a x None Ha) as H.
  assert (<[a := None]> cells !! c = Some y) as Hc'
    by now rewrite list_lookup_insert_ne.
  pose proof (owners_in_lookup q _ _ _ Hc').
  change (cell_refs q None) with 0%nat in H. lia.
Qed.

Lemma sole_owner (BLOCKSIZE : nat) (w : world) (a c : ptr) (bs cs : bitset)
      (l lc : list pointer) (k j : nat) (p : ptr) (B : bitset_block) :
  world_ok BLOCKSIZE w ->
  bsets w !! a = Some (Some bs) -> blocks bs = Some l -> l !! k = Some (Some p) ->
  blks w !! p = Some (Some B) -> ref_count B <= 1 ->
  bsets w !! c = Some (Some cs) -> blocks cs = Some lc ->
  lc !! j = Some (Some p) ->
  c = a /\ j = k.
Proof.
  intros Hok Ha Hl Hk Hp Hrc Hc Hlc Hj.
  pose proof (ok_refs _ _ Hok p) as Hrefs. rewrite Hp in Hrefs.
  unfold no_debt, owners in Hrefs.
  destruct (decide (c = a)) as [->|Hne].
  - split; [reflexivity|].
    assert (cs = bs) as -> by congruence. assert (lc = l) as -> by congruence.
    destruct (decide (j = k)) as [|Hjk]; [assumption|exfalso].
    pose proof (slot_refs_two p l j k Hjk Hj Hk) as H2.
    pose proof (owners_in_lookup p _ _ _ Ha) as H3.
    unfold cell_refs in H3. rewrite Hl in H3. lia.
  - exfalso.
    pose proof (owners_in_two p _ a c _ _ (not_eq_sym Hne) Ha Hc) as H2.
    unfold cell_refs in H2. rewrite Hl, Hlc in H2.
    pose proof (slot_refs_lookup p _ _ Hk). pose proof (slot_refs_lookup p _ _ Hj).
    lia.
Qed.

(** ** How a change of the memory changes the content *)

Section ContentSteps.

Variable BLOCKSIZE : nat.

Lemma slot_words_live bl q B :
  bl !! q = Some (Some B) -> slot_words BLOCKSIZE bl (Some q) = ints B.
Proof. intros H. unfold slot_words. now rewrite H. Qed.

Lemma slot_words_same bl bl' (q : ptr) (B : bitset_block) :
  same_words bl bl' -> bl !! q = Some (Some B) ->
  slot_words BLOCKSIZE bl' (Some q) = slot_words BLOCKSIZE bl (Some q).
Proof.
  intros H Hq. destruct (H q B Hq) as (B' & HB' & E).
  now rewrite (slot_words_live _ _ _ Hq), (slot_words_live _ _ _ HB').
Qed.

Lemma slot_words_insert_ne bl (p q : ptr) c :
  q <> p ->
  slot_words BLOCKSIZE (<[p := c]> bl) (Some q) = slot_words BLOCKSIZE bl (Some q).
Proof. intros H. unfold slot_words. now rewrite list_lookup_insert_ne. Qed.

(** A bitset whose cell is kept and whose blocks keep their words keeps
    its content. *)
Lemma content_kept (w w' : world) (c : ptr) (cs : bitset) (lc : list pointer) :
  bsets w !! c = Some (Some cs) -> blocks cs = Some lc ->
  bsets w' !! c = Some (Some cs) ->
  (forall j q, lc !! j = Some (Some q) ->
               slot_words BLOCKSIZE (blks w') (Some q)
               = slot_words BLOCKSIZE (blks w) (Some q)) ->
  content BLOCKSIZE w' c = content BLOCKSIZE w c.
Proof.
  intros Hc Hlc Hc' Hsame. unfold content. rewrite Hc, Hc', Hlc.
  apply list_eq. intros j. rewrite !list_lookup_fmap.
  destruct (lc !! j) as [[q|]|] eqn:Hj; cbn; [|reflexivity..].
  f_equal. now apply (Hsame j).
Qed.

(** A bitset one slot of which is replaced, the blocks of its other
    slots keeping their words, has one row replaced. *)
Lemma content_slot (w w' : world) (a : ptr) (bs : bitset) (l : list pointer)
      (k : nat) (s' : pointer) :
  bsets w !! a = Some (Some bs) -> blocks bs = Some l ->
  bsets w' !! a = Some (Some (with_blocks (<[k := s']> l) bs)) ->
  (forall j q, j <> k -> l !! j = Some (Some q) ->
               slot_words BLOCKSIZE (blks w') (Some q)
               = slot_words BLOCKSIZE (blks w) (Some q)) ->
  content BLOCKSIZE w' a
  = <[k := slot_words BLOCKSIZE (blks w') s']> (content BLOCKSIZE w a).
Proof.
  intros Ha Hl Ha' Hsame. unfold content. rewrite Ha, Ha', Hl.
  cbn [blocks with_blocks]. rewrite list_fmap_insert.
  apply list_eq. intros j.
  destruct (decide (j = k)) as [->|Hne].
  - destruct (decide (k < length l)%nat) as [Hlt|Hge].
    + rewrite !list_lookup_insert_eq by (rewrite length_map; exact Hlt). reflexivity.
    + rewrite !list_insert_ge by (rewrite length_map; lia).
      rewrite !list_lookup_fmap.
      rewrite (lookup_ge_None_2 l k) by lia. reflexivity.
  - rewrite !list_lookup_insert_ne by congruence.
    rewrite !list_lookup_fmap.
    destruct (l !! j) as [[q|]|] eqn:Hj; cbn; [|reflexivity..].
    f_equal. now apply (Hsame j).
Qed.

End ContentSteps.

Section RowChanges.

Variable BLOCKSIZE : nat.

Lemma slot_words_app bl more (q : ptr) (B : bitset_block) :
  bl !! q = Some (Some B) ->
  slot_words BLOCKSIZE (bl ++ more) (Some q) = slot_words BLOCKSIZE bl (Some q).
Proof.
  intros H. unfold slot_words.
  rewrite lookup_app_l by (eapply lookup_lt_Some; eassumption). reflexivity.
Qed.

Lemma slot_words_insert_same bl (p q : ptr) (B C : bitset_block) :
  bl !! p = Some (Some B) -> ints C = ints B ->
  slot_words BLOCKSIZE (<[p := Some C]> bl) (Some q)
  = slot_words BLOCKSIZE bl (Some q).
Proof.
  intros Hp E. destruct (decide (q = p)) as [->|Hne].
  - unfold slot_words.
    rewrite list_lookup_insert_eq by (eapply lookup_lt_Some; eassumption).
    now rewrite Hp.
  - now apply slot_words_insert_ne.
Qed.

Lemma slot_words_fresh bl (C : bitset_block) :
  slot_words BLOCKSIZE (bl ++ [Some C]) (Some (length bl)) = ints C.
Proof.
  unfold slot_words. rewrite lookup_app_r, Nat.sub_diag by lia. reflexivity.
Qed.

(** The slots of live bitsets point to live blocks. *)
Lemma slot_block (w : world) (c : ptr) (cs : bitset) (lc : list pointer)
      (j : nat) (q : ptr) :
  world_ok BLOCKSIZE w ->
  bsets w !! c = Some (Some cs) -> blocks cs = Some lc ->
  lc !! j = Some (Some q) -> exists B, blks w !! q = Some (Some B).
Proof.
  intros Hok Hc Hlc Hj. apply world_ok_inv in Hok.
  destruct (slot_live _ _ _ _ _ _ _ Hok Hc Hlc Hj) as (B & HB & _). eauto.
Qed.

Lemma live_blocks (w : world) (c : ptr) (cs : bitset) :
  world_ok BLOCKSIZE w -> bsets w !! c = Some (Some cs) ->
  exists lc, blocks cs = Some lc.
Proof.
  intros Hok Hc. apply world_ok_inv in Hok.
  destruct (inv_bitset _ _ _ _ _ Hok Hc) as (l & Hl & _). eauto.
Qed.

Section At.

Variables (w : world) (o : list bool) (a : ptr) (bs : bitset)
          (l : list pointer) (k : nat).
Hypothesis Hok : world_ok BLOCKSIZE w.
Hypothesis Ha : bsets w !! a = Some (Some bs).
Hypothesis Hl : blocks bs = Some l.

(** The frame of a change that touches cell [a] only, and the blocks in
    a way that keeps the words every other slot reads. *)
Lemma row_changed_intro (bl' : list (option bitset_block)) (s' : pointer)
      (row : list Z) :
  world_ok BLOCKSIZE
    (mk_world (<[a := Some (with_blocks (<[k := s']> l) bs)]> (bsets w)) bl' o) ->
  (forall c cs lc j q,
      bsets w !! c = Some (Some cs) -> blocks cs = Some lc ->
      lc !! j = Some (Some q) -> (c <> a \/ j <> k) ->
      slot_words BLOCKSIZE bl' (Some q) = slot_words BLOCKSIZE (blks w) (Some q)) ->
  slot_words BLOCKSIZE bl' s' = row ->
  row_changed BLOCKSIZE w
    (mk_world (<[a := Some (with_blocks (<[k := s']> l) bs)]> (bsets w)) bl' o)
    a k row.
Proof.
  intros Hok' Hframe Hrow.
  pose proof (lookup_lt_Some _ _ _ Ha) as Hal.
  split; [split; [exact Hok' | split] | ].
  - intros c Hne. cbn [bsets].
    rewrite list_lookup_insert_ne by congruence. split; [reflexivity|].
    destruct (bsets w !! c) as [[cs|]|] eqn:Hc;
      [ | unfold content; cbn [bsets];
          rewrite list_lookup_insert_ne, Hc by congruence; reflexivity .. ].
    destruct (live_blocks w c cs Hok Hc) as [lc Hlc].
    apply (content_kept BLOCKSIZE w
             (mk_world (<[a := Some (with_blocks (<[k := s']> l) bs)]> (bsets w)) bl' o)
             c cs lc Hc Hlc).
    + cbn [bsets]. now rewrite list_lookup_insert_ne by congruence.
    + intros j q Hj. cbn [blks]. eapply Hframe; eauto.
  - exists bs, (with_blocks (<[k := s']> l) bs). split; [exact Ha|].
    split; [|reflexivity]. cbn [bsets]. now apply list_lookup_insert_eq.
  - rewrite <- Hrow.
    apply (content_slot BLOCKSIZE w
             (mk_world (<[a := Some (with_blocks (<[k := s']> l) bs)]> (bsets w)) bl' o)
             a bs l k s' Ha Hl).
    + cbn [bsets]. now apply list_lookup_insert_eq.
    + intros j q Hne Hj. cbn [blks]. eapply Hframe; eauto.
Qed.

(** The same when the cells are left alone and one block is written. *)
Lemma row_changed_intro_blk (bl' : list (option bitset_block)) (s : pointer)
      (row : list Z) :
  l !! k = Some s ->
  world_ok BLOCKSIZE (mk_world (bsets w) bl' o) ->
  (forall c cs lc j q,
      bsets w !! c = Some (Some cs) -> blocks cs = Some lc ->
      lc !! j = Some (Some q) -> (c <> a \/ j <> k) ->
      slot_words BLOCKSIZE bl' (Some q) = slot_words BLOCKSIZE (blks w) (Some q)) ->
  slot_words BLOCKSIZE bl' s = row ->
  row_changed BLOCKSIZE w (mk_world (bsets w) bl' o) a k row.
Proof.
  intros Hs Hok' Hframe Hrow.
  assert (<[a := Some (with_blocks (<[k := s]> l) bs)]> (bsets w) = bsets w) as E.
  { apply list_insert_id. rewrite Ha. do 2 f_equal.
    rewrite (list_insert_id l k s Hs). destruct bs as [n m b]. cbn in *.
    now subst b. }
  rewrite <- E. apply row_changed_intro; rewrite ?E; assumption.
Qed.

Lemma row_same :
  l !! k = Some None \/ (exists p, l !! k = Some (Some p)) ->
  exists row, content BLOCKSIZE w a !! k = Some row
              /\ row_changed BLOCKSIZE w (mk_world (bsets w) (blks w) o) a k row.
Proof.
  intros Hs.
  assert (exists s, l !! k = Some s) as [s Hs'] by (destruct Hs as [|[p ?]]; eauto).
  exists (slot_words BLOCKSIZE (blks w) s).
  split; [now apply (content_lookup BLOCKSIZE w a bs l)|].
  apply (row_changed_intro_blk _ s); try assumption; try reflexivity.
  - destruct Hok. now constructor.
Qed.

Lemma row_install (C : bitset_block) :
  l !! k = Some None -> ref_count C = 1 -> block_ok BLOCKSIZE C ->
  row_changed BLOCKSIZE w
    (mk_world (<[a := Some (with_blocks (<[k := Some (length (blks w))]> l) bs)]> (bsets w))
              (blks w ++ [Some C]) o)
    a k (ints C).
Proof.
  intros Hs Hrc HC. apply row_changed_intro.
  - apply world_ok_inv. apply world_ok_inv in Hok.
    now apply (inv_install BLOCKSIZE w o a bs l k C).
  - intros c cs lc j q Hc Hlc Hj _.
    destruct (slot_block w c cs lc j q Hok Hc Hlc Hj) as [B HB].
    now apply (slot_words_app _ _ q B).
  - apply slot_words_fresh.
Qed.

Section Present.

Variables (p : ptr) (B : bitset_block).
Hypothesis Hs : l !! k = Some (Some p).
Hypothesis Hp : blks w !! p = Some (Some B).

Lemma row_modify (C : bitset_block) :
  ref_count B <= 1 -> ref_count C = ref_count B -> block_ok BLOCKSIZE C ->
  row_changed BLOCKSIZE w (mk_world (bsets w) (<[p := Some C]> (blks w)) o)
    a k (ints C).
Proof.
  intros Hrc HrcC HC. apply (row_changed_intro_blk _ (Some p)); [assumption| | |].
  - apply world_ok_inv. apply world_ok_inv in Hok.
    now apply (inv_modify BLOCKSIZE w o p B C).
  - intros c cs lc j q Hc Hlc Hj Hne.
    apply slot_words_insert_ne. intros ->.
    destruct (sole_owner BLOCKSIZE w a c bs cs l lc k j p B Hok Ha Hl Hs Hp Hrc
                Hc Hlc Hj) as [-> ->].
    destruct Hne; congruence.
  - unfold slot_words.
    rewrite list_lookup_insert_eq by (eapply lookup_lt_Some; eassumption).
    reflexivity.
Qed.

Lemma row_clone (C : bitset_block) :
  1 < ref_count B -> ref_count C = 1 -> block_ok BLOCKSIZE C ->
  row_changed BLOCKSIZE w
    (mk_world (<[a := Some (with_blocks (<[k := Some (length (blks w))]> l) bs)]> (bsets w))
              (<[p := Some (with_ref_count (ref_count B - 1) B)]> (blks w)
               ++ [Some C]) o)
    a k (ints C).
Proof.
  intros Hrc HrcC HC.
  pose proof (lookup_lt_Some _ _ _ Hp) as Hpl.
  apply row_changed_intro.
  - apply world_ok_inv. apply world_ok_inv in Hok.
    rewrite <- (decref_cell_shared B Hrc).
    now apply (inv_realloc BLOCKSIZE w o a bs l k p B C).
  - intros c cs lc j q Hc Hlc Hj _.
    destruct (slot_block w c cs lc j q Hok Hc Hlc Hj) as [Bq HBq].
    pose proof (lookup_lt_Some _ _ _ HBq) as Hql.
    unfold slot_words at 1. rewrite lookup_app_l by now rewrite length_insert.
    now apply (slot_words_insert_same (blks w) p q B).
  - replace (length (blks w))
      with (length (<[p := Some (with_ref_count (ref_count B - 1) B)]> (blks w)))
      by apply length_insert.
    apply slot_words_fresh.
Qed.

Lemma row_drop :
  row_changed BLOCKSIZE w
    (mk_world (<[a := Some (with_blocks (<[k := None]> l) bs)]> (bsets w))
              (<[p := decref_cell B]> (blks w)) o)
    a k (replicate BLOCKSIZE 0).
Proof.
  apply row_changed_intro.
  - apply world_ok_inv. apply world_ok_inv in Hok.
    now apply (inv_drop BLOCKSIZE w o a bs l k p B).
  - intros c cs lc j q Hc Hlc Hj Hne.
    destruct (decide (1 < ref_count B)) as [Hrc|Hrc].
    + rewrite (decref_cell_shared B Hrc).
      now apply (slot_words_insert_same (blks w) p q B).
    + apply slot_words_insert_ne. intros ->.
      destruct (sole_owner BLOCKSIZE w a c bs cs l lc k j p B Hok Ha Hl Hs Hp
                  ltac:(lia) Hc Hlc Hj) as [-> ->].
      destruct Hne; congruence.
  - reflexivity.
Qed.

End Present.

Lemma row_share (q : ptr) (Bq : bitset_block) :
  l !! k = Some None -> blks w !! q = Some (Some Bq) ->
  row_changed BLOCKSIZE w
    (mk_world (<[a := Some (with_blocks (<[k := Some q]> l) bs)]> (bsets w))
              (<[q := Some (with_ref_count (ref_count Bq + 1) Bq)]> (blks w)) o)
    a k (ints Bq).
Proof.
  intros Hs Hq. apply row_changed_intro.
  - apply world_ok_inv. apply world_ok_inv in Hok.
    now apply (inv_share BLOCKSIZE w o a bs l k q Bq).
  - intros c cs lc j q' Hc Hlc Hj _.
    now apply (slot_words_insert_same (blks w) q q' Bq).
  - unfold slot_words.
    rewrite list_lookup_insert_eq by (eapply lookup_lt_Some; eassumption).
    reflexivity.
Qed.

End At.

End RowChanges.

(** ** Tests and counts after a change of one row *)

Lemma popcount_rows_insert (ws : list (list Z)) (k : nat) (old row : list Z) :
  ws !! k = Some old ->
  popcount_rows (<[k := row]> ws)
  = popcount_rows ws - popcount_list old + popcount_list row.
Proof.
  revert k. induction ws as [|xs ws IH]; intros [|k] H; try discriminate.
  - injection H as ->. unfold popcount_rows. simpl. lia.
  - simpl in H. specialize (IH _ H). unfold popcount_rows in *. simpl in *. lia.
Qed.

Section RowEffects.

Variable BLOCKSIZE : nat.
Variable NDEBUG : bool.
Hypothesis Hpos : (0 < BLOCKSIZE)%nat.

Abbreviation IDS := (IDSPERBLOCK BLOCKSIZE).

Lemma bit_of_insert (ws : list (list Z)) (k : nat) (row : list Z) (j : Z) :
  (Z.to_nat (Z.quot j IDS) < length ws)%nat ->
  bit_of BLOCKSIZE (<[k := row]> ws) j
  = if Nat.eqb (Z.to_nat (Z.quot j IDS)) k then bit_of_row BLOCKSIZE row j
    else bit_of BLOCKSIZE ws j.
Proof.
  intros Hk. unfold bit_of, bit_of_row.
  destruct (Nat.eqb_spec (Z.to_nat (Z.quot j IDS)) k) as [Hne|Hne].
  - rewrite <- Hne at 1. now rewrite list_lookup_insert_eq.
  - now rewrite list_lookup_insert_ne by congruence.
Qed.

Lemma bit_of_lookup (ws : list (list Z)) (xs : list Z) (j : Z) :
  ws !! Z.to_nat (Z.quot j IDS) = Some xs ->
  bit_of BLOCKSIZE ws j = bit_of_row BLOCKSIZE xs j.
Proof. intros H. unfold bit_of, bit_of_row. now rewrite H. Qed.

(** Where two indices agree on slot, word and bit they are equal. *)
Lemma index_inj (i j : Z) :
  0 <= i -> 0 <= j ->
  Z.quot i IDS = Z.quot j IDS ->
  Z.quot (Z.rem i IDS) 64 = Z.quot (Z.rem j IDS) 64 ->
  Z.rem (Z.rem i IDS) 64 = Z.rem (Z.rem j IDS) 64 ->
  i = j.
Proof.
  intros Hi Hj H1 H2 H3.
  pose proof (Z.quot_rem' i IDS). pose proof (Z.quot_rem' j IDS).
  pose proof (Z.quot_rem' (Z.rem i IDS) 64).
  pose proof (Z.quot_rem' (Z.rem j IDS) 64).
  congruence.
Qed.

Section Changed.

Variables (w w' : world) (a : ptr) (k : nat) (row : list Z).
Hypothesis Hok : world_ok BLOCKSIZE w.
Hypothesis Hch : row_changed BLOCKSIZE w w' a k row.

Lemma row_changed_live (c : ptr) (cs : bitset) :
  bsets w !! c = Some (Some cs) ->
  exists cs', bsets w' !! c = Some (Some cs') /\ bitcount cs' = bitcount cs.
Proof.
  intros Hc. destruct Hch as ((_ & Hothers & (bs & bs' & Ha & Ha' & Hb)) & _).
  destruct (decide (c = a)) as [->|Hne].
  - exists bs'. split; [assumption | congruence].
  - exists cs. destruct (Hothers c Hne) as [E _].
    split; [congruence | reflexivity].
Qed.

Lemma row_changed_tested (c : ptr) (cs : bitset) (j : Z) :
  bsets w !! c = Some (Some cs) -> 0 <= j < bitcount cs ->
  tested BLOCKSIZE NDEBUG w' c j
  = if Nat.eqb c a && Nat.eqb (Z.to_nat (Z.quot j IDS)) k
    then bit_of_row BLOCKSIZE row j
    else tested BLOCKSIZE NDEBUG w c j.
Proof.
  intros Hc Hj.
  destruct (row_changed_live c cs Hc) as (cs' & Hc' & Hb).
  destruct Hch as ((Hok' & Hothers & _) & Hrow).
  rewrite (tested_content BLOCKSIZE NDEBUG w' c cs' j Hok' Hpos Hc') by lia.
  rewrite (tested_content BLOCKSIZE NDEBUG w c cs j Hok Hpos Hc Hj).
  destruct (Nat.eqb_spec c a) as [->|Hne]; cbn [andb].
  - rewrite Hrow.
    destruct (shape BLOCKSIZE w a cs j Hok Hpos Hc Hj)
      as (l & s & Hl & _ & _ & _ & Hs & _).
    apply bit_of_insert. rewrite (content_length BLOCKSIZE w a cs l Hc Hl).
    eapply lookup_lt_Some; eassumption.
  - destruct (Hothers c Hne) as [_ E]. now rewrite E.
Qed.

Lemma row_changed_count (c : ptr) (cs : bitset) (old : list Z) :
  bsets w !! c = Some (Some cs) ->
  content BLOCKSIZE w a !! k = Some old ->
  bitset_set_count (Some c) w
  = Ret (inr (popcount_rows (content BLOCKSIZE w c))) w
  /\ bitset_set_count (Some c) w'
     = Ret (inr (popcount_rows (content BLOCKSIZE w c)
                 + if Nat.eqb c a
                   then popcount_list row - popcount_list old else 0)) w'.
Proof.
  intros Hc Hold.
  destruct (row_changed_live c cs Hc) as (cs' & Hc' & Hb).
  destruct Hch as ((Hok' & Hothers & _) & Hrow).
  rewrite (count_content BLOCKSIZE w c cs Hok Hc).
  rewrite (count_content BLOCKSIZE w' c cs' Hok' Hc').
  split; [reflexivity|]. do 2 f_equal.
  destruct (Nat.eqb_spec c a) as [->|Hne].
  - rewrite Hrow, (popcount_rows_insert _ _ old) by assumption. lia.
  - destruct (Hothers c Hne) as [_ E]. rewrite E. lia.
Qed.

End Changed.

(** One word of [a] changes from [x] to [y], at bit [b] at most. *)
Section WordChanged.

Variables (w w' : world) (a : ptr) (bs : bitset) (bit : Z)
          (xs : list Z) (x y : Z).
Hypothesis Hok : world_ok BLOCKSIZE w.
Hypothesis Ha : bsets w !! a = Some (Some bs).
Hypothesis Hbit : 0 <= bit < bitcount bs.
Hypothesis Hxs : content BLOCKSIZE w a !! Z.to_nat (Z.quot bit IDS) = Some xs.
Hypothesis Hx : xs !! Z.to_nat (Z.quot (Z.rem bit IDS) 64) = Some x.
Hypothesis Hch :
  row_changed BLOCKSIZE w w' a (Z.to_nat (Z.quot bit IDS))
    (<[Z.to_nat (Z.quot (Z.rem bit IDS) 64) := y]> xs).
Hypothesis Hy :
  forall i, 0 <= i < 64 -> i <> Z.rem (Z.rem bit IDS) 64 ->
            Z.testbit y i = Z.testbit x i.

Lemma word_changed_tested (c : ptr) (cs : bitset) (j : Z) :
  bsets w !! c = Some (Some cs) -> 0 <= j < bitcount cs ->
  tested BLOCKSIZE NDEBUG w' c j
  = if Nat.eqb c a && (j =? bit)
    then Z.testbit y (Z.rem (Z.rem bit IDS) 64)
    else tested BLOCKSIZE NDEBUG w c j.
Proof.
  intros Hc Hj.
  rewrite (row_changed_tested w w' a _ _ Hok Hch c cs j Hc Hj).
  destruct (Nat.eqb_spec c a) as [->|Hne]; cbn [andb]; [|reflexivity].
  assert (cs = bs) as -> by congruence.
  destruct (locate BLOCKSIZE (bitcount bs) j Hpos Hj) as (Hq & Hr & Hn & Hb).
  destruct (locate BLOCKSIZE (bitcount bs) bit Hpos Hbit) as (Hq' & Hr' & Hn' & Hb').
  destruct (Nat.eqb_spec (Z.to_nat (Z.quot j IDS)) (Z.to_nat (Z.quot bit IDS)))
    as [Ek|Nk].
  - assert (Z.quot j IDS = Z.quot bit IDS) as Ek' by lia.
    rewrite (tested_content BLOCKSIZE NDEBUG w a bs j Hok Hpos Ha Hj).
    rewrite (bit_of_lookup _ xs) by now rewrite Ek.
    unfold bit_of_row.
    destruct (decide (Z.to_nat (Z.quot (Z.rem j IDS) 64)
                      = Z.to_nat (Z.quot (Z.rem bit IDS) 64))) as [En|Nn].
    + rewrite En, Hx.
      rewrite list_lookup_insert_eq by (eapply lookup_lt_Some; eassumption).
      destruct (Z.eqb_spec j bit) as [->|Nj]; [reflexivity|].
      apply Hy; [assumption|]. intros Eb. apply Nj.
      apply index_inj; lia.
    + rewrite list_lookup_insert_ne by congruence.
      destruct (Z.eqb_spec j bit) as [->|Nj]; [congruence | reflexivity].
  - destruct (Z.eqb_spec j bit) as [->|Nj]; [congruence | reflexivity].
Qed.

Lemma word_changed_count (c : ptr) (cs : bitset) :
  bsets w !! c = Some (Some cs) ->
  exists n,
    bitset_set_count (Some c) w = Ret (inr n) w
    /\ bitset_set_count (Some c) w'
       = Ret (inr (n + if Nat.eqb c a
                       then Word.popcountll y - Word.popcountll x else 0)) w'.
Proof.
  intros Hc.
  destruct (row_changed_count w w' a _ _ Hok Hch c cs xs Hc Hxs) as [H1 H2].
  eexists. split; [exact H1|]. rewrite H2. do 2 f_equal.
  destruct (Nat.eqb c a); [|reflexivity].
  rewrite (popcount_list_insert _ _ x) by assumption. lia.
Qed.

End WordChanged.

End RowEffects.

(** ** The bit operations, as changes of one word *)

Lemma lor_bit_id (x b : Z) :
  0 <= b -> Z.testbit x b = true -> Z.lor x (Word.bit b) = x.
Proof.
  intros Hb Ht. apply Z.bits_inj'. intros i Hi.
  rewrite WordFacts.testbit_set by assumption.
  destruct (Z.eqb_spec i b) as [->|]; [now rewrite Ht | apply orb_false_r].
Qed.

Lemma land_not_bit_id (x b : Z) :
  0 <= b < 64 -> Word.in_range x -> Z.testbit x b = false ->
  Z.land x (Word.not (Word.bit b)) = x.
Proof.
  intros Hb Hx Ht. apply Z.bits_inj'. intros i Hi.
  destruct (Z.lt_ge_cases i 64) as [Hlt|Hge].
  - rewrite WordFacts.testbit_clr by lia.
    destruct (Z.eqb_spec i b) as [->|]; [now rewrite Ht | apply andb_true_r].
  - apply WordFacts.in_range_testbit in Hx as [_ Hx].
    rewrite Z.land_spec, (Hx i) by lia. reflexivity.
Qed.

Section BitOps.

Variable BLOCKSIZE : nat.
Variable NDEBUG : bool.
Hypothesis Hpos : (0 < BLOCKSIZE)%nat.

Variables (w : world) (a : ptr) (bs : bitset) (bit : Z).
Hypothesis Hok : world_ok BLOCKSIZE w.
Hypothesis Ha : bsets w !! a = Some (Some bs).
Hypothesis Hbit : 0 <= bit < bitcount bs.

Let k := Z.to_nat (Z.quot bit (IDSPERBLOCK BLOCKSIZE)).
Let n := Z.to_nat (Z.quot (Z.rem bit (IDSPERBLOCK BLOCKSIZE)) 64).
Let b := Z.rem (Z.rem bit (IDSPERBLOCK BLOCKSIZE)) 64.

Lemma world_eta' : mk_world (bsets w) (blks w) (oracle w) = w.
Proof. now destruct w. Qed.

Lemma set_row :
  exists r w' xs x row,
    bitset_set BLOCKSIZE NDEBUG (Some a) bit w = Ret r w'
    /\ (r = OK \/ r = ERRMEM /\ hd true (oracle w) = false)
    /\ content BLOCKSIZE w a !! k = Some xs /\ xs !! n = Some x
    /\ row_changed BLOCKSIZE w w' a k row
    /\ (r = OK -> row = <[n := Z.lor x (Word.bit b)]> xs).
Proof.
  destruct (shape BLOCKSIZE w a bs bit Hok Hpos Ha Hbit)
    as (l & s & Hl & Hids & Hk & Hn & Hs & Hx).
  destruct (locate BLOCKSIZE (bitcount bs) bit Hpos Hbit) as (_ & _ & _ & Hb).
  pose proof (content_lookup BLOCKSIZE w a bs l _ s Ha Hl Hs) as Hrow.
  fold k in Hs, Hrow. fold n in Hn. fold b in Hb.
  destruct s as [p|]; cbn [slot_words] in Hrow.
  - destruct (Hx p eq_refl) as (B & x & HB & Hxx & Hrc & _ & HBok).
    fold n in Hxx. rewrite HB in Hrow.
    destruct (Z.testbit x b) eqn:Ht.
    + exists OK, w, (ints B), x, (ints B).
      splits; [ | now left | exact Hrow | exact Hxx | | ].
      * now apply (set_noop_run BLOCKSIZE NDEBUG w a bs l bit Ha Hl Hbit Hids Hk p B x).
      * rewrite <- world_eta' at 2.
        apply (row_changed_intro_blk BLOCKSIZE w (oracle w) a bs l k Hok Ha Hl
                 (blks w) (Some p)); try assumption; try reflexivity.
        -- now rewrite world_eta'.
        -- cbn [slot_words]. now rewrite HB.
      * intros _. rewrite lor_bit_id by (first [lia | assumption]).
        symmetry. now apply list_insert_id.
    + destruct (decide (1 < ref_count B)) as [Hsh|Hpr].
      * destruct (hd true (oracle w)) eqn:Ho.
        -- eexists OK, _, (ints B), x, _.
           splits; [ | now left | exact Hrow | exact Hxx | | reflexivity ].
           ++ now apply (set_shared_run BLOCKSIZE NDEBUG w a bs l bit Ha Hl Hbit Hids Hk
                           p B x).
           ++ apply (row_clone BLOCKSIZE w _ a bs l k Hok Ha Hl p B Hs HB);
                [assumption | reflexivity | apply block_ok_set; auto].
        -- eexists ERRMEM, _, (ints B), x, _.
           splits; [ | now right | exact Hrow | exact Hxx | | discriminate ].
           ++ now apply (set_shared_fail_run BLOCKSIZE NDEBUG w a bs l bit Ha Hl Hbit Hids
                           Hk p B x).
           ++ rewrite <- (decref_cell_shared B Hsh).
              now apply (row_drop BLOCKSIZE w _ a bs l k Hok Ha Hl p B).
      * eexists OK, _, (ints B), x, _.
        splits; [ | now left | exact Hrow | exact Hxx | | reflexivity ].
        -- apply (set_private_run BLOCKSIZE NDEBUG w a bs l bit Ha Hl Hbit Hids Hk
                    p B x); [assumption | assumption | assumption | assumption | lia].
        -- unfold w_blk.
           apply (row_modify BLOCKSIZE w _ a bs l k Hok Ha Hl p B Hs HB);
             [lia | reflexivity | apply block_ok_set; auto].
  - assert (replicate BLOCKSIZE 0 !! n = Some 0) as Hz by now apply lookup_replicate_2.
    destruct (hd true (oracle w)) eqn:Ho.
    + eexists OK, _, (replicate BLOCKSIZE 0), 0, _.
      splits; [ | now left | exact Hrow | exact Hz | | reflexivity ].
      * now apply (set_absent_run BLOCKSIZE NDEBUG w a bs l bit Ha Hl Hbit Hids Hk).
      * apply (row_install BLOCKSIZE w _ a bs l k Hok Ha Hl); [assumption | reflexivity |].
        apply (block_ok_set BLOCKSIZE (mk_block 1 0 (replicate BLOCKSIZE 0)) n 0 b 1);
          [apply block_ok_zero | exact Hz | lia | apply Z.testbit_0_l].
    + eexists ERRMEM, _, (replicate BLOCKSIZE 0), 0, _.
      splits; [ | now right | exact Hrow | exact Hz | | discriminate ].
      * now apply (set_absent_fail_run BLOCKSIZE NDEBUG w a bs l bit Ha Hl Hbit Hids Hk).
      * unfold w_oracle.
        apply (row_changed_intro_blk BLOCKSIZE w _ a bs l k Hok Ha Hl
                 (blks w) None); try assumption; try reflexivity.
        destruct Hok. now constructor.
Qed.

Lemma clr_row :
  exists r w' xs x row,
    bitset_clr BLOCKSIZE NDEBUG (Some a) bit w = Ret r w'
    /\ (r = OK \/ r = ERRMEM /\ hd true (oracle w) = false)
    /\ content BLOCKSIZE w a !! k = Some xs /\ xs !! n = Some x
    /\ row_changed BLOCKSIZE w w' a k row
    /\ (r = OK -> row = <[n := Z.land x (Word.not (Word.bit b))]> xs).
Proof.
  destruct (shape BLOCKSIZE w a bs bit Hok Hpos Ha Hbit)
    as (l & s & Hl & Hids & Hk & Hn & Hs & Hx).
  destruct (locate BLOCKSIZE (bitcount bs) bit Hpos Hbit) as (_ & _ & _ & Hb).
  pose proof (content_lookup BLOCKSIZE w a bs l _ s Ha Hl Hs) as Hrow.
  fold k in Hs, Hrow. fold n in Hn. fold b in Hb.
  destruct s as [p|]; cbn [slot_words] in Hrow.
  - destruct (Hx p eq_refl) as (B & x & HB & Hxx & Hrc & _ & HBok).
    fold n in Hxx. rewrite HB in Hrow.
    destruct (Z.testbit x b) eqn:Ht.
    + destruct (decide (1 < ref_count B)) as [Hsh|Hpr].
      * destruct (hd true (oracle w)) eqn:Ho.
        -- eexists OK, _, (ints B), x, _.
           splits; [ | now left | exact Hrow | exact Hxx | | reflexivity ].
           ++ now apply (clr_shared_run BLOCKSIZE NDEBUG w a bs l bit Ha Hl Hbit Hids Hk
                           p B x).
           ++ apply (row_clone BLOCKSIZE w _ a bs l k Hok Ha Hl p B Hs HB);
                [assumption | reflexivity | apply block_ok_clr; auto].
        -- eexists ERRMEM, _, (ints B), x, _.
           splits; [ | now right | exact Hrow | exact Hxx | | discriminate ].
           ++ now apply (clr_shared_fail_run BLOCKSIZE NDEBUG w a bs l bit Ha Hl Hbit Hids
                           Hk p B x).
           ++ rewrite <- (decref_cell_shared B Hsh).
              now apply (row_drop BLOCKSIZE w _ a bs l k Hok Ha Hl p B).
      * eexists OK, _, (ints B), x, _.
        splits; [ | now left | exact Hrow | exact Hxx | | reflexivity ].
        -- apply (clr_private_run BLOCKSIZE NDEBUG w a bs l bit Ha Hl Hbit Hids Hk
                    p B x); [assumption | assumption | assumption | assumption | lia].
        -- unfold w_blk.
           apply (row_modify BLOCKSIZE w _ a bs l k Hok Ha Hl p B Hs HB);
             [lia | reflexivity | apply block_ok_clr; auto].
    + exists OK, w, (ints B), x, (ints B).
      splits; [ | now left | exact Hrow | exact Hxx | | ].
      * now apply (clr_noop_run BLOCKSIZE NDEBUG w a bs l bit Ha Hl Hbit Hids Hk p B x).
      * rewrite <- world_eta' at 2.
        apply (row_changed_intro_blk BLOCKSIZE w (oracle w) a bs l k Hok Ha Hl
                 (blks w) (Some p)); try assumption; try reflexivity.
        -- now rewrite world_eta'.
        -- cbn [slot_words]. now rewrite HB.
      * intros _. rewrite land_not_bit_id; [ | lia | | assumption ].
        -- symmetry. now apply list_insert_id.
        -- destruct HBok as [_ Hw _]. eapply Forall_lookup_1; eassumption.
  - assert (replicate BLOCKSIZE 0 !! n = Some 0) as Hz by now apply lookup_replicate_2.
    exists OK, w, (replicate BLOCKSIZE 0), 0, (replicate BLOCKSIZE 0).
    splits; [ | now left | exact Hrow | exact Hz | | ].
    + now apply (clr_absent_run BLOCKSIZE NDEBUG w a bs l bit Ha Hl Hbit Hids Hk).
    + rewrite <- world_eta' at 2.
      apply (row_changed_intro_blk BLOCKSIZE w (oracle w) a bs l k Hok Ha Hl
               (blks w) None); try assumption; try reflexivity.
      now rewrite world_eta'.
    + intros _. rewrite Z.land_0_l. symmetry. now apply list_insert_id.
Qed.

Lemma toggle_row :
  exists r w' xs x row,
    bitset_toggle_bit BLOCKSIZE NDEBUG (Some a) bit w = Ret r w'
    /\ (r = OK \/ r = ERRMEM /\ hd true (oracle w) = false)
    /\ content BLOCKSIZE w a !! k = Some xs /\ xs !! n = Some x
    /\ row_changed BLOCKSIZE w w' a k row
    /\ (r = OK -> row = <[n := Z.lxor x (Word.bit b)]> xs).
Proof.
  destruct (shape BLOCKSIZE w a bs bit Hok Hpos Ha Hbit)
    as (l & s & Hl & Hids & Hk & Hn & Hs & Hx).
  destruct (locate BLOCKSIZE (bitcount bs) bit Hpos Hbit) as (_ & _ & _ & Hb).
  pose proof (content_lookup BLOCKSIZE w a bs l _ s Ha Hl Hs) as Hrow.
  fold k in Hs, Hrow. fold n in Hn. fold b in Hb.
  destruct s as [p|]; cbn [slot_words] in Hrow.
  - destruct (Hx p eq_refl) as (B & x & HB & Hxx & Hrc & _ & HBok).
    fold n in Hxx. rewrite HB in Hrow.
    destruct (decide (1 < ref_count B)) as [Hsh|Hpr].
    + destruct (hd true (oracle w)) eqn:Ho.
      * eexists OK, _, (ints B), x, _.
        splits; [ | now left | exact Hrow | exact Hxx | | reflexivity ].
        -- now apply (toggle_shared_run BLOCKSIZE NDEBUG w a bs l bit Ha Hl Hbit Hids Hk
                        p B x).
        -- apply (row_clone BLOCKSIZE w _ a bs l k Hok Ha Hl p B Hs HB);
             [assumption | reflexivity | apply block_ok_toggle; auto].
      * eexists ERRMEM, _, (ints B), x, _.
        splits; [ | now right | exact Hrow | exact Hxx | | discriminate ].
        -- now apply (toggle_shared_fail_run BLOCKSIZE NDEBUG w a bs l bit Ha Hl Hbit Hids
                        Hk p B).
        -- rewrite <- (decref_cell_shared B Hsh).
           now apply (row_drop BLOCKSIZE w _ a bs l k Hok Ha Hl p B).
    + eexists OK, _, (ints B), x, _.
      splits; [ | now left | exact Hrow | exact Hxx | | reflexivity ].
      * apply (toggle_private_run BLOCKSIZE NDEBUG w a bs l bit Ha Hl Hbit Hids Hk
                 p B x); [assumption | assumption | assumption | lia].
      * unfold w_blk.
        apply (row_modify BLOCKSIZE w _ a bs l k Hok Ha Hl p B Hs HB);
          [lia | reflexivity | apply block_ok_toggle; auto].
  - assert (replicate BLOCKSIZE 0 !! n = Some 0) as Hz by now apply lookup_replicate_2.
    destruct (hd true (oracle w)) eqn:Ho.
    + eexists OK, _, (replicate BLOCKSIZE 0), 0, _.
      splits; [ | now left | exact Hrow | exact Hz | | reflexivity ].
      * now apply (toggle_absent_run BLOCKSIZE NDEBUG w a bs l bit Ha Hl Hbit Hids Hk).
      * apply (row_install BLOCKSIZE w _ a bs l k Hok Ha Hl); [assumption | reflexivity |].
        pose proof (block_ok_toggle BLOCKSIZE (mk_block 1 0 (replicate BLOCKSIZE 0))
                      n 0 b 1 (block_ok_zero BLOCKSIZE 1) Hz ltac:(lia)) as HC.
        rewrite Z.testbit_0_l in HC. exact HC.
    + eexists ERRMEM, _, (replicate BLOCKSIZE 0), 0, _.
      splits; [ | now right | exact Hrow | exact Hz | | discriminate ].
      * now apply (toggle_absent_fail_run BLOCKSIZE NDEBUG w a bs l bit Ha Hl Hbit Hids Hk).
      * unfold w_oracle.
        apply (row_changed_intro_blk BLOCKSIZE w _ a bs l k Hok Ha Hl
                 (blks w) None); try assumption; try reflexivity.
        destruct Hok. now constructor.
Qed.

End BitOps.

Section BitOpEffects.

Variable BLOCKSIZE : nat.
Variable NDEBUG : bool.

Lemma content_in_range (w : world) (a : ptr) (bs : bitset) (k n : nat)
      (xs : list Z) (x : Z) :
  world_ok BLOCKSIZE w -> bsets w !! a = Some (Some bs) ->
  content BLOCKSIZE w a !! k = Some xs -> xs !! n = Some x ->
  Word.in_range x.
Proof.
  intros Hok Ha Hxs Hx. unfold content in Hxs. rewrite Ha in Hxs.
  destruct (blocks bs) as [l|] eqn:Hl; [|discriminate].
  rewrite list_lookup_fmap in Hxs.
  destruct (l !! k) as [s|] eqn:Hs; [|discriminate]. injection Hxs as <-.
  destruct s as [p|]; cbn [slot_words] in Hx.
  - destruct (blks w !! p) as [[B|]|] eqn:HB.
    + pose proof (ok_blocks _ _ Hok p B HB) as [_ Hw _].
      eapply Forall_lookup_1; eassumption.
    + apply lookup_replicate in Hx as [-> _]. unfold Word.in_range. lia.
    + apply lookup_replicate in Hx as [-> _]. unfold Word.in_range. lia.
  - apply lookup_replicate in Hx as [-> _]. unfold Word.in_range. lia.
Qed.

(** What the three bit operations have in common. *)
Lemma bit_op_effect (run : M status) (f : Z -> Z) (g : bool -> bool)
      (d : bool -> Z) (w : world) (a : ptr) (bs : bitset) (bit : Z) :
  world_ok BLOCKSIZE w -> (0 < BLOCKSIZE)%nat ->
  bsets w !! a = Some (Some bs) -> 0 <= bit < bitcount bs ->
  (exists r w' xs x row,
      run w = Ret r w'
      /\ (r = OK \/ r = ERRMEM /\ hd true (oracle w) = false)
      /\ content BLOCKSIZE w a !! Z.to_nat (Z.quot bit (IDSPERBLOCK BLOCKSIZE))
         = Some xs
      /\ xs !! Z.to_nat (Z.quot (Z.rem bit (IDSPERBLOCK BLOCKSIZE)) 64) = Some x
      /\ row_changed BLOCKSIZE w w' a
           (Z.to_nat (Z.quot bit (IDSPERBLOCK BLOCKSIZE))) row
      /\ (r = OK ->
          row = <[Z.to_nat (Z.quot (Z.rem bit (IDSPERBLOCK BLOCKSIZE)) 64)
                  := f x]> xs)) ->
  (forall x i, 0 <= i < 64 ->
               i <> Z.rem (Z.rem bit (IDSPERBLOCK BLOCKSIZE)) 64 ->
               Z.testbit (f x) i = Z.testbit x i) ->
  (forall x, Word.in_range x ->
             let b := Z.rem (Z.rem bit (IDSPERBLOCK BLOCKSIZE)) 64 in
             Z.testbit (f x) b = g (Z.testbit x b)
             /\ Word.popcountll (f x) = Word.popcountll x + d (Z.testbit x b)) ->
  exists r w',
    run w = Ret r w'
    /\ (r = OK \/ r = ERRMEM /\ hd true (oracle w) = false)
    /\ world_ok BLOCKSIZE w'
    /\ (forall c cs j,
           c <> a -> bsets w !! c = Some (Some cs) -> 0 <= j < bitcount cs ->
           tested BLOCKSIZE NDEBUG w' c j = tested BLOCKSIZE NDEBUG w c j)
    /\ (forall c cs,
           c <> a -> bsets w !! c = Some (Some cs) ->
           exists n, bitset_set_count (Some c) w = Ret (inr n) w
                     /\ bitset_set_count (Some c) w' = Ret (inr n) w')
    /\ (r = OK ->
        (forall j, 0 <= j < bitcount bs ->
                   tested BLOCKSIZE NDEBUG w' a j
                   = if j =? bit then g (tested BLOCKSIZE NDEBUG w a bit)
                     else tested BLOCKSIZE NDEBUG w a j)
        /\ exists n,
            bitset_set_count (Some a) w = Ret (inr n) w
            /\ bitset_set_count (Some a) w'
               = Ret (inr (n + d (tested BLOCKSIZE NDEBUG w a bit))) w').
Proof.
  intros Hok Hpos Ha Hbit (r & w' & xs & x & row & Hrun & Hr & Hxs & Hx & Hch & Hrow)
         Hf Hg.
  exists r, w'. splits; [exact Hrun | exact Hr | apply Hch | | | ].
  - intros c cs j Hne Hc Hj.
    rewrite (row_changed_tested BLOCKSIZE NDEBUG Hpos w w' a _ row Hok Hch c cs j Hc Hj).
    destruct (Nat.eqb_spec c a); [congruence | reflexivity].
  - intros c cs Hne Hc.
    destruct (row_changed_count BLOCKSIZE Hpos w w' a _ row Hok Hch c cs xs Hc Hxs)
      as [H1 H2].
    eexists. split; [exact H1|]. rewrite H2.
    destruct (Nat.eqb_spec c a); [congruence | now rewrite Z.add_0_r].
  - intros ->. specialize (Hrow eq_refl). subst row.
    pose proof (content_in_range w a bs _ _ xs x Hok Ha Hxs Hx) as Hin.
    destruct (Hg x Hin) as [Hgb Hgd].
    assert (tested BLOCKSIZE NDEBUG w a bit
            = Z.testbit x (Z.rem (Z.rem bit (IDSPERBLOCK BLOCKSIZE)) 64)) as Ht.
    { rewrite (tested_content BLOCKSIZE NDEBUG w a bs bit Hok Hpos Ha Hbit).
      rewrite (bit_of_lookup BLOCKSIZE _ xs) by assumption.
      unfold bit_of_row. now rewrite Hx. }
    split.
    + intros j Hj.
      rewrite (word_changed_tested BLOCKSIZE NDEBUG Hpos w w' a bs bit xs x (f x)
                 Hok Ha Hbit Hxs Hx Hch (Hf x) a bs j Ha Hj).
      rewrite Nat.eqb_refl. cbn [andb]. now rewrite Ht, Hgb.
    + destruct (word_changed_count BLOCKSIZE Hpos w w' a bit xs x (f x) Hok Hxs Hx Hch
                  a bs Ha) as (n & H1 & H2).
      exists n. split; [exact H1|]. rewrite H2, Nat.eqb_refl, Ht. do 2 f_equal. lia.
Qed.

End BitOpEffects.

(** ** Rows of zeros under the three word operations *)

Lemma zip_with_replicate_l {A B} (f : A -> B -> B) (z : A) (ys : list B) :
  (forall y, f z y = y) -> zip_with f (replicate (length ys) z) ys = ys.
Proof. intros H. induction ys as [|y ys IH]; cbn; [reflexivity | now rewrite H, IH]. Qed.

Lemma zip_with_replicate_r {A B} (f : A -> B -> A) (z : B) (xs : list A) :
  Forall (fun x => f x z = x) xs -> zip_with f xs (replicate (length xs) z) = xs.
Proof.
  induction 1 as [|x xs Hx _ IH]; cbn; [reflexivity | now rewrite Hx, IH].
Qed.

Lemma zip_with_const {A B C} (f : A -> B -> C) (c : C) (xs : list A) (ys : list B) :
  length xs = length ys -> (forall x y, In x xs -> In y ys -> f x y = c) ->
  zip_with f xs ys = replicate (length xs) c.
Proof.
  revert ys. induction xs as [|x xs IH]; intros [|y ys] Hlen H; try discriminate;
    [reflexivity|].
  cbn. rewrite (H x y) by (now left). f_equal.
  apply IH; [now injection Hlen | intros; apply H; now right].
Qed.

Lemma zip_with_zeros (f : Z -> Z -> Z) (n : nat) :
  f 0 0 = 0 -> zip_with f (replicate n 0) (replicate n 0) = replicate n 0.
Proof. intros H. induction n as [|n IH]; cbn; [reflexivity | now rewrite H, IH]. Qed.

Lemma word_subtract_zero (x : Z) : Word.in_range x -> word_subtract x 0 = x.
Proof.
  intros Hx. unfold word_subtract. apply Z.bits_inj'. intros i Hi.
  rewrite Z.land_spec. destruct (Z.lt_ge_cases i 64).
  - rewrite WordFacts.testbit_not by lia. rewrite Z.bits_0. apply andb_true_r.
  - apply WordFacts.in_range_testbit in Hx as [_ Hx]. now rewrite (Hx i) by lia.
Qed.

Section Rows.

Variable BLOCKSIZE : nat.

Lemma slot_words_ok (w : world) (c : ptr) (cs : bitset) (lc : list pointer)
      (j : nat) (s : pointer) :
  world_ok BLOCKSIZE w ->
  bsets w !! c = Some (Some cs) -> blocks cs = Some lc -> lc !! j = Some s ->
  length (slot_words BLOCKSIZE (blks w) s) = BLOCKSIZE
  /\ Forall Word.in_range (slot_words BLOCKSIZE (blks w) s).
Proof.
  intros Hok Hc Hlc Hj.
  assert (length (replicate BLOCKSIZE 0) = BLOCKSIZE
          /\ Forall Word.in_range (replicate BLOCKSIZE 0)) as Hz.
  { split; [apply length_replicate|]. apply Forall_replicate.
    unfold Word.in_range. lia. }
  destruct s as [p|]; [|exact Hz].
  destruct (slot_block BLOCKSIZE w c cs lc j p Hok Hc Hlc Hj) as [B HB].
  rewrite (slot_words_live BLOCKSIZE _ _ _ HB).
  destruct (ok_blocks _ _ Hok p B HB) as [H1 H2 _]. now split.
Qed.

End Rows.

(** ** The steps of the binary operations, as changes of one row *)

Lemma get_slot_at (a : ptr) (j : nat) (w : world) (bs : bitset)
      (l : list pointer) (s : pointer) :
  bsets w !! a = Some (Some bs) -> blocks bs = Some l -> l !! j = Some s ->
  get_slot a (Z.of_nat j) w = Ret s w.
Proof.
  intros Ha Hl Hs. apply (get_slot_run a _ w bs l s Ha Hl); [lia|].
  now rewrite Nat2Z.id.
Qed.

Section BinarySteps.

Variable BLOCKSIZE : nat.
Variable NDEBUG : bool.

Variables (w : world) (a b : ptr) (bs bb : bitset) (l lb : list pointer)
          (j : nat).
Hypothesis Hok : world_ok BLOCKSIZE w.
Hypothesis Ha : bsets w !! a = Some (Some bs).
Hypothesis Hl : blocks bs = Some l.
Hypothesis Hb : bsets w !! b = Some (Some bb).
Hypothesis Hlb : blocks bb = Some lb.

(** A step that leaves the memory as it is. *)
Lemma step_same (rowop : list Z -> list Z -> list Z) (sa sb : pointer) :
  l !! j = Some sa -> lb !! j = Some sb ->
  rowop (slot_words BLOCKSIZE (blks w) sa) (slot_words BLOCKSIZE (blks w) sb)
  = slot_words BLOCKSIZE (blks w) sa ->
  step_result BLOCKSIZE w a b j rowop None w.
Proof.
  intros Hsa Hsb Hrow.
  exists (slot_words BLOCKSIZE (blks w) sa), (slot_words BLOCKSIZE (blks w) sb),
    (slot_words BLOCKSIZE (blks w) sa).
  splits.
  - now apply (content_lookup BLOCKSIZE w a bs l).
  - now apply (content_lookup BLOCKSIZE w b bb lb).
  - replace w with (mk_world (bsets w) (blks w) (oracle w)) at 2 by now destruct w.
    apply (row_changed_intro_blk BLOCKSIZE w _ a bs l j Hok Ha Hl (blks w) sa);
      try assumption; try reflexivity.
    destruct Hok. now constructor.
  - left. split; [reflexivity | now rewrite Hrow].
  - now left.
Qed.

Section BothPresent.

Variables (p q : ptr).
Hypothesis Hsa : l !! j = Some (Some p).
Hypothesis Hsb : lb !! j = Some (Some q).

Variable op : Z -> Z -> Z.
Hypothesis Hop :
  forall x y, Word.in_range x -> Word.in_range y -> Word.in_range (op x y).

Lemma combine_slot_row :
  exists r w',
    combine_slot BLOCKSIZE NDEBUG (block_combine BLOCKSIZE NDEBUG op) a b
      (Z.of_nat j) w = Ret r w'
    /\ step_result BLOCKSIZE w a b j (zip_with op) r w'.
Proof.
  pose proof (proj1 (world_ok_inv BLOCKSIZE w) Hok) as Hinv.
  destruct (slot_live _ _ _ _ _ _ _ Hinv Ha Hl Hsa) as (P & HP & _ & HrcP & HokP).
  destruct (slot_live _ _ _ _ _ _ _ Hinv Hb Hlb Hsb) as (Q & HQ & _ & _ & HokQ).
  pose proof (content_lookup BLOCKSIZE w a bs l j _ Ha Hl Hsa) as Hra.
  pose proof (content_lookup BLOCKSIZE w b bb lb j _ Hb Hlb Hsb) as Hrb.
  rewrite (slot_words_live BLOCKSIZE _ _ _ HP) in Hra.
  rewrite (slot_words_live BLOCKSIZE _ _ _ HQ) in Hrb.
  pose proof (lookup_lt_Some _ _ _ HP) as HpL.
  pose proof (lookup_lt_Some _ _ _ HQ) as HqL.
  pose proof (lookup_lt_Some _ _ _ Ha) as HaL.
  pose proof (lookup_lt_Some _ _ _ Hsa) as HjL.
  assert (0 <= Z.of_nat j) as Hj0 by lia.
  assert (l !! Z.to_nat (Z.of_nat j) = Some (Some p)) as Hsa' by now rewrite Nat2Z.id.
  assert (lb !! Z.to_nat (Z.of_nat j) = Some (Some q)) as Hsb' by now rewrite Nat2Z.id.
  destruct (decide (1 < ref_count P)) as [Hsh|Hpr].
  - destruct (hd true (oracle w)) eqn:Ho.
    + (* the block is cloned, and the clone is written *)
      set (N := mk_block 1 (set_count P) (ints P)).
      set (C := mk_block 1 (popcount_list (zip_with op (ints P) (ints Q)))
                         (zip_with op (ints P) (ints Q))).
      exists None,
        (mk_world (<[a := Some (with_blocks (<[j := Some (length (blks w))]> l) bs)]> (bsets w))
                  (<[p := Some (with_ref_count (ref_count P - 1) P)]> (blks w) ++ [Some C])
                  (tl (oracle w))).
      split.
      * unfold combine_slot, realloc_if_shared, shared.
        assert ((1 <? ref_count P) = true) as Hlt by lia.
        assert (Hi' : (Z.of_nat j <? 0) = false) by lia.
        destruct (decide (a = b)) as [Eab|Hab].
        { (* both operands are the one bitset: the clone is combined
             with itself *)
          subst b.
          assert (bb = bs) as -> by congruence.
          assert (lb = l) as -> by congruence.
          assert (q = p) as -> by congruence.
          assert (Q = P) as -> by congruence.
          mrun. erewrite realloc_run by eassumption. mrun.
          rewrite Nat2Z.id.
          match goal with
          | |- context [block_combine _ _ _ _ _ ?W] => set (w1 := W)
          end.
          assert (blks w1 !! length (blks w) = Some (Some N)) as HN
            by (apply lookup_snoc_at; now rewrite length_insert).
          rewrite (block_combine_run BLOCKSIZE NDEBUG op (length (blks w))
                     (length (blks w)) w1 N N HN HN);
            [ | apply (ok_length _ _ HokP) | apply (ok_length _ _ HokP) ].
          cbn [ref_count N]. rewrite Z.eqb_refl, orb_true_r.
          unfold w_blk, w1. cbn [bsets blks oracle ints N]. do 2 f_equal.
          apply insert_snoc_at. now rewrite length_insert. }
        mrun. erewrite realloc_run by eassumption. mrun.
        rewrite Nat2Z.id.
        match goal with
        | |- context [block_combine _ _ _ _ _ ?W] => set (w1 := W)
        end.
        assert (blks w1 !! length (blks w) = Some (Some N)) as HN
          by (apply lookup_snoc_at; now rewrite length_insert).
        assert (exists Q', blks w1 !! q = Some (Some Q') /\ ints Q' = ints Q)
          as (Q' & HQ' & EQ).
        { unfold w1. cbn [blks]. rewrite lookup_app_l by now rewrite length_insert.
          destruct (decide (q = p)) as [->|Hne].
          - rewrite list_lookup_insert_eq by assumption.
            eexists. split; [reflexivity|]. cbn. congruence.
          - rewrite list_lookup_insert_ne by congruence. eauto. }
        rewrite (block_combine_run BLOCKSIZE NDEBUG op (length (blks w)) q w1 N Q'
                   HN HQ');
          [ | apply (ok_length _ _ HokP) | rewrite EQ; apply (ok_length _ _ HokQ) ].
        cbn [ref_count N]. rewrite Z.eqb_refl, orb_true_r, EQ.
        unfold w_blk, w1. cbn [bsets blks oracle ints N]. do 2 f_equal.
        apply insert_snoc_at. now rewrite length_insert.
      * exists (ints P), (ints Q), (ints C). splits; try assumption.
        -- apply (row_clone BLOCKSIZE w _ a bs l j Hok Ha Hl p P Hsa HP C);
             [assumption | reflexivity | now apply block_ok_combine].
        -- left. split; reflexivity.
        -- now right.
    + (* the clone fails *)
      eexists (Some ERRMEM), _. split.
      * apply (combine_slot_fail_run BLOCKSIZE NDEBUG w a bs l (Z.of_nat j) p P
                 Ha Hl Hj0 Hsa' HP Hsh Ho).
      * exists (ints P), (ints Q), (replicate BLOCKSIZE 0). splits; try assumption.
        -- rewrite Nat2Z.id, <- (decref_cell_shared P Hsh).
           now apply (row_drop BLOCKSIZE w _ a bs l j Hok Ha Hl p P).
        -- right. split; [reflexivity | assumption].
        -- now right.
  - (* the block is written in place *)
    set (C := mk_block (ref_count P) (popcount_list (zip_with op (ints P) (ints Q)))
                       (zip_with op (ints P) (ints Q))).
    exists None, (mk_world (bsets w) (<[p := Some C]> (blks w)) (oracle w)).
    split.
    + unfold combine_slot, realloc_if_shared, shared.
      assert ((1 <? ref_count P) = false) as Hlt by lia.
      assert (Hi' : (Z.of_nat j <? 0) = false) by lia.
      mrun.
      rewrite (block_combine_run BLOCKSIZE NDEBUG op p q w P Q HP HQ
                 (ok_length _ _ HokP) (ok_length _ _ HokQ)).
      assert ((ref_count P =? 1) = true) as -> by lia.
      rewrite orb_true_r. reflexivity.
    + exists (ints P), (ints Q), (ints C). splits; try assumption.
      * apply (row_modify BLOCKSIZE w _ a bs l j Hok Ha Hl p P Hsa HP C);
          [lia | reflexivity | now apply block_ok_combine].
      * left. split; reflexivity.
      * now left.
Qed.

End BothPresent.

End BinarySteps.

Section BodySteps.

Variable BLOCKSIZE : nat.
Variable NDEBUG : bool.

Variables (w : world) (a b : ptr) (bs bb : bitset) (l lb : list pointer)
          (j : nat) (sa sb : pointer).
Hypothesis Hok : world_ok BLOCKSIZE w.
Hypothesis Ha : bsets w !! a = Some (Some bs).
Hypothesis Hl : blocks bs = Some l.
Hypothesis Hb : bsets w !! b = Some (Some bb).
Hypothesis Hlb : blocks bb = Some lb.
Hypothesis Hsa : l !! j = Some sa.
Hypothesis Hsb : lb !! j = Some sb.

Lemma or_body_row :
  exists r w',
    bitset_or_body BLOCKSIZE NDEBUG a b (Z.of_nat j) w = Ret r w'
    /\ step_result BLOCKSIZE w a b j (zip_with Z.lor) r w'.
Proof.
  destruct (slot_words_ok BLOCKSIZE w a bs l j sa Hok Ha Hl Hsa) as [Hla Hra].
  destruct (slot_words_ok BLOCKSIZE w b bb lb j sb Hok Hb Hlb Hsb) as [Hlb' Hrb].
  unfold bitset_or_body.
  rewrite (bind_run _ _ _ _ _ (get_slot_at a j w bs l sa Ha Hl Hsa)).
  rewrite (bind_run _ _ _ _ _ (get_slot_at b j w bb lb sb Hb Hlb Hsb)).
  destruct sa as [p|], sb as [q|].
  - apply (combine_slot_row BLOCKSIZE NDEBUG w a b bs bb l lb j Hok Ha Hl Hb Hlb
             p q Hsa Hsb Z.lor WordFacts.lor_in_range).
  - exists None, w. split; [reflexivity|].
    apply (step_same BLOCKSIZE w a b bs bb l lb j Hok Ha Hl Hb Hlb _ (Some p) None
             Hsa Hsb).
    change (slot_words BLOCKSIZE (blks w) None) with (replicate BLOCKSIZE 0).
    set (xs := slot_words BLOCKSIZE (blks w) (Some p)) in *. clearbody xs.
    rewrite <- Hla.
    apply zip_with_replicate_r. apply Forall_forall. intros x _. apply Z.lor_0_r.
  - pose proof (proj1 (world_ok_inv BLOCKSIZE w) Hok) as Hinv.
    destruct (slot_live _ _ _ _ _ _ _ Hinv Hb Hlb Hsb) as (Q & HQ & _ & _ & HokQ).
    eexists None, _. split.
    + fold (bitset_or_body BLOCKSIZE NDEBUG a b (Z.of_nat j)).
      assert (bitset_or_body BLOCKSIZE NDEBUG a b (Z.of_nat j) w
              = Ret None (slot_shared w a bs l (Z.to_nat (Z.of_nat j)) q Q)) as E.
      { apply (or_share_run BLOCKSIZE NDEBUG w a b bs bb l lb (Z.of_nat j) q Q);
          rewrite ?Nat2Z.id; first [assumption | lia]. }
      unfold bitset_or_body in E.
      rewrite (bind_run _ _ _ _ _ (get_slot_at a j w bs l None Ha Hl Hsa)) in E.
      rewrite (bind_run _ _ _ _ _ (get_slot_at b j w bb lb (Some q) Hb Hlb Hsb)) in E.
      exact E.
    + rewrite Nat2Z.id. unfold slot_shared.
      exists (replicate BLOCKSIZE 0), (ints Q), (ints Q). splits.
      * now apply (content_lookup BLOCKSIZE w a bs l j None).
      * rewrite (content_lookup BLOCKSIZE w b bb lb j _ Hb Hlb Hsb).
        now rewrite (slot_words_live BLOCKSIZE _ _ _ HQ).
      * now apply (row_share BLOCKSIZE w _ a bs l j Hok Ha Hl q Q).
      * left. split; [reflexivity|].
        rewrite <- (ok_length _ _ HokQ). symmetry.
        apply zip_with_replicate_l. intros y. apply Z.lor_0_l.
      * now left.
  - exists None, w. split; [reflexivity|].
    apply (step_same BLOCKSIZE w a b bs bb l lb j Hok Ha Hl Hb Hlb _ None None
             Hsa Hsb).
    cbn [slot_words]. now apply zip_with_zeros.
Qed.

Lemma and_body_row :
  exists r w',
    bitset_and_body BLOCKSIZE NDEBUG a b (Z.of_nat j) w = Ret r w'
    /\ step_result BLOCKSIZE w a b j (zip_with Z.land) r w'.
Proof.
  destruct (slot_words_ok BLOCKSIZE w a bs l j sa Hok Ha Hl Hsa) as [Hla Hra].
  destruct (slot_words_ok BLOCKSIZE w b bb lb j sb Hok Hb Hlb Hsb) as [Hlb' Hrb].
  unfold bitset_and_body.
  rewrite (bind_run _ _ _ _ _ (get_slot_at a j w bs l sa Ha Hl Hsa)).
  rewrite (bind_run _ _ _ _ _ (get_slot_at b j w bb lb sb Hb Hlb Hsb)).
  destruct sa as [p|], sb as [q|].
  - apply (combine_slot_row BLOCKSIZE NDEBUG w a b bs bb l lb j Hok Ha Hl Hb Hlb
             p q Hsa Hsb Z.land).
    intros x y Hx _. now apply WordFacts.land_in_range.
  - pose proof (proj1 (world_ok_inv BLOCKSIZE w) Hok) as Hinv.
    destruct (slot_live _ _ _ _ _ _ _ Hinv Ha Hl Hsa) as (P & HP & _ & _ & HokP).
    eexists None, _. split.
    + unfold bind at 1. rewrite (decref_run p w P HP).
      unfold bind at 1.
      erewrite (set_slot_run a (Z.of_nat j) None _ bs l (Some p));
        [reflexivity | exact Ha | exact Hl | lia | now rewrite Nat2Z.id].
    + rewrite Nat2Z.id. unfold w_cell, w_blk. cbn [bsets blks oracle].
      exists (ints P), (replicate BLOCKSIZE 0), (replicate BLOCKSIZE 0). splits.
      * rewrite (content_lookup BLOCKSIZE w a bs l j _ Ha Hl Hsa).
        now rewrite (slot_words_live BLOCKSIZE _ _ _ HP).
      * now apply (content_lookup BLOCKSIZE w b bb lb j None).
      * now apply (row_drop BLOCKSIZE w _ a bs l j Hok Ha Hl p P).
      * left. split; [reflexivity|].
        rewrite (zip_with_const _ 0);
          [now rewrite (ok_length _ _ HokP)
          | now rewrite length_replicate, (ok_length _ _ HokP) |].
        intros x y _ Hy. apply list_elem_of_In, elem_of_replicate in Hy as [-> _].
        apply Z.land_0_r.
      * now left.
  - exists None, w. split; [reflexivity|].
    apply (step_same BLOCKSIZE w a b bs bb l lb j Hok Ha Hl Hb Hlb _ None (Some q)
             Hsa Hsb).
    change (slot_words BLOCKSIZE (blks w) None) with (replicate BLOCKSIZE 0).
    set (ys := slot_words BLOCKSIZE (blks w) (Some q)) in *. clearbody ys.
    rewrite (zip_with_const _ 0);
      [now rewrite length_replicate | now rewrite length_replicate, Hlb' |].
    intros x y Hx _. apply list_elem_of_In, elem_of_replicate in Hx as [-> _].
    apply Z.land_0_l.
  - exists None, w. split; [reflexivity|].
    apply (step_same BLOCKSIZE w a b bs bb l lb j Hok Ha Hl Hb Hlb _ None None
             Hsa Hsb).
    cbn [slot_words]. now apply zip_with_zeros.
Qed.

Lemma subtract_body_row :
  exists r w',
    bitset_subtract_body BLOCKSIZE NDEBUG a b (Z.of_nat j) w = Ret r w'
    /\ step_result BLOCKSIZE w a b j (zip_with word_subtract) r w'.
Proof.
  destruct (slot_words_ok BLOCKSIZE w a bs l j sa Hok Ha Hl Hsa) as [Hla Hra].
  destruct (slot_words_ok BLOCKSIZE w b bb lb j sb Hok Hb Hlb Hsb) as [Hlb' Hrb].
  unfold bitset_subtract_body.
  rewrite (bind_run _ _ _ _ _ (get_slot_at a j w bs l sa Ha Hl Hsa)).
  rewrite (bind_run _ _ _ _ _ (get_slot_at b j w bb lb sb Hb Hlb Hsb)).
  destruct sa as [p|], sb as [q|].
  - apply (combine_slot_row BLOCKSIZE NDEBUG w a b bs bb l lb j Hok Ha Hl Hb Hlb
             p q Hsa Hsb word_subtract).
    intros x y Hx _. now apply WordFacts.land_in_range.
  - exists None, w. split; [reflexivity|].
    apply (step_same BLOCKSIZE w a b bs bb l lb j Hok Ha Hl Hb Hlb _ (Some p) None
             Hsa Hsb).
    change (slot_words BLOCKSIZE (blks w) None) with (replicate BLOCKSIZE 0).
    set (xs := slot_words BLOCKSIZE (blks w) (Some p)) in *. clearbody xs.
    rewrite <- Hla.
    apply zip_with_replicate_r.
    eapply Forall_impl; [exact Hra|]. intros x Hx. now apply word_subtract_zero.
  - exists None, w. split; [reflexivity|].
    apply (step_same BLOCKSIZE w a b bs bb l lb j Hok Ha Hl Hb Hlb _ None (Some q)
             Hsa Hsb).
    change (slot_words BLOCKSIZE (blks w) None) with (replicate BLOCKSIZE 0).
    set (ys := slot_words BLOCKSIZE (blks w) (Some q)) in *. clearbody ys.
    rewrite (zip_with_const _ 0);
      [now rewrite length_replicate | now rewrite length_replicate, Hlb' |].
    intros x y Hx _. apply list_elem_of_In, elem_of_replicate in Hx as [-> _].
    apply Z.land_0_l.
  - exists None, w. split; [reflexivity|].
    apply (step_same BLOCKSIZE w a b bs bb l lb j Hok Ha Hl Hb Hlb _ None None
             Hsa Hsb).
    cbn [slot_words]. now apply zip_with_zeros.
Qed.

End BodySteps.

(** ** The loops of the binary operations *)

Section Frames.

Variable BLOCKSIZE : nat.

Lemma frame_but_refl (w : world) (a : ptr) (bs : bitset) :
  world_ok BLOCKSIZE w -> bsets w !! a = Some (Some bs) ->
  frame_but BLOCKSIZE w w a.
Proof.
  intros Hok Ha. split; [exact Hok|]. split.
  - intros c _. split; reflexivity.
  - exists bs, bs. auto.
Qed.

Lemma frame_but_trans (w0 w1 w2 : world) (a : ptr) :
  frame_but BLOCKSIZE w0 w1 a -> frame_but BLOCKSIZE w1 w2 a ->
  frame_but BLOCKSIZE w0 w2 a.
Proof.
  intros (_ & H01 & (bs0 & bs1 & Ha0 & Ha1 & E1))
         (Hok2 & H12 & (bs1' & bs2 & Ha1' & Ha2 & E2)).
  split; [exact Hok2|]. split.
  - intros c Hne.
    destruct (H01 c Hne) as [Hb1 Hc1].
    destruct (H12 c Hne) as [Hb2 Hc2]. split; congruence.
  - exists bs0, bs2. splits; [assumption | assumption | congruence].
Qed.

(** What a frame keeps of the slot array of [a]. *)
Lemma frame_but_slots (w w' : world) (a : ptr) (bs : bitset) (l : list pointer) :
  world_ok BLOCKSIZE w -> frame_but BLOCKSIZE w w' a ->
  bsets w !! a = Some (Some bs) -> blocks bs = Some l ->
  exists bs' l', bsets w' !! a = Some (Some bs') /\ blocks bs' = Some l'
                 /\ length l' = length l /\ bitcount bs' = bitcount bs.
Proof.
  intros Hok (Hok' & _ & (bs0 & bs' & Ha0 & Ha' & E)) Ha Hl.
  assert (bs0 = bs) as -> by congruence.
  apply world_ok_inv in Hok. apply world_ok_inv in Hok'.
  destruct (inv_bitset _ _ _ _ _ Hok Ha) as (l0 & Hl0 & Hlen0 & Hbc0 & _).
  destruct (inv_bitset _ _ _ _ _ Hok' Ha') as (l' & Hl' & Hlen' & Hbc' & _).
  assert (l0 = l) as -> by congruence.
  exists bs', l'. splits; try assumption. congruence.
Qed.

End Frames.

Section BinaryLoop.

Variable BLOCKSIZE : nat.
Variable NDEBUG : bool.
Variables (a b : ptr).

Variable body : ptr -> ptr -> Z -> M (option status).
Variable rowop : list Z -> list Z -> list Z.
Hypothesis Hstep :
  forall (w : world) (bs bb : bitset) (l lb : list pointer) (j : nat)
         (sa sb : pointer),
    world_ok BLOCKSIZE w ->
    bsets w !! a = Some (Some bs) -> blocks bs = Some l ->
    bsets w !! b = Some (Some bb) -> blocks bb = Some lb ->
    l !! j = Some sa -> lb !! j = Some sb ->
    exists r w',
      body a b (Z.of_nat j) w = Ret r w'
      /\ step_result BLOCKSIZE w a b j rowop r w'.

Lemma binary_loop_run :
  forall (n j : nat) (w : world) (bs bb : bitset) (l lb : list pointer),
    world_ok BLOCKSIZE w ->
    bsets w !! a = Some (Some bs) -> blocks bs = Some l ->
    bsets w !! b = Some (Some bb) -> blocks bb = Some lb ->
    (j + n <= length l)%nat -> length lb = length l ->
    exists r w',
      for_loop n (Z.of_nat j) (body a b) w = Ret r w'
      /\ frame_but BLOCKSIZE w w' a
      /\ (r = None \/ r = Some ERRMEM)
      /\ (Forall (eq true) (oracle w) ->
          r = None /\ Forall (eq true) (oracle w'))
      /\ (r = None ->
          forall i ra rb,
            content BLOCKSIZE w a !! i = Some ra ->
            content BLOCKSIZE w b !! i = Some rb ->
            content BLOCKSIZE w' a !! i
            = Some (if (j <=? i)%nat && (i <? j + n)%nat then rowop ra rb else ra)).
Proof.
  induction n as [|n IH]; intros j w bs bb l lb Hok Ha Hl Hb Hlb Hjn Hlen.
  - exists None, w. splits.
    + reflexivity.
    + now apply (frame_but_refl BLOCKSIZE w a bs).
    + now left.
    + intros Ho. now split.
    + intros _ i ra rb Hra _. rewrite Hra. do 2 f_equal.
      destruct (Nat.leb_spec j i), (Nat.ltb_spec i (j + 0)); try reflexivity; lia.
  - destruct (lookup_lt_is_Some_2 l j ltac:(lia)) as [sa Hsa].
    destruct (lookup_lt_is_Some_2 lb j ltac:(lia)) as [sb Hsb].
    destruct (Hstep w bs bb l lb j sa sb Hok Ha Hl Hb Hlb Hsa Hsb)
      as (r1 & w1 & Hrun1 & (ra0 & rb0 & row & Hra0 & Hrb0 & Hch & Hres & Hor)).
    cbn [for_loop]. unfold bind at 1. rewrite Hrun1.
    destruct Hch as [Hfr Hrow].
    destruct Hres as [[-> ->]|[-> Ho]].
    + (* the step fell through *)
      pose proof Hfr as (Hok1 & Hoth & _).
      destruct (frame_but_slots BLOCKSIZE w w1 a bs l Hok Hfr Ha Hl)
        as (bs1 & l1 & Ha1 & Hl1 & Hlen1 & _).
      assert (j < length (content BLOCKSIZE w a))%nat as Hjl
        by (eapply lookup_lt_Some; eassumption).
      (* what the step has left of [b], which may be [a] itself *)
      assert (exists bb1 lb1 rb1,
                 bsets w1 !! b = Some (Some bb1) /\ blocks bb1 = Some lb1
                 /\ length lb1 = length l1
                 /\ content BLOCKSIZE w1 b !! j = Some rb1
                 /\ forall i rb, i <> j ->
                                 content BLOCKSIZE w b !! i = Some rb ->
                                 content BLOCKSIZE w1 b !! i = Some rb)
        as (bb1 & lb1 & rb1 & Hb1 & Hlb1 & Hlen1' & Hrb1 & Hkeep).
      { destruct (decide (b = a)) as [->|Hne].
        - exists bs1, l1, (rowop ra0 rb0). splits; try assumption.
          + reflexivity.
          + rewrite Hrow. now apply list_lookup_insert_eq.
          + intros i rb Hi Hrb. rewrite Hrow.
            now rewrite list_lookup_insert_ne by congruence.
        - destruct (Hoth b Hne) as [Hb1 Hcb1]. rewrite Hb in Hb1.
          exists bb, lb, rb0. splits; try assumption.
          + lia.
          + now rewrite Hcb1.
          + intros i rb _ Hrb. now rewrite Hcb1. }
      replace (Z.of_nat j + 1) with (Z.of_nat (S j)) by lia.
      destruct (IH (S j) w1 bs1 bb1 l1 lb1 Hok1 Ha1 Hl1 Hb1 Hlb1 ltac:(lia) ltac:(lia))
        as (r & w' & Hrun & Hfr' & Hr & Horacle & Hcontent).
      exists r, w'. splits.
      * exact Hrun.
      * now apply (frame_but_trans BLOCKSIZE w w1 w' a).
      * exact Hr.
      * intros Hall. apply Horacle.
        destruct Hor as [->| ->]; [assumption|].
        destruct (oracle w); [constructor | now inversion Hall].
      * intros Hnone i ra rb Hra Hrb.
        destruct (decide (i = j)) as [->|Hne].
        -- assert (ra0 = ra) as -> by congruence.
           assert (rb0 = rb) as -> by congruence.
           rewrite (Hcontent Hnone j (rowop ra rb) rb1);
             [ | rewrite Hrow; now apply list_lookup_insert_eq | exact Hrb1 ].
           do 2 f_equal.
           destruct (Nat.leb_spec (S j) j), (Nat.leb_spec j j),
             (Nat.ltb_spec j (S j + n)), (Nat.ltb_spec j (j + S n));
             try reflexivity; lia.
        -- rewrite (Hcontent Hnone i ra rb);
             [ | rewrite Hrow; now rewrite list_lookup_insert_ne by congruence
               | now apply Hkeep ].
           do 2 f_equal.
           destruct (Nat.leb_spec (S j) i), (Nat.leb_spec j i),
             (Nat.ltb_spec i (S j + n)), (Nat.ltb_spec i (j + S n));
             try reflexivity; lia.
    + (* the step returned [ERRMEM] *)
      exists (Some ERRMEM), w1. splits.
      * reflexivity.
      * exact Hfr.
      * now right.
      * intros Hall. exfalso. destruct (oracle w) as [|x o]; [discriminate|].
        inversion Hall; subst. cbn in Ho. congruence.
      * discriminate.
Qed.

(** The whole operation: the tests of its start, then the loop. *)
Lemma binary_run (w : world) (A B : bitset) :
  world_ok BLOCKSIZE w ->
  bsets w !! a = Some (Some A) -> bsets w !! b = Some (Some B) ->
  bitcount A = bitcount B ->
  exists r w',
    binary_checks NDEBUG (Some a) (Some b) (fun a b =>
      let* A := load_bitset a in
      let* r := for_loop (Z.to_nat (block_count A)) 0 (body a b) in
      loop_result r) w = Ret r w'
    /\ (r = OK \/ r = ERRMEM)
    /\ frame_but BLOCKSIZE w w' a
    /\ (Forall (eq true) (oracle w) -> r = OK)
    /\ (r = OK ->
        forall i ra rb,
          content BLOCKSIZE w a !! i = Some ra ->
          content BLOCKSIZE w b !! i = Some rb ->
          content BLOCKSIZE w' a !! i = Some (rowop ra rb)).
Proof.
  intros Hok Ha Hb Hcap.
  pose proof (proj1 (world_ok_inv BLOCKSIZE w) Hok) as Hinv.
  destruct (inv_bitset _ _ _ _ _ Hinv Ha) as (l & Hl & Hlen & Hbc & _).
  destruct (inv_bitset _ _ _ _ _ Hinv Hb) as (lb & Hlb & Hlenb & Hbcb & _).
  assert (block_count A = block_count B) as Hblk by congruence.
  destruct (binary_loop_run (Z.to_nat (block_count A)) 0 w A B l lb Hok Ha Hl Hb Hlb
              ltac:(lia) ltac:(lia))
    as (r & w' & Hrun & Hfr & Hr & Horacle & Hcontent).
  exists (match r with Some e => e | None => OK end), w'. splits.
  - unfold binary_checks.
    assert ((bitcount A =? bitcount B) = true) as H1 by lia.
    assert ((block_count A =? block_count B) = true) as H2 by lia.
    rewrite (bind_run _ _ _ _ _ (load_bitset_run a w A Ha)).
    rewrite (bind_run _ _ _ _ _ (load_bitset_run b w B Hb)).
    rewrite H1. cbn [negb]. unfold bind at 1.
    erewrite assert_true; cycle 1.
    { rewrite (bind_run _ _ _ _ _ (load_bitset_run a w A Ha)).
      rewrite (bind_run _ _ _ _ _ (load_bitset_run b w B Hb)).
      rewrite H2. reflexivity. }
    rewrite (bind_run _ _ _ _ _ (load_bitset_run a w A Ha)).
    unfold bind at 1. change 0 with (Z.of_nat 0). rewrite Hrun.
    now destruct r.
  - destruct Hr as [-> | ->]; auto.
  - exact Hfr.
  - intros Hall. destruct (Horacle Hall) as [-> _]. reflexivity.
  - intros HOK. assert (r = None) as -> by (destruct Hr as [->| ->]; congruence).
    intros i ra rb Hra Hrb. rewrite (Hcontent eq_refl i ra rb Hra Hrb).
    assert (i < length (content BLOCKSIZE w a))%nat as Hi
      by (eapply lookup_lt_Some; eassumption).
    rewrite (content_length BLOCKSIZE w a A l Ha Hl) in Hi.
    destruct (Nat.leb_spec 0 i), (Nat.ltb_spec i (0 + Z.to_nat (block_count A)));
      try reflexivity; lia.
Qed.

End BinaryLoop.

(** ** Tests after a binary operation *)

Section BinaryEffects.

Variable BLOCKSIZE : nat.
Variable NDEBUG : bool.
Hypothesis Hpos : (0 < BLOCKSIZE)%nat.

Lemma frame_but_others (w w' : world) (a : ptr) :
  frame_but BLOCKSIZE w w' a -> others_kept BLOCKSIZE w w' a.
Proof. intros (H1 & H2 & _). now split. Qed.

Lemma kept_tested (w w' : world) (a c : ptr) (cs : bitset) (j : Z) :
  world_ok BLOCKSIZE w -> others_kept BLOCKSIZE w w' a ->
  c <> a -> bsets w !! c = Some (Some cs) -> 0 <= j < bitcount cs ->
  tested BLOCKSIZE NDEBUG w' c j = tested BLOCKSIZE NDEBUG w c j.
Proof.
  intros Hok (Hok' & Hoth) Hne Hc Hj.
  destruct (Hoth c Hne) as [Hc' E]. rewrite Hc in Hc'.
  rewrite (tested_content BLOCKSIZE NDEBUG w' c cs j Hok' Hpos Hc' Hj).
  rewrite (tested_content BLOCKSIZE NDEBUG w c cs j Hok Hpos Hc Hj).
  now rewrite E.
Qed.

Lemma kept_count (w w' : world) (a c : ptr) (cs : bitset) :
  world_ok BLOCKSIZE w -> others_kept BLOCKSIZE w w' a ->
  c <> a -> bsets w !! c = Some (Some cs) ->
  exists n, bitset_set_count (Some c) w = Ret (inr n) w
            /\ bitset_set_count (Some c) w' = Ret (inr n) w'.
Proof.
  intros Hok (Hok' & Hoth) Hne Hc.
  destruct (Hoth c Hne) as [Hc' E]. rewrite Hc in Hc'.
  exists (popcount_rows (content BLOCKSIZE w c)). split.
  - apply (count_content BLOCKSIZE w c cs Hok Hc).
  - rewrite <- E. apply (count_content BLOCKSIZE w' c cs Hok' Hc').
Qed.

Lemma bit_of_row_zip (op : Z -> Z -> Z) (opb : bool -> bool -> bool)
      (ra rb : list Z) (j : Z) :
  (forall x y i, 0 <= i < 64 ->
                 Z.testbit (op x y) i = opb (Z.testbit x i) (Z.testbit y i)) ->
  length ra = BLOCKSIZE -> length rb = BLOCKSIZE ->
  0 <= j ->
  bit_of_row BLOCKSIZE (zip_with op ra rb) j
  = opb (bit_of_row BLOCKSIZE ra j) (bit_of_row BLOCKSIZE rb j).
Proof.
  intros Hop Hla Hlb Hj. unfold bit_of_row.
  assert (0 < IDSPERBLOCK BLOCKSIZE) as Hids by (unfold IDSPERBLOCK; lia).
  pose proof (Z.rem_bound_pos j (IDSPERBLOCK BLOCKSIZE) Hj Hids) as Hr.
  pose proof (Z.rem_bound_pos (Z.rem j (IDSPERBLOCK BLOCKSIZE)) 64
                ltac:(lia) ltac:(lia)) as Hb.
  assert (Z.to_nat (Z.quot (Z.rem j (IDSPERBLOCK BLOCKSIZE)) 64) < BLOCKSIZE)%nat
    as Hn.
  { assert (Z.quot (Z.rem j (IDSPERBLOCK BLOCKSIZE)) 64 < Z.of_nat BLOCKSIZE).
    { apply Z.quot_lt_upper_bound; unfold IDSPERBLOCK in *; lia. }
    pose proof (Z.quot_pos (Z.rem j (IDSPERBLOCK BLOCKSIZE)) 64 ltac:(lia) ltac:(lia)).
    lia. }
  destruct (lookup_lt_is_Some_2 ra _ ltac:(rewrite Hla; exact Hn)) as [x Hx].
  destruct (lookup_lt_is_Some_2 rb _ ltac:(rewrite Hlb; exact Hn)) as [y Hy].
  rewrite lookup_zip_with, Hx, Hy. cbn. now apply Hop.
Qed.

Lemma content_row_length (w : world) (c : ptr) (cs : bitset) (i : nat)
      (xs : list Z) :
  world_ok BLOCKSIZE w -> bsets w !! c = Some (Some cs) ->
  content BLOCKSIZE w c !! i = Some xs -> length xs = BLOCKSIZE.
Proof.
  intros Hok Hc Hxs. unfold content in Hxs. rewrite Hc in Hxs.
  destruct (blocks cs) as [lc|] eqn:Hlc; [|discriminate].
  rewrite list_lookup_fmap in Hxs.
  destruct (lc !! i) as [s|] eqn:Hs; [|discriminate]. injection Hxs as <-.
  apply (slot_words_ok BLOCKSIZE w c cs lc i s Hok Hc Hlc Hs).
Qed.

(** What the three in-place operations have in common. *)
Lemma binary_effect (body : ptr -> ptr -> Z -> M (option status))
      (op : Z -> Z -> Z) (opb : bool -> bool -> bool)
      (w : world) (a b : ptr) (A B : bitset) :
  (forall (w : world) (bs bb : bitset) (l lb : list pointer) (j : nat)
          (sa sb : pointer),
      world_ok BLOCKSIZE w ->
      bsets w !! a = Some (Some bs) -> blocks bs = Some l ->
      bsets w !! b = Some (Some bb) -> blocks bb = Some lb ->
      l !! j = Some sa -> lb !! j = Some sb ->
      exists r w',
        body a b (Z.of_nat j) w = Ret r w'
        /\ step_result BLOCKSIZE w a b j (zip_with op) r w') ->
  (forall x y i, 0 <= i < 64 ->
                 Z.testbit (op x y) i = opb (Z.testbit x i) (Z.testbit y i)) ->
  world_ok BLOCKSIZE w ->
  bsets w !! a = Some (Some A) -> bsets w !! b = Some (Some B) ->
  bitcount A = bitcount B ->
  exists r w',
    binary_checks NDEBUG (Some a) (Some b) (fun a b =>
      let* A := load_bitset a in
      let* r := for_loop (Z.to_nat (block_count A)) 0 (body a b) in
      loop_result r) w = Ret r w'
    /\ (r = OK \/ r = ERRMEM)
    /\ (Forall (eq true) (oracle w) -> r = OK)
    /\ world_ok BLOCKSIZE w'
    /\ (forall c cs j,
           c <> a -> bsets w !! c = Some (Some cs) -> 0 <= j < bitcount cs ->
           tested BLOCKSIZE NDEBUG w' c j = tested BLOCKSIZE NDEBUG w c j)
    /\ (forall c cs,
           c <> a -> bsets w !! c = Some (Some cs) ->
           exists n, bitset_set_count (Some c) w = Ret (inr n) w
                     /\ bitset_set_count (Some c) w' = Ret (inr n) w')
    /\ (r = OK ->
        forall j, 0 <= j < bitcount A ->
                  tested BLOCKSIZE NDEBUG w' a j
                  = opb (tested BLOCKSIZE NDEBUG w a j)
                        (tested BLOCKSIZE NDEBUG w b j)).
Proof.
  intros Hstep Hop Hok Ha Hb Hcap.
  destruct (binary_run BLOCKSIZE NDEBUG a b body (zip_with op) Hstep w A B
              Hok Ha Hb Hcap)
    as (r & w' & Hrun & Hr & Hfr & Hor & Hcontent).
  exists r, w'. splits; try assumption.
  - apply Hfr.
  - intros c cs j Hne Hc Hj.
    apply (kept_tested w w' a c cs j); auto using frame_but_others.
  - intros c cs Hne Hc.
    apply (kept_count w w' a c cs); auto using frame_but_others.
  - intros HOK j Hj.
    pose proof Hfr as (Hok' & _ & (A0 & A' & HA0 & HA' & EA)).
    assert (A0 = A) as -> by congruence.
    rewrite (tested_content BLOCKSIZE NDEBUG w' a A' j Hok' Hpos HA') by lia.
    rewrite (tested_content BLOCKSIZE NDEBUG w a A j Hok Hpos Ha Hj).
    rewrite (tested_content BLOCKSIZE NDEBUG w b B j Hok Hpos Hb) by lia.
    destruct (shape BLOCKSIZE w a A j Hok Hpos Ha Hj)
      as (l & sa & Hl & _ & _ & _ & Hsa & _).
    destruct (shape BLOCKSIZE w b B j Hok Hpos Hb ltac:(lia))
      as (lb & sb & Hlb & _ & _ & _ & Hsb & _).
    pose proof (content_lookup BLOCKSIZE w a A l _ sa Ha Hl Hsa) as Hra.
    pose proof (content_lookup BLOCKSIZE w b B lb _ sb Hb Hlb Hsb) as Hrb.
    pose proof (Hcontent HOK _ _ _ Hra Hrb) as Hrow.
    rewrite (bit_of_lookup BLOCKSIZE _ _ j Hrow).
    rewrite (bit_of_lookup BLOCKSIZE _ _ j Hra).
    rewrite (bit_of_lookup BLOCKSIZE _ _ j Hrb).
    apply bit_of_row_zip; [exact Hop | | | lia].
    + apply (content_row_length w a A _ _ Hok Ha Hra).
    + apply (content_row_length w b B _ _ Hok Hb Hrb).
Qed.

End BinaryEffects.

Section Kept.

Variable BLOCKSIZE : nat.

(** A change that leaves alone the cells other than [a] and the words
    the slots of the other bitsets read keeps those bitsets. *)
Lemma others_kept_intro (w w' : world) (a : ptr) :
  world_ok BLOCKSIZE w -> world_ok BLOCKSIZE w' ->
  (forall c, c <> a -> bsets w' !! c = bsets w !! c) ->
  (forall c cs lc j q,
      c <> a -> bsets w !! c = Some (Some cs) -> blocks cs = Some lc ->
      lc !! j = Some (Some q) ->
      slot_words BLOCKSIZE (blks w') (Some q)
      = slot_words BLOCKSIZE (blks w) (Some q)) ->
  others_kept BLOCKSIZE w w' a.
Proof.
  intros Hok Hok' Hcells Hwords. split; [exact Hok'|].
  intros c Hne. split; [now apply Hcells|].
  destruct (bsets w !! c) as [[cs|]|] eqn:Hc;
    [ | unfold content; rewrite (Hcells c Hne), Hc; reflexivity .. ].
  destruct (live_blocks BLOCKSIZE w c cs Hok Hc) as [lc Hlc].
  apply (content_kept BLOCKSIZE w w' c cs lc Hc Hlc).
  - now rewrite Hcells.
  - intros j q Hj. now apply (Hwords c cs lc j q).
Qed.

End Kept.

Lemma lookup_app_other {A} (l : list A) (x : A) (c : nat) :
  c <> length l -> (l ++ [x]) !! c = l !! c.
Proof.
  intros Hne. destruct (decide (c < length l)%nat) as [Hlt|Hge].
  - now apply lookup_app_l.
  - rewrite (lookup_ge_None_2 l) by lia. apply lookup_ge_None_2.
    rewrite length_app. cbn. lia.
Qed.

(** ** Creation *)

Section Alloc.

Variable BLOCKSIZE : nat.
Hypothesis Hpos : (0 < BLOCKSIZE)%nat.

Lemma alloc_size (n : Z) :
  0 <= n <= INT_MAX ->
  (PTRDIFF_MAX <? size_t (PTRSIZE * BLOCKCOUNT BLOCKSIZE n)) = false
  /\ 0 <= BLOCKCOUNT BLOCKSIZE n
  /\ Z.to_nat (size_t (PTRSIZE * BLOCKCOUNT BLOCKSIZE n) / PTRSIZE)
     = Z.to_nat (BLOCKCOUNT BLOCKSIZE n).
Proof.
  intros Hn.
  assert (INT_MIN <= n <= INT_MAX) as Hr by (unfold INT_MIN, INT_MAX in *; lia).
  pose proof (BLOCKCOUNT_range BLOCKSIZE n Hr) as Hbc.
  assert (0 <= BLOCKCOUNT BLOCKSIZE n) as Hbc0.
  { unfold BLOCKCOUNT, IDSPERBLOCK.
    assert (0 < 64 * Z.of_nat BLOCKSIZE) as Hm by lia.
    pose proof (Z.div_mod (- n) (64 * Z.of_nat BLOCKSIZE) ltac:(lia)).
    pose proof (Z.mod_pos_bound (- n) (64 * Z.of_nat BLOCKSIZE) Hm). nia. }
  assert (size_t (PTRSIZE * BLOCKCOUNT BLOCKSIZE n) <= PTRDIFF_MAX) as Hsz.
  { unfold size_t, PTRSIZE, PTRDIFF_MAX, INT_MAX in *.
    rewrite Z.mod_small by lia. lia. }
  destruct (alloc_size_ok _ Hbc Hsz) as [_ E].
  splits; [lia | assumption | assumption].
Qed.

Lemma alloc_ok_run (n : Z) (w : world) :
  0 <= n <= INT_MAX ->
  hd true (oracle w) = true -> hd true (tl (oracle w)) = true ->
  bitset_alloc BLOCKSIZE n (Some None) w
  = Ret (OK, Some (length (bsets w)))
        (mk_world
           (bsets w ++ [Some (mk_bitset n (BLOCKCOUNT BLOCKSIZE n)
                                (Some (replicate (Z.to_nat (BLOCKCOUNT BLOCKSIZE n))
                                                 None)))])
           (blks w) (tl (tl (oracle w)))).
Proof.
  intros Hn Ho Ho'. destruct (alloc_size n Hn) as (Hsz & _ & E).
  unfold bitset_alloc, bitset_init, malloc. mrun. now rewrite E.
Qed.

Lemma alloc_fail_first_run (n : Z) (w : world) :
  hd true (oracle w) = false ->
  bitset_alloc BLOCKSIZE n (Some None) w
  = Ret (ERRMEM, None) (mk_world (bsets w) (blks w) (tl (oracle w))).
Proof. intros Ho. unfold bitset_alloc. mrun. reflexivity. Qed.

Lemma alloc_fail_second_run (n : Z) (w : world) :
  0 <= n <= INT_MAX ->
  hd true (oracle w) = true -> hd true (tl (oracle w)) = false ->
  bitset_alloc BLOCKSIZE n (Some None) w
  = Ret (ERRMEM, None)
        (mk_world (bsets w ++ [None]) (blks w) (tl (tl (oracle w)))).
Proof.
  intros Hn Ho Ho'. destruct (alloc_size n Hn) as (Hsz & _ & E).
  unfold bitset_alloc, bitset_init, bitset_free, malloc. mrun. reflexivity.
Qed.

End Alloc.

Lemma sum_counts_absent (w : world) (m : nat) :
  sum_counts w (replicate m None) = 0.
Proof. induction m as [|m IH]; cbn; [reflexivity | exact IH]. Qed.

(** ** Duplication *)

Lemma incref_loop_run (d : ptr) (D : bitset) (l : list pointer) :
  blocks D = Some l ->
  forall (n j : nat) (w : world),
    bsets w !! d = Some (Some D) -> (j + n <= length l)%nat ->
    (forall i p, l !! i = Some (Some p) -> exists B, blks w !! p = Some (Some B)) ->
    exists w',
      for_loop (E := unit) n (Z.of_nat j) (fun i =>
        let* p := get_slot d i in
        match p with
        | Some blk => bitset_block_incref blk ;;; ret None
        | None => ret None
        end) w = Ret None w'
      /\ bsets w' = bsets w /\ oracle w' = oracle w
      /\ same_words (blks w) (blks w').
Proof.
  intros Hl. induction n as [|n IH]; intros j w Hd Hjn Hlive.
  - exists w. splits; try reflexivity. apply same_words_refl.
  - destruct (lookup_lt_is_Some_2 l j ltac:(lia)) as [s Hs].
    cbn [for_loop]. unfold bind at 1. unfold bind at 1.
    rewrite (get_slot_at d j w D l s Hd Hl Hs).
    replace (Z.of_nat j + 1) with (Z.of_nat (S j)) by lia.
    destruct s as [p|].
    + destruct (Hlive j p Hs) as [B HB].
      unfold bind at 1. unfold bitset_block_incref.
      rewrite (upd_block_run p _ w B HB). unfold ret at 1.
      assert (same_words (blks w)
                (<[p := Some (with_ref_count (ref_count B + 1) B)]> (blks w))) as Hsw
        by now apply (same_words_insert _ p B).
      destruct (IH (S j) (w_blk p (Some (with_ref_count (ref_count B + 1) B)) w))
        as (w' & Hrun & Hb & Ho & Hw); [exact Hd | lia | |].
      * intros i q Hi. destruct (Hlive i q Hi) as [Bq HBq].
        destruct (Hsw q Bq HBq) as (B' & HB' & _). eauto.
      * exists w'. splits; try assumption.
        eapply same_words_trans; [exact Hsw | exact Hw].
    + unfold ret at 1.
      destruct (IH (S j) w Hd ltac:(lia) Hlive) as (w' & Hrun & Hb & Ho & Hw).
      exists w'. splits; assumption.
Qed.

Section Dup.

Variable BLOCKSIZE : nat.

Lemma dup_fail_first_run (src : ptr) (w : world) :
  hd true (oracle w) = false ->
  bitset_dup (Some src) (Some None) w
  = Ret (ERRMEM, None) (mk_world (bsets w) (blks w) (tl (oracle w))).
Proof. intros Ho. unfold bitset_dup. mrun. reflexivity. Qed.

Lemma dup_size (w : world) (src : ptr) (S : bitset) (l : list pointer) :
  world_ok BLOCKSIZE w -> bsets w !! src = Some (Some S) -> blocks S = Some l ->
  (PTRDIFF_MAX <? size_t (PTRSIZE * block_count S)) = false
  /\ Z.to_nat (size_t (PTRSIZE * block_count S) / PTRSIZE) = length l
  /\ Z.to_nat (block_count S) = length l.
Proof.
  intros Hok Hs Hl. apply world_ok_inv in Hok.
  destruct (inv_bitset _ _ _ _ _ Hok Hs) as (l' & Hl' & Hlen & _ & Hr).
  assert (l' = l) as -> by congruence.
  assert (size_t (PTRSIZE * block_count S) = PTRSIZE * block_count S) as E.
  { unfold size_t, PTRSIZE, INT_MAX in *. apply Z.mod_small. lia. }
  rewrite E. unfold PTRSIZE, PTRDIFF_MAX, INT_MAX in *. splits.
  - lia.
  - rewrite Z.mul_comm, Z.div_mul by lia. lia.
  - lia.
Qed.

Lemma dup_fail_second_run (src : ptr) (S : bitset) (w : world) :
  world_ok BLOCKSIZE w -> bsets w !! src = Some (Some S) ->
  hd true (oracle w) = true -> hd true (tl (oracle w)) = false ->
  bitset_dup (Some src) (Some None) w
  = Ret (ERRMEM, None)
        (mk_world (bsets w ++ [None]) (blks w) (tl (tl (oracle w)))).
Proof.
  intros Hok Hs Ho Ho'.
  destruct (live_blocks BLOCKSIZE w src S Hok Hs) as [l Hl].
  destruct (dup_size w src S l Hok Hs Hl) as (Hsz & _ & _).
  pose proof (lookup_lt_Some _ _ _ Hs) as HsL.
  assert (src <> length (bsets w)) as Hne by lia.
  unfold bitset_dup, bitset_free, malloc. mrun. reflexivity.
Qed.

Lemma dup_ok_run (src : ptr) (S : bitset) (l : list pointer) (w : world) :
  world_ok BLOCKSIZE w -> bsets w !! src = Some (Some S) -> blocks S = Some l ->
  hd true (oracle w) = true -> hd true (tl (oracle w)) = true ->
  exists w',
    bitset_dup (Some src) (Some None) w = Ret (OK, Some (length (bsets w))) w'
    /\ bsets w' = bsets w ++ [Some (mk_bitset (bitcount S) (block_count S) (Some l))]
    /\ same_words (blks w) (blks w')
    /\ oracle w' = tl (tl (oracle w)).
Proof.
  intros Hok Hs Hl Ho Ho'.
  destruct (dup_size w src S l Hok Hs Hl) as (Hsz & Hn & Hbc).
  pose proof (lookup_lt_Some _ _ _ Hs) as HsL.
  assert (src <> length (bsets w)) as Hne by lia.
  assert ((length l <=? length l)%nat = true) as Hle by (apply Nat.leb_refl).
  set (D := mk_bitset (bitcount S) (block_count S) (Some l)).
  set (w1 := mk_world (bsets w ++ [Some D]) (blks w) (tl (tl (oracle w)))).
  destruct (incref_loop_run (length (bsets w)) D l eq_refl (length l) 0 w1)
    as (w' & Hloop & Hb' & Ho1 & Hw').
  { unfold w1. cbn [bsets]. now rewrite lookup_app_r, Nat.sub_diag. }
  { lia. }
  { intros i p Hi. apply (slot_block BLOCKSIZE w src S l i p Hok Hs Hl Hi). }
  exists w'. splits; [ | exact Hb' | exact Hw' | exact Ho1 ].
  unfold bitset_dup, malloc. mrun. rewrite Hn, Hle. mrun.
  rewrite firstn_all, Hbc.
  match goal with
  | |- context [for_loop ?n0 ?i0 ?body0 ?W0] =>
      change (for_loop n0 i0 body0 W0)
        with (for_loop (E := unit) (length l) (Z.of_nat 0) (fun i =>
                let* p := get_slot (length (bsets w)) i in
                match p with
                | Some blk => bitset_block_incref blk ;;; ret None
                | None => ret None
                end) w1)
  end.
  rewrite Hloop. reflexivity.
Qed.

End Dup.

(** ** Destruction *)

Lemma slot_refs_take_le (q : ptr) (l : list pointer) (k : nat) :
  (slot_refs q (take k l) <= slot_refs q l)%nat.
Proof.
  rewrite <- (take_drop k l) at 2. rewrite slot_refs_app. lia.
Qed.

Section Free.

Variable BLOCKSIZE : nat.
Variables (w0 : world) (a : ptr) (bs : bitset) (l : list pointer).
Hypothesis Hok : world_ok BLOCKSIZE w0.
Hypothesis Ha : bsets w0 !! a = Some (Some bs).
Hypothesis Hl : blocks bs = Some l.

Lemma freeing_start : freeing BLOCKSIZE w0 l 0 w0.
Proof.
  unfold freeing. splits; try reflexivity.
  - eapply inv_ext; [apply world_ok_inv; exact Hok|]. intros q. reflexivity.
  - intros q B HB. eauto.
Qed.

Lemma free_loop_run :
  forall (n j : nat) (w : world),
    freeing BLOCKSIZE w0 l j w -> (j + n <= length l)%nat ->
    exists w',
      for_loop (E := unit) n (Z.of_nat j) (fun i =>
        let* s := get_slot a i in
        match s with
        | Some p => bitset_block_decref p ;;; ret None
        | None => ret None
        end) w = Ret None w'
      /\ freeing BLOCKSIZE w0 l (j + n) w'.
Proof.
  induction n as [|n IH]; intros j w Hfr Hjn.
  - exists w. split; [reflexivity | now rewrite Nat.add_0_r].
  - destruct (lookup_lt_is_Some_2 l j ltac:(lia)) as [s Hs].
    destruct Hfr as (Hinv & Hcells & Horacle & Hwords).
    assert (bsets w !! a = Some (Some bs)) as Haw by now rewrite Hcells.
    cbn [for_loop]. unfold bind at 1. unfold bind at 1.
    rewrite (get_slot_at a j w bs l s Haw Hl Hs).
    replace (Z.of_nat j + 1) with (Z.of_nat (S j)) by lia.
    replace (j + S n)%nat with (S j + n)%nat by lia.
    destruct s as [p|].
    + (* the block is alive: [a] still holds a reference not yet given up *)
      assert (exists B, blks w !! p = Some (Some B)) as [B HB].
      { destruct Hinv as (Hrefs & _ & _). specialize (Hrefs p).
        pose proof (owners_in_lookup p _ _ _ Haw) as Hown.
        unfold cell_refs in Hown. rewrite Hl in Hown.
        pose proof (slot_refs_take_le p l (S j)) as Hle.
        rewrite (slot_refs_take_S p l j (Some p) Hs), holds_same in Hle.
        unfold owners in Hrefs.
        destruct (blks w !! p) as [[B|]|]; [eauto | lia | lia]. }
      unfold bind at 1. rewrite (decref_run p w B HB). unfold ret at 1.
      apply IH; [|lia]. unfold freeing. splits.
      * pose proof (inv_block _ _ _ _ _ Hinv HB) as HBg.
        pose proof (inv_blk _ _ _ (oracle w) p B (decref_cell B) Hinv HB
                      (block_good_decref _ _ HBg)) as H1.
        unfold w_blk. eapply inv_ext; [exact H1|].
        intros q. cbn beta. rewrite (slot_refs_take_S q l j (Some p) Hs).
        rewrite rc_of_decref_cell. unfold holds.
        destruct (Nat.eqb_spec q p), (Nat.eqb_spec p q); subst; try lia; congruence.
      * exact Hcells.
      * exact Horacle.
      * intros q B' HB'. unfold w_blk in HB'. cbn [blks] in HB'.
        destruct (decide (q = p)) as [->|Hne].
        -- rewrite list_lookup_insert_eq in HB'
             by (eapply lookup_lt_Some; eassumption).
           injection HB' as HB'. apply decref_cell_Some in HB' as [_ ->].
           destruct (Hwords p B HB) as (B0 & HB0 & E). exists B0.
           split; [assumption | exact E].
        -- rewrite list_lookup_insert_ne in HB' by congruence. now apply Hwords.
    + unfold ret at 1. apply IH; [|lia]. unfold freeing. splits; try assumption.
      eapply inv_ext; [exact Hinv|]. intros q. cbn beta.
      rewrite (slot_refs_take_S q l j None Hs). unfold holds. lia.
Qed.

Lemma free_run :
  exists w',
    bitset_free (Some a) w0 = Ret tt w'
    /\ bsets w' = <[a := None]> (bsets w0)
    /\ oracle w' = oracle w0
    /\ forall q B, blks w' !! q = Some (Some B) ->
                   exists B0, blks w0 !! q = Some (Some B0) /\ ints B = ints B0.
Proof.
  pose proof (proj1 (world_ok_inv BLOCKSIZE w0) Hok) as Hinv.
  destruct (inv_bitset _ _ _ _ _ Hinv Ha) as (l' & Hl' & Hlen & _).
  assert (l' = l) as -> by congruence.
  destruct (free_loop_run (length l) 0 w0 freeing_start ltac:(lia))
    as (w1 & Hloop & (_ & Hcells & Horacle & Hwords)).
  exists (w_cell a None w1). splits.
  - unfold bitset_free. rewrite (bind_run _ _ _ _ _ (load_bitset_run a w0 bs Ha)).
    rewrite Hl, <- Hlen. unfold bind at 1. unfold bind at 1.
    change 0 with (Z.of_nat 0). rewrite Hloop. unfold ret at 1.
    unfold free_bitset_cell. now rewrite Hcells, Ha.
  - unfold w_cell. cbn [bsets]. now rewrite Hcells.
  - exact Horacle.
  - exact Hwords.
Qed.

End Free.

Section FreeKept.

Variable BLOCKSIZE : nat.

(** Freeing [a] keeps every other bitset, whichever blocks it shared
    with [a]. *)
Lemma free_kept (w : world) (a : ptr) (A : bitset) :
  world_ok BLOCKSIZE w -> bsets w !! a = Some (Some A) ->
  exists w',
    bitset_free (Some a) w = Ret tt w'
    /\ bsets w' = <[a := None]> (bsets w)
    /\ oracle w' = oracle w
    /\ others_kept BLOCKSIZE w w' a.
Proof.
  intros Hok Ha.
  destruct (live_blocks BLOCKSIZE w a A Hok Ha) as [l Hl].
  destruct (free_run BLOCKSIZE w a A l Hok Ha Hl)
    as (w' & Hrun & Hcells & Horacle & Hwords).
  assert (world_ok BLOCKSIZE w') as Hok'.
  { apply world_ok_inv.
    apply (bitset_free_inv0 BLOCKSIZE (Some a) w tt w'); [|exact Hrun].
    now apply world_ok_inv. }
  exists w'. splits; try assumption.
  apply others_kept_intro; try assumption.
  - intros c Hne. rewrite Hcells. now apply list_lookup_insert_ne.
  - intros c cs lc j q Hne Hc Hlc Hj.
    assert (bsets w' !! c = Some (Some cs)) as Hc'.
    { rewrite Hcells, list_lookup_insert_ne; [assumption | congruence]. }
    destruct (slot_block BLOCKSIZE w' c cs lc j q Hok' Hc' Hlc Hj) as [B HB].
    destruct (Hwords q B HB) as (B0 & HB0 & E).
    now rewrite (slot_words_live _ _ _ _ HB), (slot_words_live _ _ _ _ HB0).
Qed.

End FreeKept.

(** ** Operations that hand out a new bitset *)

Lemma fresh_not_live (w : world) (c : ptr) (cs : bitset) :
  bsets w !! c = Some (Some cs) -> c <> length (bsets w).
Proof. intros Hc. apply lookup_lt_Some in Hc. lia. Qed.

Lemma first_answer_false (o : list bool) :
  hd true o = false -> Forall (eq true) o -> False.
Proof.
  intros H Hall. destruct o as [|x o]; [discriminate|].
  apply Forall_cons in Hall as [<- _]. discriminate.
Qed.

Lemma answers_tl (o : list bool) : Forall (eq true) o -> Forall (eq true) (tl o).
Proof. intros H. destruct o; [exact H | now apply Forall_cons in H]. Qed.

Section DupRuns.

Variable BLOCKSIZE : nat.

Lemma others_kept_trans (w0 w1 w2 : world) (a : ptr) :
  others_kept BLOCKSIZE w0 w1 a -> others_kept BLOCKSIZE w1 w2 a ->
  others_kept BLOCKSIZE w0 w2 a.
Proof.
  intros (_ & H01) (Hok2 & H12). split; [exact Hok2|].
  intros c Hne.
  destruct (H01 c Hne) as [Hb1 Hc1].
  destruct (H12 c Hne) as [Hb2 Hc2]. split; congruence.
Qed.

(** [bitset_dup] keeps the bitsets there were. *)
Lemma dup_kept (w : world) (src : ptr) (S : bitset) (r : status * pointer)
      (w' : world) :
  world_ok BLOCKSIZE w -> bsets w !! src = Some (Some S) ->
  bitset_dup (Some src) (Some None) w = Ret r w' ->
  same_words (blks w) (blks w') ->
  (forall c, c <> length (bsets w) -> bsets w' !! c = bsets w !! c) ->
  others_kept BLOCKSIZE w w' (length (bsets w)).
Proof.
  intros Hok Hs Hrun Hblks Hcells.
  assert (world_ok BLOCKSIZE w') as Hok'.
  { apply world_ok_inv.
    apply (bitset_dup_inv0 BLOCKSIZE (Some src) (Some None) w r w');
      [now apply world_ok_inv | now exists S | exact Hrun]. }
  apply others_kept_intro; try assumption.
  intros c cs lc j q _ Hc Hlc Hj.
  destruct (slot_block BLOCKSIZE w c cs lc j q Hok Hc Hlc Hj) as [B HB].
  now apply (slot_words_same BLOCKSIZE _ _ q B).
Qed.

(** The duplicate has the content of its source. *)
Lemma dup_content (w w' : world) (src : ptr) (S : bitset) (l : list pointer)
      (d : ptr) (D : bitset) :
  world_ok BLOCKSIZE w -> bsets w !! src = Some (Some S) -> blocks S = Some l ->
  bsets w' !! d = Some (Some D) -> blocks D = Some l ->
  same_words (blks w) (blks w') ->
  content BLOCKSIZE w' d = content BLOCKSIZE w src.
Proof.
  intros Hok Hs Hl Hd HlD Hwords.
  unfold content. rewrite Hd, Hs, Hl, HlD.
  apply list_eq. intros i. rewrite !list_lookup_fmap.
  destruct (l !! i) as [[q|]|] eqn:Hi; cbn; [|reflexivity..].
  destruct (slot_block BLOCKSIZE w src S l i q Hok Hs Hl Hi) as [B HB].
  f_equal. now apply (slot_words_same BLOCKSIZE _ _ q B).
Qed.

(** [on_duplicate]: the duplicate is made, [op] runs on it, and it is
    handed out or freed. [Q] is what [op] establishes when it returns
    [OK]. *)
Lemma on_duplicate_run (op : pointer -> M status) (Q : world -> Prop)
      (w : world) (a : ptr) (A : bitset) :
  world_ok BLOCKSIZE w -> bsets w !! a = Some (Some A) ->
  (forall w1 D,
      others_kept BLOCKSIZE w w1 (length (bsets w)) ->
      bsets w1 !! length (bsets w) = Some (Some D) ->
      bitcount D = bitcount A -> blocks D = blocks A ->
      same_words (blks w) (blks w1) ->
      content BLOCKSIZE w1 (length (bsets w)) = content BLOCKSIZE w a ->
      exists r2 w2,
        op (Some (length (bsets w))) w1 = Ret r2 w2
        /\ (r2 = OK \/ r2 = ERRMEM)
        /\ frame_but BLOCKSIZE w1 w2 (length (bsets w))
        /\ (Forall (eq true) (oracle w1) -> r2 = OK)
        /\ (r2 = OK -> Q w2)) ->
  exists r w',
    on_duplicate (Some a) op (Some None) w = Ret r w'
    /\ others_kept BLOCKSIZE w w' (length (bsets w))
    /\ (fst r = OK \/ fst r = ERRMEM)
    /\ (Forall (eq true) (oracle w) -> fst r = OK)
    /\ (fst r = OK ->
        snd r = Some (length (bsets w)) /\ Q w'
        /\ bitset_bitcount (Some (length (bsets w))) w'
           = Ret (inr (bitcount A)) w')
    /\ (fst r <> OK ->
        snd r = None
        /\ forall d ds, bsets w' !! d = Some (Some ds) ->
                        bsets w !! d = Some (Some ds)).
Proof.
  intros Hok Ha Hop.
  set (d := length (bsets w)) in *.
  unfold on_duplicate.
  destruct (hd true (oracle w)) eqn:Ho.
  - destruct (hd true (tl (oracle w))) eqn:Ho'.
    + destruct (live_blocks BLOCKSIZE w a A Hok Ha) as [l Hl].
      destruct (dup_ok_run BLOCKSIZE a A l w Hok Ha Hl Ho Ho')
        as (w1 & Hrun1 & Hcells1 & Hwords1 & Horacle1).
      fold d in Hrun1.
      assert (others_kept BLOCKSIZE w w1 d) as Hkept1.
      { apply (dup_kept w a A _ w1 Hok Ha Hrun1 Hwords1).
        intros c Hc. rewrite Hcells1. now apply lookup_app_other. }
      set (D := mk_bitset (bitcount A) (block_count A) (Some l)) in *.
      assert (bsets w1 !! d = Some (Some D)) as Hd1
        by (rewrite Hcells1; unfold d; now rewrite lookup_app_r, Nat.sub_diag).
      pose proof (dup_content w w1 a A l d D Hok Ha Hl Hd1 eq_refl Hwords1)
        as Hcontent1.
      destruct (Hop w1 D Hkept1 Hd1 eq_refl (eq_sym Hl) Hwords1 Hcontent1)
        as (r2 & w2 & Hrun2 & Hr2 & Hfr2 & Hall2 & HQ).
      pose proof (others_kept_trans _ _ _ _ Hkept1
                    (frame_but_others BLOCKSIZE w1 w2 d Hfr2)) as Hkept2.
      rewrite (bind_run _ _ _ _ _ Hrun1). cbn [fst snd status_eqb negb].
      rewrite (bind_run _ _ _ _ _ Hrun2).
      destruct Hfr2 as (Hok2 & Hoth2 & (D0 & D2 & HD0 & HD2 & E)).
      assert (D0 = D) as -> by congruence.
      destruct Hr2 as [-> | ->]; cbn [status_eqb negb].
      * (* the operation succeeds *)
        exists (OK, Some d), w2. split; [reflexivity|].
        splits; try assumption.
        -- now left.
        -- reflexivity.
        -- intros _. splits; [reflexivity | now apply HQ |].
           unfold bitset_bitcount, bind, load_bitset. rewrite HD2.
           unfold ret. now rewrite E.
        -- intros H. now contradict H.
      * (* the operation fails: the duplicate is freed *)
        destruct (free_kept BLOCKSIZE w2 d D2 Hok2 HD2)
          as (w3 & Hrun3 & Hcells3 & _ & Hkept3).
        pose proof (others_kept_trans _ _ _ _ Hkept2 Hkept3) as Hkept.
        unfold bind at 1. rewrite Hrun3. unfold ret at 1.
        exists (ERRMEM, None), w3. split; [reflexivity|].
        splits; try assumption.
        -- now right.
        -- intros Hall. exfalso.
           assert (ERRMEM = OK) by (apply Hall2; rewrite Horacle1;
                                    now do 2 apply answers_tl).
           discriminate.
        -- intros H. discriminate.
        -- intros _. split; [reflexivity|].
           intros c cs Hc. rewrite Hcells3 in Hc.
           destruct (decide (c = d)) as [->|Hne].
           ++ rewrite list_lookup_insert_eq in Hc
                by (eapply lookup_lt_Some; eassumption).
              discriminate.
           ++ rewrite list_lookup_insert_ne in Hc by congruence.
              now rewrite (proj1 (proj2 Hkept2 c Hne)) in Hc.
    + pose proof (dup_fail_second_run BLOCKSIZE a A w Hok Ha Ho Ho') as Hrun1.
      rewrite (bind_run _ _ _ _ _ Hrun1). cbn [fst snd status_eqb negb].
      unfold bitset_free, bind, ret.
      eexists _, _. split; [reflexivity|].
      splits.
      * apply (dup_kept w a A _ _ Hok Ha Hrun1 (same_words_refl _)
                 (lookup_app_other (bsets w) _)).
      * now right.
      * intros Hall. exfalso.
        apply (first_answer_false (tl (oracle w)) Ho'). now apply answers_tl.
      * intros H. discriminate.
      * intros _. split; [reflexivity|].
        intros c cs Hc. cbn [bsets] in Hc.
        destruct (decide (c < length (bsets w))%nat) as [Hlt|Hge].
        -- now rewrite lookup_app_l in Hc.
        -- rewrite lookup_app_r in Hc by lia.
           destruct (c - length (bsets w))%nat; discriminate.
  - pose proof (dup_fail_first_run a w Ho) as Hrun1.
    rewrite (bind_run _ _ _ _ _ Hrun1). cbn [fst snd status_eqb negb].
    unfold bitset_free, bind, ret.
    eexists _, _. split; [reflexivity|].
    splits.
    + apply (dup_kept w a A _ _ Hok Ha Hrun1 (same_words_refl _)
               (fun c _ => eq_refl)).
    + now right.
    + intros Hall. exfalso. apply (first_answer_false (oracle w) Ho Hall).
    + intros H. discriminate.
    + intros _. split; [reflexivity|]. intros c cs Hc. exact Hc.
Qed.

End DupRuns.

Section OnDuplicate.

Variable BLOCKSIZE : nat.
Variable NDEBUG : bool.
Hypothesis Hpos : (0 < BLOCKSIZE)%nat.

(** An operation other than [a] that keeps the bitsets there were keeps
    their tests and their counts. *)
Lemma kept_effects (w w' : world) (d : ptr) :
  world_ok BLOCKSIZE w -> others_kept BLOCKSIZE w w' d ->
  (forall c cs, bsets w !! c = Some (Some cs) -> c <> d) ->
  world_ok BLOCKSIZE w'
  /\ (forall c cs j,
         bsets w !! c = Some (Some cs) -> 0 <= j < bitcount cs ->
         tested BLOCKSIZE NDEBUG w' c j = tested BLOCKSIZE NDEBUG w c j)
  /\ (forall c cs,
         bsets w !! c = Some (Some cs) ->
         exists n, bitset_set_count (Some c) w = Ret (inr n) w
                   /\ bitset_set_count (Some c) w' = Ret (inr n) w').
Proof.
  intros Hok Hkept Hfresh. splits.
  - apply Hkept.
  - intros c cs j Hc Hj.
    apply (kept_tested BLOCKSIZE NDEBUG Hpos w w' d c cs j); eauto.
  - intros c cs Hc. apply (kept_count BLOCKSIZE w w' d c cs); eauto.
Qed.

(** What [bitset_union], [bitset_intersect] and [bitset_difference]
    have in common. *)
Lemma on_duplicate_binary (body : ptr -> ptr -> Z -> M (option status))
      (op : Z -> Z -> Z) (opb : bool -> bool -> bool)
      (w : world) (a b : ptr) (A B : bitset) :
  (forall (a b : ptr) (w : world) (bs bb : bitset) (l lb : list pointer)
          (j : nat) (sa sb : pointer),
      world_ok BLOCKSIZE w ->
      bsets w !! a = Some (Some bs) -> blocks bs = Some l ->
      bsets w !! b = Some (Some bb) -> blocks bb = Some lb ->
      l !! j = Some sa -> lb !! j = Some sb ->
      exists r w',
        body a b (Z.of_nat j) w = Ret r w'
        /\ step_result BLOCKSIZE w a b j (zip_with op) r w') ->
  (forall x y i, 0 <= i < 64 ->
                 Z.testbit (op x y) i = opb (Z.testbit x i) (Z.testbit y i)) ->
  world_ok BLOCKSIZE w ->
  bsets w !! a = Some (Some A) -> bsets w !! b = Some (Some B) ->
  bitcount A = bitcount B ->
  exists r w',
    on_duplicate (Some a) (fun r =>
      binary_checks NDEBUG r (Some b) (fun a b =>
        let* A := load_bitset a in
        let* r := for_loop (Z.to_nat (block_count A)) 0 (body a b) in
        loop_result r)) (Some None) w = Ret r w'
    /\ world_ok BLOCKSIZE w'
    /\ (forall c cs j,
           bsets w !! c = Some (Some cs) -> 0 <= j < bitcount cs ->
           tested BLOCKSIZE NDEBUG w' c j = tested BLOCKSIZE NDEBUG w c j)
    /\ (forall c cs,
           bsets w !! c = Some (Some cs) ->
           exists n, bitset_set_count (Some c) w = Ret (inr n) w
                     /\ bitset_set_count (Some c) w' = Ret (inr n) w')
    /\ (fst r = OK \/ fst r = ERRMEM)
    /\ (Forall (eq true) (oracle w) -> fst r = OK)
    /\ (fst r = OK ->
        snd r = Some (length (bsets w))
        /\ bitset_bitcount (Some (length (bsets w))) w'
           = Ret (inr (bitcount A)) w'
        /\ forall j, 0 <= j < bitcount A ->
                     tested BLOCKSIZE NDEBUG w' (length (bsets w)) j
                     = opb (tested BLOCKSIZE NDEBUG w a j)
                           (tested BLOCKSIZE NDEBUG w b j))
    /\ (fst r <> OK ->
        snd r = None
        /\ forall d ds, bsets w' !! d = Some (Some ds) ->
                        bsets w !! d = Some (Some ds)).
Proof.
  intros Hstep Hop Hok Ha Hb Hcap.
  set (d := length (bsets w)).
  pose proof (fresh_not_live w) as Hfresh. fold d in Hfresh.
  destruct (on_duplicate_run BLOCKSIZE
              (fun r =>
                 binary_checks NDEBUG r (Some b) (fun a b =>
                   let* A := load_bitset a in
                   let* r := for_loop (Z.to_nat (block_count A)) 0 (body a b) in
                   loop_result r))
              (fun w' =>
                 forall j, 0 <= j < bitcount A ->
                           tested BLOCKSIZE NDEBUG w' d j
                           = opb (tested BLOCKSIZE NDEBUG w a j)
                                 (tested BLOCKSIZE NDEBUG w b j))
              w a A Hok Ha)
    as (r & w' & Hrun & Hkept & Hr & Hall & HOK & Hfail).
  { intros w1 D Hkept1 Hd1 HcapD _ Hwords1 Hcontent1. fold d in Hkept1, Hd1, Hcontent1.
    pose proof (proj1 Hkept1) as Hok1.
    assert (d <> b) as Hdb by (intros ->; now apply (Hfresh _ _ Hb)).
    assert (bsets w1 !! b = Some (Some B)) as Hb1.
    { rewrite (proj1 (proj2 Hkept1 b (not_eq_sym Hdb))). exact Hb. }
    destruct (binary_effect BLOCKSIZE NDEBUG Hpos body op opb w1 d b D B
                (Hstep d b) Hop Hok1 Hd1 Hb1 ltac:(congruence))
      as (r2 & w2 & Hrun2 & Hr2 & Hall2 & Hok2 & Ht2 & Hc2 & Hres2).
    destruct (binary_run BLOCKSIZE NDEBUG d b body (zip_with op)
                (Hstep d b) w1 D B Hok1 Hd1 Hb1 ltac:(congruence))
      as (r2' & w2' & Hrun2' & _ & Hfr2 & _).
    rewrite Hrun2 in Hrun2'. injection Hrun2' as <- <-.
    exists r2, w2. splits; try assumption.
    intros HOK j Hj. rewrite (Hres2 HOK j ltac:(lia)). f_equal.
    - rewrite (tested_content BLOCKSIZE NDEBUG w1 d D j Hok1 Hpos Hd1) by lia.
      rewrite (tested_content BLOCKSIZE NDEBUG w a A j Hok Hpos Ha Hj).
      now rewrite Hcontent1.
    - apply (kept_tested BLOCKSIZE NDEBUG Hpos w w1 d b B j); eauto. lia. }
  destruct (kept_effects w w' d Hok Hkept Hfresh) as (H1 & H2 & H3).
  exists r, w'. splits; try assumption.
  intros E. destruct (HOK E) as (Hs & Ht & Hb'). now splits.
Qed.

End OnDuplicate.

(** ** Inversion *)

Lemma invert_unfold (BLOCKSIZE : nat) (NDEBUG : bool) (a : ptr) :
  bitset_invert BLOCKSIZE NDEBUG (Some a)
  = (let* bs := load_bitset a in
     let* r := for_loop (Z.to_nat (block_count bs)) 0
                 (invert_step BLOCKSIZE NDEBUG a) in
     loop_result r).
Proof. reflexivity. Qed.

Lemma popcount_upto_full (n : nat) (x : Z) :
  Word.popcount_upto n x = Z.of_nat n ->
  forall i, 0 <= i < Z.of_nat n -> Z.testbit x i = true.
Proof.
  induction n as [|n IH]; intros H i Hi; [lia|].
  cbn [Word.popcount_upto] in H.
  pose proof (WordFacts.popcount_upto_bounds n x) as Hb.
  destruct (Z.testbit x (Z.of_nat n)) eqn:Hn.
  - destruct (Z.eq_dec i (Z.of_nat n)) as [->|Hne]; [exact Hn|].
    apply IH; lia.
  - lia.
Qed.

Lemma popcountll_bits (x : Z) :
  Word.popcountll x = 64 -> forall i, 0 <= i < 64 -> Z.testbit x i = true.
Proof. apply (popcount_upto_full 64). Qed.

Lemma popcountll_full (x : Z) :
  Word.in_range x -> Word.popcountll x = 64 -> x = Word.all_ones.
Proof.
  intros Hx H. pose proof (popcountll_bits x H) as Hbits. clear H.
  apply Z.bits_inj'. intros i Hi.
  unfold Word.all_ones, Word.mask. destruct (Z.lt_ge_cases i 64) as [Hlt|Hge].
  - rewrite Z.ones_spec_low by lia. apply Hbits. lia.
  - rewrite Z.ones_spec_high by lia.
    apply WordFacts.in_range_testbit in Hx as [_ Hx]. apply Hx. lia.
Qed.

Lemma popcount_list_full (xs : list Z) :
  Forall Word.in_range xs ->
  popcount_list xs = 64 * Z.of_nat (length xs) ->
  xs = replicate (length xs) Word.all_ones.
Proof.
  induction xs as [|x xs IH]; intros Hr H; [reflexivity|].
  apply Forall_cons in Hr as [Hx Hr].
  revert H. cbn [popcount_list length]. intros H.
  pose proof (WordFacts.popcountll_bounds x).
  pose proof (popcount_list_bounds xs).
  cbn [length replicate]. f_equal.
  - apply popcountll_full; [assumption | lia].
  - apply IH; [assumption | lia].
Qed.

Lemma map_not_zeros (n : nat) :
  map Word.not (replicate n 0) = replicate n Word.all_ones.
Proof. induction n as [|n IH]; cbn [replicate map]; [reflexivity | now rewrite IH]. Qed.

Lemma map_not_ones (n : nat) :
  map Word.not (replicate n Word.all_ones) = replicate n 0.
Proof. induction n as [|n IH]; cbn [replicate map]; [reflexivity | now rewrite IH]. Qed.

Lemma world_ok_oracle (BLOCKSIZE : nat) (w : world) (o : list bool) :
  world_ok BLOCKSIZE w -> world_ok BLOCKSIZE (mk_world (bsets w) (blks w) o).
Proof.
  intros H. constructor.
  - apply (ok_bitsets _ _ H).
  - apply (ok_refs _ _ H).
  - apply (ok_live _ _ H).
  - apply (ok_blocks _ _ H).
Qed.

Section InvertStep.

Variable BLOCKSIZE : nat.
Variable NDEBUG : bool.
Variables (w : world) (a : ptr) (bs : bitset) (l : list pointer) (j : nat)
          (s : pointer).
Hypothesis Hok : world_ok BLOCKSIZE w.
Hypothesis Ha : bsets w !! a = Some (Some bs).
Hypothesis Hl : blocks bs = Some l.
Hypothesis Hs : l !! j = Some s.
Hypothesis Hun : unshared_from BLOCKSIZE w a j.

Lemma invert_step_row :
  exists r w' row0 row,
    invert_step BLOCKSIZE NDEBUG a (Z.of_nat j) w = Ret r w'
    /\ content BLOCKSIZE w a !! j = Some row0
    /\ row_changed BLOCKSIZE w w' a j row
    /\ (r = None /\ row = map Word.not row0
        \/ r = Some ERRMEM /\ hd true (oracle w) = false)
    /\ (oracle w' = oracle w \/ oracle w' = tl (oracle w))
    /\ unshared_from BLOCKSIZE w' a (S j).
Proof.
  pose proof (content_lookup BLOCKSIZE w a bs l j s Ha Hl Hs) as Hrow.
  unfold invert_step.
  rewrite (bind_run _ _ _ _ _ (get_slot_at a j w bs l s Ha Hl Hs)).
  destruct s as [p|].
  - destruct (slot_block BLOCKSIZE w a bs l j p Hok Ha Hl Hs) as [B HB].
    pose proof (ok_blocks _ _ Hok p B HB) as HBok.
    rewrite (bind_run _ _ _ _ _ (load_block_run p w B HB)).
    cbn [slot_words] in Hrow. rewrite HB in Hrow.
    destruct (set_count B =? 64 * Z.of_nat BLOCKSIZE) eqn:Hfull.
    + (* a full block is given up *)
      assert (ints B = replicate BLOCKSIZE Word.all_ones) as Hones.
      { rewrite <- (ok_length _ _ HBok).
        apply popcount_list_full; [apply (ok_words _ _ HBok)|].
        rewrite <- (ok_count _ _ HBok), (ok_length _ _ HBok). lia. }
      unfold bind at 1. rewrite (decref_run p w B HB).
      unfold bind at 1.
      rewrite (set_slot_run a (Z.of_nat j) None (w_blk p (decref_cell B) w) bs l
                 (Some p) Ha Hl ltac:(lia) ltac:(now rewrite Nat2Z.id)).
      rewrite Nat2Z.id. unfold ret.
      eexists None, _, (ints B), (replicate BLOCKSIZE 0).
      splits; [reflexivity | exact Hrow | | | now left | ].
      * apply (row_drop BLOCKSIZE w (oracle w) a bs l j Hok Ha Hl p B Hs HB).
      * left. split; [reflexivity|]. now rewrite Hones, map_not_ones.
      * intros bs' l' i q B' Ha' Hl' Hi Hq HB' Hnf.
        unfold w_cell, w_blk in Ha', HB'. cbn [bsets blks] in Ha', HB'.
        rewrite list_lookup_insert_eq in Ha'
          by (eapply lookup_lt_Some; eassumption).
        injection Ha' as <-. cbn [blocks with_blocks] in Hl'. injection Hl' as <-.
        rewrite list_lookup_insert_ne in Hq by lia.
        destruct (decide (q = p)) as [->|Hne].
        -- rewrite list_lookup_insert_eq in HB'
             by (eapply lookup_lt_Some; eassumption).
           injection HB' as HB'. apply decref_cell_Some in HB' as [_ ->].
           cbn [set_count with_ref_count] in Hnf. unfold IDSPERBLOCK in Hnf. lia.
        -- rewrite list_lookup_insert_ne in HB' by congruence.
           apply (Hun bs l i q B'); first [assumption | lia].
    + (* a block that is not full is complemented in place *)
      assert (ref_count B = 1) as Hrc.
      { apply (Hun bs l j p B); try assumption; [lia|].
        unfold IDSPERBLOCK. lia. }
      unfold bind at 1.
      rewrite (block_invert_run BLOCKSIZE NDEBUG p w B HB (ok_length _ _ HBok)).
      rewrite Hrc, Z.eqb_refl, orb_true_r. unfold ret.
      eexists None, _, (ints B), _.
      splits; [reflexivity | exact Hrow | | | now left | ].
      * unfold w_blk.
        apply (row_modify BLOCKSIZE w (oracle w) a bs l j Hok Ha Hl p B Hs HB);
          [lia | cbn [ref_count]; lia | now apply block_ok_invert].
      * left. split; reflexivity.
      * intros bs' l' i q B' Ha' Hl' Hi Hq HB' Hnf.
        unfold w_blk in Ha', HB'. cbn [bsets blks] in Ha', HB'.
        assert (bs' = bs) as -> by congruence.
        assert (l' = l) as -> by congruence.
        assert (q <> p) as Hne.
        { intros ->.
          destruct (sole_owner BLOCKSIZE w a a bs bs l l j i p B Hok Ha Hl Hs HB
                      ltac:(lia) Ha Hl Hq) as [_ ->]. lia. }
        rewrite list_lookup_insert_ne in HB' by congruence.
        apply (Hun bs l i q B'); first [assumption | lia].
  - cbn [slot_words] in Hrow.
    unfold bind at 1. rewrite (block_new_run BLOCKSIZE w).
    destruct (hd true (oracle w)) eqn:Ho.
    + (* a block of ones is installed *)
      cbn [fst snd status_eqb negb]. unfold deref, raw_block, w_newblk, w_oracle.
      assert ((Z.of_nat j <? 0) = false) as Hj0 by (apply Z.ltb_ge; lia).
      mrun. rewrite !Nat2Z.id, Hs. cbn [bsets blks oracle]. rewrite Ha.
      eexists None, _, (replicate BLOCKSIZE 0), _.
      splits; [reflexivity | first [exact Hrow | reflexivity] | | | now right | ].
      * apply (row_install BLOCKSIZE w _ a bs l j Hok Ha Hl);
          [assumption | reflexivity | apply block_ok_ones].
      * left. split; [reflexivity|]. cbn [ints with_ints]. now rewrite map_not_zeros.
      * intros bs' l' i q B' Ha' Hl' Hi Hq HB' Hnf.
        cbn [bsets blks] in Ha', HB'.
        rewrite list_lookup_insert_eq in Ha'
          by (eapply lookup_lt_Some; eassumption).
        injection Ha' as <-. cbn [blocks with_blocks] in Hl'. injection Hl' as <-.
        rewrite list_lookup_insert_ne in Hq by lia.
        destruct (slot_block BLOCKSIZE w a bs l i q Hok Ha Hl Hq) as [Bq HBq].
        rewrite lookup_app_l in HB' by (eapply lookup_lt_Some; eassumption).
        apply (Hun bs l i q B'); first [assumption | lia].
    + cbn [fst snd status_eqb negb]. unfold ret.
      eexists (Some ERRMEM), _, _, _.
      splits; [reflexivity | exact Hrow | | now right | now right | ].
      * unfold w_oracle.
        apply (row_changed_intro_blk BLOCKSIZE w _ a bs l j Hok Ha Hl
                 (blks w) None); try assumption; try reflexivity.
        now apply world_ok_oracle.
      * intros bs' l' i q B' Ha' Hl' Hi Hq HB' Hnf.
        apply (Hun bs' l' i q B' Ha' Hl'); first [assumption | lia].
Qed.

End InvertStep.

Section InvertLoop.

Variable BLOCKSIZE : nat.
Variable NDEBUG : bool.
Variable a : ptr.

Lemma invert_slots_run :
  forall (n j : nat) (w : world) (bs : bitset) (l : list pointer),
    world_ok BLOCKSIZE w ->
    bsets w !! a = Some (Some bs) -> blocks bs = Some l ->
    (j + n <= length l)%nat -> unshared_from BLOCKSIZE w a j ->
    exists r w',
      for_loop n (Z.of_nat j) (invert_step BLOCKSIZE NDEBUG a) w = Ret r w'
      /\ frame_but BLOCKSIZE w w' a
      /\ (r = None \/ r = Some ERRMEM)
      /\ (Forall (eq true) (oracle w) ->
          r = None /\ Forall (eq true) (oracle w'))
      /\ (r = None ->
          forall i ra,
            content BLOCKSIZE w a !! i = Some ra ->
            content BLOCKSIZE w' a !! i
            = Some (if (j <=? i)%nat && (i <? j + n)%nat
                    then map Word.not ra else ra)).
Proof.
  induction n as [|n IH]; intros j w bs l Hok Ha Hl Hjn Hun.
  - exists None, w. splits.
    + reflexivity.
    + now apply (frame_but_refl BLOCKSIZE w a bs).
    + now left.
    + intros Ho. now split.
    + intros _ i ra Hra. rewrite Hra. do 2 f_equal.
      destruct (Nat.leb_spec j i), (Nat.ltb_spec i (j + 0)); try reflexivity; lia.
  - destruct (lookup_lt_is_Some_2 l j ltac:(lia)) as [s Hs].
    destruct (invert_step_row BLOCKSIZE NDEBUG w a bs l j s Hok Ha Hl Hs Hun)
      as (r1 & w1 & row0 & row & Hrun1 & Hrow0 & Hch & Hres & Hor & Hun1).
    cbn [for_loop]. unfold bind at 1. rewrite Hrun1.
    destruct Hch as [Hfr Hrow].
    destruct Hres as [[-> ->]|[-> Ho]].
    + (* the step fell through *)
      pose proof Hfr as (Hok1 & _ & _).
      destruct (frame_but_slots BLOCKSIZE w w1 a bs l Hok Hfr Ha Hl)
        as (bs1 & l1 & Ha1 & Hl1 & Hlen1 & _).
      replace (Z.of_nat j + 1) with (Z.of_nat (S j)) by lia.
      destruct (IH (S j) w1 bs1 l1 Hok1 Ha1 Hl1 ltac:(lia) Hun1)
        as (r & w' & Hrun & Hfr' & Hr & Horacle & Hcontent).
      exists r, w'. splits.
      * exact Hrun.
      * now apply (frame_but_trans BLOCKSIZE w w1 w' a).
      * exact Hr.
      * intros Hall. apply Horacle.
        destruct Hor as [->| ->]; [assumption|].
        destruct (oracle w); [constructor | now inversion Hall].
      * intros Hnone i ra Hra.
        assert (j < length (content BLOCKSIZE w a))%nat as Hjl
          by (eapply lookup_lt_Some; eassumption).
        destruct (decide (i = j)) as [->|Hne].
        -- assert (row0 = ra) as -> by congruence.
           rewrite (Hcontent Hnone j (map Word.not ra));
             [ | rewrite Hrow; now apply list_lookup_insert_eq ].
           do 2 f_equal.
           destruct (Nat.leb_spec (S j) j), (Nat.leb_spec j j),
             (Nat.ltb_spec j (S j + n)), (Nat.ltb_spec j (j + S n));
             try reflexivity; lia.
        -- rewrite (Hcontent Hnone i ra);
             [ | rewrite Hrow; now rewrite list_lookup_insert_ne by congruence ].
           do 2 f_equal.
           destruct (Nat.leb_spec (S j) i), (Nat.leb_spec j i),
             (Nat.ltb_spec i (S j + n)), (Nat.ltb_spec i (j + S n));
             try reflexivity; lia.
    + (* the allocation failed *)
      exists (Some ERRMEM), w1. splits.
      * reflexivity.
      * exact Hfr.
      * now right.
      * intros Hall. exfalso. destruct (oracle w) as [|x o]; [discriminate|].
        inversion Hall; subst. cbn in Ho. congruence.
      * discriminate.
Qed.

Lemma invert_run (w : world) (A : bitset) :
  world_ok BLOCKSIZE w -> bsets w !! a = Some (Some A) ->
  unshared_from BLOCKSIZE w a 0 ->
  exists r w',
    bitset_invert BLOCKSIZE NDEBUG (Some a) w = Ret r w'
    /\ (r = OK \/ r = ERRMEM)
    /\ frame_but BLOCKSIZE w w' a
    /\ (Forall (eq true) (oracle w) -> r = OK)
    /\ (r = OK ->
        forall i ra,
          content BLOCKSIZE w a !! i = Some ra ->
          content BLOCKSIZE w' a !! i = Some (map Word.not ra)).
Proof.
  intros Hok Ha Hun.
  pose proof (proj1 (world_ok_inv BLOCKSIZE w) Hok) as Hinv.
  destruct (inv_bitset _ _ _ _ _ Hinv Ha) as (l & Hl & Hlen & Hbc & _).
  destruct (invert_slots_run (Z.to_nat (block_count A)) 0 w A l Hok Ha Hl
              ltac:(lia) Hun)
    as (r & w' & Hrun & Hfr & Hr & Horacle & Hcontent).
  exists (match r with Some e => e | None => OK end), w'. splits.
  - rewrite invert_unfold.
    rewrite (bind_run _ _ _ _ _ (load_bitset_run a w A Ha)).
    unfold bind at 1. change 0 with (Z.of_nat 0). rewrite Hrun.
    now destruct r.
  - destruct Hr as [-> | ->]; auto.
  - exact Hfr.
  - intros Hall. destruct (Horacle Hall) as [-> _]. reflexivity.
  - intros HOK. assert (r = None) as -> by (destruct Hr as [->| ->]; congruence).
    intros i ra Hra. rewrite (Hcontent eq_refl i ra Hra).
    assert (i < length (content BLOCKSIZE w a))%nat as Hi
      by (eapply lookup_lt_Some; eassumption).
    rewrite (content_length BLOCKSIZE w a A l Ha Hl) in Hi.
    destruct (Nat.leb_spec 0 i), (Nat.ltb_spec i (0 + Z.to_nat (block_count A)));
      try reflexivity; lia.
Qed.

End InvertLoop.

Section InvertEffects.

Variable BLOCKSIZE : nat.
Hypothesis Hpos : (0 < BLOCKSIZE)%nat.

Lemma bit_of_row_not (ra : list Z) (j : Z) :
  length ra = BLOCKSIZE -> 0 <= j ->
  bit_of_row BLOCKSIZE (map Word.not ra) j = negb (bit_of_row BLOCKSIZE ra j).
Proof.
  intros Hla Hj. unfold bit_of_row.
  assert (0 < IDSPERBLOCK BLOCKSIZE) as Hids by (unfold IDSPERBLOCK; lia).
  pose proof (Z.rem_bound_pos j (IDSPERBLOCK BLOCKSIZE) Hj Hids) as Hr.
  pose proof (Z.rem_bound_pos (Z.rem j (IDSPERBLOCK BLOCKSIZE)) 64
                ltac:(lia) ltac:(lia)) as Hb.
  assert (Z.to_nat (Z.quot (Z.rem j (IDSPERBLOCK BLOCKSIZE)) 64) < BLOCKSIZE)%nat
    as Hn.
  { assert (Z.quot (Z.rem j (IDSPERBLOCK BLOCKSIZE)) 64 < Z.of_nat BLOCKSIZE).
    { apply Z.quot_lt_upper_bound; unfold IDSPERBLOCK in *; lia. }
    pose proof (Z.quot_pos (Z.rem j (IDSPERBLOCK BLOCKSIZE)) 64 ltac:(lia) ltac:(lia)).
    lia. }
  destruct (lookup_lt_is_Some_2 ra _ ltac:(rewrite Hla; exact Hn)) as [x Hx].
  rewrite list_lookup_fmap, Hx. cbn. now apply WordFacts.testbit_not.
Qed.

Lemma popcount_rows_not (rows : list (list Z)) :
  Forall (fun ra => length ra = BLOCKSIZE) rows ->
  popcount_rows (map (map Word.not) rows)
  = IDSPERBLOCK BLOCKSIZE * Z.of_nat (length rows) - popcount_rows rows.
Proof.
  induction rows as [|ra rows IH]; intros Hlen.
  - cbn. lia.
  - apply Forall_cons in Hlen as [Hra Hlen].
    unfold popcount_rows in *. cbn [map fold_right length].
    rewrite (IH Hlen), popcount_list_not, Hra. unfold IDSPERBLOCK. lia.
Qed.

End InvertEffects.

(** ** The count against the tests *)

Lemma count_true_ext (f g : Z -> bool) (n : nat) :
  (forall i, 0 <= i < Z.of_nat n -> f i = g i) ->
  count_true f n = count_true g n.
Proof.
  induction n as [|n IH]; intros H; [reflexivity|].
  cbn [count_true]. rewrite IH by (intros; apply H; lia).
  rewrite (H (Z.of_nat n)) by lia. reflexivity.
Qed.

Lemma count_true_add (f : Z -> bool) (n m : nat) :
  count_true f (n + m)
  = count_true f n + count_true (fun i => f (Z.of_nat n + i)) m.
Proof.
  induction m as [|m IH].
  - rewrite Nat.add_0_r. cbn [count_true]. lia.
  - rewrite Nat.add_succ_r. cbn [count_true]. rewrite IH.
    replace (Z.of_nat (n + m)) with (Z.of_nat n + Z.of_nat m) by lia. lia.
Qed.

Lemma count_true_bounds (f : Z -> bool) (n : nat) :
  0 <= count_true f n <= Z.of_nat n.
Proof.
  induction n as [|n IH]; cbn [count_true]; [lia|].
  destruct (f (Z.of_nat n)); lia.
Qed.

Lemma count_true_le (f : Z -> bool) (n m : nat) :
  (n <= m)%nat -> count_true f n <= count_true f m.
Proof.
  intros H. replace m with (n + (m - n))%nat by lia. rewrite count_true_add.
  pose proof (count_true_bounds (fun i => f (Z.of_nat n + i)) (m - n)). lia.
Qed.

Lemma popcount_upto_count (n : nat) (x : Z) :
  Word.popcount_upto n x = count_true (Z.testbit x) n.
Proof.
  induction n as [|n IH]; cbn [Word.popcount_upto count_true];
    [reflexivity | now rewrite IH].
Qed.

Lemma popcountll_count (x : Z) :
  Word.popcountll x = count_true (Z.testbit x) 64.
Proof. apply (popcount_upto_count 64). Qed.

Lemma popcount_list_count (xs : list Z) :
  popcount_list xs = count_true (bit_of_words xs) (length xs * 64).
Proof.
  induction xs as [|x xs IH]; [reflexivity|].
  cbn [popcount_list length].
  rewrite Nat.mul_succ_l, Nat.add_comm, count_true_add, IH, popcountll_count.
  assert (count_true (bit_of_words (x :: xs)) 64 = count_true (Z.testbit x) 64)
    as ->.
  { apply count_true_ext. intros i Hi. unfold bit_of_words.
    rewrite Z.quot_small, Z.rem_small by lia. reflexivity. }
  assert (count_true (fun i => bit_of_words (x :: xs) (Z.of_nat 64 + i))
            (length xs * 64)
          = count_true (bit_of_words xs) (length xs * 64)) as ->.
  { apply count_true_ext. intros i Hi. unfold bit_of_words.
    rewrite Z.quot_div_nonneg, Z.rem_mod_nonneg by lia.
    rewrite (Z.quot_div_nonneg i), (Z.rem_mod_nonneg i) by lia.
    replace (Z.of_nat 64 + i) with (i + 1 * 64) by lia.
    rewrite Z.div_add, Z.mod_add by lia.
    pose proof (Z.div_pos i 64 ltac:(lia) ltac:(lia)).
    replace (Z.to_nat (i / 64 + 1)) with (S (Z.to_nat (i / 64))) by lia.
    reflexivity. }
  reflexivity.
Qed.

Lemma count_filter (f : Z -> bool) (n : nat) :
  Z.of_nat (length (filter (fun i => f (Z.of_nat i) = true) (seq 0 n)))
  = count_true f n.
Proof.
  induction n as [|n IH]; [reflexivity|].
  rewrite seq_S, filter_app, length_app, Nat2Z.inj_add, IH.
  cbn [count_true Nat.add]. f_equal.
  rewrite filter_cons, filter_nil.
  destruct (decide (f (Z.of_nat n) = true)) as [->|Hf]; [reflexivity|].
  destruct (f (Z.of_nat n)); [congruence | reflexivity].
Qed.

Section CountRows.

Variable BLOCKSIZE : nat.
Hypothesis Hpos : (0 < BLOCKSIZE)%nat.

Lemma popcount_rows_count (rows : list (list Z)) :
  Forall (fun ra => length ra = BLOCKSIZE) rows ->
  popcount_rows rows
  = count_true (bit_of BLOCKSIZE rows) (length rows * (BLOCKSIZE * 64)).
Proof.
  assert (Z.of_nat (BLOCKSIZE * 64) = IDSPERBLOCK BLOCKSIZE) as Hids
    by (unfold IDSPERBLOCK; lia).
  induction rows as [|ra rows IH]; intros Hlen; [reflexivity|].
  apply Forall_cons in Hlen as [Hra Hlen].
  unfold popcount_rows in *. cbn [fold_right length].
  rewrite Nat.mul_succ_l, Nat.add_comm, count_true_add, (IH Hlen).
  rewrite popcount_list_count, Hra.
  assert (count_true (bit_of BLOCKSIZE (ra :: rows)) (BLOCKSIZE * 64)
          = count_true (bit_of_words ra) (BLOCKSIZE * 64)) as ->.
  { apply count_true_ext. intros i Hi. unfold bit_of, bit_of_words.
    rewrite Z.quot_small by lia. cbn [lookup list_lookup Z.to_nat].
    rewrite Z.rem_small by lia. reflexivity. }
  assert (count_true
            (fun i => bit_of BLOCKSIZE (ra :: rows) (Z.of_nat (BLOCKSIZE * 64) + i))
            (length rows * (BLOCKSIZE * 64))
          = count_true (bit_of BLOCKSIZE rows) (length rows * (BLOCKSIZE * 64)))
    as ->.
  { apply count_true_ext. intros i Hi. unfold bit_of. rewrite Hids.
    assert (0 < IDSPERBLOCK BLOCKSIZE) as Hp by lia.
    rewrite Z.quot_div_nonneg, Z.rem_mod_nonneg by lia.
    rewrite (Z.quot_div_nonneg i), (Z.rem_mod_nonneg i) by lia.
    replace (IDSPERBLOCK BLOCKSIZE + i) with (i + 1 * IDSPERBLOCK BLOCKSIZE) by lia.
    rewrite Z.div_add, Z.mod_add by lia.
    pose proof (Z.div_pos i (IDSPERBLOCK BLOCKSIZE) ltac:(lia) ltac:(lia)).
    replace (Z.to_nat (i / IDSPERBLOCK BLOCKSIZE + 1))
      with (S (Z.to_nat (i / IDSPERBLOCK BLOCKSIZE))) by lia.
    reflexivity. }
  reflexivity.
Qed.

End CountRows.

(** ** Who holds a block *)

Lemma slot_refs_holder (p : ptr) (l : list pointer) :
  (0 < slot_refs p l)%nat -> exists i, l !! i = Some (Some p).
Proof.
  induction l as [|s l IH]; cbn [slot_refs]; [lia|]. intros H.
  destruct s as [q|].
  - unfold holds in H. destruct (Nat.eqb_spec q p) as [->|Hne].
    + now exists 0%nat.
    + destruct IH as [i Hi]; [lia|]. now exists (S i).
  - change (holds p None) with 0%nat in H.
    destruct IH as [i Hi]; [lia|]. now exists (S i).
Qed.

Lemma owners_in_holder (p : ptr) (cells : list (option bitset)) :
  (0 < owners_in p cells)%nat ->
  exists a bs l i, cells !! a = Some (Some bs) /\ blocks bs = Some l
                   /\ l !! i = Some (Some p).
Proof.
  induction cells as [|c cells IH]; cbn [owners_in]; [lia|]. intros H.
  destruct (Nat.eq_dec (cell_refs p c) 0%nat) as [E|Hne].
  - destruct IH as (a & bs & l & i & Ha & Hl & Hi); [lia|].
    now exists (S a), bs, l, i.
  - destruct c as [bs|]; [|now contradict Hne].
    unfold cell_refs in Hne. destruct (blocks bs) as [l|] eqn:Hl; [|now contradict Hne].
    destruct (slot_refs_holder p l ltac:(lia)) as [i Hi].
    now exists 0%nat, bs, l, i.
Qed.

(** ** The count in an [int] and the words *)

(** The count in an [int], read off the words of the bitset. *)
Lemma count_int_content (BLOCKSIZE : nat) (w : world) (a : ptr) (bs : bitset) :
  (0 < BLOCKSIZE)%nat ->
  world_ok BLOCKSIZE w -> bsets w !! a = Some (Some bs) ->
  0 <= popcount_rows (content BLOCKSIZE w a)
       <= IDSPERBLOCK BLOCKSIZE * block_count bs
  /\ (popcount_rows (content BLOCKSIZE w a) <= INT_MAX ->
      bitset_set_count_int (Some a) w
      = Ret (inr (popcount_rows (content BLOCKSIZE w a))) w).
Proof.
  intros Hpos Hok Ha.
  pose proof (proj1 (world_ok_inv BLOCKSIZE w) Hok) as Hinv.
  destruct (inv_bitset _ _ _ _ _ Hinv Ha) as (l & Hl & Hlen & Hbc & Hr).
  pose proof (content_length BLOCKSIZE w a bs l Ha Hl) as Hrows.
  assert (Forall (fun ra => length ra = BLOCKSIZE) (content BLOCKSIZE w a))
    as Hrow.
  { apply Forall_forall. intros ra Hin.
    apply list_elem_of_lookup in Hin as [i Hi].
    apply (content_row_length BLOCKSIZE w a bs _ _ Hok Ha Hi). }
  assert (Z.of_nat (length l * (BLOCKSIZE * 64))
          = IDSPERBLOCK BLOCKSIZE * block_count bs) as Hbits
    by (unfold IDSPERBLOCK; lia).
  split.
  - rewrite (popcount_rows_count BLOCKSIZE Hpos _ Hrow), Hrows, <- Hbits.
    apply count_true_bounds.
  - intros Hle.
    apply (set_count_int_in_range BLOCKSIZE a w bs _ Hok Ha); [|exact Hle].
    apply (count_content BLOCKSIZE w a bs Hok Ha).
Qed.

(** * Sharing a block and cloning it *)



(** * Further properties *)

(** X1: on a well-formed memory [bitset_set] at a valid index returns
    [OK], or [ERRMEM] when the allocator fails; the memory stays well
    formed; whatever it returns, no test and no count of another bitset
    changes; and when it returns [OK], the test at that index is true,
    the tests at the other indices are as before, and the count has
    grown by one exactly when the test there was false. *)
Theorem bitset_set_effect (BLOCKSIZE : nat) (NDEBUG : bool) (w : world) (a : ptr)
        (bs : bitset) (bit : Z) :
  world_ok BLOCKSIZE w -> (0 < BLOCKSIZE)%nat ->
  bsets w !! a = Some (Some bs) -> 0 <= bit < bitcount bs ->
  exists r w',
    bitset_set BLOCKSIZE NDEBUG (Some a) bit w = Ret r w'
    /\ (r = OK \/ r = ERRMEM /\ hd true (oracle w) = false)
    /\ world_ok BLOCKSIZE w'
    /\ (forall c cs j,
           c <> a -> bsets w !! c = Some (Some cs) -> 0 <= j < bitcount cs ->
           tested BLOCKSIZE NDEBUG w' c j = tested BLOCKSIZE NDEBUG w c j)
    /\ (forall c cs,
           c <> a -> bsets w !! c = Some (Some cs) ->
           exists n, bitset_set_count (Some c) w = Ret (inr n) w
                     /\ bitset_set_count (Some c) w' = Ret (inr n) w')
    /\ (r = OK ->
        (forall j, 0 <= j < bitcount bs ->
                   tested BLOCKSIZE NDEBUG w' a j
                   = if j =? bit then true else tested BLOCKSIZE NDEBUG w a j)
        /\ exists n,
            bitset_set_count (Some a) w = Ret (inr n) w
            /\ bitset_set_count (Some a) w'
               = Ret (inr (n + if tested BLOCKSIZE NDEBUG w a bit then 0 else 1)) w').
Proof.
  intros Hok Hpos Ha Hbit.
  destruct (locate BLOCKSIZE (bitcount bs) bit Hpos Hbit) as (_ & _ & _ & Hb).
  apply (bit_op_effect BLOCKSIZE NDEBUG (bitset_set BLOCKSIZE NDEBUG (Some a) bit)
           (fun x => Z.lor x (Word.bit (Z.rem (Z.rem bit (IDSPERBLOCK BLOCKSIZE)) 64)))
           (fun _ => true) (fun t : bool => if t then 0 else 1) w a bs bit
           Hok Hpos Ha Hbit).
  - apply (set_row BLOCKSIZE NDEBUG Hpos w a bs bit Hok Ha Hbit).
  - intros x i Hi Hne. rewrite WordFacts.testbit_set by lia.
    destruct (Z.eqb_spec i (Z.rem (Z.rem bit (IDSPERBLOCK BLOCKSIZE)) 64));
      [congruence | apply orb_false_r].
  - intros x Hx. cbv zeta. split.
    + rewrite WordFacts.testbit_set, Z.eqb_refl by lia. apply orb_true_r.
    + destruct (Z.testbit x _) eqn:Ht.
      * rewrite lor_bit_id by (first [lia | assumption]). lia.
      * rewrite WordFacts.popcountll_set by (first [lia | assumption]). lia.
Qed.

Lemma bitset_set_effect_witness :
  exists r w',
    bitset_set 2 false (Some 0%nat) 7 Scenario.w_ab = Ret r w'
    /\ (r = OK \/ r = ERRMEM /\ hd true (oracle Scenario.w_ab) = false)
    /\ world_ok 2 w'
    /\ (forall c cs j,
           c <> 0%nat -> bsets Scenario.w_ab !! c = Some (Some cs) ->
               0 <= j < bitcount cs ->
           tested 2 false w' c j = tested 2 false Scenario.w_ab c j)
    /\ (forall c cs,
           c <> 0%nat -> bsets Scenario.w_ab !! c = Some (Some cs) ->
           exists n, bitset_set_count (Some c) Scenario.w_ab
               = Ret (inr n) Scenario.w_ab
                     /\ bitset_set_count (Some c) w' = Ret (inr n) w')
    /\ (r = OK ->
        (forall j, 0 <= j < 200 ->
                   tested 2 false w' 0%nat j
                   = if j =? 7 then true else tested 2 false
                       Scenario.w_ab 0%nat j)
        /\ exists n,
            bitset_set_count (Some 0%nat) Scenario.w_ab
                = Ret (inr n) Scenario.w_ab
            /\ bitset_set_count (Some 0%nat) w'
               = Ret (inr (n + if tested 2 false
                   Scenario.w_ab 0%nat 7 then 0 else 1)) w').
Proof.
  apply (bitset_set_effect 2 false Scenario.w_ab 0%nat
      (mk_bitset 200 2 (Some [Some 0%nat; Some 1%nat])) 7).
  - exact (reachable_world_ok 2 false _ reachable_w_ab).
  - lia.
  - reflexivity.
  - cbn; lia.
Defined.

(** X2: on a well-formed memory [bitset_clr] at a valid index returns
    [OK], or [ERRMEM] when the allocator fails; the memory stays well
    formed; whatever it returns, no test and no count of another bitset
    changes; and when it returns [OK], the test at that index is false,
    the tests at the other indices are as before, and the count has
    shrunk by one exactly when the test there was true. *)
Theorem bitset_clr_effect (BLOCKSIZE : nat) (NDEBUG : bool) (w : world) (a : ptr)
        (bs : bitset) (bit : Z) :
  world_ok BLOCKSIZE w -> (0 < BLOCKSIZE)%nat ->
  bsets w !! a = Some (Some bs) -> 0 <= bit < bitcount bs ->
  exists r w',
    bitset_clr BLOCKSIZE NDEBUG (Some a) bit w = Ret r w'
    /\ (r = OK \/ r = ERRMEM /\ hd true (oracle w) = false)
    /\ world_ok BLOCKSIZE w'
    /\ (forall c cs j,
           c <> a -> bsets w !! c = Some (Some cs) -> 0 <= j < bitcount cs ->
           tested BLOCKSIZE NDEBUG w' c j = tested BLOCKSIZE NDEBUG w c j)
    /\ (forall c cs,
           c <> a -> bsets w !! c = Some (Some cs) ->
           exists n, bitset_set_count (Some c) w = Ret (inr n) w
                     /\ bitset_set_count (Some c) w' = Ret (inr n) w')
    /\ (r = OK ->
        (forall j, 0 <= j < bitcount bs ->
                   tested BLOCKSIZE NDEBUG w' a j
                   = if j =? bit then false else tested BLOCKSIZE NDEBUG w a j)
        /\ exists n,
            bitset_set_count (Some a) w = Ret (inr n) w
            /\ bitset_set_count (Some a) w'
               = Ret (inr (n + if tested BLOCKSIZE NDEBUG w a bit then -1 else 0)) w').
Proof.
  intros Hok Hpos Ha Hbit.
  destruct (locate BLOCKSIZE (bitcount bs) bit Hpos Hbit) as (_ & _ & _ & Hb).
  apply (bit_op_effect BLOCKSIZE NDEBUG (bitset_clr BLOCKSIZE NDEBUG (Some a) bit)
           (fun x => Z.land x (Word.not
                       (Word.bit (Z.rem (Z.rem bit (IDSPERBLOCK BLOCKSIZE)) 64))))
           (fun _ => false) (fun t : bool => if t then -1 else 0) w a bs bit
           Hok Hpos Ha Hbit).
  - apply (clr_row BLOCKSIZE NDEBUG Hpos w a bs bit Hok Ha Hbit).
  - intros x i Hi Hne. rewrite WordFacts.testbit_clr by lia.
    destruct (Z.eqb_spec i (Z.rem (Z.rem bit (IDSPERBLOCK BLOCKSIZE)) 64));
      [congruence | apply andb_true_r].
  - intros x Hx. cbv zeta. split.
    + rewrite WordFacts.testbit_clr, Z.eqb_refl by lia. apply andb_false_r.
    + destruct (Z.testbit x _) eqn:Ht.
      * rewrite WordFacts.popcountll_clr by (first [lia | assumption]). lia.
      * rewrite land_not_bit_id by (first [lia | assumption]). lia.
Qed.

Lemma bitset_clr_effect_witness :
  exists r w',
    bitset_clr 2 false (Some 0%nat) 5 Scenario.w_ab = Ret r w'
    /\ (r = OK \/ r = ERRMEM /\ hd true (oracle Scenario.w_ab) = false)
    /\ world_ok 2 w'
    /\ (forall c cs j,
           c <> 0%nat -> bsets Scenario.w_ab !! c = Some (Some cs) ->
               0 <= j < bitcount cs ->
           tested 2 false w' c j = tested 2 false Scenario.w_ab c j)
    /\ (forall c cs,
           c <> 0%nat -> bsets Scenario.w_ab !! c = Some (Some cs) ->
           exists n, bitset_set_count (Some c) Scenario.w_ab
               = Ret (inr n) Scenario.w_ab
                     /\ bitset_set_count (Some c) w' = Ret (inr n) w')
    /\ (r = OK ->
        (forall j, 0 <= j < 200 ->
                   tested 2 false w' 0%nat j
                   = if j =? 5 then false else tested 2 false
                       Scenario.w_ab 0%nat j)
        /\ exists n,
            bitset_set_count (Some 0%nat) Scenario.w_ab
                = Ret (inr n) Scenario.w_ab
            /\ bitset_set_count (Some 0%nat) w'
               = Ret (inr (n + if tested 2 false
                   Scenario.w_ab 0%nat 5 then -1 else 0)) w').
Proof.
  apply (bitset_clr_effect 2 false Scenario.w_ab 0%nat
      (mk_bitset 200 2 (Some [Some 0%nat; Some 1%nat])) 5).
  - exact (reachable_world_ok 2 false _ reachable_w_ab).
  - lia.
  - reflexivity.
  - cbn; lia.
Defined.

(** X3: on a well-formed memory [bitset_toggle_bit] at a valid index
    returns [OK], or [ERRMEM] when the allocator fails; the memory stays
    well formed; whatever it returns, no test and no count of another
    bitset changes; and when it returns [OK], the test at that index is
    negated, the tests at the other indices are as before, and the count
    has moved by one, down when the test there was true and up when it
    was false. *)
Theorem bitset_toggle_bit_effect (BLOCKSIZE : nat) (NDEBUG : bool) (w : world)
        (a : ptr) (bs : bitset) (bit : Z) :
  world_ok BLOCKSIZE w -> (0 < BLOCKSIZE)%nat ->
  bsets w !! a = Some (Some bs) -> 0 <= bit < bitcount bs ->
  exists r w',
    bitset_toggle_bit BLOCKSIZE NDEBUG (Some a) bit w = Ret r w'
    /\ (r = OK \/ r = ERRMEM /\ hd true (oracle w) = false)
    /\ world_ok BLOCKSIZE w'
    /\ (forall c cs j,
           c <> a -> bsets w !! c = Some (Some cs) -> 0 <= j < bitcount cs ->
           tested BLOCKSIZE NDEBUG w' c j = tested BLOCKSIZE NDEBUG w c j)
    /\ (forall c cs,
           c <> a -> bsets w !! c = Some (Some cs) ->
           exists n, bitset_set_count (Some c) w = Ret (inr n) w
                     /\ bitset_set_count (Some c) w' = Ret (inr n) w')
    /\ (r = OK ->
        (forall j, 0 <= j < bitcount bs ->
                   tested BLOCKSIZE NDEBUG w' a j
                   = if j =? bit then negb (tested BLOCKSIZE NDEBUG w a bit)
                     else tested BLOCKSIZE NDEBUG w a j)
        /\ exists n,
            bitset_set_count (Some a) w = Ret (inr n) w
            /\ bitset_set_count (Some a) w'
               = Ret (inr (n + if tested BLOCKSIZE NDEBUG w a bit then -1 else 1)) w').
Proof.
  intros Hok Hpos Ha Hbit.
  destruct (locate BLOCKSIZE (bitcount bs) bit Hpos Hbit) as (_ & _ & _ & Hb).
  apply (bit_op_effect BLOCKSIZE NDEBUG (bitset_toggle_bit BLOCKSIZE NDEBUG (Some a) bit)
           (fun x => Z.lxor x (Word.bit (Z.rem (Z.rem bit (IDSPERBLOCK BLOCKSIZE)) 64)))
           negb (fun t : bool => if t then -1 else 1) w a bs bit
           Hok Hpos Ha Hbit).
  - apply (toggle_row BLOCKSIZE NDEBUG Hpos w a bs bit Hok Ha Hbit).
  - intros x i Hi Hne. rewrite WordFacts.testbit_toggle by lia.
    destruct (Z.eqb_spec i (Z.rem (Z.rem bit (IDSPERBLOCK BLOCKSIZE)) 64));
      [congruence | apply xorb_false_r].
  - intros x Hx. cbv zeta. split.
    + rewrite WordFacts.testbit_toggle, Z.eqb_refl by lia. apply xorb_true_r.
    + rewrite WordFacts.popcountll_toggle by lia. reflexivity.
Qed.

Lemma bitset_toggle_bit_effect_witness :
  exists r w',
    bitset_toggle_bit 2 false (Some 0%nat) 150 Scenario.w_ab = Ret r w'
    /\ (r = OK \/ r = ERRMEM /\ hd true (oracle Scenario.w_ab) = false)
    /\ world_ok 2 w'
    /\ (forall c cs j,
           c <> 0%nat -> bsets Scenario.w_ab !! c = Some (Some cs) ->
               0 <= j < bitcount cs ->
           tested 2 false w' c j = tested 2 false Scenario.w_ab c j)
    /\ (forall c cs,
           c <> 0%nat -> bsets Scenario.w_ab !! c = Some (Some cs) ->
           exists n, bitset_set_count (Some c) Scenario.w_ab
               = Ret (inr n) Scenario.w_ab
                     /\ bitset_set_count (Some c) w' = Ret (inr n) w')
    /\ (r = OK ->
        (forall j, 0 <= j < 200 ->
                   tested 2 false w' 0%nat j
                   = if j =? 150 then negb (tested 2 false
                       Scenario.w_ab 0%nat 150)
                     else tested 2 false Scenario.w_ab 0%nat j)
        /\ exists n,
            bitset_set_count (Some 0%nat) Scenario.w_ab
                = Ret (inr n) Scenario.w_ab
            /\ bitset_set_count (Some 0%nat) w'
               = Ret (inr (n + if tested 2 false
                   Scenario.w_ab 0%nat 150 then -1 else 1)) w').
Proof.
  apply (bitset_toggle_bit_effect 2 false Scenario.w_ab 0%nat
      (mk_bitset 200 2 (Some [Some 0%nat; Some 1%nat])) 150).
  - exact (reachable_world_ok 2 false _ reachable_w_ab).
  - lia.
  - reflexivity.
  - cbn; lia.
Defined.

(** X4: on a well-formed memory [bitset_or] on two live bitsets of one
    capacity, which may be the same bitset, returns [OK], or [ERRMEM],
    and [OK] when the allocator never fails; the memory stays well
    formed; whatever it returns, no test and no count of a bitset other
    than [a] changes; and when it returns [OK], every test on [a] is
    the disjunction of what the tests on [a] and on [b] were. *)
Theorem bitset_or_effect (BLOCKSIZE : nat) (NDEBUG : bool) (w : world)
        (a b : ptr) (A B : bitset) :
  world_ok BLOCKSIZE w -> (0 < BLOCKSIZE)%nat ->
  bsets w !! a = Some (Some A) -> bsets w !! b = Some (Some B) ->
  bitcount A = bitcount B ->
  exists r w',
    bitset_or BLOCKSIZE NDEBUG (Some a) (Some b) w = Ret r w'
    /\ (r = OK \/ r = ERRMEM)
    /\ (Forall (eq true) (oracle w) -> r = OK)
    /\ world_ok BLOCKSIZE w'
    /\ (forall c cs j,
           c <> a -> bsets w !! c = Some (Some cs) -> 0 <= j < bitcount cs ->
           tested BLOCKSIZE NDEBUG w' c j = tested BLOCKSIZE NDEBUG w c j)
    /\ (forall c cs,
           c <> a -> bsets w !! c = Some (Some cs) ->
           exists n, bitset_set_count (Some c) w = Ret (inr n) w
                     /\ bitset_set_count (Some c) w' = Ret (inr n) w')
    /\ (r = OK ->
        forall j, 0 <= j < bitcount A ->
                  tested BLOCKSIZE NDEBUG w' a j
                  = tested BLOCKSIZE NDEBUG w a j || tested BLOCKSIZE NDEBUG w b j).
Proof.
  intros Hok Hpos Ha Hb Hcap.
  apply (binary_effect BLOCKSIZE NDEBUG Hpos (bitset_or_body BLOCKSIZE NDEBUG)
           Z.lor orb w a b A B); try assumption.
  - intros w0 bs bb l lb j sa sb Hok0 Ha0 Hl0 Hb0 Hlb0 Hsa Hsb.
    apply (or_body_row BLOCKSIZE NDEBUG w0 a b bs bb l lb j sa sb); assumption.
  - intros x y i _. apply Z.lor_spec.
Qed.

Lemma bitset_or_effect_witness :
  exists r w',
    bitset_or 2 false (Some 0%nat) (Some 1%nat) Scenario.w_union = Ret r w'
    /\ (r = OK \/ r = ERRMEM)
    /\ (Forall (eq true) (oracle Scenario.w_union) -> r = OK)
    /\ world_ok 2 w'
    /\ (forall c cs j,
           c <> 0%nat -> bsets Scenario.w_union !! c = Some (Some cs) ->
               0 <= j < bitcount cs ->
           tested 2 false w' c j = tested 2 false Scenario.w_union c j)
    /\ (forall c cs,
           c <> 0%nat -> bsets Scenario.w_union !! c = Some (Some cs) ->
           exists n, bitset_set_count (Some c) Scenario.w_union
               = Ret (inr n) Scenario.w_union
                     /\ bitset_set_count (Some c) w' = Ret (inr n) w')
    /\ (r = OK ->
        forall j, 0 <= j < 64 ->
                  tested 2 false w' 0%nat j
                  = tested 2 false
                      Scenario.w_union 0%nat j || tested 2 false
                          Scenario.w_union 1%nat j).
Proof.
  apply (bitset_or_effect 2 false Scenario.w_union 0%nat 1%nat
      (mk_bitset 64 1 (Some [None])) (mk_bitset 64 1 (Some [Some 0%nat]))).
  - exact (reachable_world_ok 2 false _ reachable_w_union).
  - lia.
  - reflexivity.
  - reflexivity.
  - reflexivity.
Defined.

(** X5: on a well-formed memory [bitset_and] on two live bitsets of one
    capacity, which may be the same bitset, returns [OK], or [ERRMEM],
    and [OK] when the allocator never fails; the memory stays well
    formed; whatever it returns, no test and no count of a bitset other
    than [a] changes; and when it returns [OK], every test on [a] is
    the conjunction of what the tests on [a] and on [b] were. *)
Theorem bitset_and_effect (BLOCKSIZE : nat) (NDEBUG : bool) (w : world)
        (a b : ptr) (A B : bitset) :
  world_ok BLOCKSIZE w -> (0 < BLOCKSIZE)%nat ->
  bsets w !! a = Some (Some A) -> bsets w !! b = Some (Some B) ->
  bitcount A = bitcount B ->
  exists r w',
    bitset_and BLOCKSIZE NDEBUG (Some a) (Some b) w = Ret r w'
    /\ (r = OK \/ r = ERRMEM)
    /\ (Forall (eq true) (oracle w) -> r = OK)
    /\ world_ok BLOCKSIZE w'
    /\ (forall c cs j,
           c <> a -> bsets w !! c = Some (Some cs) -> 0 <= j < bitcount cs ->
           tested BLOCKSIZE NDEBUG w' c j = tested BLOCKSIZE NDEBUG w c j)
    /\ (forall c cs,
           c <> a -> bsets w !! c = Some (Some cs) ->
           exists n, bitset_set_count (Some c) w = Ret (inr n) w
                     /\ bitset_set_count (Some c) w' = Ret (inr n) w')
    /\ (r = OK ->
        forall j, 0 <= j < bitcount A ->
                  tested BLOCKSIZE NDEBUG w' a j
                  = tested BLOCKSIZE NDEBUG w a j && tested BLOCKSIZE NDEBUG w b j).
Proof.
  intros Hok Hpos Ha Hb Hcap.
  apply (binary_effect BLOCKSIZE NDEBUG Hpos (bitset_and_body BLOCKSIZE NDEBUG)
           Z.land andb w a b A B); try assumption.
  - intros w0 bs bb l lb j sa sb Hok0 Ha0 Hl0 Hb0 Hlb0 Hsa Hsb.
    apply (and_body_row BLOCKSIZE NDEBUG w0 a b bs bb l lb j sa sb); assumption.
  - intros x y i _. apply Z.land_spec.
Qed.

Lemma bitset_and_effect_witness :
  exists r w',
    bitset_and 2 false (Some 1%nat) (Some 0%nat) Scenario.w_union = Ret r w'
    /\ (r = OK \/ r = ERRMEM)
    /\ (Forall (eq true) (oracle Scenario.w_union) -> r = OK)
    /\ world_ok 2 w'
    /\ (forall c cs j,
           c <> 1%nat -> bsets Scenario.w_union !! c = Some (Some cs) ->
               0 <= j < bitcount cs ->
           tested 2 false w' c j = tested 2 false Scenario.w_union c j)
    /\ (forall c cs,
           c <> 1%nat -> bsets Scenario.w_union !! c = Some (Some cs) ->
           exists n, bitset_set_count (Some c) Scenario.w_union
               = Ret (inr n) Scenario.w_union
                     /\ bitset_set_count (Some c) w' = Ret (inr n) w')
    /\ (r = OK ->
        forall j, 0 <= j < 64 ->
                  tested 2 false w' 1%nat j
                  = tested 2 false
                      Scenario.w_union 1%nat j && tested 2 false
                          Scenario.w_union 0%nat j).
Proof.
  apply (bitset_and_effect 2 false Scenario.w_union 1%nat 0%nat
      (mk_bitset 64 1 (Some [Some 0%nat])) (mk_bitset 64 1 (Some [None]))).
  - exact (reachable_world_ok 2 false _ reachable_w_union).
  - lia.
  - reflexivity.
  - reflexivity.
  - reflexivity.
Defined.

(** X6: on a well-formed memory [bitset_subtract] on two live bitsets of one
    capacity, which may be the same bitset, returns [OK], or [ERRMEM],
    and [OK] when the allocator never fails; the memory stays well
    formed; whatever it returns, no test and no count of a bitset other
    than [a] changes; and when it returns [OK], every test on [a] is
    what the test on [a] was and the test on [b] was not, so
    that [bitset_subtract] of a bitset from itself empties it. *)
Theorem bitset_subtract_effect (BLOCKSIZE : nat) (NDEBUG : bool) (w : world)
        (a b : ptr) (A B : bitset) :
  world_ok BLOCKSIZE w -> (0 < BLOCKSIZE)%nat ->
  bsets w !! a = Some (Some A) -> bsets w !! b = Some (Some B) ->
  bitcount A = bitcount B ->
  exists r w',
    bitset_subtract BLOCKSIZE NDEBUG (Some a) (Some b) w = Ret r w'
    /\ (r = OK \/ r = ERRMEM)
    /\ (Forall (eq true) (oracle w) -> r = OK)
    /\ world_ok BLOCKSIZE w'
    /\ (forall c cs j,
           c <> a -> bsets w !! c = Some (Some cs) -> 0 <= j < bitcount cs ->
           tested BLOCKSIZE NDEBUG w' c j = tested BLOCKSIZE NDEBUG w c j)
    /\ (forall c cs,
           c <> a -> bsets w !! c = Some (Some cs) ->
           exists n, bitset_set_count (Some c) w = Ret (inr n) w
                     /\ bitset_set_count (Some c) w' = Ret (inr n) w')
    /\ (r = OK ->
        forall j, 0 <= j < bitcount A ->
                  tested BLOCKSIZE NDEBUG w' a j
                  = tested BLOCKSIZE NDEBUG w a j
                    && negb (tested BLOCKSIZE NDEBUG w b j)).
Proof.
  intros Hok Hpos Ha Hb Hcap.
  apply (binary_effect BLOCKSIZE NDEBUG Hpos (bitset_subtract_body BLOCKSIZE NDEBUG)
           word_subtract (fun x y => x && negb y) w a b A B); try assumption.
  - intros w0 bs bb l lb j sa sb Hok0 Ha0 Hl0 Hb0 Hlb0 Hsa Hsb.
    apply (subtract_body_row BLOCKSIZE NDEBUG w0 a b bs bb l lb j sa sb); assumption.
  - intros x y i Hi. unfold word_subtract.
    now rewrite Z.land_spec, WordFacts.testbit_not.
Qed.

Lemma bitset_subtract_effect_witness :
  exists r w',
    bitset_subtract 2 false (Some 1%nat) (Some 1%nat) Scenario.w_union
        = Ret r w'
    /\ (r = OK \/ r = ERRMEM)
    /\ (Forall (eq true) (oracle Scenario.w_union) -> r = OK)
    /\ world_ok 2 w'
    /\ (forall c cs j,
           c <> 1%nat -> bsets Scenario.w_union !! c = Some (Some cs) ->
               0 <= j < bitcount cs ->
           tested 2 false w' c j = tested 2 false Scenario.w_union c j)
    /\ (forall c cs,
           c <> 1%nat -> bsets Scenario.w_union !! c = Some (Some cs) ->
           exists n, bitset_set_count (Some c) Scenario.w_union
               = Ret (inr n) Scenario.w_union
                     /\ bitset_set_count (Some c) w' = Ret (inr n) w')
    /\ (r = OK ->
        forall j, 0 <= j < 64 ->
                  tested 2 false w' 1%nat j
                  = tested 2 false Scenario.w_union 1%nat j
                    && negb (tested 2 false Scenario.w_union 1%nat j)).
Proof.
  apply (bitset_subtract_effect 2 false Scenario.w_union 1%nat 1%nat
      (mk_bitset 64 1 (Some [Some 0%nat]))
          (mk_bitset 64 1 (Some [Some 0%nat]))).
  - exact (reachable_world_ok 2 false _ reachable_w_union).
  - lia.
  - reflexivity.
  - reflexivity.
  - reflexivity.
Defined.

(** X7: on a well-formed memory [bitset_alloc] with a capacity between 0
    and [INT_MAX] and a proper output parameter returns, in a memory
    that is well formed and in which every bitset there was tests and
    counts as before. When the allocator answers its two requests, the
    result is [OK] with a bitset at a fresh address, whose capacity is
    the one asked for, whose count is 0 and whose every test is false;
    otherwise the result is [ERRMEM] and no bitset has been added. *)
Theorem bitset_alloc_effect (BLOCKSIZE : nat) (NDEBUG : bool) (w : world) (n : Z) :
  world_ok BLOCKSIZE w -> (0 < BLOCKSIZE)%nat -> 0 <= n <= INT_MAX ->
  exists r w',
    bitset_alloc BLOCKSIZE n (Some None) w = Ret r w'
    /\ world_ok BLOCKSIZE w'
    /\ (forall c cs j,
           bsets w !! c = Some (Some cs) -> 0 <= j < bitcount cs ->
           tested BLOCKSIZE NDEBUG w' c j = tested BLOCKSIZE NDEBUG w c j)
    /\ (forall c cs,
           bsets w !! c = Some (Some cs) ->
           exists m, bitset_set_count (Some c) w = Ret (inr m) w
                     /\ bitset_set_count (Some c) w' = Ret (inr m) w')
    /\ (if hd true (oracle w) && hd true (tl (oracle w))
        then r = (OK, Some (length (bsets w)))
             /\ bitset_bitcount (Some (length (bsets w))) w' = Ret (inr n) w'
             /\ bitset_set_count (Some (length (bsets w))) w' = Ret (inr 0) w'
             /\ forall j, 0 <= j < n ->
                          tested BLOCKSIZE NDEBUG w' (length (bsets w)) j = false
        else r = (ERRMEM, None)
             /\ forall d ds, bsets w' !! d = Some (Some ds) ->
                             bsets w !! d = Some (Some ds)).
Proof.
  intros Hok Hpos Hn.
  assert (INT_MIN <= n <= INT_MAX) as Hr by (unfold INT_MIN, INT_MAX in *; lia).
  assert (forall r w',
             bitset_alloc BLOCKSIZE n (Some None) w = Ret r w' ->
             blks w' = blks w ->
             (forall c, c <> length (bsets w) -> bsets w' !! c = bsets w !! c) ->
             world_ok BLOCKSIZE w'
             /\ (forall c cs j,
                    bsets w !! c = Some (Some cs) -> 0 <= j < bitcount cs ->
                    tested BLOCKSIZE NDEBUG w' c j = tested BLOCKSIZE NDEBUG w c j)
             /\ (forall c cs,
                    bsets w !! c = Some (Some cs) ->
                    exists m, bitset_set_count (Some c) w = Ret (inr m) w
                              /\ bitset_set_count (Some c) w' = Ret (inr m) w'))
    as Hframe.
  { intros r w' Hrun Hblks Hcells.
    assert (world_ok BLOCKSIZE w') as Hok'.
    { apply world_ok_inv.
      apply (bitset_alloc_inv0 BLOCKSIZE n (Some None) w r w' Hr); [|exact Hrun].
      now apply world_ok_inv. }
    assert (others_kept BLOCKSIZE w w' (length (bsets w))) as Hkept.
    { apply others_kept_intro; try assumption.
      intros c cs lc j q _ _ _ _. now rewrite Hblks. }
    splits; [exact Hok' | |].
    - intros c cs j Hc Hj.
      apply (kept_tested BLOCKSIZE NDEBUG Hpos w w' (length (bsets w)) c cs j);
        try assumption.
      apply lookup_lt_Some in Hc. lia.
    - intros c cs Hc.
      apply (kept_count BLOCKSIZE w w' (length (bsets w)) c cs); try assumption.
      apply lookup_lt_Some in Hc. lia. }
  destruct (hd true (oracle w)) eqn:Ho; cbn [andb].
  - destruct (hd true (tl (oracle w))) eqn:Ho'.
    + pose proof (alloc_ok_run BLOCKSIZE Hpos n w Hn Ho Ho') as Hrun.
      eexists _, _. split; [exact Hrun|].
      destruct (Hframe _ _ Hrun eq_refl (lookup_app_other (bsets w) _)) as (Hok' & Ht & Hc).
      splits; try assumption; [reflexivity | | |].
      * unfold bitset_bitcount, bind, load_bitset. cbn [bsets].
        now rewrite lookup_app_r, Nat.sub_diag.
      * erewrite (set_count_run BLOCKSIZE (length (bsets w)) _ _ _ Hok');
          [ | cbn [bsets]; now rewrite lookup_app_r, Nat.sub_diag | reflexivity ].
        now rewrite sum_counts_absent.
      * intros j Hj. unfold tested.
        destruct (locate BLOCKSIZE n j Hpos Hj) as (Hq & _).
        erewrite (test_absent_run BLOCKSIZE NDEBUG _ (length (bsets w))
                    (mk_bitset n (BLOCKCOUNT BLOCKSIZE n) _) _ j);
          [reflexivity | | reflexivity | exact Hj | | | ].
        -- cbn [bsets]. now rewrite lookup_app_r, Nat.sub_diag.
        -- unfold IDSPERBLOCK. lia.
        -- cbn [block_count]. lia.
        -- apply lookup_replicate_2. lia.
    + pose proof (alloc_fail_second_run BLOCKSIZE Hpos n w Hn Ho Ho') as Hrun.
      eexists _, _. split; [exact Hrun|].
      destruct (Hframe _ _ Hrun eq_refl (lookup_app_other (bsets w) _)) as (Hok' & Ht & Hc).
      splits; try assumption; [reflexivity|].
      intros d ds Hd. cbn [bsets] in Hd.
      destruct (decide (d < length (bsets w))%nat) as [Hlt|Hge].
      * now rewrite lookup_app_l in Hd.
      * rewrite lookup_app_r in Hd by lia.
        destruct (d - length (bsets w))%nat; discriminate.
  - pose proof (alloc_fail_first_run BLOCKSIZE n w Ho) as Hrun.
    eexists _, _. split; [exact Hrun|].
    destruct (Hframe _ _ Hrun eq_refl (fun c _ => eq_refl)) as (Hok' & Ht & Hc).
    splits; try assumption; [reflexivity|]. intros d ds Hd. exact Hd.
Qed.

Lemma bitset_alloc_effect_witness :
  exists r w',
    bitset_alloc 2 64 (Some None) Scenario.w_a = Ret r w'
    /\ world_ok 2 w'
    /\ (forall c cs j,
           bsets Scenario.w_a !! c = Some (Some cs) -> 0 <= j < bitcount cs ->
           tested 2 false w' c j = tested 2 false Scenario.w_a c j)
    /\ (forall c cs,
           bsets Scenario.w_a !! c = Some (Some cs) ->
           exists m, bitset_set_count (Some c) Scenario.w_a
               = Ret (inr m) Scenario.w_a
                     /\ bitset_set_count (Some c) w' = Ret (inr m) w')
    /\ (if hd true (oracle Scenario.w_a) && hd true (tl (oracle Scenario.w_a))
        then r = (OK, Some (length (bsets Scenario.w_a)))
             /\ bitset_bitcount (Some (length (bsets Scenario.w_a))) w'
                 = Ret (inr 64) w'
             /\ bitset_set_count (Some (length (bsets Scenario.w_a))) w'
                 = Ret (inr 0) w'
             /\ forall j, 0 <= j < 64 ->
                          tested 2 false w' (length (bsets Scenario.w_a)) j
                              = false
        else r = (ERRMEM, None)
             /\ forall d ds, bsets w' !! d = Some (Some ds) ->
                             bsets Scenario.w_a !! d = Some (Some ds)).
Proof.
  apply (bitset_alloc_effect 2 false Scenario.w_a 64).
  - exact (reachable_world_ok 2 false _ reachable_w_a).
  - lia.
  - unfold INT_MAX; lia.
Defined.

(** X8: on a well-formed memory [bitset_dup] of a live bitset with a
    proper output parameter returns, in a memory that is well formed and
    in which every bitset there was, the source included, tests and
    counts as before. When the allocator answers its two requests, the
    result is [OK] with a bitset at a fresh address that has the
    capacity of the source, tests as the source at every index and has
    its count; otherwise the result is [ERRMEM] and no bitset has been
    added. *)
Theorem bitset_dup_effect (BLOCKSIZE : nat) (NDEBUG : bool) (w : world)
        (src : ptr) (S : bitset) :
  world_ok BLOCKSIZE w -> (0 < BLOCKSIZE)%nat ->
  bsets w !! src = Some (Some S) ->
  exists r w',
    bitset_dup (Some src) (Some None) w = Ret r w'
    /\ world_ok BLOCKSIZE w'
    /\ (forall c cs j,
           bsets w !! c = Some (Some cs) -> 0 <= j < bitcount cs ->
           tested BLOCKSIZE NDEBUG w' c j = tested BLOCKSIZE NDEBUG w c j)
    /\ (forall c cs,
           bsets w !! c = Some (Some cs) ->
           exists m, bitset_set_count (Some c) w = Ret (inr m) w
                     /\ bitset_set_count (Some c) w' = Ret (inr m) w')
    /\ (if hd true (oracle w) && hd true (tl (oracle w))
        then r = (OK, Some (length (bsets w)))
             /\ bitset_bitcount (Some (length (bsets w))) w'
                = Ret (inr (bitcount S)) w'
             /\ (forall j, 0 <= j < bitcount S ->
                           tested BLOCKSIZE NDEBUG w' (length (bsets w)) j
                           = tested BLOCKSIZE NDEBUG w src j)
             /\ exists m, bitset_set_count (Some src) w = Ret (inr m) w
                          /\ bitset_set_count (Some (length (bsets w))) w'
                             = Ret (inr m) w'
        else r = (ERRMEM, None)
             /\ forall d ds, bsets w' !! d = Some (Some ds) ->
                             bsets w !! d = Some (Some ds)).
Proof.
  intros Hok Hpos Hs.
  destruct (live_blocks BLOCKSIZE w src S Hok Hs) as [l Hl].
  assert (forall r w',
             bitset_dup (Some src) (Some None) w = Ret r w' ->
             same_words (blks w) (blks w') ->
             (forall c, c <> length (bsets w) -> bsets w' !! c = bsets w !! c) ->
             world_ok BLOCKSIZE w'
             /\ (forall c cs j,
                    bsets w !! c = Some (Some cs) -> 0 <= j < bitcount cs ->
                    tested BLOCKSIZE NDEBUG w' c j = tested BLOCKSIZE NDEBUG w c j)
             /\ (forall c cs,
                    bsets w !! c = Some (Some cs) ->
                    exists m, bitset_set_count (Some c) w = Ret (inr m) w
                              /\ bitset_set_count (Some c) w' = Ret (inr m) w'))
    as Hframe.
  { intros r w' Hrun Hblks Hcells.
    assert (world_ok BLOCKSIZE w') as Hok'.
    { apply world_ok_inv.
      apply (bitset_dup_inv0 BLOCKSIZE (Some src) (Some None) w r w');
        [now apply world_ok_inv | now exists S | exact Hrun]. }
    assert (others_kept BLOCKSIZE w w' (length (bsets w))) as Hkept.
    { apply others_kept_intro; try assumption.
      intros c cs lc j q _ Hc Hlc Hj.
        destruct (slot_block BLOCKSIZE w c cs lc j q Hok Hc Hlc Hj) as [B HB].
        now apply (slot_words_same BLOCKSIZE _ _ q B). }
    splits; [exact Hok' | |].
    - intros c cs j Hc Hj.
      apply (kept_tested BLOCKSIZE NDEBUG Hpos w w' (length (bsets w)) c cs j);
        try assumption.
      apply lookup_lt_Some in Hc. lia.
    - intros c cs Hc.
      apply (kept_count BLOCKSIZE w w' (length (bsets w)) c cs); try assumption.
      apply lookup_lt_Some in Hc. lia. }
  destruct (hd true (oracle w)) eqn:Ho; cbn [andb].
  - destruct (hd true (tl (oracle w))) eqn:Ho'.
    + destruct (dup_ok_run BLOCKSIZE src S l w Hok Hs Hl Ho Ho')
        as (w' & Hrun & Hcells & Hwords & _).
      exists (OK, Some (length (bsets w))), w'. split; [exact Hrun|].
      destruct (Hframe _ _ Hrun Hwords) as (Hok' & Ht & Hc).
      { intros c Hc. rewrite Hcells. now apply lookup_app_other. }
      assert (bsets w' !! length (bsets w)
              = Some (Some (mk_bitset (bitcount S) (block_count S) (Some l)))) as Hd
        by (rewrite Hcells; now rewrite lookup_app_r, Nat.sub_diag).
      assert (content BLOCKSIZE w' (length (bsets w)) = content BLOCKSIZE w src)
        as Hcontent.
      { unfold content. rewrite Hd, Hs, Hl. cbn [blocks].
        apply list_eq. intros i. rewrite !list_lookup_fmap.
        destruct (l !! i) as [[q|]|] eqn:Hi; cbn; [|reflexivity..].
        destruct (slot_block BLOCKSIZE w src S l i q Hok Hs Hl Hi) as [B HB].
        f_equal. now apply (slot_words_same BLOCKSIZE _ _ q B). }
      splits; try assumption; [reflexivity | | |].
      * unfold bitset_bitcount, bind, load_bitset. now rewrite Hd.
      * intros j Hj.
        rewrite (tested_content BLOCKSIZE NDEBUG w' _ _ j Hok' Hpos Hd Hj).
        rewrite (tested_content BLOCKSIZE NDEBUG w src S j Hok Hpos Hs Hj).
        now rewrite Hcontent.
      * eexists. split; [apply (count_content BLOCKSIZE w src S Hok Hs)|].
        rewrite <- Hcontent. apply (count_content BLOCKSIZE w' _ _ Hok' Hd).
    + pose proof (dup_fail_second_run BLOCKSIZE src S w Hok Hs Ho Ho') as Hrun.
      eexists _, _. split; [exact Hrun|].
      destruct (Hframe _ _ Hrun (same_words_refl _) (lookup_app_other (bsets w) _)) as (Hok' & Ht & Hc).
      splits; try assumption; [reflexivity|].
      intros d ds Hd. cbn [bsets] in Hd.
      destruct (decide (d < length (bsets w))%nat) as [Hlt|Hge].
      * now rewrite lookup_app_l in Hd.
      * rewrite lookup_app_r in Hd by lia.
        destruct (d - length (bsets w))%nat; discriminate.
  - pose proof (dup_fail_first_run src w Ho) as Hrun.
    eexists _, _. split; [exact Hrun|].
    destruct (Hframe _ _ Hrun (same_words_refl _) (fun c _ => eq_refl))
      as (Hok' & Ht & Hc).
    splits; try assumption; [reflexivity|]. intros d ds Hd. exact Hd.
Qed.

Lemma bitset_dup_effect_witness :
  exists r w',
    bitset_dup (Some 0%nat) (Some None) Scenario.w_a = Ret r w'
    /\ world_ok 2 w'
    /\ (forall c cs j,
           bsets Scenario.w_a !! c = Some (Some cs) -> 0 <= j < bitcount cs ->
           tested 2 false w' c j = tested 2 false Scenario.w_a c j)
    /\ (forall c cs,
           bsets Scenario.w_a !! c = Some (Some cs) ->
           exists m, bitset_set_count (Some c) Scenario.w_a
               = Ret (inr m) Scenario.w_a
                     /\ bitset_set_count (Some c) w' = Ret (inr m) w')
    /\ (if hd true (oracle Scenario.w_a) && hd true (tl (oracle Scenario.w_a))
        then r = (OK, Some (length (bsets Scenario.w_a)))
             /\ bitset_bitcount (Some (length (bsets Scenario.w_a))) w'
                = Ret (inr (200)) w'
             /\ (forall j, 0 <= j < 200 ->
                           tested 2 false w' (length (bsets Scenario.w_a)) j
                           = tested 2 false Scenario.w_a 0%nat j)
             /\ exists m, bitset_set_count (Some 0%nat) Scenario.w_a
                 = Ret (inr m) Scenario.w_a
                          /\ bitset_set_count (Some (length (bsets
                              Scenario.w_a))) w'
                             = Ret (inr m) w'
        else r = (ERRMEM, None)
             /\ forall d ds, bsets w' !! d = Some (Some ds) ->
                             bsets Scenario.w_a !! d = Some (Some ds)).
Proof.
  apply (bitset_dup_effect 2 false Scenario.w_a 0%nat
      (mk_bitset 200 2 (Some [Some 0%nat; Some 1%nat]))).
  - exact (reachable_world_ok 2 false _ reachable_w_a).
  - lia.
  - reflexivity.
Defined.

(** X9: on a well-formed memory [bitset_free] of a live bitset returns;
    the memory stays well formed, the bitset is gone and no other
    appears, the allocator is not asked, and every other bitset tests
    and counts as before, whichever blocks it shared with the one
    freed. *)
Theorem bitset_free_effect (BLOCKSIZE : nat) (NDEBUG : bool) (w : world)
        (a : ptr) (A : bitset) :
  world_ok BLOCKSIZE w -> (0 < BLOCKSIZE)%nat ->
  bsets w !! a = Some (Some A) ->
  exists w',
    bitset_free (Some a) w = Ret tt w'
    /\ world_ok BLOCKSIZE w'
    /\ bsets w' !! a = Some None
    /\ oracle w' = oracle w
    /\ (forall d ds, bsets w' !! d = Some (Some ds) ->
                     d <> a /\ bsets w !! d = Some (Some ds))
    /\ (forall c cs j,
           c <> a -> bsets w !! c = Some (Some cs) -> 0 <= j < bitcount cs ->
           tested BLOCKSIZE NDEBUG w' c j = tested BLOCKSIZE NDEBUG w c j)
    /\ (forall c cs,
           c <> a -> bsets w !! c = Some (Some cs) ->
           exists m, bitset_set_count (Some c) w = Ret (inr m) w
                     /\ bitset_set_count (Some c) w' = Ret (inr m) w').
Proof.
  intros Hok Hpos Ha.
  destruct (free_kept BLOCKSIZE w a A Hok Ha)
    as (w' & Hrun & Hcells & Horacle & Hkept).
  exists w'. splits; try assumption.
  - apply Hkept.
  - rewrite Hcells. apply list_lookup_insert_eq.
    eapply lookup_lt_Some; eassumption.
  - intros d ds Hd. rewrite Hcells in Hd.
    destruct (decide (d = a)) as [->|Hne].
    + rewrite list_lookup_insert_eq in Hd
        by (eapply lookup_lt_Some; eassumption).
      discriminate.
    + rewrite list_lookup_insert_ne in Hd by congruence. now split.
  - intros c cs j Hne Hc Hj.
    now apply (kept_tested BLOCKSIZE NDEBUG Hpos w w' a c cs j).
  - intros c cs Hne Hc. now apply (kept_count BLOCKSIZE w w' a c cs).
Qed.

Lemma bitset_free_effect_witness :
  exists w',
    bitset_free (Some 0%nat) Scenario.w_ab = Ret tt w'
    /\ world_ok 2 w'
    /\ bsets w' !! 0%nat = Some None
    /\ oracle w' = oracle Scenario.w_ab
    /\ (forall d ds, bsets w' !! d = Some (Some ds) ->
                     d <> 0%nat /\ bsets Scenario.w_ab !! d = Some (Some ds))
    /\ (forall c cs j,
           c <> 0%nat -> bsets Scenario.w_ab !! c = Some (Some cs) ->
               0 <= j < bitcount cs ->
           tested 2 false w' c j = tested 2 false Scenario.w_ab c j)
    /\ (forall c cs,
           c <> 0%nat -> bsets Scenario.w_ab !! c = Some (Some cs) ->
           exists m, bitset_set_count (Some c) Scenario.w_ab
               = Ret (inr m) Scenario.w_ab
                     /\ bitset_set_count (Some c) w' = Ret (inr m) w').
Proof.
  apply (bitset_free_effect 2 false Scenario.w_ab 0%nat
      (mk_bitset 200 2 (Some [Some 0%nat; Some 1%nat]))).
  - exact (reachable_world_ok 2 false _ reachable_w_ab).
  - lia.
  - reflexivity.
Defined.

(** X10: on a well-formed memory [bitset_union] on two live bitsets of
    one capacity, which may be the same bitset, with a proper output
    parameter returns [OK] or [ERRMEM], and [OK] when the allocator
    never fails; the memory stays well formed and every bitset there
    was, both operands included, tests and counts as before. On [OK]
    the result is a bitset at a fresh address with the capacity of the
    operands, whose every test is the disjunction of what the tests on
    the two operands were.
    On [ERRMEM] nothing is handed out and the live bitsets are those
    there were: the duplicate [bitset_or] worked on has been freed. *)
Theorem bitset_union_effect (BLOCKSIZE : nat) (NDEBUG : bool) (w : world)
        (a b : ptr) (A B : bitset) :
  world_ok BLOCKSIZE w -> (0 < BLOCKSIZE)%nat ->
  bsets w !! a = Some (Some A) -> bsets w !! b = Some (Some B) ->
  bitcount A = bitcount B ->
  exists r w',
    bitset_union BLOCKSIZE NDEBUG (Some a) (Some b) (Some None) w = Ret r w'
    /\ world_ok BLOCKSIZE w'
    /\ (forall c cs j,
           bsets w !! c = Some (Some cs) -> 0 <= j < bitcount cs ->
           tested BLOCKSIZE NDEBUG w' c j = tested BLOCKSIZE NDEBUG w c j)
    /\ (forall c cs,
           bsets w !! c = Some (Some cs) ->
           exists n, bitset_set_count (Some c) w = Ret (inr n) w
                     /\ bitset_set_count (Some c) w' = Ret (inr n) w')
    /\ (fst r = OK \/ fst r = ERRMEM)
    /\ (Forall (eq true) (oracle w) -> fst r = OK)
    /\ (fst r = OK ->
        snd r = Some (length (bsets w))
        /\ bitset_bitcount (Some (length (bsets w))) w'
           = Ret (inr (bitcount A)) w'
        /\ forall j, 0 <= j < bitcount A ->
                     tested BLOCKSIZE NDEBUG w' (length (bsets w)) j
                     = tested BLOCKSIZE NDEBUG w a j || tested BLOCKSIZE NDEBUG w b j)
    /\ (fst r <> OK ->
        snd r = None
        /\ forall d ds, bsets w' !! d = Some (Some ds) ->
                        bsets w !! d = Some (Some ds)).
Proof.
  intros Hok Hpos Ha Hb Hcap.
  apply (on_duplicate_binary BLOCKSIZE NDEBUG Hpos (bitset_or_body BLOCKSIZE NDEBUG)
           Z.lor orb w a b A B);
    try assumption.
  - intros a0 b0 w0 bs bb l lb j sa sb Hok0 Ha0 Hl0 Hb0 Hlb0 Hsa Hsb.
    apply (or_body_row BLOCKSIZE NDEBUG w0 a0 b0 bs bb l lb j sa sb); assumption.
  - intros x y i _. apply Z.lor_spec.
Qed.

Lemma bitset_union_effect_witness :
  exists r w',
    bitset_union 2 false (Some 0%nat) (Some 1%nat) (Some None)
        Scenario.w_union = Ret r w'
    /\ world_ok 2 w'
    /\ (forall c cs j,
           bsets Scenario.w_union !! c = Some (Some cs) ->
               0 <= j < bitcount cs ->
           tested 2 false w' c j = tested 2 false Scenario.w_union c j)
    /\ (forall c cs,
           bsets Scenario.w_union !! c = Some (Some cs) ->
           exists n, bitset_set_count (Some c) Scenario.w_union
               = Ret (inr n) Scenario.w_union
                     /\ bitset_set_count (Some c) w' = Ret (inr n) w')
    /\ (fst r = OK \/ fst r = ERRMEM)
    /\ (Forall (eq true) (oracle Scenario.w_union) -> fst r = OK)
    /\ (fst r = OK ->
        snd r = Some (length (bsets Scenario.w_union))
        /\ bitset_bitcount (Some (length (bsets Scenario.w_union))) w'
           = Ret (inr (64)) w'
        /\ forall j, 0 <= j < 64 ->
                     tested 2 false w' (length (bsets Scenario.w_union)) j
                     = tested 2 false
                         Scenario.w_union 0%nat j || tested 2 false
                             Scenario.w_union 1%nat j)
    /\ (fst r <> OK ->
        snd r = None
        /\ forall d ds, bsets w' !! d = Some (Some ds) ->
                        bsets Scenario.w_union !! d = Some (Some ds)).
Proof.
  apply (bitset_union_effect 2 false Scenario.w_union 0%nat 1%nat
      (mk_bitset 64 1 (Some [None])) (mk_bitset 64 1 (Some [Some 0%nat]))).
  - exact (reachable_world_ok 2 false _ reachable_w_union).
  - lia.
  - reflexivity.
  - reflexivity.
  - reflexivity.
Defined.

(** X11: on a well-formed memory [bitset_intersect] on two live bitsets of
    one capacity, which may be the same bitset, with a proper output
    parameter returns [OK] or [ERRMEM], and [OK] when the allocator
    never fails; the memory stays well formed and every bitset there
    was, both operands included, tests and counts as before. On [OK]
    the result is a bitset at a fresh address with the capacity of the
    operands, whose every test is the conjunction of what the tests
    on the two operands were.
    On [ERRMEM] nothing is handed out and the live bitsets are those
    there were: the duplicate [bitset_and] worked on has been freed. *)
Theorem bitset_intersect_effect (BLOCKSIZE : nat) (NDEBUG : bool) (w : world)
        (a b : ptr) (A B : bitset) :
  world_ok BLOCKSIZE w -> (0 < BLOCKSIZE)%nat ->
  bsets w !! a = Some (Some A) -> bsets w !! b = Some (Some B) ->
  bitcount A = bitcount B ->
  exists r w',
    bitset_intersect BLOCKSIZE NDEBUG (Some a) (Some b) (Some None) w = Ret r w'
    /\ world_ok BLOCKSIZE w'
    /\ (forall c cs j,
           bsets w !! c = Some (Some cs) -> 0 <= j < bitcount cs ->
           tested BLOCKSIZE NDEBUG w' c j = tested BLOCKSIZE NDEBUG w c j)
    /\ (forall c cs,
           bsets w !! c = Some (Some cs) ->
           exists n, bitset_set_count (Some c) w = Ret (inr n) w
                     /\ bitset_set_count (Some c) w' = Ret (inr n) w')
    /\ (fst r = OK \/ fst r = ERRMEM)
    /\ (Forall (eq true) (oracle w) -> fst r = OK)
    /\ (fst r = OK ->
        snd r = Some (length (bsets w))
        /\ bitset_bitcount (Some (length (bsets w))) w'
           = Ret (inr (bitcount A)) w'
        /\ forall j, 0 <= j < bitcount A ->
                     tested BLOCKSIZE NDEBUG w' (length (bsets w)) j
                     = tested BLOCKSIZE NDEBUG w a j && tested BLOCKSIZE NDEBUG w b j)
    /\ (fst r <> OK ->
        snd r = None
        /\ forall d ds, bsets w' !! d = Some (Some ds) ->
                        bsets w !! d = Some (Some ds)).
Proof.
  intros Hok Hpos Ha Hb Hcap.
  apply (on_duplicate_binary BLOCKSIZE NDEBUG Hpos (bitset_and_body BLOCKSIZE NDEBUG)
           Z.land andb w a b A B);
    try assumption.
  - intros a0 b0 w0 bs bb l lb j sa sb Hok0 Ha0 Hl0 Hb0 Hlb0 Hsa Hsb.
    apply (and_body_row BLOCKSIZE NDEBUG w0 a0 b0 bs bb l lb j sa sb); assumption.
  - intros x y i _. apply Z.land_spec.
Qed.

Lemma bitset_intersect_effect_witness :
  exists r w',
    bitset_intersect 2 false (Some 1%nat) (Some 0%nat) (Some None)
        Scenario.w_union = Ret r w'
    /\ world_ok 2 w'
    /\ (forall c cs j,
           bsets Scenario.w_union !! c = Some (Some cs) ->
               0 <= j < bitcount cs ->
           tested 2 false w' c j = tested 2 false Scenario.w_union c j)
    /\ (forall c cs,
           bsets Scenario.w_union !! c = Some (Some cs) ->
           exists n, bitset_set_count (Some c) Scenario.w_union
               = Ret (inr n) Scenario.w_union
                     /\ bitset_set_count (Some c) w' = Ret (inr n) w')
    /\ (fst r = OK \/ fst r = ERRMEM)
    /\ (Forall (eq true) (oracle Scenario.w_union) -> fst r = OK)
    /\ (fst r = OK ->
        snd r = Some (length (bsets Scenario.w_union))
        /\ bitset_bitcount (Some (length (bsets Scenario.w_union))) w'
           = Ret (inr (64)) w'
        /\ forall j, 0 <= j < 64 ->
                     tested 2 false w' (length (bsets Scenario.w_union)) j
                     = tested 2 false
                         Scenario.w_union 1%nat j && tested 2 false
                             Scenario.w_union 0%nat j)
    /\ (fst r <> OK ->
        snd r = None
        /\ forall d ds, bsets w' !! d = Some (Some ds) ->
                        bsets Scenario.w_union !! d = Some (Some ds)).
Proof.
  apply (bitset_intersect_effect 2 false Scenario.w_union 1%nat 0%nat
      (mk_bitset 64 1 (Some [Some 0%nat])) (mk_bitset 64 1 (Some [None]))).
  - exact (reachable_world_ok 2 false _ reachable_w_union).
  - lia.
  - reflexivity.
  - reflexivity.
  - reflexivity.
Defined.

(** X12: on a well-formed memory [bitset_difference] on two live bitsets of
    one capacity, which may be the same bitset, with a proper output
    parameter returns [OK] or [ERRMEM], and [OK] when the allocator
    never fails; the memory stays well formed and every bitset there
    was, both operands included, tests and counts as before. On [OK]
    the result is a bitset at a fresh address with the capacity of the
    operands, whose every test is what the test on [a] was and the
    test on [b] was not.
    On [ERRMEM] nothing is handed out and the live bitsets are those
    there were: the duplicate [bitset_subtract] worked on has been freed. *)
Theorem bitset_difference_effect (BLOCKSIZE : nat) (NDEBUG : bool) (w : world)
        (a b : ptr) (A B : bitset) :
  world_ok BLOCKSIZE w -> (0 < BLOCKSIZE)%nat ->
  bsets w !! a = Some (Some A) -> bsets w !! b = Some (Some B) ->
  bitcount A = bitcount B ->
  exists r w',
    bitset_difference BLOCKSIZE NDEBUG (Some a) (Some b) (Some None) w = Ret r w'
    /\ world_ok BLOCKSIZE w'
    /\ (forall c cs j,
           bsets w !! c = Some (Some cs) -> 0 <= j < bitcount cs ->
           tested BLOCKSIZE NDEBUG w' c j = tested BLOCKSIZE NDEBUG w c j)
    /\ (forall c cs,
           bsets w !! c = Some (Some cs) ->
           exists n, bitset_set_count (Some c) w = Ret (inr n) w
                     /\ bitset_set_count (Some c) w' = Ret (inr n) w')
    /\ (fst r = OK \/ fst r = ERRMEM)
    /\ (Forall (eq true) (oracle w) -> fst r = OK)
    /\ (fst r = OK ->
        snd r = Some (length (bsets w))
        /\ bitset_bitcount (Some (length (bsets w))) w'
           = Ret (inr (bitcount A)) w'
        /\ forall j, 0 <= j < bitcount A ->
                     tested BLOCKSIZE NDEBUG w' (length (bsets w)) j
                     = tested BLOCKSIZE NDEBUG w a j
                       && negb (tested BLOCKSIZE NDEBUG w b j))
    /\ (fst r <> OK ->
        snd r = None
        /\ forall d ds, bsets w' !! d = Some (Some ds) ->
                        bsets w !! d = Some (Some ds)).
Proof.
  intros Hok Hpos Ha Hb Hcap.
  apply (on_duplicate_binary BLOCKSIZE NDEBUG Hpos (bitset_subtract_body BLOCKSIZE NDEBUG)
           word_subtract (fun x y => x && negb y) w a b A B);
    try assumption.
  - intros a0 b0 w0 bs bb l lb j sa sb Hok0 Ha0 Hl0 Hb0 Hlb0 Hsa Hsb.
    apply (subtract_body_row BLOCKSIZE NDEBUG w0 a0 b0 bs bb l lb j sa sb); assumption.
  - intros x y i Hi. unfold word_subtract.
    now rewrite Z.land_spec, WordFacts.testbit_not.
Qed.

Lemma bitset_difference_effect_witness :
  exists r w',
    bitset_difference 2 false (Some 1%nat) (Some 1%nat) (Some None)
        Scenario.w_union = Ret r w'
    /\ world_ok 2 w'
    /\ (forall c cs j,
           bsets Scenario.w_union !! c = Some (Some cs) ->
               0 <= j < bitcount cs ->
           tested 2 false w' c j = tested 2 false Scenario.w_union c j)
    /\ (forall c cs,
           bsets Scenario.w_union !! c = Some (Some cs) ->
           exists n, bitset_set_count (Some c) Scenario.w_union
               = Ret (inr n) Scenario.w_union
                     /\ bitset_set_count (Some c) w' = Ret (inr n) w')
    /\ (fst r = OK \/ fst r = ERRMEM)
    /\ (Forall (eq true) (oracle Scenario.w_union) -> fst r = OK)
    /\ (fst r = OK ->
        snd r = Some (length (bsets Scenario.w_union))
        /\ bitset_bitcount (Some (length (bsets Scenario.w_union))) w'
           = Ret (inr (64)) w'
        /\ forall j, 0 <= j < 64 ->
                     tested 2 false w' (length (bsets Scenario.w_union)) j
                     = tested 2 false Scenario.w_union 1%nat j
                       && negb (tested 2 false Scenario.w_union 1%nat j))
    /\ (fst r <> OK ->
        snd r = None
        /\ forall d ds, bsets w' !! d = Some (Some ds) ->
                        bsets Scenario.w_union !! d = Some (Some ds)).
Proof.
  apply (bitset_difference_effect 2 false Scenario.w_union 1%nat 1%nat
      (mk_bitset 64 1 (Some [Some 0%nat]))
          (mk_bitset 64 1 (Some [Some 0%nat]))).
  - exact (reachable_world_ok 2 false _ reachable_w_union).
  - lia.
  - reflexivity.
  - reflexivity.
  - reflexivity.
Defined.

(** X13: on a well-formed memory [bitset_invert] on a live bitset whose
    blocks, the full ones apart, are held by no other slot returns [OK],
    or [ERRMEM], and [OK] when the allocator never fails, with
    assertions compiled in or not; the memory stays well formed;
    whatever it returns, no test and no count of another bitset
    changes. When it returns [OK], every test on the bitset below its
    capacity is the negation of what it was; and where the number of
    bits of all its blocks, padding included, is an [int], the count
    that [bitset_set_count] adds up in its [int] is, after the call,
    that number less what the count was before, both counts lying
    between 0 and that number. *)
Theorem bitset_invert_effect (BLOCKSIZE : nat) (NDEBUG : bool) (w : world)
        (a : ptr) (A : bitset) (l : list pointer) :
  world_ok BLOCKSIZE w -> (0 < BLOCKSIZE)%nat ->
  bsets w !! a = Some (Some A) -> blocks A = Some l ->
  (forall k p B,
      l !! k = Some (Some p) -> blks w !! p = Some (Some B) ->
      set_count B <> IDSPERBLOCK BLOCKSIZE -> ref_count B = 1) ->
  exists r w',
    bitset_invert BLOCKSIZE NDEBUG (Some a) w = Ret r w'
    /\ (r = OK \/ r = ERRMEM)
    /\ (Forall (eq true) (oracle w) -> r = OK)
    /\ world_ok BLOCKSIZE w'
    /\ (forall c cs j,
           c <> a -> bsets w !! c = Some (Some cs) -> 0 <= j < bitcount cs ->
           tested BLOCKSIZE NDEBUG w' c j = tested BLOCKSIZE NDEBUG w c j)
    /\ (forall c cs,
           c <> a -> bsets w !! c = Some (Some cs) ->
           exists n, bitset_set_count (Some c) w = Ret (inr n) w
                     /\ bitset_set_count (Some c) w' = Ret (inr n) w')
    /\ (r = OK ->
        (forall j, 0 <= j < bitcount A ->
                   tested BLOCKSIZE NDEBUG w' a j
                   = negb (tested BLOCKSIZE NDEBUG w a j))
        /\ (IDSPERBLOCK BLOCKSIZE * block_count A <= INT_MAX ->
            exists n,
              0 <= n <= IDSPERBLOCK BLOCKSIZE * block_count A
              /\ bitset_set_count_int (Some a) w = Ret (inr n) w
              /\ bitset_set_count_int (Some a) w'
                 = Ret (inr (IDSPERBLOCK BLOCKSIZE * block_count A - n)) w')).
Proof.
  intros Hok Hpos Ha Hl Hown.
  assert (unshared_from BLOCKSIZE w a 0) as Hun.
  { intros bs' l' i p B Ha' Hl' _ Hi HB Hnf.
    assert (bs' = A) as -> by congruence.
    assert (l' = l) as -> by congruence.
    now apply (Hown i p B). }
  destruct (invert_run BLOCKSIZE NDEBUG a w A Hok Ha Hun)
    as (r & w' & Hrun & Hr & Hfr & Hor & Hcontent).
  exists r, w'. splits; try assumption.
  - apply Hfr.
  - intros c cs j Hne Hc Hj.
    apply (kept_tested BLOCKSIZE NDEBUG Hpos w w' a c cs j);
      auto using frame_but_others.
  - intros c cs Hne Hc.
    apply (kept_count BLOCKSIZE w w' a c cs); auto using frame_but_others.
  - intros HOK.
    pose proof Hfr as (Hok' & _ & (A0 & A' & HA0 & HA' & EA)).
    assert (A0 = A) as -> by congruence.
    split.
    + intros j Hj.
      rewrite (tested_content BLOCKSIZE NDEBUG w' a A' j Hok' Hpos HA') by lia.
      rewrite (tested_content BLOCKSIZE NDEBUG w a A j Hok Hpos Ha Hj).
      destruct (shape BLOCKSIZE w a A j Hok Hpos Ha Hj)
        as (l0 & sa & Hl0 & _ & _ & _ & Hsa & _).
      pose proof (content_lookup BLOCKSIZE w a A l0 _ sa Ha Hl0 Hsa) as Hra.
      pose proof (Hcontent HOK _ _ Hra) as Hrow.
      rewrite (bit_of_lookup BLOCKSIZE _ _ j Hrow).
      rewrite (bit_of_lookup BLOCKSIZE _ _ j Hra).
      apply (bit_of_row_not BLOCKSIZE Hpos); [|lia].
      apply (content_row_length BLOCKSIZE w a A _ _ Hok Ha Hra).
    + intros Hrange.
      destruct (count_int_content BLOCKSIZE w a A Hpos Hok Ha) as [Hn Hcount].
      destruct (count_int_content BLOCKSIZE w' a A' Hpos Hok' HA') as [_ Hcount'].
      exists (popcount_rows (content BLOCKSIZE w a)).
      split; [exact Hn|].
      split; [apply Hcount; lia|].
      revert Hcount'.
      destruct (frame_but_slots BLOCKSIZE w w' a A l Hok Hfr Ha Hl)
        as (A2 & l' & HA2 & Hl' & Hlen' & _).
      assert (A2 = A') as -> by congruence.
      assert (content BLOCKSIZE w' a = map (map Word.not) (content BLOCKSIZE w a))
        as ->.
      { apply list_eq. intros i. rewrite list_lookup_fmap.
        destruct (content BLOCKSIZE w a !! i) as [ra|] eqn:Hra; cbn.
        - now apply (Hcontent HOK).
        - apply lookup_ge_None. apply lookup_ge_None in Hra.
          rewrite (content_length BLOCKSIZE w' a A' l' HA' Hl').
          rewrite (content_length BLOCKSIZE w a A l Ha Hl) in Hra. lia. }
      rewrite (popcount_rows_not BLOCKSIZE Hpos).
      * rewrite (content_length BLOCKSIZE w a A l Ha Hl).
        pose proof (proj1 (world_ok_inv BLOCKSIZE w) Hok) as Hinv.
        destruct (inv_bitset _ _ _ _ _ Hinv Ha) as (l1 & Hl1 & Hlen & _ & Hbc).
        assert (l1 = l) as -> by congruence.
        replace (Z.of_nat (length l)) with (block_count A) by lia.
        intros Hcount'. apply Hcount'. lia.
      * apply Forall_forall. intros ra Hin.
        apply list_elem_of_lookup in Hin as [i Hi].
        apply (content_row_length BLOCKSIZE w a A _ _ Hok Ha Hi).
Qed.

Lemma bitset_invert_effect_witness :
  exists w',
    bitset_invert 2 false (Some 0%nat) Scenario.w_a = Ret OK w'
    /\ world_ok 2 w'
    /\ (forall j, 0 <= j < 200 ->
                  tested 2 false w' 0%nat j
                  = negb (tested 2 false Scenario.w_a 0%nat j))
    /\ bitset_set_count_int (Some 0%nat) Scenario.w_a = Ret (inr 2) Scenario.w_a
    /\ bitset_set_count_int (Some 0%nat) w' = Ret (inr (IDSPERBLOCK 2 * 2 - 2)) w'.
Proof.
  destruct (bitset_invert_effect 2 false Scenario.w_a 0%nat
              (mk_bitset 200 2 (Some [Some 0%nat; Some 1%nat]))
              [Some 0%nat; Some 1%nat])
    as (r & w' & Hrun & _ & Hall & Hok' & _ & _ & HOK).
  - exact (reachable_world_ok 2 false _ reachable_w_a).
  - lia.
  - reflexivity.
  - reflexivity.
  - intros k p B Hk HB _; destruct k as [|[|k]]; cbn in Hk; try discriminate Hk;
      injection Hk as <-; vm_compute in HB; injection HB as <-; reflexivity.
  - assert (r = OK) as -> by (apply Hall; vm_compute; constructor).
    destruct (HOK eq_refl) as [Htests Hcount].
    destruct Hcount as (n & _ & Hn & Hn'); [vm_compute; discriminate|].
    assert (n = 2) as ->
      by (vm_compute in Hn; injection Hn as <-; reflexivity).
    exists w'. split; [exact Hrun|]. split; [exact Hok'|].
    split; [exact Htests|]. split; [exact Hn | exact Hn'].
Defined.

(** X14: on a live bitset an index that is negative or not below the
    capacity is refused by [bitset_set], [bitset_clr],
    [bitset_toggle_bit] and [bitset_test_bit] alike: each returns
    [ERRINPUT], writes nothing to the memory and, for the test, nothing
    to the output location. *)
Theorem bit_index_out_of_range (BLOCKSIZE : nat) (NDEBUG : bool) (w : world)
        (a : ptr) (A : bitset) (bit : Z) (out : option Z) :
  bsets w !! a = Some (Some A) -> bit < 0 \/ bitcount A <= bit ->
  bitset_set BLOCKSIZE NDEBUG (Some a) bit w = Ret ERRINPUT w
  /\ bitset_clr BLOCKSIZE NDEBUG (Some a) bit w = Ret ERRINPUT w
  /\ bitset_toggle_bit BLOCKSIZE NDEBUG (Some a) bit w = Ret ERRINPUT w
  /\ bitset_test_bit BLOCKSIZE NDEBUG (Some a) bit out w = Ret (ERRINPUT, out) w.
Proof.
  intros Ha Hbit.
  assert (out_of_range a bit w = Ret true w) as Hbad.
  { unfold out_of_range. destruct (Z.ltb_spec bit 0); [reflexivity|].
    rewrite (bind_run _ _ _ _ _ (load_bitset_run a w A Ha)). unfold ret.
    do 2 f_equal. apply Z.geb_le. lia. }
  unfold bitset_set, bitset_clr, bitset_toggle_bit, bitset_test_bit, deref.
  splits; unfold bind at 1, ret at 1; rewrite (bind_run _ _ _ _ _ Hbad);
    reflexivity.
Qed.

Lemma bit_index_out_of_range_witness :
  bitset_set 2 false (Some 0%nat) 200 Scenario.w_a = Ret ERRINPUT Scenario.w_a
  /\ bitset_clr 2 false (Some 0%nat) 200 Scenario.w_a
      = Ret ERRINPUT Scenario.w_a
  /\ bitset_toggle_bit 2 false (Some 0%nat) 200 Scenario.w_a
      = Ret ERRINPUT Scenario.w_a
  /\ bitset_test_bit 2 false (Some 0%nat) 200 (Some 0) Scenario.w_a
      = Ret (ERRINPUT, (Some 0)) Scenario.w_a.
Proof.
  apply (bit_index_out_of_range 2 false Scenario.w_a 0%nat
      (mk_bitset 200 2 (Some [Some 0%nat; Some 1%nat])) 200 (Some 0)).
  - reflexivity.
  - right; cbn; lia.
Defined.

(** X15: on a well-formed memory [bitset_test_bit] on a live bitset at
    an index below its capacity returns [OK] and writes 0 or 1 to the
    output location, the same whatever the location held; it leaves the
    memory as it was and fails no assertion. Without an output location
    it returns [ERRINPUT]. *)
Theorem bitset_test_bit_effect (BLOCKSIZE : nat) (NDEBUG : bool) (w : world)
        (a : ptr) (A : bitset) (j : Z) :
  world_ok BLOCKSIZE w -> (0 < BLOCKSIZE)%nat ->
  bsets w !! a = Some (Some A) -> 0 <= j < bitcount A ->
  (exists t, (t = 0 \/ t = 1)
             /\ forall v, bitset_test_bit BLOCKSIZE NDEBUG (Some a) j (Some v) w
                          = Ret (OK, Some t) w)
  /\ bitset_test_bit BLOCKSIZE NDEBUG (Some a) j None w = Ret (ERRINPUT, None) w.
Proof.
  intros Hok Hpos Ha Hj. split.
  - exists (if bit_of BLOCKSIZE (content BLOCKSIZE w a) j then 1 else 0). split.
    + destruct (bit_of _ _ _); auto.
    + intros v. now apply (test_content BLOCKSIZE NDEBUG w a A j v).
  - assert (out_of_range a j w = Ret false w) as Hgood.
    { unfold out_of_range. destruct (Z.ltb_spec j 0); [lia|].
      rewrite (bind_run _ _ _ _ _ (load_bitset_run a w A Ha)). unfold ret.
      do 2 f_equal. destruct (Z.geb_spec j (bitcount A)); [lia | reflexivity]. }
    unfold bitset_test_bit, deref. unfold bind at 1, ret at 1.
    rewrite (bind_run _ _ _ _ _ Hgood). reflexivity.
Qed.

Lemma bitset_test_bit_effect_witness :
  (exists t, (t = 0 \/ t = 1)
             /\ forall v, bitset_test_bit 2 false (Some 0%nat) 150 (Some v) Scenario.w_a
                          = Ret (OK, Some t) Scenario.w_a)
  /\ bitset_test_bit 2 false (Some 0%nat) 150 None Scenario.w_a
      = Ret (ERRINPUT, None) Scenario.w_a.
Proof.
  apply (bitset_test_bit_effect 2 false Scenario.w_a 0%nat
      (mk_bitset 200 2 (Some [Some 0%nat; Some 1%nat])) 150).
  - exact (reachable_world_ok 2 false _ reachable_w_a).
  - lia.
  - reflexivity.
  - cbn; lia.
Defined.

(** X16: on a well-formed memory, for a live bitset the number of bits
    of whose blocks, padding included, is an [int], [bitset_set_count],
    adding up in its [int], returns, leaving the memory as it was, a
    count that is at least the number of indices below the capacity at
    which [bitset_test_bit] is true and at most the number of bits of
    the blocks; when the capacity is a multiple of the block capacity,
    the count is exactly that number of indices. *)
Theorem bitset_set_count_counts_tests (BLOCKSIZE : nat) (NDEBUG : bool)
        (w : world) (a : ptr) (A : bitset) :
  world_ok BLOCKSIZE w -> (0 < BLOCKSIZE)%nat ->
  bsets w !! a = Some (Some A) ->
  IDSPERBLOCK BLOCKSIZE * block_count A <= INT_MAX ->
  exists n,
    bitset_set_count_int (Some a) w = Ret (inr n) w
    /\ 0 <= n <= INT_MAX
    /\ Z.of_nat (count_tested BLOCKSIZE NDEBUG w a (Z.to_nat (bitcount A))) <= n
    /\ n <= IDSPERBLOCK BLOCKSIZE * block_count A
    /\ (bitcount A = IDSPERBLOCK BLOCKSIZE * block_count A ->
        n = Z.of_nat (count_tested BLOCKSIZE NDEBUG w a (Z.to_nat (bitcount A)))).
Proof.
  intros Hok Hpos Ha Hrange.
  destruct (count_int_content BLOCKSIZE w a A Hpos Hok Ha) as [Hn Hcount].
  pose proof (proj1 (world_ok_inv BLOCKSIZE w) Hok) as Hinv.
  destruct (inv_bitset _ _ _ _ _ Hinv Ha) as (l & Hl & Hlen & Hbc & Hr).
  pose proof (content_length BLOCKSIZE w a A l Ha Hl) as Hrows.
  assert (Forall (fun ra => length ra = BLOCKSIZE) (content BLOCKSIZE w a))
    as Hrow.
  { apply Forall_forall. intros ra Hin.
    apply list_elem_of_lookup in Hin as [i Hi].
    apply (content_row_length BLOCKSIZE w a A _ _ Hok Ha Hi). }
  assert (count_tested BLOCKSIZE NDEBUG w a (Z.to_nat (bitcount A))
          = length (filter (fun i => tested BLOCKSIZE NDEBUG w a (Z.of_nat i) = true)
                           (seq 0 (Z.to_nat (bitcount A))))) as Hct by reflexivity.
  assert (Z.of_nat (count_tested BLOCKSIZE NDEBUG w a (Z.to_nat (bitcount A)))
          = count_true (bit_of BLOCKSIZE (content BLOCKSIZE w a))
                       (Z.to_nat (bitcount A))) as Htests.
  { rewrite Hct, (count_filter (tested BLOCKSIZE NDEBUG w a)).
    apply count_true_ext. intros i Hi.
    apply (tested_content BLOCKSIZE NDEBUG w a A i Hok Hpos Ha). lia. }
  assert (Z.of_nat (length l * (BLOCKSIZE * 64))
          = IDSPERBLOCK BLOCKSIZE * block_count A) as Hbits
    by (unfold IDSPERBLOCK; lia).
  assert (bitcount A <= IDSPERBLOCK BLOCKSIZE * block_count A) as Hcap.
  { rewrite Hbc. unfold BLOCKCOUNT.
    assert (0 < IDSPERBLOCK BLOCKSIZE) as Hp by (unfold IDSPERBLOCK; lia).
    pose proof (Z.mul_div_le (- bitcount A) (IDSPERBLOCK BLOCKSIZE) Hp). lia. }
  exists (popcount_rows (content BLOCKSIZE w a)).
  split; [apply Hcount; lia|].
  split; [lia|]. clear Hn Hcount.
  rewrite Htests, (popcount_rows_count BLOCKSIZE Hpos _ Hrow), Hrows.
  splits.
  - apply count_true_le. lia.
  - rewrite <- Hbits. apply count_true_bounds.
  - intros E. f_equal. lia.
Qed.

Lemma bitset_set_count_counts_tests_witness :
  bitset_set_count_int (Some 1%nat) Scenario.w_shared_oom
  = Ret (inr 1) Scenario.w_shared_oom
  /\ Z.of_nat (count_tested 2 false Scenario.w_shared_oom 1%nat (Z.to_nat 128)) = 1.
Proof.
  destruct (bitset_set_count_counts_tests 2 false Scenario.w_shared_oom 1%nat
              (mk_bitset 128 1 (Some [Some 0%nat])))
    as (n & Hn & _ & _ & _ & Hexact).
  - exact (reachable_world_ok 2 false _ reachable_w_shared_oom).
  - lia.
  - reflexivity.
  - vm_compute; discriminate.
  - specialize (Hexact eq_refl).
    assert (n = 1) as ->
      by (vm_compute in Hn; injection Hn as <-; reflexivity).
    split; [exact Hn | symmetry; exact Hexact].
Defined.

(** X17: on a well-formed memory [bitset_inverse] on a live bitset
    every present block of which is full, with a proper output
    parameter, returns [OK] or [ERRMEM], and [OK] when the allocator
    never fails, with assertions compiled in or not; the memory stays
    well formed and every bitset there was, the operand included, tests
    and counts as before. On [OK] the result is a bitset at a fresh
    address with the capacity of the operand, whose every test below
    the capacity is the negation of the test on the operand; on
    [ERRMEM] nothing is handed out and the live bitsets are those there
    were. *)
Theorem bitset_inverse_effect (BLOCKSIZE : nat) (NDEBUG : bool) (w : world)
        (a : ptr) (A : bitset) (l : list pointer) :
  world_ok BLOCKSIZE w -> (0 < BLOCKSIZE)%nat ->
  bsets w !! a = Some (Some A) -> blocks A = Some l ->
  (forall k p B,
      l !! k = Some (Some p) -> blks w !! p = Some (Some B) ->
      set_count B = IDSPERBLOCK BLOCKSIZE) ->
  exists r w',
    bitset_inverse BLOCKSIZE NDEBUG (Some a) (Some None) w = Ret r w'
    /\ world_ok BLOCKSIZE w'
    /\ (forall c cs j,
           bsets w !! c = Some (Some cs) -> 0 <= j < bitcount cs ->
           tested BLOCKSIZE NDEBUG w' c j = tested BLOCKSIZE NDEBUG w c j)
    /\ (forall c cs,
           bsets w !! c = Some (Some cs) ->
           exists n, bitset_set_count (Some c) w = Ret (inr n) w
                     /\ bitset_set_count (Some c) w' = Ret (inr n) w')
    /\ (fst r = OK \/ fst r = ERRMEM)
    /\ (Forall (eq true) (oracle w) -> fst r = OK)
    /\ (fst r = OK ->
        snd r = Some (length (bsets w))
        /\ bitset_bitcount (Some (length (bsets w))) w'
           = Ret (inr (bitcount A)) w'
        /\ forall j, 0 <= j < bitcount A ->
                     tested BLOCKSIZE NDEBUG w' (length (bsets w)) j
                     = negb (tested BLOCKSIZE NDEBUG w a j))
    /\ (fst r <> OK ->
        snd r = None
        /\ forall d ds, bsets w' !! d = Some (Some ds) ->
                        bsets w !! d = Some (Some ds)).
Proof.
  intros Hok Hpos Ha Hl Hfull.
  set (d := length (bsets w)).
  pose proof (fresh_not_live w) as Hfresh. fold d in Hfresh.
  destruct (on_duplicate_run BLOCKSIZE
              (bitset_invert BLOCKSIZE NDEBUG)
              (fun w' =>
                 forall j, 0 <= j < bitcount A ->
                           tested BLOCKSIZE NDEBUG w' d j
                           = negb (tested BLOCKSIZE NDEBUG w a j))
              w a A Hok Ha)
    as (r & w' & Hrun & Hkept & Hr & Hall & HOK & Hfail).
  { intros w1 D Hkept1 Hd1 HcapD HlD Hwords1 Hcontent1.
    fold d in Hkept1, Hd1, Hcontent1.
    pose proof (proj1 Hkept1) as Hok1.
    assert (unshared_from BLOCKSIZE w1 d 0) as Hun.
    { intros bs' l' i p B Hd' Hl' _ Hi HB Hnf. exfalso. apply Hnf.
      assert (bs' = D) as -> by congruence.
      assert (l' = l) as -> by congruence.
      destruct (slot_block BLOCKSIZE w a A l i p Hok Ha Hl Hi) as [B0 HB0].
      destruct (Hwords1 p B0 HB0) as (B' & HB' & E).
      assert (B' = B) as -> by congruence.
      rewrite (ok_count _ _ (ok_blocks _ _ Hok1 p B HB)), E.
      rewrite <- (ok_count _ _ (ok_blocks _ _ Hok p B0 HB0)).
      now apply (Hfull i p B0). }
    destruct (invert_run BLOCKSIZE NDEBUG d w1 D Hok1 Hd1 Hun)
      as (r2 & w2 & Hrun2 & Hr2 & Hfr2 & Hall2 & Hcontent2).
    exists r2, w2. splits; try assumption.
    intros E j Hj.
    pose proof Hfr2 as (Hok2 & _ & (D0 & D2 & HD0 & HD2 & ED)).
    assert (D0 = D) as -> by congruence.
    rewrite (tested_content BLOCKSIZE NDEBUG w2 d D2 j Hok2 Hpos HD2) by lia.
    rewrite (tested_content BLOCKSIZE NDEBUG w a A j Hok Hpos Ha Hj).
    destruct (shape BLOCKSIZE w a A j Hok Hpos Ha Hj)
      as (l0 & sa & Hl0 & _ & _ & _ & Hsa & _).
    pose proof (content_lookup BLOCKSIZE w a A l0 _ sa Ha Hl0 Hsa) as Hra.
    pose proof Hra as Hra1. rewrite <- Hcontent1 in Hra1.
    pose proof (Hcontent2 E _ _ Hra1) as Hrow.
    rewrite (bit_of_lookup BLOCKSIZE _ _ j Hrow).
    rewrite (bit_of_lookup BLOCKSIZE _ _ j Hra).
    apply (bit_of_row_not BLOCKSIZE Hpos); [|lia].
    apply (content_row_length BLOCKSIZE w a A _ _ Hok Ha Hra). }
  destruct (kept_effects BLOCKSIZE NDEBUG Hpos w w' d Hok Hkept Hfresh)
    as (H1 & H2 & H3).
  exists r, w'. splits; try assumption.
  intros E. destruct (HOK E) as (Hs & Ht & Hb'). now splits.
Qed.

Lemma bitset_inverse_effect_witness :
  exists w',
    bitset_inverse 2 false (Some 0%nat) (Some None) Scenario.w_full
    = Ret (OK, Some 1%nat) w'
    /\ world_ok 2 w'
    /\ (forall j, 0 <= j < 128 ->
                  tested 2 false w' 0%nat j = tested 2 false Scenario.w_full 0%nat j)
    /\ (exists n, bitset_set_count (Some 0%nat) Scenario.w_full
                  = Ret (inr n) Scenario.w_full
                  /\ bitset_set_count (Some 0%nat) w' = Ret (inr n) w')
    /\ bitset_bitcount (Some 1%nat) w' = Ret (inr 128) w'
    /\ (forall j, 0 <= j < 128 ->
                  tested 2 false w' 1%nat j
                  = negb (tested 2 false Scenario.w_full 0%nat j)).
Proof.
  destruct (bitset_inverse_effect 2 false Scenario.w_full 0%nat
              (mk_bitset 128 1 (Some [Some 0%nat])) [Some 0%nat])
    as ([r out] & w' & Hrun & Hok' & Hkept & Hcount & _ & Hall & HOK & _).
  - exact (reachable_world_ok 2 false _ reachable_w_full).
  - lia.
  - reflexivity.
  - reflexivity.
  - intros k p B Hk HB; destruct k as [|k]; cbn in Hk; [|discriminate Hk];
      injection Hk as <-; vm_compute in HB; injection HB as <-; reflexivity.
  - cbn [fst snd] in Hall, HOK.
    assert (r = OK) as -> by (apply Hall; vm_compute; constructor).
    destruct (HOK eq_refl) as (-> & Hcap & Hneg).
    exists w'.
    split; [exact Hrun|]. split; [exact Hok'|].
    split; [intros j Hj;
            apply (Hkept 0%nat (mk_bitset 128 1 (Some [Some 0%nat])) j eq_refl Hj)|].
    split; [apply (Hcount 0%nat (mk_bitset 128 1 (Some [Some 0%nat])) eq_refl)|].
    split; [exact Hcap | exact Hneg].
Defined.

(** X18: in every memory a client can reach, a block that is alive is
    held: some slot of a live bitset points to it, its [ref_count] is
    positive, it has [BLOCKSIZE] words in range and its [set_count] is
    the number of their 1-bits. No sequence of calls leaks a block or
    leaves a stale count. *)
Theorem no_block_leaked (BLOCKSIZE : nat) (NDEBUG : bool) (w : world)
        (p : ptr) (B : bitset_block) :
  reachable BLOCKSIZE NDEBUG w -> blks w !! p = Some (Some B) ->
  0 < ref_count B
  /\ length (ints B) = BLOCKSIZE
  /\ Forall Word.in_range (ints B)
  /\ set_count B = popcount_list (ints B)
  /\ exists a bs l i,
      bsets w !! a = Some (Some bs) /\ blocks bs = Some l
      /\ l !! i = Some (Some p).
Proof.
  intros Hr HB. apply reachable_world_ok in Hr.
  pose proof (ok_live _ _ Hr p B HB) as Hlive.
  pose proof (ok_blocks _ _ Hr p B HB) as [H1 H2 H3].
  pose proof (ok_refs _ _ Hr p) as Hrefs. rewrite HB in Hrefs.
  unfold no_debt in Hrefs.
  splits; try assumption.
  apply owners_in_holder. unfold owners in Hrefs. lia.
Qed.

Lemma no_block_leaked_witness :
  0 < ref_count (mk_block 2 1 [4194304; 0])
  /\ length (ints (mk_block 2 1 [4194304; 0])) = 2%nat
  /\ Forall Word.in_range (ints (mk_block 2 1 [4194304; 0]))
  /\ set_count (mk_block 2 1 [4194304; 0])
      = popcount_list (ints (mk_block 2 1 [4194304; 0]))
  /\ exists a bs l i,
      bsets Scenario.w_ab6 !! a = Some (Some bs) /\ blocks bs = Some l
      /\ l !! i = Some (Some 1%nat).
Proof.
  apply (no_block_leaked 2 false Scenario.w_ab6 1%nat
      (mk_block 2 1 [4194304; 0])).
  - exact reachable_w_ab6.
  - reflexivity.
Defined.

(** X19: on a well-formed memory [bitset_set] at an index that already
    tests true, and [bitset_clr] at an index that tests false, return
    [OK] and leave the memory exactly as it was: nothing is allocated
    and the block is not cloned, even when it is shared or the
    allocator would fail. *)
Theorem set_clr_without_effect (BLOCKSIZE : nat) (NDEBUG : bool) (w : world)
        (a : ptr) (A : bitset) (bit : Z) :
  world_ok BLOCKSIZE w -> (0 < BLOCKSIZE)%nat ->
  bsets w !! a = Some (Some A) -> 0 <= bit < bitcount A ->
  (tested BLOCKSIZE NDEBUG w a bit = true ->
   bitset_set BLOCKSIZE NDEBUG (Some a) bit w = Ret OK w)
  /\ (tested BLOCKSIZE NDEBUG w a bit = false ->
      bitset_clr BLOCKSIZE NDEBUG (Some a) bit w = Ret OK w).
Proof.
  intros Hok Hpos Ha Hbit.
  rewrite (tested_content BLOCKSIZE NDEBUG w a A bit Hok Hpos Ha Hbit).
  destruct (shape BLOCKSIZE w a A bit Hok Hpos Ha Hbit)
    as (l & s & Hl & Hids & Hk & Hn & Hs & Hx).
  unfold bit_of. rewrite (content_lookup BLOCKSIZE w a A l _ s Ha Hl Hs).
  destruct s as [p|]; cbn [slot_words].
  - destruct (Hx p eq_refl) as (B & x & HB & Hxx & _).
    rewrite HB, Hxx. split; intros Ht.
    + now apply (set_noop_run BLOCKSIZE NDEBUG w a A l bit Ha Hl Hbit Hids Hk p B x).
    + now apply (clr_noop_run BLOCKSIZE NDEBUG w a A l bit Ha Hl Hbit Hids Hk p B x).
  - rewrite lookup_replicate_2 by exact Hn. rewrite Z.testbit_0_l.
    split; intros Ht; [discriminate|].
    now apply (clr_absent_run BLOCKSIZE NDEBUG w a A l bit Ha Hl Hbit Hids Hk).
Qed.

Lemma set_clr_without_effect_witness :
  (tested 2 false Scenario.w_ab 0%nat 5 = true ->
   bitset_set 2 false (Some 0%nat) 5 Scenario.w_ab = Ret OK Scenario.w_ab)
  /\ (tested 2 false Scenario.w_ab 0%nat 5 = false ->
      bitset_clr 2 false (Some 0%nat) 5 Scenario.w_ab = Ret OK Scenario.w_ab).
Proof.
  apply (set_clr_without_effect 2 false Scenario.w_ab 0%nat
      (mk_bitset 200 2 (Some [Some 0%nat; Some 1%nat])) 5).
  - exact (reachable_world_ok 2 false _ reachable_w_ab).
  - lia.
  - reflexivity.
  - cbn; lia.
Defined.
